(* ===== verification/_CoqProject ===== *)
-Q . S2P
Prelude.v
Scalar.v
Float.v
NdArray.v
ArgSort.v
Grid.v
Region.v
Rng.v
Kernel.v
Intensity.v
Sampler.v
Log.v
Plot.v
Draw.v
Tape.v
Fixtures.v
Thinning.v
Proposal.v
Generate.v
Endless.v
KernelLaws.v
Excitation.v
HawkesLaws.v
PlotLaws.v
LogLaws.v
DrawLaws.v
Unbounded.v
Ieee.v
IeeeLaws.v
IeeeBatch.v
IeeePlot.v
