(* ===== verification/Prelude.v ===== *)
(** * STPPG: a verification development for the spatio-temporal point process generator

    The program under study is [src/stppg.py]: a simulator of marked
    spatio-temporal Hawkes processes.  It has three layers and two plotting
    functions.

    - Five excitation kernels (classes [StdDiffusionKernel],
      [GaussianDiffusionKernel], [GaussianMixtureDiffusionKernel],
      [SpatialVariantGaussianDiffusionKernel],
      [SpatialVariantGaussianMixtureDiffusionKernel]) expose one method
      [nu(t, s, his_t, his_s)]: the contribution of every past event to the
      rate at [(t, s)].
    - The intensity model [HawkesLam] adds a background rate to the summed
      contributions and carries a declared upper bound.
    - The sampler [SpatialTemporalPointProcess] draws a homogeneous Poisson
      pool of proposals over the box [[T] + S]
      ([_homogeneous_poisson_sampling]), thins it in time order against the
      intensity ([_inhomogeneous_poisson_thinning], Ogata's algorithm), and
      repeats both until [batch_size] sequences of at least [min_n_points]
      points are collected, which it packs into a zero-padded tensor
      ([generate]).
    - [plot_3d_pointprocess_lam_f] and [plot_3d_pointprocess_avg_lam] take
      one sequence of events (a row of the batch) and an intensity, filter
      the events that precede a time, evaluate the intensity on a grid and
      draw it with matplotlib.

    The code runs on numpy arrays, on numpy's global random generator and
    on matplotlib.  They are modelled to the extent the program uses
    them: arrays with the shape errors numpy raises, the generator as an
    explicit tape, matplotlib as a library that answers every call with
    the handle of an object.

    ** Files, and the code they model

    - [Prelude] (this file): the exceptions the Python code can raise
      ([exn]), the result type [res] with its bind notation (scope
      [res_scope]), [rtraverse] (a [for] loop that collects results and
      stops at the first exception), the tactic [res_inv], the hint
      databases [stppg] and [stppg_rw], and the list lemmas more than one
      component needs.
    - [Scalar]: the arithmetic the sampler is generic in, as a class
      [Scalar] (zero, one, [+], [-], [*], [/], integers, [<=?], [<?] and a
      semantics [toR] into the reals with its homomorphism laws).  Instances: [R], the
      reference, and [Q], on which every definition of the sampler
      evaluates by [vm_compute].  The orders [sle], [slt] and the
      equivalence [seqv] come with [RelDecision], [PreOrder], [Total],
      [Equivalence] and [Proper] instances; [scalar_lra] and [scalar_nra]
      decide goals about them.
    - [Float]: the floats that are not numbers.  A division by zero is
      the one operation of the program that leaves the finite floats;
      [float] adds the infinities and NaN to a type of scalars, with the
      division, the products and the exponential the program applies to
      such a value ([fdiv], [fmul], [fscale], [fexp_neg]), and with the
      arithmetic and the comparisons of numpy on two floats ([fplus],
      [fminus], [ftimes], [fover], [fexp], [fsqrt], [fgt], [fge]).
    - [NdArray]: one-dimensional arrays as lists, two-dimensional arrays as
      [mat] (rows and a declared width), the kernel results [npval], and the
      numpy operations the program applies, each with its exceptions:
      indexing, slicing of columns, broadcasting ([bcast2], [bcast_dim]),
      [s - his_s] ([row_minus_mat]), [np.concatenate], [argsort]-indexing
      ([take_rows]), [np.array(cols).transpose()] ([from_columns]),
      [np.zeros], slice assignment with broadcasting ([assign_rows]),
      [np.sum].
    - [Grid]: the array operations of the plotting functions:
      [np.linspace], [itertools.product], indexing by a boolean mask,
      [np.prod], [reshape] and [.T], with their laws (shapes, nodes,
      round trips, the entry at a row and a column); [reshape] and [.T]
      are defined for arrays of any element.
    - [ArgSort]: the contract of [argsort] as a class (a permutation of the
      indices that sorts the keys), its instance by merge sort, and
      [points[points[:, 0].argsort()]] as [sort_by_time].
    - [Region]: intervals, the box [[T] + S] and its volume
      ([utils.lebesgue_measure], a collaborator outside [src/], modelled
      from its contract).
    - [Rng]: [np.random] as a tape of Poisson counts and unit variates, the
      state-and-exception monad [M] threading it (scope [rng_scope], tactic
      [m_inv]), [poisson], [uniform], [uniform_array].
    - [Kernel]: the interface [Kernel] (the method [nu]) and one module per
      class, with the class's fields, defaults, constructor and [nu] over
      the reals; the two mixture classes share the module [Mixture].
    - [Intensity]: the interface [Intensity] (what the sampler calls on
      [self.lam]) and the module [HawkesLam], its instance over any kernel.
    - [Sampler]: the three methods of the sampler; [thin_step] is the body
      of the thinning loop, [generate_loop] the [while] loop of [generate]
      over the record [gen_state] of its local variables, [pack] the
      padding loop.  The [print] statements are left out here.
    - [Log]: the same methods with their [print] statements
      ([thin_step_log], [inhomogeneous_poisson_thinning_log],
      [generate_log]): a computation of [LM] returns the lines it printed on
      [sys.stderr] beside its result, a line ([message]) being the values
      it is formatted from.
    - [Plot]: what the two plotting functions compute before they draw:
      the grid, the history filter, the intensity on the grid, the Riemann
      sum and the density, the images handed to [imshow], with the
      exceptions raised on the way.
    - [Draw]: the two plotting functions whole
      ([plot_3d_pointprocess_lam_f_io], [plot_3d_pointprocess_avg_lam_io]),
      as interaction trees whose events are the calls to matplotlib
      ([plt.command]: [figure], [add_subplot], [imshow], the ticks and
      their labels, [colorbar], [set_title], [plot], [scatter], [show]),
      each answered with a handle; the library [matplotlib answer] for
      any answering function, [record], which keeps the calls, and [run],
      which runs a program against a library by evaluation.  The free
      names [tqdm] and [plot_ts] of [plot_3d_pointprocess_avg_lam] are
      read from a [namespace]; [module_namespace] is the one of
      [src/stppg.py], which binds neither.
    - [Tape]: the class [Sequential] of the computations that read the
      random tape front to back, with instances for the draws, for
      sequencing and branching, and for the methods of the sampler.
    - [Fixtures]: rational inputs on which the definitions run.
    - [Thinning]: Ogata's thinning as an inductive relation [thinned], its
      properties by rule induction, and the proof that the loop implements
      it, in both directions.
    - [Proposal]: the proposal stage.
    - [Generate]: the invariant [gen_inv] of the retry loop, the loop as a
      transition system ([attempt], [iterates]), the returned batch.
    - [Endless]: the random generator as an endless [source] (functions of
      the position, no coinductive type), the loop of [generate] on it
      ([attempt_at], [run_endless], [generate_endless]), fair and starved
      sources.
    - [Unbounded]: the [while] loop of [generate] with no bound, as an
      interaction tree over the loop state, and a generic loop combinator
      [while] with its bounded unrolling [while_fuel]; the loop on a
      finite tape ([generate_unbounded]) and on an endless source
      ([generate_stream]).
    - [KernelLaws]: the laws of the kernels; the interface [Elementwise]
      for the kernels that evaluate one function per past event.
    - [Excitation]: the interface [Excitation] between the kernels and
      their clients (on a history in a plane [nu] returns, and without
      negative value when the history is in the past), with the standard,
      the Gaussian and the spatially variant kernel and the mixtures of
      instances as its instances.
    - [HawkesLaws]: the Hawkes intensity over the kernels, inside the
      sampler.
    - [PlotLaws]: the theorems on the plotting functions, the round trip
      from a batch of [generate] back to its sequences, and the figure of a
      Hawkes intensity.
    - [LogLaws]: the classes [Erases] and [Prints] of the logged
      computations, the erasure of the output, and what is printed.
    - [DrawLaws]: the runs of the programs of [Draw]: the calls a plotting
      function makes, in order, and the scope of the handles they use.
    - [Ieee]: the kernels, [HawkesLam.value] and the thinning loop read a
      second time, in the arithmetic of [Float]: the interfaces
      [FloatKernel] and [FloatIntensity], the expressions of the three
      base kernels and the loop of the mixtures on floats,
      [hawkes_value_float], [thin_step_float],
      [inhomogeneous_poisson_thinning_float] and, over it,
      [generate_loop_float] and [generate_float].
    - [IeeeLaws]: the interface [FloatSound] between the float kernels and
      the intensity, and the theorems that relate the two readings of
      the kernels, the intensity and thinning.
    - [IeeeBatch]: the two readings of [generate]: the pools of a tape
      without repetition, the invariant of the retry loop on floats, and
      a run of [generate_float] on the reals.
    - [IeeePlot]: [plot_3d_pointprocess_lam_f] read a second time
      ([plot_3d_pointprocess_lam_f_float], with [evaluate_float],
      [integral_float] and [density_float]), and the theorems that relate
      the two figures.

    ** What the theorems show

    - Thinning ([Thinning]): a run that returns is a walk of [thinned]
      driven by the variates it consumed, and every walk is such a run
      (refinement in both directions); the returned sequence is a
      sub-sequence of the pool, ascending when the pool is; no computed
      intensity exceeded the bound; intensity models that agree up to
      [seqv] drive the loop the same way; a proposal of intensity [v] is
      kept exactly by the variates up to [v / lam_bar]
      ([acceptance_region]); [None] is returned exactly after a value
      above the bound; the loop returns whenever the intensity evaluates and
      the tape holds one variate per proposal; under [verbose] a pool of two
      to nine proposals raises [ZeroDivisionError].
    - Proposal stage ([Proposal]): the pool has one column per side of the
      box and as many rows as the Poisson count, is ascending in time, lies
      in the box when the sides are proper, and consumed one variate per
      entry; a negative mean raises [ValueError]; otherwise the stage
      returns when the tape is long enough.
    - Batching ([Generate]): [gen_inv] holds of every state the loop
      reaches; the batch holds [batch_size] matrices of three columns and
      [max(sizes)] rows; in two space dimensions they are the recorded
      sequences padded with zero rows; every recorded sequence has at least
      [min_n_points] points and, on a tape of unit variates and a proper
      box, lies in the box (an invariant of the transition system, by rule
      induction); [generate] is rejection sampling over the series
      [passes] of the outcomes of its two stages: it returns the outcomes
      that are a sequence of [min_n_points] events or more ([accepted]),
      in order, padded to the longest, and stops at the first pass that
      completes the batch ([generate_rejection_sampling]); other numbers of space dimensions raise [ValueError] or,
      for none, repeat the time three times; the call with every default
      argument ([generate_default]: unit box, ten sequences of five points,
      [verbose]) raises [ZeroDivisionError] on a first pool of two to nine
      proposals ([generate_default_crash]).
    - Kernels ([KernelLaws]): positivity and peak bounds of the standard
      and the Gaussian kernel for admissible parameters and positive
      delays; the Gaussian kernel without correlation and shift is the
      standard kernel; the spatially variant kernel with constant functions
      is the Gaussian kernel; a mixture returns the weighted sum of its
      components; the constructors of the mixtures succeed exactly when the
      parameter lists are long enough; a history with one space coordinate
      raises [IndexError].
    - Intensity ([Excitation], [HawkesLaws]): an upper bound below the
      background rate starves [generate] on every source, since the first
      proposal of every pool exceeds it ([invalid_bound_hangs]); a mixture
      with non-negative weights of excitatory kernels is excitatory
      ([mixture_excites]); the
      value over a mixture; the background rate as a lower bound, over
      every kernel of the interface; with such a kernel thinning never
      meets a shape error on proposals of a time and two space
      coordinates; with the standard or the Gaussian kernel it raises
      [IndexError] with one space coordinate.
    - The random generator ([Tape], [Endless]): every method of the sampler
      reads the tape in sequence, so what follows the part a run consumed
      has no influence on it (the instances of [Sequential], a law of the
      tape monad that the proofs on windows use); a run on an
      endless source is the run on the finite window it consumed, and
      conversely (refinement both ways); on a fair source [generate]
      returns (liveness, by induction on the sequences still missing and
      on the distance to the next accepted attempt); on a starved source
      no fuel is enough and [generate] returns on no window, and the loop
      without bound is the silent divergence [ITree.spin]
      ([starved_spins] in [Unbounded], by parameterised coinduction on an
      invariant of the loop).
    - Plotting ([Grid], [PlotLaws]): the history filter keeps the events
      with a time in [(0, plot_ts)] and, applied to a padded row of a
      batch, gives back the recorded sequence (round trip); the grid has
      [ngrid ^ d] points of the box; the function returns only for two
      space dimensions, with [ngrid] by [ngrid] images; on a flat intensity
      its Riemann sum is the exact integral times
      [(ngrid / (ngrid - 1)) ^ 2]; the density lies between zero and the
      intensity; the pixel at row [r] and column [c] of the images is the
      value at sample [c] of [S[0]] and sample [r] of [S[1]]
      ([plot_pixels]); with one sample per side the density image is the
      pixel NaN ([plot_one_sample]).  Kernel, intensity and plotting
      function together
      ([plot_hawkes_bounds]): for a Hawkes intensity over a kernel of the
      interface [Excitation] and ascending events followed by zero rows,
      the function returns, the intensity image is nowhere below the
      background rate and the density image lies between zero and the
      intensity image; so it is for every row of a batch that [generate]
      returns ([generate_plot_bounds]).
    - Drawing ([DrawLaws]): [run] finds a result exactly when the
      interaction tree returns it ([run_sound], [run_agrees]); when the computation of
      [plot_3d_pointprocess_lam_f] returns a figure, the calls are those
      of [lam_f_script], in order ([plot_draws]); on every input the
      program ends within nineteen steps with the result of the
      computation, its calls use handles of objects made before, of the
      right sort, and the figure is shown exactly when the function
      returns ([plot_io_safe]), so a failing reshape leaves a figure open
      that is never shown ([figure_left_open]); the result is the same
      whatever the library answers ([plot_any_library]); every row of a
      batch of [generate] is drawn to the end, within the bounds of
      [plot_hawkes_bounds] ([generate_draws]).
      [plot_3d_pointprocess_avg_lam] raises [NameError] before any call
      when [tqdm] or [plot_ts] is unbound, as in the module
      ([avg_lam_needs_names]); with both bound it draws the script
      [avg_lam_script], whose curve is the mean intensity at the fixed
      time [plot_ts] given the events before each time of the axis
      ([avg_lam_draws]), every point of it a number ([curve_finite]).
    - Floats ([IeeeLaws]): the proposals are sorted with a non-strict
      order, so a proposal can have the time of a retained event; the
      kernels then divide by the delay zero.  For every kernel of the
      interface [FloatSound] (the three base kernels with spreads that
      are not zero and a proper correlation, and the mixtures of one
      component or more over them) the float intensity is the intensity
      of the numbers on a history without the time of evaluation
      ([hawkes_float_agrees]) and NaN on a history with it
      ([hawkes_float_tie]); a NaN fails both tests of the loop, so the
      proposal is dropped whatever its variate ([thin_step_float_tie]);
      on a pool of pairwise distinct times thinning on floats is thinning
      on numbers, result, exception and tape ([thinning_float_agrees]),
      so the theorems of [Thinning] hold of it there; on every ascending
      pool the sequence returned on floats is a strictly ascending
      sub-sequence of the pool ([thinning_float_strict],
      [thinning_float_sublist]), and so is what one attempt of
      [generate] keeps ([attempt_float_strict]).
    - Batches on floats ([IeeeBatch]): every sequence of a batch that
      [generate_float] returns is strictly ascending in time, besides
      what [generate_padding] says of a batch ([generate_float_strict],
      from the invariant [generate_loop_float_inv] of the retry loop);
      the times of a pool are the time variates of the tape scaled to
      [T] ([sampling_times] in [Proposal]), so a tape without repeated
      variate gives pools of pairwise distinct times ([pool_strict]) and
      on such a tape [generate_float] is [generate], for every fuel
      ([generate_float_agrees]).
    - Figures on floats ([IeeePlot]): the plotting function evaluates the
      intensity at [plot_ts] and at the nodes of the time grid after the
      first, all later than every event of an ascending history
      ([times_apart]); so for an intensity whose readings agree away from
      the events ([agrees_apart], which the Hawkes intensity over a
      regular kernel has) the figure on floats of a row of a batch is the
      figure on numbers, exceptions included ([plot_float_agrees],
      [plot_hawkes_float_agrees]), and so it is for every row of a batch
      of [generate_float] ([generate_float_figures]).  On events in
      another order a node of the time grid can be the time of an event,
      and the density the function returns, as it does over a complete
      and regular kernel ([plot_float_returns]), is then NaN at every
      pixel ([plot_float_tie], [descending_figure_nan]).
    - Printing ([LogLaws]): the logged methods without their output are the
      methods of [Sampler], result, exception and tape (the instances of
      [Erases], which tie the transcription with [print] to the one
      without); a thinning that returns [None] printed last
      the violating intensity and the bound, one that returns a sequence
      printed no violation, and nothing at all without [verbose]
      ([thinning_log_spec]); [generate] announces every sequence of the
      batch once, numbered in order, whatever [verbose] is
      ([generate_log_announces]).

    ** Fuel and tapes

    The [while] loop of [generate] has no bound in the source.
    [generate_loop] takes a fuel, uses one unit per attempt and raises
    [OutOfFuel] when it is spent.  The fuel is not a restriction: a run
    that does not end in [OutOfFuel] is the same with more fuel
    ([generate_fuel_monotone]), and a loop that leaves after [n] attempts
    returns with any fuel of [n] or more ([generate_terminates]), where
    [n] is at least [batch_size] and is the number of Poisson counts the
    run took from the tape: the length of the tape bounds the fuel a
    returning run needs.  More fuel than there are counts on the tape is
    never used ([generate_fuel_saturates]), and with that much fuel the
    fuelled loop is the outcome of the loop written without bound
    ([generate_while_run] in [Unbounded], by a measure on the loop
    state that every pass decreases).  That the loop ends on every tape
    is a property of the finite tape and not of the program: on an
    endless source the loop can run for ever ([starved_spins],
    [invalid_bound_hangs]).  All other loops are over finite
    ranges and are structural.  A random draw pops the tape and raises
    [TapeEnd] on an empty one; the theorems hold for every tape, and say
    how much of it a run consumes.  On an endless [source] there is no
    [TapeEnd]: an attempt at a position reads the window of one count [N]
    and [N * (d + 2)] variates, which is all it can draw ([need]), and
    [run_endless] takes the same fuel as [generate_loop]; the refinement
    theorems of [Endless] carry every result between the two.  Neither
    [OutOfFuel] nor [TapeEnd] is an exception of the Python program.

    The programs of [Draw] have no loop around a call: [run] needs one
    unit of fuel per call and one for the return, nineteen for
    [plot_3d_pointprocess_lam_f] and nine for
    [plot_3d_pointprocess_avg_lam], and more fuel changes nothing
    ([run_mono]).

    ** What is not modelled

    IEEE-754 rounding, overflow and the sign of zero: a finite Python
    float is a [Scalar] element, interpreted as a real number, and a zero
    divisor stands for [+0.0].  Infinities and NaN are modelled where a
    division by zero produces them: in the plotting functions ([Float],
    [Plot]) and, for the kernels, the intensity and the thinning loop, in
    the second reading of [Ieee].  In [Kernel] itself division is the
    division of the reals, which yields [0] for a zero divisor; the
    theorems of [KernelLaws] and [Excitation] whose truth depends on such a
    quotient assume a positive delay, and [thinning_float_agrees] and
    [generate_float_agrees] say on which pools and tapes the sampler of
    the numbers is the sampler of the floats, [plot_hawkes_float_agrees]
    on which events the figure of the numbers is the figure of the
    floats.  The proposal stage and [plot_3d_pointprocess_avg_lam] are not
    read a second time: the proposal stage divides nothing, and
    [plot_3d_pointprocess_avg_lam] never gets as far as the intensity in
    the module as it is.
    The distribution of the random
    draws: the tape and the source are arbitrary, so the theorems are about
    every run, not about probabilities; that a source is fair with
    probability one is a fact of probability theory outside this
    development.  For the same reason [poisson] pops the next count
    of the tape whatever the (non-negative) mean is: every count numpy
    could return is a count of some tape.  The parameter functions of
    the spatially variant kernel are functions of one location, applied
    to each past event; the source calls them on whole columns, which is
    the same for functions that act elementwise and is not modelled for
    functions that mix rows.  The time stamp [arrow.now()] and the text of the printed
    lines: a line is the values it formats.  What matplotlib does with a
    call: the pixels on the screen, the window of [plt.show()], the
    exceptions matplotlib itself may raise on its arguments; a call is
    modelled by its arguments and the handle it returns.  The progress
    bar of [tqdm], were the name bound: it is taken to yield the elements
    of its argument. *)

From Stdlib Require Import List Bool Arith ZArith Lia.
From stdpp Require Import base tactics list sorting.

Declare Scope res_scope.
Delimit Scope res_scope with res.

Create HintDb stppg discriminated.
Create Rewrite HintDb stppg_rw.

(** ** Exceptions and results

    The first four constructors are the Python exceptions the modelled code
    can raise.  [TapeEnd] and [OutOfFuel] are artefacts of the model: the
    finite random tape was consumed, or the bounded unrolling of an
    unbounded loop ran out. *)

Inductive exn : Type :=
| IndexError
| ValueError
| ZeroDivisionError
| NameError
| TapeEnd
| OutOfFuel.

#[export] Instance exn_eq_dec : EqDecision exn.
Proof. solve_decision. Defined.

Definition python_exn (e : exn) : bool :=
  match e with
  | IndexError | ValueError | ZeroDivisionError | NameError => true
  | TapeEnd | OutOfFuel => false
  end.

Inductive res (X : Type) : Type :=
| Ok (x : X)
| Raise (e : exn).

Arguments Ok {X} x.
Arguments Raise {X} e.

Definition rbind {X Y : Type} (m : res X) (k : X -> res Y) : res Y :=
  match m with
  | Ok x => k x
  | Raise e => Raise e
  end.

Notation "x <- m ;; k" := (rbind m (fun x => k))
  (at level 100, m at next level, right associativity) : res_scope.

Definition rmap {X Y : Type} (f : X -> Y) (m : res X) : res Y :=
  rbind m (fun x => Ok (f x)).

Definition is_ok {X : Type} (m : res X) : bool :=
  match m with Ok _ => true | Raise _ => false end.

(** [rtraverse f l] runs [f] on the elements of [l] from left to right and
    stops at the first exception (a Python list comprehension or [for] loop
    whose body can raise). *)
Fixpoint rtraverse {X Y : Type} (f : X -> res Y) (l : list X) : res (list Y) :=
  match l with
  | [] => Ok []
  | x :: l' => rbind (f x) (fun y => rbind (rtraverse f l') (fun ys => Ok (y :: ys)))
  end.

(** ** Tactics *)

(** [res_inv]: split hypotheses of the form [rbind m k = Ok y] into the two
    successful steps, and discard impossible equations between results. *)
Ltac res_inv :=
  repeat match goal with
  | H : Ok _ = Ok _ |- _ => inv H
  | H : Raise _ = Raise _ |- _ => inv H
  | H : Ok _ = Raise _ |- _ => discriminate H
  | H : Raise _ = Ok _ |- _ => discriminate H
  | H : rbind ?m _ = Ok _ |- _ =>
      let E := fresh "E" in destruct m eqn:E; cbn [rbind] in H
  | H : rmap _ ?m = Ok _ |- _ =>
      let E := fresh "E" in destruct m eqn:E; cbn [rmap rbind] in H
  end.

(** ** Laws of [res] *)

Section ResLaws.
Context {X Y Z : Type}.

Lemma rbind_ok_l (x : X) (k : X -> res Y) : rbind (Ok x) k = k x.
Proof. reflexivity. Qed.

Lemma rbind_ok_r (m : res X) : rbind m Ok = m.
Proof. by destruct m. Qed.

Lemma rbind_assoc (m : res X) (k : X -> res Y) (h : Y -> res Z) :
  rbind (rbind m k) h = rbind m (fun x => rbind (k x) h).
Proof. by destruct m. Qed.

Lemma rbind_ok_inv (m : res X) (k : X -> res Y) (y : Y) :
  rbind m k = Ok y <-> exists x, m = Ok x /\ k x = Ok y.
Proof.
  split.
  - intros H. res_inv. eauto.
  - intros (x & -> & H). exact H.
Qed.

Lemma rbind_raise_inv (m : res X) (k : X -> res Y) (e : exn) :
  rbind m k = Raise e <-> m = Raise e \/ exists x, m = Ok x /\ k x = Raise e.
Proof.
  destruct m as [x|e']; cbn.
  - split; [eauto |]. intros [H|(x' & H & H')]; [discriminate | by inv H].
  - split; [intros H; inv H; auto |]. intros [H|(x' & H & H')]; [by inv H | discriminate].
Qed.

Lemma rtraverse_ok_length (f : X -> res Y) (l : list X) (ys : list Y) :
  rtraverse f l = Ok ys -> length ys = length l.
Proof.
  revert ys. induction l as [|x l IH]; intros ys H; cbn in H.
  - by inv H.
  - res_inv. cbn. f_equal. eauto.
Qed.

Lemma rtraverse_ok_Forall2 (f : X -> res Y) (l : list X) (ys : list Y) :
  rtraverse f l = Ok ys <-> Forall2 (fun x y => f x = Ok y) l ys.
Proof.
  revert ys. induction l as [|x l IH]; intros ys; cbn.
  - split; [intros H; inv H; constructor | intros H; by inv H].
  - split.
    + intros H. res_inv. constructor; [done | by apply IH].
    + intros H. inv H. rewrite H2. cbn. apply IH in H4. by rewrite H4.
Qed.

Lemma rtraverse_map (f : X -> res Y) (g : X -> Y) (l : list X) :
  Forall (fun x => f x = Ok (g x)) l -> rtraverse f l = Ok (map g l).
Proof.
  induction 1 as [|x l Hx _ IH]; cbn; [done |]. by rewrite Hx, IH.
Qed.

Lemma rtraverse_raise_first (f : X -> res Y) (l : list X) (e : exn) :
  rtraverse f l = Raise e -> Exists (fun x => f x = Raise e) l.
Proof.
  induction l as [|x l IH]; cbn; [discriminate |].
  destruct (f x) as [y|e'] eqn:E; cbn.
  - destruct (rtraverse f l) as [ys|e'']; cbn; [discriminate |].
    intros [= ->]. right. by apply IH.
  - intros [= ->]. by left.
Qed.

Lemma rtraverse_ext (f f' : X -> res Y) (l : list X) :
  Forall (fun x => f x = f' x) l -> rtraverse f l = rtraverse f' l.
Proof. induction 1 as [|x l Hx _ IH]; cbn; [done |]. by rewrite Hx, IH. Qed.

Lemma rtraverse_map_arg {W : Type} (f : X -> res Y) (h : W -> X) (l : list W) :
  rtraverse f (map h l) = rtraverse (fun w => f (h w)) l.
Proof. induction l as [|w l IH]; cbn; [done |]. by rewrite IH. Qed.

Lemma rtraverse_total (f : X -> res Y) (l : list X) :
  Forall (fun x => is_ok (f x) = true) l -> exists ys, rtraverse f l = Ok ys.
Proof.
  induction 1 as [|x l Hx _ [ys IH]]; cbn; [eauto |].
  destruct (f x) as [y|]; [|discriminate]. rewrite IH. cbn. eauto.
Qed.

(** A traversal whose every call returns a value with [P] returns a list of
    such values. *)
Lemma rtraverse_Forall (f : X -> res Y) (P : Y -> Prop) (l : list X) :
  Forall (fun x => exists y, f x = Ok y /\ P y) l ->
  exists ys, rtraverse f l = Ok ys /\ Forall P ys.
Proof.
  induction 1 as [|x l (y & Hy & HP) _ (ys & IH & HF)]; cbn; [eauto |].
  rewrite Hy, IH. cbn. eauto.
Qed.

End ResLaws.

#[export] Hint Rewrite @rbind_ok_l @rbind_ok_r : stppg_rw.

(** ** Sub-lists and sortedness

    The thinning loop keeps a sub-sequence of the proposals; these lemmas
    transport membership, pointwise predicates and sortedness along
    stdpp's [sublist]. *)

Section Sublists.
Context {X : Type}.

Lemma sublist_Forall (P : X -> Prop) (l k : list X) :
  sublist l k -> Forall P k -> Forall P l.
Proof.
  induction 1; intros HF; [done | |]; inv HF; auto.
Qed.

Lemma sublist_map {Y : Type} (f : X -> Y) (l k : list X) :
  sublist l k -> sublist (map f l) (map f k).
Proof. induction 1; cbn; by constructor. Qed.

Lemma sublist_StronglySorted (R : relation X) (l k : list X) :
  sublist l k -> StronglySorted R k -> StronglySorted R l.
Proof.
  induction 1 as [|x l k Hs IH|x l k Hs IH]; intros HS; [done | |]; inv HS.
  - constructor; [auto | by eapply sublist_Forall].
  - auto.
Qed.

Lemma sublist_Sorted (R : relation X) `{!Transitive R} (l k : list X) :
  sublist l k -> Sorted R k -> Sorted R l.
Proof.
  intros Hs HS. apply StronglySorted_Sorted.
  eapply sublist_StronglySorted; [done | by apply Sorted_StronglySorted].
Qed.

End Sublists.

Lemma lookup_nth_lt {X : Type} (l : list X) (i : nat) (d : X) :
  i < length l -> l !! i = Some (nth i l d).
Proof.
  intros Hi. destruct (lookup_lt_is_Some_2 l i Hi) as [x Hx].
  by rewrite (nth_lookup_Some _ _ d _ Hx).
Qed.

Lemma map_nth_seq {X : Type} (l : list X) (d : X) :
  map (fun i => nth i l d) (seq 0 (length l)) = l.
Proof.
  induction l as [|x l IH]; cbn; [done |].
  by rewrite <- seq_shift, map_map, IH.
Qed.

Lemma map_ext_Forall {X Y : Type} (f g : X -> Y) (l : list X) :
  Forall (fun x => f x = g x) l -> map f l = map g l.
Proof. induction 1; cbn; congruence. Qed.

Lemma Forall2_strengthen_r {X Y : Type} (P P' : X -> Y -> Prop) (Q : Y -> Prop)
    (l : list X) (k : list Y) :
  (forall x y, P x y -> Q y -> P' x y) ->
  Forall2 P l k -> Forall Q k -> Forall2 P' l k.
Proof.
  intros Himp HF. induction HF; intros HQ; inv HQ; constructor; auto.
Qed.

(** ** Folds and maxima *)

Lemma fold_left_max_le (l : list nat) (a : nat) :
  a <= fold_left Nat.max l a.
Proof.
  revert a. induction l as [|x l IH]; intros a; cbn; [lia |].
  etransitivity; [|apply IH]. lia.
Qed.

Lemma fold_left_max_ge (l : list nat) (a : nat) :
  Forall (fun x => x <= fold_left Nat.max l a) l.
Proof.
  revert a. induction l as [|x l IH]; intros a; cbn; constructor; [|apply IH].
  etransitivity; [|apply fold_left_max_le]. lia.
Qed.
