(* ===== verification/Scalar.v ===== *)
(** * Scalar: the arithmetic the sampler is generic in

    A Python float is modelled as an element of a type [A] with a [Scalar]
    instance: the operations the sampler, the intensity model and the
    plotting functions use ([0], [1], [+], [-], [*], [/], the conversion of
    an integer, [<=], [<]) and a semantics [toR] into the real numbers that
    every operation commutes with (the quotient, for a divisor that is not
    zero).  The instance for [R] is the
    reference semantics; the instance for [Q] computes, so that the
    definitions of the development run under [vm_compute].

    Two scalars are equivalent ([seqv]) when they denote the same real; the
    operations are [Proper] for it.  [sle] is the order, a decidable total
    preorder. *)

From Stdlib Require Import Reals Lra QArith Qreals.
From stdpp Require Import base tactics list.
From S2P Require Import Prelude.

Declare Scope scalar_scope.
Delimit Scope scalar_scope with S.

Class Scalar (A : Type) : Type := {
  s0 : A;
  s1 : A;
  sadd : A -> A -> A;
  ssub : A -> A -> A;
  smul : A -> A -> A;
  sdiv : A -> A -> A;
  sofZ : Z -> A;
  sleb : A -> A -> bool;
  sltb : A -> A -> bool;
  toR : A -> R;
  toR_0 : toR s0 = 0%R;
  toR_1 : toR s1 = 1%R;
  toR_add : forall x y, toR (sadd x y) = (toR x + toR y)%R;
  toR_sub : forall x y, toR (ssub x y) = (toR x - toR y)%R;
  toR_mul : forall x y, toR (smul x y) = (toR x * toR y)%R;
  toR_div : forall x y, toR y <> 0%R -> toR (sdiv x y) = (toR x / toR y)%R;
  toR_ofZ : forall z, toR (sofZ z) = IZR z;
  sleb_spec : forall x y, sleb x y = true <-> (toR x <= toR y)%R;
  sltb_spec : forall x y, sltb x y = true <-> (toR x < toR y)%R
}.

Notation "x + y" := (sadd x y) : scalar_scope.
Notation "x - y" := (ssub x y) : scalar_scope.
Notation "x * y" := (smul x y) : scalar_scope.
Notation "x / y" := (sdiv x y) : scalar_scope.
Notation "x <=? y" := (sleb x y) : scalar_scope.
Notation "x <? y" := (sltb x y) : scalar_scope.

#[export] Hint Rewrite @toR_0 @toR_1 @toR_add @toR_sub @toR_mul @toR_ofZ : stppg_rw.

(** ** The reference instance: real numbers *)

#[export] Instance Rle_rel_dec : RelDecision Rle := Rle_dec.
#[export] Instance Rlt_rel_dec : RelDecision Rlt := Rlt_dec.

Definition Rleb (x y : R) : bool := bool_decide (x <= y)%R.
Definition Rltb (x y : R) : bool := bool_decide (x < y)%R.

#[export, refine] Instance R_scalar : Scalar R := {|
  s0 := 0%R; s1 := 1%R;
  sadd := Rplus; ssub := Rminus; smul := Rmult; sdiv := Rdiv; sofZ := IZR;
  sleb := Rleb; sltb := Rltb;
  toR := fun x => x
|}.
Proof.
  all: try reflexivity.
  - intros x y. unfold Rleb. apply bool_decide_eq_true.
  - intros x y. unfold Rltb. apply bool_decide_eq_true.
Defined.

(** The comparisons of the reals are decided by their order; a run on
    concrete reals evaluates everything but their arithmetic
    ([run_reals]) and settles each comparison by [lra]. *)
Lemma Rltb_below (x y : R) : (x < y)%R -> Rltb x y = true.
Proof. intros Hxy. by apply bool_decide_eq_true. Qed.

Lemma Rltb_above (x y : R) : (y <= x)%R -> Rltb x y = false.
Proof. intros Hxy. apply bool_decide_eq_false. lra. Qed.

Lemma Rleb_below (x y : R) : (x <= y)%R -> Rleb x y = true.
Proof. intros Hxy. by apply bool_decide_eq_true. Qed.

Lemma Rleb_above (x y : R) : (y < x)%R -> Rleb x y = false.
Proof. intros Hxy. apply bool_decide_eq_false. lra. Qed.

Ltac run_reals :=
  cbv -[Rplus Rmult Rminus Rdiv Rinv Ropp IZR Rltb Rleb PI sqrt exp].

(** ** The executable instance: rationals *)

Definition Qltb (x y : Q) : bool := negb (Qle_bool y x).

Lemma Qle_bool_toR (x y : Q) : Qle_bool x y = true <-> (Q2R x <= Q2R y)%R.
Proof.
  rewrite Qle_bool_iff. split; [apply Qle_Rle | apply Rle_Qle].
Qed.

Lemma Qltb_toR (x y : Q) : Qltb x y = true <-> (Q2R x < Q2R y)%R.
Proof.
  unfold Qltb. rewrite negb_true_iff, <- not_true_iff_false, Qle_bool_toR.
  split; lra.
Qed.

#[export, refine] Instance Q_scalar : Scalar Q := {|
  s0 := 0%Q; s1 := 1%Q;
  sadd := Qplus; ssub := Qminus; smul := Qmult; sdiv := Qdiv;
  sofZ := inject_Z;
  sleb := Qle_bool; sltb := Qltb;
  toR := Q2R
|}.
Proof.
  - apply RMicromega.Q2R_0.
  - apply RMicromega.Q2R_1.
  - apply Q2R_plus.
  - apply Q2R_minus.
  - apply Q2R_mult.
  - intros x y Hy. apply Q2R_div. intros Hq. apply Hy.
    rewrite (Qreals.Qeq_eqR _ _ Hq). apply RMicromega.Q2R_0.
  - intros z. unfold Q2R. cbn. lra.
  - apply Qle_bool_toR.
  - apply Qltb_toR.
Defined.

(** ** Order and equivalence induced by [toR] *)

Section Order.
Context {A : Type} `{Scalar A}.

Definition sle (x y : A) : Prop := (toR x <= toR y)%R.
Definition slt (x y : A) : Prop := (toR x < toR y)%R.
Definition seqv (x y : A) : Prop := toR x = toR y.

#[export] Instance sle_dec : RelDecision sle.
Proof.
  intros x y. destruct (sleb x y) eqn:E.
  - left. by apply sleb_spec.
  - right. intros HH. apply sleb_spec in HH. congruence.
Defined.

#[export] Instance slt_dec : RelDecision slt.
Proof.
  intros x y. destruct (sltb x y) eqn:E.
  - left. by apply sltb_spec.
  - right. intros HH. apply sltb_spec in HH. congruence.
Defined.

#[export] Instance sle_preorder : PreOrder sle.
Proof. split; unfold sle; [intros x; lra | intros x y z; lra]. Qed.

#[export] Instance sle_total : Total sle.
Proof. intros x y. unfold sle. lra. Qed.

#[export] Instance seqv_equiv : Equivalence seqv.
Proof. split; unfold seqv; congruence. Qed.

#[export] Instance sadd_proper : Proper (seqv ==> seqv ==> seqv) sadd.
Proof. intros x x' Hx y y' Hy. unfold seqv in *. rewrite !toR_add. congruence. Qed.

#[export] Instance ssub_proper : Proper (seqv ==> seqv ==> seqv) ssub.
Proof. intros x x' Hx y y' Hy. unfold seqv in *. rewrite !toR_sub. congruence. Qed.

#[export] Instance smul_proper : Proper (seqv ==> seqv ==> seqv) smul.
Proof. intros x x' Hx y y' Hy. unfold seqv in *. rewrite !toR_mul. congruence. Qed.

#[export] Instance sle_proper : Proper (seqv ==> seqv ==> iff) sle.
Proof. intros x x' Hx y y' Hy. unfold seqv, sle in *. by rewrite Hx, Hy. Qed.

#[export] Instance sleb_proper : Proper (seqv ==> seqv ==> eq) sleb.
Proof.
  intros x x' Hx y y' Hy. apply eq_true_iff_eq.
  rewrite !sleb_spec. unfold seqv in *. by rewrite Hx, Hy.
Qed.

#[export] Instance sltb_proper : Proper (seqv ==> seqv ==> eq) sltb.
Proof.
  intros x x' Hx y y' Hy. apply eq_true_iff_eq.
  rewrite !sltb_spec. unfold seqv in *. by rewrite Hx, Hy.
Qed.

Lemma sleb_true (x y : A) : sleb x y = true <-> sle x y.
Proof. apply sleb_spec. Qed.

Lemma sleb_false (x y : A) : sleb x y = false <-> slt y x.
Proof.
  rewrite <- not_true_iff_false, sleb_spec. unfold slt. split; lra.
Qed.

Lemma sltb_true (x y : A) : sltb x y = true <-> slt x y.
Proof. apply sltb_spec. Qed.

Lemma sltb_false (x y : A) : sltb x y = false <-> sle y x.
Proof.
  rewrite <- not_true_iff_false, sltb_spec. unfold sle. split; lra.
Qed.

Lemma slt_sle (x y : A) : slt x y -> sle x y.
Proof. unfold slt, sle. lra. Qed.

Lemma sltb_negb_sleb (x y : A) : sltb x y = negb (sleb y x).
Proof.
  destruct (sleb y x) eqn:E; cbn.
  - apply sltb_false. by apply sleb_true.
  - apply sltb_true. by apply sleb_false.
Qed.

(** [ssum l] is numpy's [np.sum] on a one-dimensional array, read as the
    left-to-right accumulation from zero. *)
Definition ssum (l : list A) : A := fold_left sadd l s0.

Lemma toR_fold_sadd (l : list A) (a : A) :
  toR (fold_left sadd l a) = (toR a + fold_right Rplus 0 (map toR l))%R.
Proof.
  revert a. induction l as [|x l IH]; intros a; cbn.
  - lra.
  - rewrite IH, toR_add. lra.
Qed.

Lemma toR_ssum (l : list A) : toR (ssum l) = fold_right Rplus 0%R (map toR l).
Proof. unfold ssum. rewrite toR_fold_sadd, toR_0. lra. Qed.

(** Summation is linear. *)
Lemma toR_ssum_scale (w : A) (l : list A) :
  toR (ssum (map (smul w) l)) = (toR w * toR (ssum l))%R.
Proof.
  rewrite !toR_ssum. induction l as [|x l IH]; cbn; [lra |].
  rewrite toR_mul, IH. lra.
Qed.

Lemma toR_ssum_zip_add (l k : list A) :
  length l = length k ->
  toR (ssum (zip_with sadd l k)) = (toR (ssum l) + toR (ssum k))%R.
Proof.
  rewrite !toR_ssum. revert k.
  induction l as [|x l IH]; intros [|y k] Hlen; cbn in *; try done; [lra |].
  rewrite toR_add, IH by lia. lra.
Qed.

Lemma toR_ssum_replicate (n : nat) (x : A) :
  toR (ssum (replicate n x)) = (INR n * toR x)%R.
Proof.
  rewrite toR_ssum. induction n as [|n IH]; [cbn; lra |].
  rewrite S_INR. cbn [replicate map fold_right]. rewrite IH. lra.
Qed.

Lemma ssum_nonneg (l : list A) : Forall (sle s0) l -> sle s0 (ssum l).
Proof.
  intros HF. unfold sle. rewrite toR_ssum, toR_0.
  induction HF as [|x l Hx _ IH]; cbn; [lra |].
  unfold sle in Hx. rewrite toR_0 in Hx. lra.
Qed.

End Order.

(** [scalar_lra]: turn a goal about [sle], [slt], [seqv] and the boolean
    tests into real arithmetic and close it with [lra]. *)
Ltac scalar_to_R :=
  unfold sle, slt, seqv in *;
  repeat match goal with
  | H : sleb _ _ = true |- _ => apply sleb_spec in H
  | H : sltb _ _ = true |- _ => apply sltb_spec in H
  | H : sleb _ _ = false |- _ => apply sleb_false in H; unfold slt in H
  | H : sltb _ _ = false |- _ => apply sltb_false in H; unfold sle in H
  | |- sleb _ _ = true => apply sleb_spec
  | |- sltb _ _ = true => apply sltb_spec
  | |- sleb _ _ = false => apply sleb_false; unfold slt
  | |- sltb _ _ = false => apply sltb_false; unfold sle
  end;
  autorewrite with stppg_rw in *.

Ltac scalar_lra := scalar_to_R; lra.
Ltac scalar_nra := scalar_to_R; nra.
