(* ===== verification/Float.v ===== *)
(** * Float: the floats of numpy that are not numbers

    A Python float is a [Scalar] element as long as it is finite.  One
    operation of [src/stppg.py] can leave the finite floats: a division
    whose divisor is zero, which numpy answers with an infinity or a NaN
    and a warning, never with an exception.  [float] adds these values to
    the scalars, and this file defines the operations the program applies
    to a value that may be one of them:

    - [fdiv x n]: [x / n] for a float [x] and an integer [n]
      ([np.prod(...) / (ngrid - 1) ** 3], [np.mean]);
    - [fmul x y]: [x * y] for a finite [x] ([np.sum(lamvals) * unit_vol]);
    - [fexp_neg y]: [np.exp(-y)];
    - [fscale x y]: [x * y] with [y] a real ([evals * np.exp(...)]).

    The kernels combine arrays with [+], [-], [*], [/], [np.exp],
    [np.sqrt] and [np.square], and the thinning loop compares the
    intensity with [>] and [>=]: the second half of the file gives these
    on floats ([fplus], [fminus], [ftimes], [fover], [fexp], [fsqrt],
    [fsquare], [fsum], [fgt], [fge]) with the rules of IEEE 754 for the
    values that are not numbers: a product of an infinity and zero, a
    difference of equal infinities and a quotient of two zeros or two
    infinities are NaN, NaN is absorbing, and every comparison with NaN is
    false.

    Zero has no sign here: a zero divisor stands for [+0.0], which is what
    numpy converts the integer zero to and what a difference [x - x] of
    floats is.  Rounding and overflow are not modelled: a finite operation
    on finite values is the operation of the scalars. *)

From Stdlib Require Import ZArith Reals Lra.
From stdpp Require Import base tactics list.
From S2P Require Import Prelude Scalar.

Inductive float (B : Type) : Type :=
| Finite (x : B)
| Inf (negative : bool)
| NaN.

Arguments Finite {B} x.
Arguments Inf {B} negative.
Arguments NaN {B}.

(** The finite value, where there is one. *)
Definition finite {B : Type} (y : float B) : option B :=
  match y with
  | Finite x => Some x
  | _ => None
  end.

(** A float that is a number between two reals. *)
Definition within (l h : R) (y : float R) : Prop :=
  match y with
  | Finite x => (l <= x <= h)%R
  | _ => False
  end.

Section Arithmetic.
Context {A : Type} `{Scalar A}.

(** [x] times an infinity of the given sign: the infinity of the product
    of the signs, and NaN for zero. *)
Definition signed {B : Type} (x : A) (negative : bool) : float B :=
  if sltb s0 x then Inf negative
  else if sltb x s0 then Inf (negb negative)
  else NaN.

(** [x / n]. *)
Definition fdiv (x : A) (n : Z) : float A :=
  if (n =? 0)%Z then signed x false else Finite (sdiv x (sofZ n)).

(** [x * y], in the arithmetic [mul] of the finite values. *)
Definition fmul_with {B : Type} (mul : A -> B -> B) (x : A) (y : float B)
  : float B :=
  match y with
  | Finite v => Finite (mul x v)
  | Inf negative => signed x negative
  | NaN => NaN
  end.

Definition fmul : A -> float A -> float A := fmul_with smul.

Definition fscale : A -> float R -> float R :=
  fmul_with (fun x v => (toR x * v)%R).

(** [np.exp(-y)]. *)
Definition fexp_neg (y : float A) : float R :=
  match y with
  | Finite v => Finite (exp (- toR v))
  | Inf false => Finite 0%R
  | Inf true => Inf false
  | NaN => NaN
  end.

(** ** Laws *)

Lemma signed_zero {B : Type} (negative : bool) :
  signed (B := B) s0 negative = NaN.
Proof.
  unfold signed. by rewrite (proj2 (sltb_false s0 s0)) by reflexivity.
Qed.

Lemma fdiv_finite (x : A) (n : Z) :
  n <> 0%Z -> fdiv x n = Finite (sdiv x (sofZ n)).
Proof. intros Hn. unfold fdiv. by rewrite (proj2 (Z.eqb_neq _ _) Hn). Qed.

(** A division by zero is never finite. *)
Lemma fdiv_zero (x : A) : finite (fdiv x 0) = None.
Proof. unfold fdiv, signed. cbn. by repeat case_match. Qed.

(** Zero times a value that is not finite is NaN. *)
Lemma fmul_zero (y : float A) : finite y = None -> fmul s0 y = NaN.
Proof. destruct y; [done | intros _; apply signed_zero | done]. Qed.

(** Anything times the exponential of a NaN is NaN. *)
Lemma fscale_nan (x : A) : fscale x (fexp_neg NaN) = NaN.
Proof. reflexivity. Qed.

Lemma fscale_finite (x v : A) :
  fscale x (fexp_neg (Finite v)) = Finite (toR x * exp (- toR v))%R.
Proof. reflexivity. Qed.

End Arithmetic.

(** ** The arithmetic of numpy on floats *)

Declare Scope float_scope.
Delimit Scope float_scope with fl.

Section Ieee.
Context {A : Type} `{Scalar A}.

Definition is_zero (x : A) : bool := negb (sltb s0 x) && negb (sltb x s0).

(** [-x]. *)
Definition fneg (x : float A) : float A :=
  match x with
  | Finite a => Finite (ssub s0 a)
  | Inf negative => Inf (negb negative)
  | NaN => NaN
  end.

(** [x + y]. *)
Definition fplus (x y : float A) : float A :=
  match x, y with
  | Finite a, Finite b => Finite (sadd a b)
  | Finite _, Inf n | Inf n, Finite _ => Inf n
  | Inf n, Inf m => if Bool.eqb n m then Inf n else NaN
  | _, _ => NaN
  end.

(** [x - y]. *)
Definition fminus (x y : float A) : float A :=
  match x, y with
  | Finite a, Finite b => Finite (ssub a b)
  | _, _ => fplus x (fneg y)
  end.

(** [x * y]. *)
Definition ftimes (x y : float A) : float A :=
  match x, y with
  | Finite a, _ => fmul a y
  | Inf n, Finite b => signed b n
  | Inf n, Inf m => Inf (xorb n m)
  | _, _ => NaN
  end.

(** [x / y]. *)
Definition fover (x y : float A) : float A :=
  match x, y with
  | Finite a, Finite b =>
      if is_zero b then signed a false else Finite (sdiv a b)
  | Finite _, Inf _ => Finite s0
  | Inf n, Finite b => if sltb b s0 then Inf (negb n) else Inf n
  | _, _ => NaN
  end.

(** [np.square(x)]. *)
Definition fsquare (x : float A) : float A := ftimes x x.

(** [np.sum] of an array of floats. *)
Definition fsum (l : list (float A)) : float A :=
  fold_left fplus l (Finite s0).

(** [x > y] and [x >= y]: false as soon as an operand is NaN. *)
Definition fgt (x y : float A) : bool :=
  match x, y with
  | Finite a, Finite b => sltb b a
  | Inf false, (Finite _ | Inf true) => true
  | Finite _, Inf true => true
  | _, _ => false
  end.

Definition fge (x y : float A) : bool :=
  match x, y with
  | Finite a, Finite b => sleb b a
  | Inf false, (Finite _ | Inf _) => true
  | (Finite _ | Inf true), Inf true => true
  | _, _ => false
  end.

End Ieee.

(** [np.exp(x)] and [np.sqrt(x)]. *)
Definition fexp (x : float R) : float R :=
  match x with
  | Finite a => Finite (exp a)
  | Inf false => Inf false
  | Inf true => Finite 0%R
  | NaN => NaN
  end.

Definition fsqrt (x : float R) : float R :=
  match x with
  | Finite a => if Rltb a 0 then NaN else Finite (sqrt a)
  | Inf false => Inf false
  | _ => NaN
  end.

Notation "x + y" := (fplus x y) : float_scope.
Notation "x - y" := (fminus x y) : float_scope.
Notation "x * y" := (ftimes x y) : float_scope.
Notation "x / y" := (fover x y) : float_scope.
Notation "- x" := (fneg x) : float_scope.


(** ** Laws of the arithmetic *)

Section IeeeLaws.
Context {A : Type} `{Scalar A}.
Implicit Types (a b : A) (x y : float A) (l : list (float A)).

Local Open Scope float_scope.

Lemma is_zero_true a : is_zero a = true <-> toR a = 0%R.
Proof.
  unfold is_zero.
  rewrite andb_true_iff, !negb_true_iff, !sltb_false. unfold sle.
  rewrite toR_0. lra.
Qed.

Lemma is_zero_false a : is_zero a = false <-> toR a <> 0%R.
Proof. rewrite <- is_zero_true. by destruct (is_zero a). Qed.

(** Finite operands with a divisor that is not zero: the quotient of the
    scalars. *)
Lemma fover_finite a b : toR b <> 0%R -> Finite a / Finite b = Finite (sdiv a b).
Proof. intros Hb. cbn. by rewrite (proj2 (is_zero_false b) Hb). Qed.

(** A division by zero is an infinity, or NaN for [0 / 0]. *)
Lemma fover_zero a b : toR b = 0%R -> Finite a / Finite b = signed a false.
Proof. intros Hb. cbn. by rewrite (proj2 (is_zero_true b) Hb). Qed.

Lemma signed_pos {B : Type} a negative :
  slt s0 a -> signed (B := B) a negative = Inf negative.
Proof. intros Ha. unfold signed. by rewrite (proj2 (sltb_true _ _) Ha). Qed.

Lemma signed_neg {B : Type} a negative :
  slt a s0 -> signed (B := B) a negative = Inf (negb negative).
Proof.
  intros Ha. unfold signed.
  rewrite (proj2 (sltb_false s0 a)) by by apply slt_sle.
  by rewrite (proj2 (sltb_true _ _) Ha).
Qed.

Lemma signed_null {B : Type} a negative :
  toR a = 0%R -> signed (B := B) a negative = NaN.
Proof.
  intros Ha. apply is_zero_true in Ha. unfold is_zero, signed in *.
  by destruct (sltb s0 a), (sltb a s0).
Qed.

(** An infinity times zero is NaN, on either side. *)
Lemma ftimes_zero_inf a negative :
  toR a = 0%R -> Finite a * Inf negative = NaN.
Proof. apply signed_null. Qed.

Lemma ftimes_inf_zero a negative :
  toR a = 0%R -> Inf negative * Finite a = NaN.
Proof. apply signed_null. Qed.

(** NaN is absorbing. *)
Lemma ftimes_nan_r x : x * NaN = NaN.
Proof. by destruct x. Qed.

Lemma fplus_nan_r x : x + NaN = NaN.
Proof. by destruct x. Qed.

Lemma fold_fplus_nan l : fold_left fplus l NaN = NaN.
Proof. induction l; [done | apply IHl]. Qed.

(** A sum with a NaN among its terms is NaN. *)
Lemma fsum_nan l : NaN ∈ l -> fsum l = NaN.
Proof.
  unfold fsum. generalize (Finite (B := A) s0).
  induction l as [|y l IH]; intros acc Hin; [by apply not_elem_of_nil in Hin |].
  apply elem_of_cons in Hin as [<- | Hin]; cbn [fold_left].
  - by rewrite fplus_nan_r, fold_fplus_nan.
  - by apply IH.
Qed.

Lemma fold_fplus_finite (l : list A) a :
  fold_left fplus (map Finite l) (Finite a) = Finite (fold_left sadd l a).
Proof. revert a. induction l as [|b l IH]; intros a; [done | apply IH]. Qed.

(** The sum of finite terms is the sum of the scalars. *)
Lemma fsum_finite (l : list A) : fsum (map Finite l) = Finite (ssum l).
Proof. apply fold_fplus_finite. Qed.

(** On finite operands the comparisons are those of the scalars. *)
Lemma fgt_finite a b : fgt (Finite a) (Finite b) = sltb b a.
Proof. reflexivity. Qed.

Lemma fge_finite a b : fge (Finite a) (Finite b) = sleb b a.
Proof. reflexivity. Qed.

(** Every comparison with NaN is false. *)
Lemma fgt_nan y : fgt NaN y = false.
Proof. reflexivity. Qed.

Lemma fge_nan y : fge NaN y = false.
Proof. reflexivity. Qed.

End IeeeLaws.

(** ** Values that are not finite

    What a division by zero produces is not finite, stays so under a
    finite factor, and becomes NaN against a factor that is zero or NaN. *)

Section Infinite.
Context {A : Type} `{Scalar A}.
Implicit Types (a b : A) (x y : float A).

Local Open Scope float_scope.

(** A float that is zero or NaN. *)
Definition vanishes y : Prop :=
  match y with
  | Finite b => toR b = 0%R
  | Inf _ => False
  | NaN => True
  end.

Lemma signed_infinite {B : Type} a negative :
  finite (signed (B := B) a negative) = None.
Proof. unfold signed. by repeat case_match. Qed.

Lemma fover_zero_infinite a b :
  toR b = 0%R -> finite (Finite a / Finite b) = None.
Proof. intros Hb. rewrite fover_zero by done. apply signed_infinite. Qed.

Lemma ftimes_infinite a y : finite y = None -> finite (Finite a * y) = None.
Proof. destruct y; [done | intros _; apply signed_infinite | done]. Qed.

Lemma ftimes_vanishes x y : finite x = None -> vanishes y -> x * y = NaN.
Proof.
  destruct x as [|n|]; [done | | done]. intros _.
  destruct y as [b| |]; [apply signed_null | done | done].
Qed.

End Infinite.

(** [np.exp] of the negative infinity times a number that is not negative:
    zero, or NaN when the number is zero. *)
Lemma fexp_vanishes (q : R) :
  (0 <= q)%R -> vanishes (fexp (ftimes (Inf true) (Finite q))).
Proof.
  intros [Hq | <-]; cbn [ftimes].
  - by rewrite signed_pos.
  - by rewrite signed_null.
Qed.

(** ** Finite operands

    On finite operands every operation but the division is the operation
    of the scalars: the rewriting rules of [float_rw]. *)

Section FiniteLaws.
Context {A : Type} `{Scalar A}.
Implicit Types (a b : A).

Local Open Scope float_scope.

Lemma fneg_finite a : - Finite a = Finite (ssub s0 a).
Proof. reflexivity. Qed.

Lemma fplus_finite a b : Finite a + Finite b = Finite (sadd a b).
Proof. reflexivity. Qed.

Lemma fminus_finite a b : Finite a - Finite b = Finite (ssub a b).
Proof. reflexivity. Qed.

Lemma ftimes_finite a b : Finite a * Finite b = Finite (smul a b).
Proof. reflexivity. Qed.

Lemma fsquare_finite a : fsquare (Finite a) = Finite (smul a a).
Proof. reflexivity. Qed.

End FiniteLaws.

Lemma fexp_finite (a : R) : fexp (Finite a) = Finite (exp a).
Proof. reflexivity. Qed.

Lemma fsqrt_finite (a : R) : (0 <= a)%R -> fsqrt (Finite a) = Finite (sqrt a).
Proof.
  intros Ha. unfold fsqrt, Rltb. by rewrite bool_decide_eq_false_2 by lra.
Qed.

(** The square root of a negative number is NaN. *)
Lemma fsqrt_negative (a : R) : (a < 0)%R -> fsqrt (Finite a) = NaN.
Proof. intros Ha. unfold fsqrt, Rltb. by rewrite bool_decide_eq_true_2. Qed.

Create Rewrite HintDb float_rw.
#[export] Hint Rewrite @fneg_finite @fplus_finite @fminus_finite
  @ftimes_finite @fsquare_finite fexp_finite : float_rw.
