(* ===== verification/NdArray.v ===== *)
(** * NdArray: the numpy values the program manipulates

    [src/stppg.py] works on numpy arrays.  This file models the shapes that
    occur and the operations applied to them, with their error behaviour:

    - a one-dimensional array of shape [(n,)] is a [list A];
    - a two-dimensional array of shape [(n, w)] is a [mat]: its rows and its
      declared width [ncols], which numpy keeps when [n = 0] and which the
      shape checks of concatenation and broadcasting read;
    - the value a kernel returns is an [npval]: a one-dimensional array, or
      the Python scalar a mixture with no component returns.

    Indexing out of range raises [IndexError]; operands whose shapes cannot
    be broadcast raise [ValueError].  Slicing never raises. *)

From Stdlib Require Import Reals Lra.
From stdpp Require Import base tactics list.
From S2P Require Import Prelude Scalar.

Local Open Scope res_scope.

Section Arrays.
Context {A : Type} `{Scalar A}.

(** ** One-dimensional arrays *)

(** [a[i]] for a non-negative index. *)
Definition index (r : list A) (i : nat) : res A :=
  match r !! i with
  | Some x => Ok x
  | None => Raise IndexError
  end.

(** Elementwise binary operation on arrays of shapes [(n,)] and [(m,)] under
    numpy's broadcasting rule: equal lengths combine pointwise, a length-one
    operand is repeated, anything else is a shape error. *)
Definition bcast2 {B C D : Type} (f : B -> C -> D) (u : list B) (v : list C)
  : res (list D) :=
  if length u =? length v then Ok (zip_with f u v)
  else match u, v with
       | [x], _ => Ok (map (f x) v)
       | _, [y] => Ok (map (fun x => f x y) u)
       | _, _ => Raise ValueError
       end.

(** The length two broadcast dimensions agree on. *)
Definition bcast_dim (a b : nat) : res nat :=
  if a =? b then Ok a
  else if a =? 1 then Ok b
  else if b =? 1 then Ok a
  else Raise ValueError.

(** ** Two-dimensional arrays *)

Record mat : Type := Mat { ncols : nat; mrows : list (list A) }.

Definition nrows (m : mat) : nat := length (mrows m).

(** Every row has the declared width. *)
Definition mat_wf (m : mat) : Prop :=
  Forall (fun r => length r = ncols m) (mrows m).

Definition mat_wfb (m : mat) : bool :=
  forallb (fun r => length r =? ncols m) (mrows m).

(** [np.empty((0, w))]. *)
Definition empty_mat (w : nat) : mat := Mat w [].

(** [m[i]]: a row. *)
Definition index_row (m : mat) (i : nat) : res (list A) :=
  match mrows m !! i with
  | Some r => Ok r
  | None => Raise IndexError
  end.

(** [m[:, k]]: a column, as a one-dimensional array. *)
Definition column (k : nat) (m : mat) : res (list A) :=
  if k <? ncols m then rtraverse (fun r => index r k) (mrows m)
  else Raise IndexError.

(** [m[:, k:]]: the columns from [k] on; a slice never raises. *)
Definition columns_from (k : nat) (m : mat) : mat :=
  Mat (ncols m - k) (map (drop k) (mrows m)).

(** [m[[i], :]]: the one-row matrix holding row [i]. *)
Definition row_mat (m : mat) (i : nat) : res mat :=
  r <- index_row m i;; Ok (Mat (ncols m) [r]).

(** [np.concatenate([a, b], axis=0)]. *)
Definition concatenate0 (a b : mat) : res mat :=
  if ncols a =? ncols b then Ok (Mat (ncols a) (mrows a ++ mrows b))
  else Raise ValueError.

(** The matrix [m] with the row [r] appended; what
    [np.concatenate([m, h[[i], :]], axis=0)] yields for matrices of equal
    width. *)
Definition append_row (m : mat) (r : list A) : mat :=
  Mat (ncols m) (mrows m ++ [r]).

(** [m[idx]] for an index array [idx]: the rows in that order. *)
Definition take_rows (idx : list nat) (m : mat) : res mat :=
  rs <- rtraverse (index_row m) idx;; Ok (Mat (ncols m) rs).

(** [s - m] for [s] of shape [(d,)] and [m] of shape [(n, w)]. *)
Definition row_minus_mat (s : list A) (m : mat) : res mat :=
  w <- bcast_dim (length s) (ncols m);;
  rs <- rtraverse (fun r => bcast2 ssub s r) (mrows m);;
  Ok (Mat w rs).

(** [np.array(cols).transpose()] for [cols] a list of arrays of length [n]:
    row [i] collects entry [i] of every column. *)
Definition from_columns (n : nat) (cols : list (list A)) : mat :=
  Mat (length cols) (map (fun i => map (fun c => nth i c s0) cols) (seq 0 n)).

(** [np.zeros((n, w))]. *)
Definition zeros (n w : nat) : mat := Mat w (replicate n (replicate w s0)).

(** [target[:k] = src]: numpy broadcasts [src] to the shape of the slice,
    which has [min k (nrows target)] rows, and overwrites it. *)
Definition assign_rows (target : mat) (k : nat) (src : mat) : res mat :=
  let k' := Nat.min k (nrows target) in
  let w := ncols target in
  if negb ((nrows src =? k') || (nrows src =? 1)) then Raise ValueError
  else if negb ((ncols src =? w) || (ncols src =? 1)) then Raise ValueError
  else
    let widen r := if ncols src =? w then r else replicate w (nth 0 r s0) in
    let rs := if nrows src =? k' then mrows src
              else replicate k' (nth 0 (mrows src) []) in
    Ok (Mat w (map widen rs ++ drop k' (mrows target))).

(** ** Kernel results *)

Inductive npval : Type :=
| NScalar (a : A)
| NArray (l : list A).

(** [np.sum(v)]. *)
Definition np_sum (v : npval) : A :=
  match v with
  | NScalar a => a
  | NArray l => ssum l
  end.

(** [w * v] for a Python scalar [w]. *)
Definition np_scale (w : A) (v : npval) : npval :=
  match v with
  | NScalar a => NScalar (smul w a)
  | NArray l => NArray (map (smul w) l)
  end.

(** [u + v]. *)
Definition np_add (u v : npval) : res npval :=
  match u, v with
  | NScalar a, NScalar b => Ok (NScalar (sadd a b))
  | NScalar a, NArray l => Ok (NArray (map (sadd a) l))
  | NArray l, NScalar b => Ok (NArray (map (fun x => sadd x b) l))
  | NArray l, NArray k => rmap NArray (bcast2 sadd l k)
  end.

End Arrays.

Arguments mat A : clear implicits.
Arguments npval A : clear implicits.

(** ** Indexing *)

Section ArrayLaws.
Context {A : Type} `{Scalar A}.
Implicit Types (r s : list A) (m : mat A) (i k n w : nat).

Lemma index_ok r i x : index r i = Ok x <-> r !! i = Some x.
Proof. unfold index. destruct (r !! i); split; congruence. Qed.

Lemma index_nth r i : i < length r -> index r i = Ok (nth i r s0).
Proof.
  intros Hi. apply index_ok. by apply lookup_nth_lt.
Qed.

Lemma index_out_of_range r i : length r <= i -> index r i = Raise IndexError.
Proof. intros Hi. unfold index. by rewrite lookup_ge_None_2. Qed.

(** A loop over [range(len(l))] that reads [l[k]] is a loop over [l]. *)
Lemma rtraverse_index_seq {B C : Type} (l : list B) (f : B -> res C) :
  rtraverse (fun k => rbind (index l k) f) (seq 0 (length l)) = rtraverse f l.
Proof.
  induction l as [|x l IH]; cbn [length seq rtraverse]; [done |].
  rewrite <- seq_shift, rtraverse_map_arg. cbn [index lookup list_lookup rbind].
  by rewrite <- IH.
Qed.

Lemma index_row_nth m i : i < nrows m -> index_row m i = Ok (nth i (mrows m) []).
Proof.
  intros Hi. unfold index_row. by rewrite (lookup_nth_lt _ _ [] Hi).
Qed.

Lemma index_row_out_of_range m i : nrows m <= i -> index_row m i = Raise IndexError.
Proof. intros Hi. unfold index_row. by rewrite lookup_ge_None_2. Qed.

Lemma mat_wfb_spec m : mat_wfb m = true <-> mat_wf m.
Proof.
  unfold mat_wfb, mat_wf. rewrite forallb_forall, Forall_forall.
  split; intros Hall r Hr.
  - apply Nat.eqb_eq, Hall. by apply list_elem_of_In.
  - apply Nat.eqb_eq, Hall. by apply list_elem_of_In.
Qed.

(** ** Columns and slices *)

Lemma column_ok k m :
  mat_wf m -> k < ncols m ->
  column k m = Ok (map (fun r => nth k r s0) (mrows m)).
Proof.
  intros Hwf Hk. unfold column. rewrite (proj2 (Nat.ltb_lt _ _) Hk).
  apply rtraverse_map. eapply Forall_impl; [exact Hwf |].
  intros r Hr. cbn in Hr. apply index_nth. lia.
Qed.

Lemma column_out_of_range k m : ncols m <= k -> column k m = Raise IndexError.
Proof. intros Hk. unfold column. by rewrite (proj2 (Nat.ltb_ge _ _) Hk). Qed.

Lemma column_length k m l : column k m = Ok l -> length l = nrows m.
Proof.
  unfold column. destruct (k <? ncols m); [|discriminate].
  apply rtraverse_ok_length.
Qed.

Lemma columns_from_wf k m : mat_wf m -> mat_wf (columns_from k m).
Proof.
  unfold mat_wf, columns_from. cbn. intros Hwf. apply Forall_map.
  eapply Forall_impl; [exact Hwf |]. intros r Hr. cbn in *.
  by rewrite length_drop, Hr.
Qed.

Lemma nrows_columns_from k m : nrows (columns_from k m) = nrows m.
Proof. unfold nrows, columns_from. cbn. apply length_map. Qed.

(** ** Concatenation *)

Lemma concatenate0_ok (a b : mat A) :
  ncols a = ncols b -> concatenate0 a b = Ok (Mat (ncols a) (mrows a ++ mrows b)).
Proof. intros E. unfold concatenate0. by rewrite (proj2 (Nat.eqb_eq _ _) E). Qed.

Lemma concatenate0_mismatch (a b : mat A) :
  ncols a <> ncols b -> concatenate0 a b = Raise ValueError.
Proof. intros E. unfold concatenate0. by rewrite (proj2 (Nat.eqb_neq _ _) E). Qed.

Lemma concatenate0_wf (a b c : mat A) :
  mat_wf a -> mat_wf b -> concatenate0 a b = Ok c -> mat_wf c.
Proof.
  unfold concatenate0. destruct (ncols a =? ncols b) eqn:E; [|discriminate].
  apply Nat.eqb_eq in E. intros Ha Hb [= <-]. unfold mat_wf in *. cbn.
  apply Forall_app. split; [done |]. eapply Forall_impl; [exact Hb |].
  intros r Hr. cbn in *. congruence.
Qed.

Lemma concatenate0_row (a h : mat A) i p :
  ncols a = ncols h -> mrows h !! i = Some p ->
  rbind (row_mat h i) (concatenate0 a) = Ok (append_row a p).
Proof.
  intros E Hp. unfold row_mat, index_row. rewrite Hp. cbn [rbind].
  rewrite concatenate0_ok by (cbn; congruence). reflexivity.
Qed.

Lemma append_row_wf m r : mat_wf m -> length r = ncols m -> mat_wf (append_row m r).
Proof.
  intros Hwf Hr. unfold mat_wf, append_row in *. cbn.
  apply Forall_app. split; [done |]. by constructor.
Qed.

Lemma nrows_append_row m r : nrows (append_row m r) = S (nrows m).
Proof. unfold nrows, append_row. cbn. rewrite length_app. cbn. lia. Qed.

(** ** Building a matrix from its columns *)

Lemma from_columns_wf n (cols : list (list A)) : mat_wf (from_columns n cols).
Proof.
  unfold mat_wf, from_columns. cbn. apply Forall_map, Forall_forall.
  intros i _. cbn. apply length_map.
Qed.

Lemma nrows_from_columns n (cols : list (list A)) : nrows (from_columns n cols) = n.
Proof. unfold nrows, from_columns. cbn. by rewrite length_map, length_seq. Qed.

(** A property of all entries of every column holds of all entries of
    every row, column by column. *)
Lemma from_columns_Forall2 {B : Type} (P : B -> A -> Prop) n
    (cols : list (list A)) (bs : list B) :
  Forall2 (fun c b => length c = n /\ Forall (P b) c) cols bs ->
  Forall (fun r => Forall2 (fun x b => P b x) r bs) (mrows (from_columns n cols)).
Proof.
  intros HF. unfold from_columns. cbn. apply Forall_map, Forall_forall.
  intros i Hi%list_elem_of_In%in_seq. cbn.
  induction HF as [|c b cols bs [Hc Hb] _ IH]; cbn; constructor; [|done].
  apply (proj1 (Forall_forall _ _) Hb), list_elem_of_In, nth_In. lia.
Qed.

(** ** Zero matrices and slice assignment *)

Lemma zeros_wf n w : mat_wf (zeros n w).
Proof.
  unfold mat_wf, zeros. cbn. apply Forall_replicate, length_replicate.
Qed.

Lemma nrows_zeros n w : nrows (zeros n w) = n.
Proof. unfold nrows, zeros. cbn. apply length_replicate. Qed.

(** Copying [k] rows of the target's width over the first [k] rows. *)
Lemma assign_rows_fit (target src : mat A) k :
  nrows src = k -> k <= nrows target -> ncols src = ncols target ->
  assign_rows target k src
  = Ok (Mat (ncols target) (mrows src ++ drop k (mrows target))).
Proof.
  intros Hk Hle Hc. unfold assign_rows. rewrite Nat.min_l by done.
  rewrite !(proj2 (Nat.eqb_eq _ _) Hk), !(proj2 (Nat.eqb_eq _ _) Hc). cbn.
  by rewrite map_id.
Qed.

(** Copying [k] rows of width one: every entry is repeated across the
    target's width. *)
Lemma assign_rows_widen (target src : mat A) k :
  nrows src = k -> k <= nrows target -> ncols src = 1 -> ncols target <> 1 ->
  assign_rows target k src
  = Ok (Mat (ncols target)
            (map (fun r => replicate (ncols target) (nth 0 r s0)) (mrows src)
             ++ drop k (mrows target))).
Proof.
  intros Hk Hle Hc Ht. unfold assign_rows. rewrite Nat.min_l by done.
  rewrite !(proj2 (Nat.eqb_eq _ _) Hk), Hc.
  by rewrite (proj2 (Nat.eqb_neq 1 (ncols target))) by done.
Qed.

(** A source whose width is neither the target's nor one cannot be
    broadcast. *)
Lemma assign_rows_mismatch (target src : mat A) k :
  ncols src <> ncols target -> ncols src <> 1 ->
  assign_rows target k src = Raise ValueError.
Proof.
  intros Hc H1. unfold assign_rows.
  rewrite (proj2 (Nat.eqb_neq _ _) Hc), (proj2 (Nat.eqb_neq _ _) H1). cbn.
  by destruct (negb _).
Qed.

(** An assignment that succeeds leaves the shape of the target alone. *)
Lemma assign_rows_shape (target src d : mat A) k :
  mat_wf target -> mat_wf src -> assign_rows target k src = Ok d ->
  ncols d = ncols target /\ nrows d = nrows target /\ mat_wf d.
Proof.
  intros Ht Hs. unfold assign_rows.
  set (k' := Nat.min k (nrows target)). set (w := ncols target).
  destruct (negb ((nrows src =? k') || _)) eqn:E1; [done |].
  destruct (negb ((ncols src =? w) || _)) eqn:E2; [done |].
  intros [= <-]. cbn. split; [done |].
  assert (Hk' : k' <= length (mrows target)) by (unfold k', nrows; lia).
  set (rs := if nrows src =? k' then _ else _).
  assert (length rs = k' /\ Forall (fun r => length r = ncols src) rs)
    as [Hlen Hall].
  { unfold rs. destruct (Nat.eqb_spec (nrows src) k') as [Hk|Hk]; [done |].
    split; [apply length_replicate |]. apply Forall_replicate.
    apply negb_false_iff, orb_true_iff in E1 as [E1|E1]; [done |].
    apply Nat.eqb_eq in E1.
    unfold nrows, mat_wf in *. destruct (mrows src) as [|r0 [|? ?]]; try done.
    by inv Hs. }
  split.
  - unfold nrows. cbn. rewrite length_app, length_map, Hlen, length_drop. lia.
  - unfold mat_wf. cbn. apply Forall_app. split; [|by apply Forall_drop].
    apply Forall_map. eapply Forall_impl; [exact Hall |]. intros r Hr. cbn.
    destruct (Nat.eqb_spec (ncols src) w); [congruence | apply length_replicate].
Qed.

(** ** Broadcasting *)

Section Broadcast.
Context {B C D : Type}.
Implicit Types (f g : B -> C -> D) (u : list B) (v : list C).

Lemma bcast2_same f u v :
  length u = length v -> bcast2 f u v = Ok (zip_with f u v).
Proof. intros E. unfold bcast2. by rewrite (proj2 (Nat.eqb_eq _ _) E). Qed.

Lemma bcast2_mismatch f u v :
  length u <> length v -> length u <> 1 -> length v <> 1 ->
  bcast2 f u v = Raise ValueError.
Proof.
  intros E Hu Hv. unfold bcast2. rewrite (proj2 (Nat.eqb_neq _ _) E).
  by destruct u as [|? [|? ?]], v as [|? [|? ?]].
Qed.

(** [bcast2] succeeds exactly when the two lengths broadcast, and the result
    has the length they agree on. *)
Lemma bcast2_dim f u v :
  rmap (@length D) (bcast2 f u v) = bcast_dim (length u) (length v).
Proof.
  unfold bcast2, bcast_dim. destruct (Nat.eqb_spec (length u) (length v)) as [E|E].
  - cbn. rewrite length_zip_with. f_equal. lia.
  - destruct u as [|x [|? ?]], v as [|y [|? ?]]; cbn in *;
      rewrite ?length_map; done.
Qed.

Lemma bcast2_length f u v l :
  bcast2 f u v = Ok l -> length u = length v -> length l = length v.
Proof.
  intros Hb E. rewrite bcast2_same in Hb by done. inv Hb.
  rewrite length_zip_with. lia.
Qed.

Lemma bcast2_ext f g u v :
  (forall x y, f x y = g x y) -> bcast2 f u v = bcast2 g u v.
Proof.
  intros Hfg. unfold bcast2.
  assert (Hz : zip_with f u v = zip_with g u v).
  { revert v. induction u as [|x u IH]; intros [|y v]; cbn; congruence. }
  rewrite Hz. destruct (_ =? _); [done |].
  destruct u as [|x [|? ?]], v as [|y [|? ?]]; try done; f_equal;
    apply map_ext; intros; apply Hfg.
Qed.

(** Preprocessing the second operand elementwise. *)
Lemma bcast2_map_r {C' : Type} (f : B -> C -> D) (h : C' -> C) u (v : list C') :
  bcast2 (fun x y => f x (h y)) u v = bcast2 f u (map h v).
Proof.
  unfold bcast2. rewrite length_map.
  assert (Hz : zip_with (fun x y => f x (h y)) u v = zip_with f u (map h v)).
  { revert v. induction u as [|x u IH]; intros [|y v]; cbn; congruence. }
  rewrite Hz. destruct (_ =? _); [done |].
  destruct u as [|x [|? ?]], v as [|y [|? ?]]; try done; cbn;
    by rewrite ?map_map.
Qed.

End Broadcast.

(** [s - m] for a row of the width of [m]: every row is subtracted from
    [s] position by position. *)
Lemma row_minus_mat_ok s m :
  mat_wf m -> length s = ncols m ->
  row_minus_mat s m = Ok (Mat (ncols m) (map (zip_with ssub s) (mrows m))).
Proof.
  intros Hwf Hs. unfold row_minus_mat, bcast_dim.
  rewrite (proj2 (Nat.eqb_eq _ _) Hs). cbn [rbind].
  rewrite (rtraverse_map _ (zip_with ssub s)); [by rewrite Hs |].
  eapply Forall_impl; [exact Hwf |]. intros r Hr. cbn in Hr.
  apply bcast2_same. congruence.
Qed.

Lemma row_minus_mat_mismatch s m :
  length s <> ncols m -> length s <> 1 -> ncols m <> 1 ->
  row_minus_mat s m = Raise ValueError.
Proof.
  intros E Hs Hm. unfold row_minus_mat, bcast_dim.
  by rewrite (proj2 (Nat.eqb_neq _ _) E), (proj2 (Nat.eqb_neq _ _) Hs),
    (proj2 (Nat.eqb_neq _ _) Hm).
Qed.

Lemma row_minus_mat_shape s m d :
  row_minus_mat s m = Ok d ->
  nrows d = nrows m /\ bcast_dim (length s) (ncols m) = Ok (ncols d).
Proof.
  unfold row_minus_mat. intros Hd.
  destruct (bcast_dim _ _) as [w|]; [|done]. cbn [rbind] in Hd.
  destruct (rtraverse _ _) as [rs|] eqn:Er; [|done]. inv Hd.
  apply rtraverse_ok_length in Er. by split.
Qed.

(** ** Kernel results *)

Lemma np_add_scalar_l (a : A) (v : npval A) :
  np_add (NScalar a) v
  = Ok (match v with
        | NScalar b => NScalar (sadd a b)
        | NArray l => NArray (map (sadd a) l)
        end).
Proof. by destruct v. Qed.

Lemma np_sum_scale (w : A) (v : npval A) :
  toR (np_sum (np_scale w v)) = (toR w * toR (np_sum v))%R.
Proof.
  destruct v as [a|l]; cbn; [apply toR_mul | apply toR_ssum_scale].
Qed.

End ArrayLaws.

