(* ===== verification/ArgSort.v ===== *)
(** * ArgSort: numpy's [argsort] as an interface

    The sampler orders its proposals with
    [points[points[:, 0].argsort()]].  numpy's default [argsort] is an
    introsort: it returns some permutation of the indices that puts the keys
    in ascending order, and the order it gives to equal keys is not
    specified.  The class [ArgSort] states exactly that contract; the
    sampler's theorems are proved against it.  The instance
    [merge_argsort] (a stable merge sort of the keys paired with their
    indices) shows the contract is met and makes the sampler executable. *)

From Stdlib Require Import Reals Lra.
From stdpp Require Import base tactics list sorting.
From S2P Require Import Prelude Scalar NdArray.

Local Open Scope res_scope.

(** [gather ks idx]: the keys at the positions [idx] name, i.e. [ks[idx]]
    for indices in range. *)
Definition gather {A : Type} `{Scalar A} (ks : list A) (idx : list nat) : list A :=
  map (fun i => nth i ks s0) idx.

Class ArgSort (A : Type) `{Scalar A} : Type := {
  argsort : list A -> list nat;
  argsort_perm : forall ks, Permutation (argsort ks) (seq 0 (length ks));
  argsort_sorted : forall ks, Sorted sle (gather ks (argsort ks))
}.

Section MergeArgSort.
Context {A : Type} `{Scalar A}.
Implicit Types (ks : list A) (p q : A * nat).

(** Pairs of a key and its position, ordered by key. *)
Definition key_le p q : Prop := sle (fst p) (fst q).

#[export] Instance key_le_dec : RelDecision key_le.
Proof. intros p q. unfold key_le. apply _. Defined.

#[export] Instance key_le_total : Total key_le.
Proof. intros p q. unfold key_le. apply total, _. Qed.

Definition enumerate ks : list (A * nat) := zip ks (seq 0 (length ks)).

Definition merge_argsort_fn ks : list nat :=
  map snd (merge_sort key_le (enumerate ks)).

Lemma zip_seq_nth ks off :
  Forall (fun p => nth (snd p - off) ks s0 = fst p /\ off <= snd p)
         (zip ks (seq off (length ks))).
Proof.
  revert off. induction ks as [|k ks IH]; intros off; cbn; constructor.
  - cbn. by rewrite Nat.sub_diag.
  - eapply Forall_impl; [apply (IH (S off)) |]. intros [k' i] [Hn Hi]. cbn in *.
    split; [|lia]. replace (i - off) with (S (i - S off)) by lia. done.
Qed.

Lemma enumerate_nth ks :
  Forall (fun p => nth (snd p) ks s0 = fst p) (enumerate ks).
Proof.
  eapply Forall_impl; [apply (zip_seq_nth ks 0) |].
  intros p [Hn _]. by rewrite Nat.sub_0_r in Hn.
Qed.

Lemma merge_argsort_perm ks :
  Permutation (merge_argsort_fn ks) (seq 0 (length ks)).
Proof.
  unfold merge_argsort_fn. etransitivity.
  - apply Permutation_map, merge_sort_Permutation.
  - unfold enumerate. change (map snd ?l) with (l.*2).
    rewrite snd_zip; [done |]. by rewrite length_seq.
Qed.

Lemma merge_argsort_sorted ks : Sorted sle (gather ks (merge_argsort_fn ks)).
Proof.
  unfold gather, merge_argsort_fn. rewrite map_map.
  rewrite (map_ext_Forall _ fst).
  - change (map fst ?l) with (fst <$> l).
    apply (Sorted_fmap _ key_le); [done |]. apply Sorted_merge_sort, _.
  - eapply Permutation_Forall; [|apply enumerate_nth].
    symmetry. apply merge_sort_Permutation.
Qed.

#[export] Instance merge_argsort : ArgSort A := {|
  argsort := merge_argsort_fn;
  argsort_perm := merge_argsort_perm;
  argsort_sorted := merge_argsort_sorted
|}.

End MergeArgSort.

(** ** Sorting the rows of a matrix by their first column *)

Section SortByTime.
Context {A : Type} `{ArgSort A}.
Implicit Types (m : mat A).

(** The first column of a matrix, read with the default of an empty row. *)
Definition times m : list A := map (fun r => nth 0 r s0) (mrows m).

(** [m[m[:, 0].argsort()]]. *)
Definition sort_by_time m : res (mat A) :=
  keys <- column 0 m;; take_rows (argsort keys) m.

Lemma take_rows_perm m idx :
  Permutation idx (seq 0 (nrows m)) ->
  exists rs, take_rows idx m = Ok (Mat (ncols m) rs)
             /\ rs = map (fun i => nth i (mrows m) []) idx
             /\ Permutation rs (mrows m).
Proof.
  intros Hp. exists (map (fun i => nth i (mrows m) []) idx).
  split; [|split; [done |]].
  - unfold take_rows. rewrite (rtraverse_map _ (fun i => nth i (mrows m) [])); [done |].
    eapply Permutation_Forall; [symmetry; exact Hp |].
    apply Forall_forall. intros i Hi%list_elem_of_In%in_seq.
    apply index_row_nth. lia.
  - etransitivity; [apply Permutation_map, Hp |].
    unfold nrows. by rewrite map_nth_seq.
Qed.

Lemma sort_by_time_ok m :
  mat_wf m -> 0 < ncols m ->
  exists m', sort_by_time m = Ok m'
             /\ ncols m' = ncols m
             /\ Permutation (mrows m') (mrows m)
             /\ Sorted sle (times m').
Proof.
  intros Hwf Hw. unfold sort_by_time. rewrite column_ok by done. cbn [rbind].
  set (keys := map _ (mrows m)).
  assert (Hp : Permutation (argsort keys) (seq 0 (nrows m))).
  { replace (nrows m) with (length keys) by apply length_map. apply argsort_perm. }
  destruct (take_rows_perm m _ Hp) as (rs & -> & -> & Hrs).
  eexists. split; [done |]. cbn. repeat split; [done |].
  unfold times. cbn. rewrite map_map.
  rewrite (map_ext_Forall _ (fun i => nth i keys s0)); [apply argsort_sorted |].
  eapply Permutation_Forall; [symmetry; exact Hp |].
  apply Forall_forall. intros i Hi%list_elem_of_In%in_seq. unfold keys.
  rewrite <- (map_nth (fun r => nth 0 r s0) (mrows m) [] i).
  apply nth_indep. rewrite length_map. unfold nrows in Hi. lia.
Qed.

Lemma sort_by_time_wf m m' :
  mat_wf m -> 0 < ncols m -> sort_by_time m = Ok m' -> mat_wf m'.
Proof.
  intros Hwf Hw Hs. destruct (sort_by_time_ok m Hwf Hw) as (m2 & E & Hc & Hp & _).
  rewrite E in Hs. inv Hs. unfold mat_wf. rewrite Hc.
  eapply Permutation_Forall; [symmetry; exact Hp | exact Hwf].
Qed.

End SortByTime.
