(* ===== verification/Grid.v ===== *)
(** * Grid: the array operations of the plotting functions

    The plotting functions of [src/stppg.py] evaluate the intensity on a
    regular grid.  They use five operations of numpy and itertools that the
    sampler does not need: [np.linspace], [itertools.product], indexing by a
    boolean mask, [np.prod] and [reshape] followed by [.T].  This file models
    them over any [Scalar] and proves their laws: the shape of every result,
    the nodes of [linspace], the points of the grid, and the round trips of
    [reshape] and of the transpose.  Reshaping and transposition are
    defined for arrays of any element, floats that are not numbers
    included. *)

From Stdlib Require Import ZArith Lia Reals Lra List.
From stdpp Require Import base tactics list.
From S2P Require Import Prelude.
From S2P Require Import Scalar.
From S2P Require Import NdArray.

Local Open Scope res_scope.

Section Grid.
Context {A : Type} `{Scalar A}.

(** Node [i] of a regular subdivision: [i * step + start]. *)
Definition node (start step : A) (i : nat) : A :=
  sadd (smul (sofZ (Z.of_nat i)) step) start.

(** [np.linspace(start, stop, num)] with its default [endpoint=True]: a
    negative [num] is a [ValueError]; one sample is [start]; otherwise the
    step is [(stop - start) / (num - 1)] and the last sample is set to [stop]
    itself. *)
Definition linspace (start stop : A) (num : Z) : res (list A) :=
  if (num <? 0)%Z then Raise ValueError
  else match Z.to_nat num with
       | O => Ok []
       | 1 => Ok [start]
       | S m =>
           let step := sdiv (ssub stop start) (sofZ (num - 1)) in
           Ok (map (node start step) (seq 0 m) ++ [stop])
       end.

(** [itertools.product] applied to the axes, as a list: every choice of one element per axis,
    the last axis varying fastest; the product of no axes is the one empty
    tuple. *)
Fixpoint product {X : Type} (axes : list (list X)) : list (list X) :=
  match axes with
  | [] => [[]]
  | axis :: rest => flat_map (fun x => map (cons x) (product rest)) axis
  end.

(** The rows of [rows[mask]] for a boolean array [mask] of the same length. *)
Fixpoint select_rows {X : Type} (mask : list bool) (rows : list X) : list X :=
  match mask, rows with
  | b :: mask', r :: rows' =>
      if b then r :: select_rows mask' rows' else select_rows mask' rows'
  | _, _ => []
  end.

(** [m[mask]]: numpy refuses a mask whose length is not the number of rows. *)
Definition boolean_index (m : mat A) (mask : list bool) : res (mat A) :=
  if length mask =? nrows m then Ok (Mat (ncols m) (select_rows mask (mrows m)))
  else Raise IndexError.

(** [np.prod(l)]. *)
Definition np_prod (l : list A) : A := fold_left smul l s1.

End Grid.

(** ** Reshaping, for arrays of any element *)

Section Reshape.
Context {X : Type}.

(** The rows of a flat array cut every [w] entries, [n] of them. *)
Fixpoint chunks (n w : nat) (l : list X) : list (list X) :=
  match n with
  | O => []
  | S n' => take w l :: chunks n' w (drop w l)
  end.

(** [a.reshape(n, w)] for non-negative [n] and [w]: the size must be
    [n * w]. *)
Definition reshape2 (n w : Z) (l : list X) : res (mat X) :=
  if ((n <? 0) || (w <? 0))%Z then Raise ValueError
  else if length l =? Z.to_nat n * Z.to_nat w
       then Ok (Mat (Z.to_nat w) (chunks (Z.to_nat n) (Z.to_nat w) l))
       else Raise ValueError.

(** [m.T]: row [i] of the transpose collects entry [i] of every row. *)
Definition transpose (m : mat X) : mat X :=
  Mat (nrows m)
      (map (fun i => omap (fun r => r !! i) (mrows m)) (seq 0 (ncols m))).

(** [a.reshape(n, n).T], the image [imshow] is given. *)
Definition image (n : Z) (l : list X) : res (mat X) :=
  m <- reshape2 n n l;; Ok (transpose m).

(** [m[row, col]], where it exists. *)
Definition pixel (m : mat X) (row col : nat) : option X :=
  match mrows m !! row with
  | Some r => r !! col
  | None => None
  end.

End Reshape.

(** ** Laws of [linspace] *)

Section LinspaceLaws.
Context {A : Type} `{Scalar A}.
Implicit Types (start stop : A) (num : Z) (l : list A).

Lemma linspace_negative start stop num :
  (num < 0)%Z -> linspace start stop num = Raise ValueError.
Proof. intros Hn. unfold linspace. by rewrite (proj2 (Z.ltb_lt _ _) Hn). Qed.

(** The three shapes of a result of [linspace]. *)
Lemma linspace_inv start stop num l :
  linspace start stop num = Ok l ->
  (num = 0%Z /\ l = []) \/ (num = 1%Z /\ l = [start]) \/
  ((2 <= num)%Z /\
   l = map (node start (sdiv (ssub stop start) (sofZ (num - 1))))
         (seq 0 (Z.to_nat num - 1)) ++ [stop]).
Proof.
  unfold linspace. destruct (Z.ltb_spec num 0); [done |].
  destruct (Z.to_nat num) as [|[|m]] eqn:Hm; intros [= <-].
  - left. split; [lia | done].
  - right; left. split; [lia | done].
  - right; right. split; [lia |]. by replace (Z.to_nat num - 1) with (S m) by lia.
Qed.

Lemma linspace_length start stop num l :
  linspace start stop num = Ok l -> length l = Z.to_nat num.
Proof.
  intros [[-> ->] | [[-> ->] | [Hn ->]]]%linspace_inv; [done .. |].
  rewrite length_app, length_map, length_seq. cbn. lia.
Qed.

Lemma linspace_total start stop num :
  (0 <= num)%Z -> exists l, linspace start stop num = Ok l.
Proof.
  intros Hn. unfold linspace. rewrite (proj2 (Z.ltb_ge _ _) Hn).
  destruct (Z.to_nat num) as [|[|m]]; eauto.
Qed.

(** The real value of a node. *)
Lemma toR_node start step i :
  toR (node start step i) = (INR i * toR step + toR start)%R.
Proof. unfold node. autorewrite with stppg_rw. by rewrite <- INR_IZR_INZ. Qed.

(** With at least two samples, sample [i] is
    [start + i * (stop - start) / (num - 1)], the last one included. *)
Lemma linspace_nodes start stop num l i x :
  (2 <= num)%Z -> linspace start stop num = Ok l -> l !! i = Some x ->
  toR x = (toR start + INR i * (toR stop - toR start) / IZR (num - 1))%R.
Proof.
  intros Hn [[-> _] | [[-> _] | [_ ->]]]%linspace_inv Hi; [lia .. |].
  assert (Hd : IZR (num - 1) <> 0%R) by (apply not_0_IZR; lia).
  apply lookup_app_Some in Hi as [Hi | [Hlen Hi]].
  - apply list_lookup_fmap_Some in Hi as (j & -> & Hj).
    apply lookup_seq in Hj as [-> _]. rewrite toR_node, toR_div, toR_sub.
    + cbn [Nat.add]. rewrite toR_ofZ. unfold Rdiv. lra.
    + by rewrite toR_ofZ.
  - rewrite length_map, length_seq in Hlen, Hi.
    apply list_lookup_singleton_Some in Hi as [Hi <-].
    replace i with (Z.to_nat num - 1) by lia.
    rewrite INR_IZR_INZ. replace (Z.of_nat (Z.to_nat num - 1)) with (num - 1)%Z by lia.
    by field.
Qed.

(** The first sample is [start]. *)
Lemma linspace_first start stop num l :
  (1 <= num)%Z -> linspace start stop num = Ok l ->
  exists x, l !! 0 = Some x /\ seqv x start.
Proof.
  intros Hn Hl. destruct (Z.eq_dec num 1%Z) as [-> | Hne].
  - inv Hl. by exists start.
  - assert (Hlen := linspace_length _ _ _ _ Hl).
    destruct l as [|x l]; [cbn in Hlen; lia |]. exists x. split; [done |].
    unfold seqv. rewrite (linspace_nodes start stop num (x :: l) 0 x) by (done || lia).
    cbn [INR]. unfold Rdiv. lra.
Qed.

(** The last sample is [stop], exactly. *)
Lemma linspace_last start stop num l :
  (2 <= num)%Z -> linspace start stop num = Ok l -> last l = Some stop.
Proof.
  intros Hn [[-> _] | [[-> _] | [_ ->]]]%linspace_inv; [lia .. |].
  apply last_snoc.
Qed.

End LinspaceLaws.

Section LinspaceOrder.
Context {A : Type} `{Scalar A}.

(** Samples of an interval stay in it. *)
Lemma linspace_in_range (start stop : A) num l :
  sle start stop -> linspace start stop num = Ok l ->
  Forall (fun x => sle start x /\ sle x stop) l.
Proof.
  intros Hle Hl. destruct (Z.le_gt_cases 2 num) as [Hn | Hn].
  - apply Forall_lookup_2. intros i x Hi.
    assert (Hlt := lookup_lt_Some _ _ _ Hi).
    rewrite (linspace_length _ _ _ _ Hl) in Hlt. unfold sle in *.
    rewrite (linspace_nodes _ _ _ _ _ _ Hn Hl Hi).
    assert (Hi' : (0 <= INR i <= IZR (num - 1))%R).
    { split; [apply pos_INR |]. rewrite INR_IZR_INZ. apply IZR_le. lia. }
    assert (Hd : (0 < IZR (num - 1))%R) by (apply IZR_lt; lia).
    set (d := IZR (num - 1)) in *. set (k := INR i) in *.
    assert (Hinv : (0 < / d)%R) by (by apply Rinv_0_lt_compat).
    assert (Hdd : (d * / d = 1)%R) by (field; lra).
    assert (Hk : (0 <= k * / d <= 1)%R) by (split; nra).
    replace (k * (toR stop - toR start) / d)%R
      with (k * / d * (toR stop - toR start))%R by (by field; lra).
    nra.
  - apply linspace_inv in Hl as [[_ ->] | [[_ ->] | [Hn' _]]]; [| | lia].
    + constructor.
    + apply Forall_singleton. split; [reflexivity | done].
Qed.

(** Past the first one, the samples of an interval that is not empty lie
    strictly after its start. *)
Lemma linspace_after_start (start stop : A) num l :
  (2 <= num)%Z -> slt start stop -> linspace start stop num = Ok l ->
  Forall (slt start) (drop 1 l).
Proof.
  intros Hn Hlt Hl. apply Forall_lookup_2. intros i x Hi.
  rewrite lookup_drop in Hi. unfold slt in *.
  rewrite (linspace_nodes _ _ _ _ _ _ Hn Hl Hi).
  assert (Hi' : (0 < INR (1 + i))%R) by (apply lt_0_INR; lia).
  assert (Hd : (0 < IZR (num - 1))%R) by (apply IZR_lt; lia).
  assert (0 < INR (1 + i) * (toR stop - toR start) / IZR (num - 1))%R;
    [|lra].
  apply Rdiv_lt_0_compat; [apply Rmult_lt_0_compat; lra | done].
Qed.

End LinspaceOrder.

(** ** Laws of the grid, of masks and of [reshape] *)

Section GridLaws.
Context {A : Type} `{Scalar A}.

Lemma product_length {X : Type} (axes : list (list X)) :
  length (product axes) = foldr (fun axis n => length axis * n) 1 axes.
Proof.
  induction axes as [|axis rest IH]; [done |]. cbn [product foldr].
  rewrite (flat_map_constant_length (c := length (product rest))), IH; [done |].
  intros x _. by rewrite length_map.
Qed.

(** A tuple is in the product exactly when it picks one element per axis. *)
Lemma elem_of_product {X : Type} (axes : list (list X)) (r : list X) :
  r ∈ product axes <-> Forall2 (fun x axis => x ∈ axis) r axes.
Proof.
  revert r. induction axes as [|axis rest IH]; intros r; cbn [product].
  - rewrite list_elem_of_singleton. split; [by intros -> | by intros ->%Forall2_nil_inv_r].
  - rewrite list_elem_of_In, in_flat_map. split.
    + intros (x & Hx & (t & -> & Ht)%list_elem_of_In%list_elem_of_fmap).
      constructor; [by apply list_elem_of_In | by apply IH].
    + intros (x & t & Hx & Ht & ->)%Forall2_cons_inv_r. exists x.
      split; [by apply list_elem_of_In |].
      apply list_elem_of_In, list_elem_of_fmap. exists t. by rewrite IH.
Qed.

Lemma product_width {X : Type} (axes : list (list X)) :
  Forall (fun r => length r = length axes) (product axes).
Proof.
  apply Forall_forall. intros r Hr%elem_of_product. by eapply Forall2_length.
Qed.

(** A mask computed row by row selects the rows that satisfy the test. *)
Lemma select_rows_map {X : Type} (f : X -> bool) (rows : list X) :
  select_rows (map f rows) rows = List.filter f rows.
Proof.
  induction rows as [|r rows IH]; [done |]. cbn. by rewrite IH.
Qed.

Lemma select_rows_sublist {X : Type} (mask : list bool) (rows : list X) :
  select_rows mask rows `sublist_of` rows.
Proof.
  revert mask. induction rows as [|r rows IH]; intros [|[] mask]; cbn;
    try apply sublist_nil_l; [by apply sublist_skip | by apply sublist_cons].
Qed.

Lemma boolean_index_ok (m : mat A) (f : list A -> bool) :
  boolean_index m (map f (mrows m)) = Ok (Mat (ncols m) (List.filter f (mrows m))).
Proof.
  unfold boolean_index, nrows. by rewrite length_map, Nat.eqb_refl, select_rows_map.
Qed.

Lemma toR_fold_smul (l : list A) (a : A) :
  toR (fold_left smul l a) = (toR a * fold_right Rmult 1 (map toR l))%R.
Proof.
  revert a. induction l as [|x l IH]; intros a; cbn; [lra |].
  rewrite IH, toR_mul. lra.
Qed.

Lemma np_prod_toR (l : list A) :
  toR (np_prod l) = fold_right Rmult 1%R (map toR l).
Proof. unfold np_prod. rewrite toR_fold_smul, toR_1. lra. Qed.

End GridLaws.

(** ** Laws of reshaping *)

Section ReshapeLaws.
Context {X : Type}.

(** Cutting a flat array into rows loses nothing: flattening the rows gives
    the array back. *)
Lemma chunks_concat (n w : nat) (l : list X) :
  length l = n * w -> concat (chunks n w l) = l.
Proof.
  revert l. induction n as [|n IH]; intros l Hl; cbn.
  - by destruct l.
  - rewrite IH, take_drop; [done |]. rewrite length_drop. lia.
Qed.

Lemma chunks_shape (n w : nat) (l : list X) :
  length l = n * w ->
  length (chunks n w l) = n /\ Forall (fun r => length r = w) (chunks n w l).
Proof.
  revert l. induction n as [|n IH]; intros l Hl; cbn; [done |].
  destruct (IH (drop w l)) as [-> Hall]; [rewrite length_drop; lia |].
  split; [done |]. constructor; [rewrite length_take; lia | done].
Qed.

(** [reshape] succeeds exactly on arrays of [n * w] entries, and its rows,
    read in order, are the array. *)
Lemma reshape2_ok (n w : Z) (l : list X) :
  (0 <= n)%Z -> (0 <= w)%Z -> length l = Z.to_nat n * Z.to_nat w ->
  exists m, reshape2 n w l = Ok m /\ concat (mrows m) = l /\ mat_wf m /\
            nrows m = Z.to_nat n /\ ncols m = Z.to_nat w.
Proof.
  intros Hn Hw Hl. unfold reshape2.
  rewrite (proj2 (Z.ltb_ge _ _) Hn), (proj2 (Z.ltb_ge _ _) Hw), Hl, Nat.eqb_refl.
  eexists. split; [done |]. destruct (chunks_shape _ _ _ Hl) as [Hlen Hall].
  cbn. unfold mat_wf, nrows. cbn. by rewrite chunks_concat.
Qed.

Lemma reshape2_mismatch (n w : Z) (l : list X) :
  length l <> Z.to_nat n * Z.to_nat w -> reshape2 n w l = Raise ValueError.
Proof.
  intros Hl. unfold reshape2. destruct (_ || _); [done |].
  by rewrite (proj2 (Nat.eqb_neq _ _) Hl).
Qed.

(** ** Images *)

Lemma reshape2_inv (n w : Z) (l : list X) (m : mat X) :
  reshape2 n w l = Ok m ->
  (0 <= n)%Z /\ (0 <= w)%Z /\ length l = Z.to_nat n * Z.to_nat w
  /\ m = Mat (Z.to_nat w) (chunks (Z.to_nat n) (Z.to_nat w) l).
Proof.
  unfold reshape2. destruct (Z.ltb_spec n 0), (Z.ltb_spec w 0); try done.
  cbn [orb]. destruct (Nat.eqb_spec (length l) (Z.to_nat n * Z.to_nat w));
    [|done]. by intros [= <-].
Qed.

(** An image exists only for [n * n] values and is [n] by [n]. *)
Lemma image_inv (n : Z) (l : list X) (m : mat X) :
  image n l = Ok m ->
  (0 <= n)%Z /\ length l = Z.to_nat n * Z.to_nat n
  /\ nrows m = Z.to_nat n /\ ncols m = Z.to_nat n.
Proof.
  unfold image. intros Hm. res_inv.
  match goal with Hr : reshape2 _ _ _ = _ |- _ =>
    apply reshape2_inv in Hr as (Hn & _ & Hl & ->) end.
  destruct (chunks_shape _ _ _ Hl) as [Hlen _].
  unfold transpose, nrows. cbn. by rewrite length_map, length_seq.
Qed.

Lemma image_ok (n : Z) (l : list X) :
  (0 <= n)%Z -> length l = Z.to_nat n * Z.to_nat n ->
  exists m, image n l = Ok m.
Proof.
  intros Hn Hl. unfold image.
  destruct (reshape2_ok n n l Hn Hn Hl) as (m & -> & _). cbn. eauto.
Qed.

Lemma image_mismatch (n : Z) (l : list X) :
  length l <> Z.to_nat n * Z.to_nat n -> image n l = Raise ValueError.
Proof. intros Hl. unfold image. by rewrite reshape2_mismatch. Qed.

Lemma map_constant {Y Z : Type} (f : Y -> Z) (z : Z) (l : list Y) :
  Forall (fun y => f y = z) l -> map f l = replicate (length l) z.
Proof. induction 1 as [|y l Hy _ IH]; cbn; [done |]. by rewrite Hy, IH. Qed.

Lemma chunks_replicate (n w : nat) (x : X) :
  chunks n w (replicate (n * w) x) = replicate n (replicate w x).
Proof.
  induction n as [|n IH]; [done |]. cbn [chunks Nat.mul replicate].
  rewrite take_replicate, drop_replicate. f_equal; [f_equal; lia |].
  rewrite <- IH. f_equal. f_equal. lia.
Qed.

(** The image of a constant array. *)
Definition flat (n : nat) (x : X) : mat X := Mat n (replicate n (replicate n x)).

Lemma omap_replicate {Y Z : Type} (f : Y -> option Z) (n : nat) (y : Y) (z : Z) :
  f y = Some z -> omap f (replicate n y) = replicate n z.
Proof. intros Hy. induction n as [|n IH]; cbn; [done |]. by rewrite Hy, IH. Qed.

Lemma image_flat (n : Z) (x : X) :
  (0 <= n)%Z ->
  image n (replicate (Z.to_nat n * Z.to_nat n) x) = Ok (flat (Z.to_nat n) x).
Proof.
  intros Hn. unfold image, reshape2.
  rewrite (proj2 (Z.ltb_ge _ _) Hn), length_replicate, Nat.eqb_refl. cbn.
  rewrite chunks_replicate. unfold transpose, flat, nrows. cbn.
  rewrite length_replicate. f_equal.
  rewrite (map_constant _ (replicate (Z.to_nat n) x)); [by rewrite length_seq |].
  apply Forall_forall. intros i Hi%list_elem_of_In%in_seq.
  apply omap_replicate, lookup_replicate_2. lia.
Qed.

(** *** Entry by entry *)

(** With two axes the product is read row by row: entry [i * n + j] pairs
    element [i] of the first axis with element [j] of the second. *)
Lemma product_single (ys : list X) :
  product [ys] = map (fun y => [y]) ys.
Proof. induction ys as [|y ys IH]; [done |]. cbn in *. by rewrite IH. Qed.

Lemma product_pair_lookup (xs ys : list X) (i j : nat) (x y : X) :
  xs !! i = Some x -> ys !! j = Some y ->
  product [xs; ys] !! (i * length ys + j) = Some [x; y].
Proof.
  intros Hx Hy. pose proof (lookup_lt_Some _ _ _ Hy) as Hj.
  change (product [xs; ys])
    with (flat_map (fun a => map (cons a) (product [ys])) xs).
  rewrite product_single.
  revert i Hx. induction xs as [|a xs IH]; intros [|i] Hx; try done;
    cbn [flat_map]; rewrite map_map.
  - rewrite lookup_app_l by (by rewrite length_map).
    apply list_lookup_fmap_Some. exists y. by inv Hx.
  - rewrite lookup_app_r by (rewrite length_map; lia).
    rewrite length_map, <- (IH i Hx). f_equal. cbn. lia.
Qed.

(** Row [i] of a reshaped array holds the entries from [i * w] on. *)
Lemma chunks_lookup (n w : nat) (l : list X) (i j : nat) :
  i < n -> j < w -> pixel (Mat w (chunks n w l)) i j = l !! (i * w + j).
Proof.
  unfold pixel. cbn [mrows]. revert l i.
  induction n as [|n IH]; intros l [|i] Hi Hj; try lia; cbn.
  - by apply lookup_take_lt.
  - change (chunks n w (drop w l) !! i) with ((chunks n w (drop w l)) !! i).
    rewrite IH by lia. rewrite lookup_drop. f_equal. lia.
Qed.

(** Where [f] is defined on every element, [omap f] is [map]. *)
Lemma omap_lookup {Y Z : Type} (f : Y -> option Z) (l : list Y) (i : nat) :
  Forall (fun y => is_Some (f y)) l -> omap f l !! i = l !! i ≫= f.
Proof.
  intros Hl. revert i. induction Hl as [|y l [z Hz] _ IH]; intros i; [done |].
  cbn. rewrite Hz. destruct i as [|i]; [done | apply IH].
Qed.

(** The transpose swaps the indices. *)
Lemma transpose_pixel (m : mat X) (row col : nat) :
  mat_wf m -> pixel (transpose m) row col = pixel m col row.
Proof.
  intros Hwf. unfold pixel, transpose. cbn [mrows].
  rewrite list_lookup_fmap. destruct (seq 0 (ncols m) !! row) as [k|] eqn:Hk; cbn.
  - apply lookup_seq in Hk as [-> Hk]. rewrite omap_lookup; [by destruct (_ !! col) |].
    eapply Forall_impl; [exact Hwf |]. intros r Hr. cbn in Hr.
    apply lookup_lt_is_Some. lia.
  - apply lookup_ge_None in Hk. rewrite length_seq in Hk.
    destruct (mrows m !! col) as [r|] eqn:Hr; [|done].
    pose proof (proj1 (Forall_lookup _ _) Hwf _ _ Hr) as Hlen. cbn in Hlen.
    symmetry. apply lookup_ge_None. lia.
Qed.

Lemma omap_length {Y Z : Type} (f : Y -> option Z) (l : list Y) :
  Forall (fun y => is_Some (f y)) l -> length (omap f l) = length l.
Proof.
  induction 1 as [|y l [z Hz] _ IH]; [done |]. cbn. rewrite Hz. cbn. by rewrite IH.
Qed.

Lemma transpose_wf (m : mat X) : mat_wf m -> mat_wf (transpose m).
Proof.
  intros Hwf. unfold mat_wf, transpose. cbn. apply Forall_map, Forall_forall.
  intros i Hi%list_elem_of_In%in_seq. cbn. apply omap_length.
  eapply Forall_impl; [exact Hwf |]. intros r Hr. cbn in Hr.
  apply lookup_lt_is_Some. lia.
Qed.

(** Well-formed matrices of the same shape with the same entries are
    equal. *)
Lemma pixel_ext (m m' : mat X) :
  mat_wf m -> mat_wf m' -> ncols m = ncols m' -> nrows m = nrows m' ->
  (forall i j, pixel m i j = pixel m' i j) -> m = m'.
Proof.
  destruct m as [w rows], m' as [w' rows']. unfold mat_wf, nrows, pixel. cbn.
  intros Hwf Hwf' <- Hn Hp. f_equal. apply list_eq_same_length with (length rows);
    [done.. |].
  intros i r r' _ Hr Hr'. apply list_eq_same_length with w.
  - exact (proj1 (Forall_lookup _ _) Hwf' _ _ Hr').
  - exact (proj1 (Forall_lookup _ _) Hwf _ _ Hr).
  - intros j x x' _ Hx Hx'. specialize (Hp i j). rewrite Hr, Hr', Hx, Hx' in Hp.
    by inv Hp.
Qed.

(** Transposing twice gives the matrix back. *)
Lemma transpose_involutive (m : mat X) :
  mat_wf m -> transpose (transpose m) = m.
Proof.
  intros Hwf. apply pixel_ext; [by do 2 apply transpose_wf | done | ..].
  - unfold transpose, nrows. cbn. by rewrite length_map, length_seq.
  - unfold transpose, nrows. cbn. by rewrite length_map, length_seq.
  - intros i j. by rewrite !transpose_pixel by (by try apply transpose_wf).
Qed.

(** The image shows entry [col * n + row] of the flat array at row [row]
    and column [col]: the first coordinate of the grid runs along the
    columns. *)
Lemma image_pixel (n : Z) (l : list X) (m : mat X) (row col : nat) :
  image n l = Ok m -> row < Z.to_nat n -> col < Z.to_nat n ->
  pixel m row col = l !! (col * Z.to_nat n + row).
Proof.
  unfold image. intros Hm Hrow Hcol. res_inv.
  match goal with Hr : reshape2 _ _ _ = _ |- _ =>
    apply reshape2_inv in Hr as (_ & _ & Hl & ->) end.
  rewrite transpose_pixel; [by apply chunks_lookup |].
  by destruct (chunks_shape _ _ _ Hl) as [_ ?].
Qed.

End ReshapeLaws.
