(* ===== verification/Region.v ===== *)
(** * Region: axis-aligned boxes in time and space

    A region is a list of closed intervals, the time interval first.  The
    sampler builds it as [[T] + S] and asks the collaborator
    [utils.lebesgue_measure] for its volume.  That function is not part of
    the sources under study; [lebesgue_measure] follows its documented
    contract (the product of the interval widths). *)

From Stdlib Require Import Reals Lra.
From stdpp Require Import base tactics list.
From S2P Require Import Prelude Scalar.

Section Region.
Context {A : Type} `{Scalar A}.

(** [[lo, hi]]. *)
Definition interval : Type := A * A.

Definition lo (iv : interval) : A := fst iv.
Definition hi (iv : interval) : A := snd iv.
Definition width (iv : interval) : A := ssub (hi iv) (lo iv).

(** [lo <= hi]; the sampler does not check it. *)
Definition proper_interval (iv : interval) : Prop := sle (lo iv) (hi iv).

(** [_S = [T] + S]. *)
Definition time_space (T : interval) (S : list interval) : list interval := T :: S.

(** The volume of the box: the product of the widths of its sides. *)
Definition lebesgue_measure (region : list interval) : A :=
  fold_left (fun acc iv => smul acc (width iv)) region s1.

End Region.

Arguments interval A : clear implicits.

Section RegionLaws.
Context {A : Type} `{Scalar A}.
Implicit Types (iv : interval A) (region : list (interval A)).

Lemma toR_width iv : toR (width iv) = (toR (hi iv) - toR (lo iv))%R.
Proof. unfold width. apply toR_sub. Qed.

Lemma toR_fold_measure region (a : A) :
  toR (fold_left (fun acc iv => smul acc (width iv)) region a)
  = (toR a * fold_right Rmult 1 (map (fun iv => toR (width iv)) region))%R.
Proof.
  revert a. induction region as [|iv region IH]; intros a; cbn.
  - lra.
  - rewrite IH, toR_mul. lra.
Qed.

Lemma toR_lebesgue_measure region :
  toR (lebesgue_measure region)
  = fold_right Rmult 1%R (map (fun iv => toR (width iv)) region).
Proof. unfold lebesgue_measure. rewrite toR_fold_measure, toR_1. lra. Qed.

Lemma lebesgue_measure_cons iv region :
  seqv (lebesgue_measure (iv :: region)) (smul (width iv) (lebesgue_measure region)).
Proof.
  unfold seqv. rewrite toR_mul, !toR_lebesgue_measure. reflexivity.
Qed.

(** A box with proper sides has a non-negative volume. *)
Lemma lebesgue_measure_nonneg region :
  Forall proper_interval region -> sle s0 (lebesgue_measure region).
Proof.
  intros HF. unfold sle. rewrite toR_lebesgue_measure, toR_0.
  induction HF as [|iv region Hiv _ IH]; cbn; [lra |].
  unfold proper_interval, sle in Hiv. rewrite toR_width.
  apply Rmult_le_pos; [lra | exact IH].
Qed.

(** A box with sides of positive width has a positive volume. *)
Lemma lebesgue_measure_pos region :
  Forall (fun iv => slt (lo iv) (hi iv)) region -> slt s0 (lebesgue_measure region).
Proof.
  intros HF. unfold slt. rewrite toR_lebesgue_measure, toR_0.
  induction HF as [|iv region Hiv _ IH]; cbn; [lra |].
  unfold slt in Hiv. rewrite toR_width.
  apply Rmult_lt_0_compat; [lra | exact IH].
Qed.

(** The volume is invariant under reordering the sides. *)
Lemma lebesgue_measure_perm (r1 r2 : list (interval A)) :
  Permutation r1 r2 -> seqv (lebesgue_measure r1) (lebesgue_measure r2).
Proof.
  intros HP. unfold seqv. rewrite !toR_lebesgue_measure.
  induction HP; cbn; [lra | by rewrite IHHP | lra | congruence].
Qed.

End RegionLaws.
