(* ===== verification/Rng.v ===== *)
(** * Rng: the global random generator as an explicit tape

    [src/stppg.py] draws from numpy's global generator: a Poisson count
    ([np.random.poisson]), arrays of uniform variates ([np.random.uniform]
    with a size) and single uniform variates.  The generator is modelled as
    a tape [rng] holding the Poisson counts and the unit-interval variates
    still to come; a draw pops the tape.  Every outcome of the program
    corresponds to a tape, and a tape fixes the outcome (a seeded run).

    Computations that draw are functions [M X := rng -> res (X * rng)]:
    they thread the tape and may raise.  [TapeEnd] marks a tape that was too
    short; it is not a behaviour of the program. *)

From Stdlib Require Import Reals Lra.
From stdpp Require Import base tactics list.
From S2P Require Import Prelude Scalar.

Declare Scope rng_scope.
Delimit Scope rng_scope with rng.

Section Rng.
Context {A : Type} `{Scalar A}.

Record rng : Type := Rng { counts : list nat; unifs : list A }.

Definition M (X : Type) : Type := rng -> res (X * rng).

Definition mret {X : Type} (x : X) : M X := fun g => Ok (x, g).

Definition mbind {X Y : Type} (m : M X) (k : X -> M Y) : M Y :=
  fun g => match m g with
           | Ok (x, g') => k x g'
           | Raise e => Raise e
           end.

Definition mraise {X : Type} (e : exn) : M X := fun _ => Raise e.

(** A computation that does not draw. *)
Definition lift {X : Type} (r : res X) : M X :=
  fun g => match r with
           | Ok x => Ok (x, g)
           | Raise e => Raise e
           end.

(** Every variate on the tape lies in [[0, 1)]. *)
Definition tape_wf (g : rng) : Prop :=
  Forall (fun u => sle s0 u /\ slt u s1) (unifs g).

(** [np.random.poisson(size=1, lam=lam)]: numpy refuses a negative mean;
    otherwise the count is the next one on the tape. *)
Definition poisson (lam : A) : M nat :=
  fun g =>
    if sltb lam s0 then Raise ValueError
    else match counts g with
         | [] => Raise TapeEnd
         | n :: cs => Ok (n, Rng cs (unifs g))
         end.

(** [np.random.random_sample()]: the next variate of [[0, 1)]. *)
Definition random_sample : M A :=
  fun g => match unifs g with
           | [] => Raise TapeEnd
           | u :: us => Ok (u, Rng (counts g) us)
           end.

(** [np.random.uniform(lo, hi)]: numpy computes [lo + (hi - lo) * u]. *)
Definition uniform (lo hi : A) : M A :=
  mbind random_sample (fun u => mret (sadd lo (smul (ssub hi lo) u))).

(** [np.random.uniform(lo, hi, n)]: [n] variates, in tape order. *)
Fixpoint uniform_array (lo hi : A) (n : nat) : M (list A) :=
  match n with
  | 0 => mret []
  | S n' => mbind (uniform lo hi) (fun x =>
            mbind (uniform_array lo hi n') (fun xs => mret (x :: xs)))
  end.

(** [mtraverse f l]: run [f] on the elements of [l] from left to right. *)
Fixpoint mtraverse {X Y : Type} (f : X -> M Y) (l : list X) : M (list Y) :=
  match l with
  | [] => mret []
  | x :: l' => mbind (f x) (fun y =>
               mbind (mtraverse f l') (fun ys => mret (y :: ys)))
  end.

End Rng.

Arguments rng A : clear implicits.
Arguments M A X : clear implicits.

Notation "x <- m ;; k" := (mbind m (fun x => k))
  (at level 100, m at next level, right associativity) : rng_scope.

(** [m_inv]: split a successful computation in a hypothesis into its steps,
    one equation per step. *)
Ltac m_inv :=
  repeat match goal with
  | H : mret _ _ = Ok _ |- _ => unfold mret in H; inv H
  | H : mraise _ _ = Ok _ |- _ => discriminate H
  | H : lift ?r _ = Ok _ |- _ =>
      unfold lift in H; destruct r eqn:?; [inv H | discriminate H]
  | H : mbind _ _ _ = Ok _ |- _ => unfold mbind at 1 in H
  | H : match ?m with Ok _ => _ | Raise _ => _ end = Ok _ |- _ =>
      destruct m as [[? ?]|] eqn:?; [|discriminate H]
  end.

Section RngLaws.
Context {A : Type} `{Scalar A}.
Implicit Types (g : rng A) (u lo hi lam : A) (us : list A) (cs : list nat) (n : nat).

Lemma mbind_ok_inv {X Y : Type} (m : M A X) (k : X -> M A Y) g y g2 :
  mbind m k g = Ok (y, g2) <-> exists x g1, m g = Ok (x, g1) /\ k x g1 = Ok (y, g2).
Proof.
  unfold mbind. destruct (m g) as [[x g1]|e]; split.
  - eauto.
  - by intros (? & ? & [= <- <-] & ?).
  - discriminate.
  - by intros (? & ? & ? & ?).
Qed.

Lemma mbind_mret_l {X Y : Type} (x : X) (k : X -> M A Y) g :
  mbind (mret x) k g = k x g.
Proof. reflexivity. Qed.

Lemma mbind_assoc {X Y Z : Type} (m : M A X) (k : X -> M A Y) (h : Y -> M A Z) g :
  mbind (mbind m k) h g = mbind m (fun x => mbind (k x) h) g.
Proof. unfold mbind. by destruct (m g) as [[x g1]|e]. Qed.

Lemma random_sample_cons u us cs :
  random_sample (Rng cs (u :: us)) = Ok (u, Rng cs us).
Proof. reflexivity. Qed.

Lemma uniform_cons lo hi u us cs :
  uniform lo hi (Rng cs (u :: us)) = Ok (sadd lo (smul (ssub hi lo) u), Rng cs us).
Proof. reflexivity. Qed.

(** With proper bounds, a uniform draw from a well-formed tape falls in
    [[lo, hi]]. *)
Lemma uniform_range lo hi g x g' :
  tape_wf g -> sle lo hi -> uniform lo hi g = Ok (x, g') ->
  sle lo x /\ sle x hi /\ tape_wf g'.
Proof.
  intros Hwf Hle Hu. destruct g as [cs [|u us]]; [discriminate |].
  rewrite uniform_cons in Hu. inv Hu. inv Hwf. cbn in *.
  destruct H2 as [H0 H1]. repeat split; [scalar_nra | scalar_nra | done].
Qed.

Lemma uniform_array_S lo hi n u us cs :
  uniform_array lo hi (S n) (Rng cs (u :: us))
  = match uniform_array lo hi n (Rng cs us) with
    | Ok (xs, g') => Ok (sadd lo (smul (ssub hi lo) u) :: xs, g')
    | Raise e => Raise e
    end.
Proof.
  cbn [uniform_array]. unfold mbind at 1. rewrite uniform_cons.
  unfold mbind. by destruct (uniform_array lo hi n _) as [[xs g']|e].
Qed.

(** An array draw consumes exactly [n] variates and no count. *)
Lemma uniform_array_spec lo hi n g :
  n <= length (unifs g) ->
  uniform_array lo hi n g
  = Ok (map (fun u => sadd lo (smul (ssub hi lo) u)) (take n (unifs g)),
        Rng (counts g) (drop n (unifs g))).
Proof.
  revert g. induction n as [|n IH]; intros [cs us] Hn.
  - reflexivity.
  - destruct us as [|u us]; [cbn in Hn; lia |].
    rewrite uniform_array_S, IH by (cbn in *; lia). reflexivity.
Qed.

Lemma uniform_array_starved lo hi n g :
  length (unifs g) < n -> uniform_array lo hi n g = Raise TapeEnd.
Proof.
  revert g. induction n as [|n IH]; intros [cs us] Hn; [cbn in Hn; lia |].
  destruct us as [|u us]; [done |].
  rewrite uniform_array_S, IH by (cbn in *; lia). reflexivity.
Qed.

Lemma uniform_array_inv lo hi n g xs g' :
  uniform_array lo hi n g = Ok (xs, g') ->
  n <= length (unifs g)
  /\ xs = map (fun u => sadd lo (smul (ssub hi lo) u)) (take n (unifs g))
  /\ g' = Rng (counts g) (drop n (unifs g)).
Proof.
  intros Hu. destruct (le_lt_dec n (length (unifs g))) as [Hn|Hn].
  - rewrite uniform_array_spec in Hu by done. by inv Hu.
  - rewrite uniform_array_starved in Hu by done. discriminate.
Qed.

(** The affine image of a unit variate lies between proper bounds. *)
Lemma scale_in_interval lo hi u :
  sle lo hi -> sle s0 u /\ slt u s1 ->
  sle lo (sadd lo (smul (ssub hi lo) u)) /\ sle (sadd lo (smul (ssub hi lo) u)) hi.
Proof. intros Hle [H0 H1]. split; scalar_nra. Qed.

Lemma poisson_negative lam g : slt lam s0 -> poisson lam g = Raise ValueError.
Proof. intros Hl. unfold poisson. by rewrite (proj2 (sltb_true _ _) Hl). Qed.

Lemma poisson_pop lam cs us :
  sle s0 lam -> poisson lam (Rng cs us) = match cs with
                                          | [] => Raise TapeEnd
                                          | n :: cs' => Ok (n, Rng cs' us)
                                          end.
Proof. intros Hl. unfold poisson. by rewrite (proj2 (sltb_false _ _) Hl). Qed.

Lemma poisson_inv lam g n g' :
  poisson lam g = Ok (n, g') ->
  sle s0 lam /\ counts g = n :: counts g' /\ unifs g' = unifs g.
Proof.
  unfold poisson. destruct (sltb lam s0) eqn:E; [discriminate |].
  apply sltb_false in E. destruct g as [[|n' cs] us]; [discriminate |].
  by intros [= <- <-].
Qed.

Lemma uniform_array_length lo hi n g xs g' :
  uniform_array lo hi n g = Ok (xs, g') -> length xs = n.
Proof.
  intros Hu. destruct (le_lt_dec n (length (unifs g))) as [Hn|Hn].
  - rewrite uniform_array_spec in Hu by done. inv Hu.
    rewrite length_map, length_take. lia.
  - rewrite uniform_array_starved in Hu by done. discriminate.
Qed.

End RngLaws.
