(* ===== verification/Kernel.v ===== *)
(** * Kernel: the five excitation kernels of [src/stppg.py]

    Every kernel class exposes one method [nu(t, s, his_t, his_s)]: the
    contribution of each past event (times [his_t], an array of shape [(n,)],
    locations [his_s], of shape [(n, w)]) to the rate at time [t] and
    location [s].  The class [Kernel] is that interface; the intensity model
    is written against it.

    One module per Python class, with the class's field names and its [nu].
    The kernels evaluate [exp], [sqrt] and [pi]; they are defined over [R].
    A [nu] subtracts arrays, slices columns [0] and [1] and combines arrays
    elementwise: the shape errors numpy raises on the way are results of
    [nu], in the order the source evaluates them. *)

From Stdlib Require Import Reals Lra.
From stdpp Require Import base tactics list.
From S2P Require Import Prelude Scalar NdArray.

Local Open Scope res_scope.
Local Open Scope R_scope.

(** The capability shared by all kernels, over scalars [A]. *)
Class Kernel (A K : Type) : Type := {
  nu : K -> A -> list A -> list A -> mat A -> res (npval A)
}.

(** [delta_s = s - his_s; delta_x = delta_s[:, 0]; delta_y = delta_s[:, 1]]:
    the offsets of [s] from every past location, as pairs. *)
Definition spatial_deltas (s : list R) (his_s : mat R) : res (list (R * R)) :=
  delta_s <- row_minus_mat s his_s;;
  delta_x <- column 0 delta_s;;
  delta_y <- column 1 delta_s;;
  Ok (zip delta_x delta_y).

(** [delta_t = t - his_t]. *)
Definition time_deltas (t : R) (his_t : list R) : list R :=
  map (fun h => t - h) his_t.

Module StdDiffusionKernel.

Record t : Type := Build { C : R; beta : R; sigma_x : R; sigma_y : R }.

(** [__init__(C=1., beta=1., sigma_x=1., sigma_y=1.)]. *)
Definition default : t := Build 1 1 1 1.

(** The value of the kernel for one past event at offsets [(dt, dx, dy)]. *)
Definition val (k : t) (dt dx dy : R) : R :=
  exp (- beta k * dt)
  * (C k / (2 * PI * sigma_x k * sigma_y k * dt))
  * exp ((-1 / (2 * dt))
         * ((Rsqr dx / Rsqr (sigma_x k)) + (Rsqr dy / Rsqr (sigma_y k)))).

Definition nu (k : t) (t0 : R) (s : list R) (his_t : list R) (his_s : mat R)
  : res (npval R) :=
  dxy <- spatial_deltas s his_s;;
  rmap NArray
    (bcast2 (fun dt d => val k dt (fst d) (snd d)) (time_deltas t0 his_t) dxy).

End StdDiffusionKernel.

Module GaussianDiffusionKernel.

Record t : Type := Build {
  C : R; beta : R; mu_x : R; mu_y : R; sigma_x : R; sigma_y : R; rho : R
}.

(** [__init__(mu_x=0., mu_y=0., sigma_x=1., sigma_y=1., rho=0., beta=1., C=1.)]. *)
Definition default : t := Build 1 1 0 0 1 1 0.

Definition val (k : t) (dt dx dy : R) : R :=
  exp (- beta k * dt)
  * (C k / (2 * PI * sigma_x k * sigma_y k * dt * sqrt (1 - Rsqr (rho k))))
  * exp ((-1 / (2 * dt * (1 - Rsqr (rho k))))
         * ((Rsqr (dx - mu_x k) / Rsqr (sigma_x k))
            + (Rsqr (dy - mu_y k) / Rsqr (sigma_y k))
            - (2 * rho k * (dx - mu_x k) * (dy - mu_y k)
               / (sigma_x k * sigma_y k)))).

Definition nu (k : t) (t0 : R) (s : list R) (his_t : list R) (his_s : mat R)
  : res (npval R) :=
  dxy <- spatial_deltas s his_s;;
  rmap NArray
    (bcast2 (fun dt d => val k dt (fst d) (snd d)) (time_deltas t0 his_t) dxy).

End GaussianDiffusionKernel.

Module SpatialVariantGaussianDiffusionKernel.

(** The spread parameters are functions of the past event's own location.
    The source calls each of them once, on the two coordinate columns
    [his_s[:, 0]] and [his_s[:, 1]]; here a parameter is a function of one
    location, applied to each past event.  The two agree for the functions
    that act elementwise on arrays (the defaults, and every arithmetic
    expression of the two arguments); a function that mixes the rows of
    its arguments is outside the model. *)
Record t : Type := Build {
  C : R; beta : R;
  mu_x : R -> R -> R; mu_y : R -> R -> R;
  sigma_x : R -> R -> R; sigma_y : R -> R -> R;
  rho : R -> R -> R
}.

(** The defaults of [__init__]: constant functions. *)
Definition default : t :=
  Build 1 1 (fun _ _ => 0) (fun _ _ => 0) (fun _ _ => 1) (fun _ _ => 1)
        (fun _ _ => 0).

(** The value for one past event located at [(hx, hy)]. *)
Definition val (k : t) (dt dx dy hx hy : R) : R :=
  exp (- beta k * dt)
  * (C k / (2 * PI * sigma_x k hx hy * sigma_y k hx hy * dt
            * sqrt (1 - Rsqr (rho k hx hy))))
  * exp ((-1 / (2 * dt * (1 - Rsqr (rho k hx hy))))
         * ((Rsqr (dx - mu_x k hx hy) / Rsqr (sigma_x k hx hy))
            + (Rsqr (dy - mu_y k hx hy) / Rsqr (sigma_y k hx hy))
            - (2 * rho k hx hy * (dx - mu_x k hx hy) * (dy - mu_y k hx hy)
               / (sigma_x k hx hy * sigma_y k hx hy)))).

Definition nu (k : t) (t0 : R) (s : list R) (his_t : list R) (his_s : mat R)
  : res (npval R) :=
  dxy <- spatial_deltas s his_s;;
  hx <- column 0 his_s;;
  hy <- column 1 his_s;;
  rmap NArray
    (bcast2 (fun dt d => val k dt (fst (fst d)) (snd (fst d))
                              (fst (snd d)) (snd (snd d)))
            (time_deltas t0 his_t) (zip dxy (zip hx hy))).

End SpatialVariantGaussianDiffusionKernel.

(** ** The base kernels as instances of the interface *)

#[export] Instance std_diffusion_kernel : Kernel R StdDiffusionKernel.t :=
  {| nu := StdDiffusionKernel.nu |}.

#[export] Instance gaussian_diffusion_kernel : Kernel R GaussianDiffusionKernel.t :=
  {| nu := GaussianDiffusionKernel.nu |}.

#[export] Instance spatial_variant_kernel :
  Kernel R SpatialVariantGaussianDiffusionKernel.t :=
  {| nu := SpatialVariantGaussianDiffusionKernel.nu |}.

(** ** Mixtures

    Both mixture classes hold the same fields ([gdks], [n_comp], [w]) and
    run the same loop over their components:
    [nu = 0; for k in range(n_comp): nu += w[k] * gdks[k].nu(...)].
    They differ in the class of their components, which [__init__] builds.
    [Mixture] is that common part, over any scalar type and any component
    kernel; the two classes are its instances with their constructors. *)

Module Mixture.

Record t (A K : Type) : Type := Build {
  gdks : list K;
  n_comp : nat;
  w : list A
}.

Arguments Build {A K} gdks n_comp w.
Arguments gdks {A K} _.
Arguments n_comp {A K} _.
Arguments w {A K} _.

Section Nu.
Context {A K : Type} `{Scalar A} `{!Kernel A K}.

(** The loop body for the indices [ks] still to visit, from the running
    total [acc]. *)
Fixpoint loop (m : t A K) (t0 : A) (s his_t : list A) (his_s : mat A)
    (ks : list nat) (acc : npval A) : res (npval A) :=
  match ks with
  | [] => Ok acc
  | k :: ks' =>
      wk <- index (w m) k;;
      g <- index (gdks m) k;;
      v <- nu g t0 s his_t his_s;;
      acc' <- np_add acc (np_scale wk v);;
      loop m t0 s his_t his_s ks' acc'
  end.

Definition nu (m : t A K) (t0 : A) (s his_t : list A) (his_s : mat A)
  : res (npval A) :=
  loop m t0 s his_t his_s (seq 0 (n_comp m)) (NScalar s0).

End Nu.

End Mixture.

#[export] Instance mixture_kernel {A K : Type} `{Scalar A} `{!Kernel A K}
  : Kernel A (Mixture.t A K) :=
  {| nu := Mixture.nu |}.

(** A mixture needs no component to be a kernel: the type without
    inhabitants is a (vacuous) kernel over every scalar type, and the
    mixture over it with [n_comp = 0] is the kernel that contributes
    nothing. *)
#[export] Instance no_kernel {A : Type} : Kernel A Empty_set :=
  {| nu := fun (k : Empty_set) => match k with end |}.

Module GaussianMixtureDiffusionKernel.

Definition t : Type := Mixture.t R GaussianDiffusionKernel.t.

(** [__init__]: component [k] takes entry [k] of every parameter list. *)
Definition init (n_comp : nat) (w mu_x mu_y sigma_x sigma_y rho : list R)
    (beta C : R) : res t :=
  gdks <- rtraverse (fun k =>
            mx <- index mu_x k;;
            my <- index mu_y k;;
            sx <- index sigma_x k;;
            sy <- index sigma_y k;;
            r <- index rho k;;
            Ok (GaussianDiffusionKernel.Build C beta mx my sx sy r))
          (seq 0 n_comp);;
  Ok (Mixture.Build gdks n_comp w).

(** [nu]: the loop over the components. *)
Definition nu (m : t) (t0 : R) (s his_t : list R) (his_s : mat R)
  : res (npval R) :=
  Mixture.nu m t0 s his_t his_s.

End GaussianMixtureDiffusionKernel.

Module SpatialVariantGaussianMixtureDiffusionKernel.

Definition t : Type := Mixture.t R SpatialVariantGaussianDiffusionKernel.t.

Definition init (n_comp : nat) (w : list R)
    (f_mu_x f_mu_y f_sigma_x f_sigma_y f_rho : list (R -> R -> R))
    (beta C : R) : res t :=
  gdks <- rtraverse (fun k =>
            mx <- index f_mu_x k;;
            my <- index f_mu_y k;;
            sx <- index f_sigma_x k;;
            sy <- index f_sigma_y k;;
            r <- index f_rho k;;
            Ok (SpatialVariantGaussianDiffusionKernel.Build C beta mx my sx sy r))
          (seq 0 n_comp);;
  Ok (Mixture.Build gdks n_comp w).

(** [nu]: the loop over the components. *)
Definition nu (m : t) (t0 : R) (s his_t : list R) (his_s : mat R)
  : res (npval R) :=
  Mixture.nu m t0 s his_t his_s.

End SpatialVariantGaussianMixtureDiffusionKernel.
