(* ===== verification/Intensity.v ===== *)
(** * Intensity: the conditional intensity of the Hawkes process

    The class [HawkesLam] of [src/stppg.py] holds a background rate [mu], a
    kernel and a declared upper bound [maximum].  [value] is the rate at
    [(t, s)] given the history: [mu] alone when the history is empty,
    otherwise [mu] plus the sum of the kernel's contributions.

    The sampler calls [lam.value] and [lam.upper_bound] on whatever object
    it was built with: the class [Intensity] is that interface, and
    [HawkesLam] is its instance for any [Kernel]. *)

From Stdlib Require Import Reals Lra.
From stdpp Require Import base tactics list strings.
From S2P Require Import Prelude Scalar NdArray Kernel.

Local Open Scope res_scope.

(** What the sampler requires of [self.lam]. *)
Class Intensity (A L : Type) : Type := {
  value : L -> A -> list A -> list A -> mat A -> res A;
  upper_bound : L -> A
}.

Module HawkesLam.

Record t (A K : Type) : Type := Build { mu : A; kernel : K; maximum : A }.

Arguments Build {A K} mu kernel maximum.
Arguments mu {A K} _.
Arguments kernel {A K} _.
Arguments maximum {A K} _.

Section Methods.
Context {A K : Type} `{Scalar A} `{!Kernel A K}.

(** [value(t, his_t, s, his_s)]. *)
Definition value (lam : t A K) (t0 : A) (his_t : list A) (s : list A)
    (his_s : mat A) : res A :=
  if 0 <? length his_t then
    v <- nu (kernel lam) t0 s his_t his_s;;
    Ok (sadd (mu lam) (np_sum v))
  else Ok (mu lam).

(** [upper_bound()]. *)
Definition upper_bound (lam : t A K) : A := maximum lam.

End Methods.

(** [__str__()]: the name the sampler prints in its log. *)
Definition str {A K : Type} (lam : t A K) : string :=
  "Hawkes processes"%string.

End HawkesLam.

#[export] Instance hawkes_intensity {A K : Type} `{Scalar A} `{!Kernel A K}
  : Intensity A (HawkesLam.t A K) :=
  {| value := HawkesLam.value; upper_bound := HawkesLam.upper_bound |}.

(** ** Behaviour of [value] *)

Section HawkesLaws.
Context {A K : Type} `{Scalar A} `{!Kernel A K}.
Implicit Types (lam : HawkesLam.t A K) (his_t s : list A) (his_s : mat A).

(** With no history the intensity is the background rate, and the kernel is
    not consulted. *)
Lemma value_empty_history lam t0 s his_s :
  HawkesLam.value lam t0 [] s his_s = Ok (HawkesLam.mu lam).
Proof. reflexivity. Qed.

(** With a history the intensity is the background rate plus the sum of the
    kernel's contributions. *)
Lemma value_nonempty_history lam t0 his_t s his_s v :
  his_t <> [] ->
  nu (HawkesLam.kernel lam) t0 s his_t his_s = Ok v ->
  HawkesLam.value lam t0 his_t s his_s = Ok (sadd (HawkesLam.mu lam) (np_sum v)).
Proof.
  intros Hne Hv. unfold HawkesLam.value. destruct his_t; [done |].
  cbn [length Nat.ltb Nat.leb]. by rewrite Hv.
Qed.

(** An exception of the kernel surfaces unchanged. *)
Lemma value_kernel_raises lam t0 his_t s his_s e :
  his_t <> [] ->
  nu (HawkesLam.kernel lam) t0 s his_t his_s = Raise e ->
  HawkesLam.value lam t0 his_t s his_s = Raise e.
Proof.
  intros Hne Hv. unfold HawkesLam.value. destruct his_t; [done |].
  cbn [length Nat.ltb Nat.leb]. by rewrite Hv.
Qed.

End HawkesLaws.
