(* ===== verification/Sampler.v ===== *)
(** * Sampler: the two-stage generation with thinning

    The class [SpatialTemporalPointProcess] of [src/stppg.py]:

    - [homogeneous_poisson_sampling] draws the proposal pool: a Poisson
      count with mean [upper_bound * volume], that many uniform points of
      the box [[T] + S], sorted by time;
    - [inhomogeneous_poisson_thinning] walks the pool in order and keeps a
      proposal when the intensity given the points kept so far reaches a
      fresh uniform fraction of the bound; an intensity above the bound
      aborts the walk (the Python method returns [None]);
    - [generate] repeats the two stages until [batch_size] sequences of at
      least [min_n_points] points are collected, then packs them into a
      zero-padded tensor of shape [(batch_size, max_len, 3)].

    The [while] loop of [generate] has no bound in the source.  The model
    unrolls it at most [fuel] times and raises [OutOfFuel] beyond; the
    theorems on termination say which fuel is enough.

    The [print] statements are left out of these definitions; [Log] gives
    the methods with them, and [LogLaws] proves that erasing the output
    gives these definitions back.  One message computes something that can
    fail: under [verbose] the progress message evaluates
    [i % int(N / 10)], which raises [ZeroDivisionError] for pools of fewer
    than ten proposals; [monitor] is that evaluation. *)

From Stdlib Require Import Reals Lra ZArith.
From stdpp Require Import base tactics list sorting.
From S2P Require Import Prelude Scalar NdArray ArgSort Region Rng Intensity.

Local Open Scope rng_scope.

(** The class itself: [__init__(self, lam)] stores the intensity and does
    nothing else.  The methods read nothing of [self] but [self.lam]: the
    definitions below take that field as their first argument. *)
Module SpatialTemporalPointProcess.

Record t (L : Type) : Type := init { lam : L }.

Arguments init {L} lam.
Arguments lam {L} _.

End SpatialTemporalPointProcess.

Section Sampler.
Context {A : Type} `{ArgSort A} {L : Type} `{!Intensity A L}.

(** ** Stage 1: the homogeneous proposal pool *)

Definition homogeneous_poisson_sampling (lam : L) (T : interval A)
    (S : list (interval A)) : M A (mat A) :=
  let _S := time_space T S in
  let n := lebesgue_measure _S in
  N <- poisson (smul (upper_bound lam) n);;
  points <- mtraverse (fun iv => uniform_array (lo iv) (hi iv) N) _S;;
  lift (sort_by_time (from_columns N points)).

(** ** Stage 2: thinning *)

(** The progress message of the loop body, reduced to the arithmetic that
    can fail: [verbose and i != 0 and i % int(N / 10) == 0]. *)
Definition monitor (verbose : bool) (i N : nat) : res unit :=
  if verbose && negb (i =? 0) then
    if N / 10 =? 0 then Raise ZeroDivisionError else Ok tt
  else Ok tt.

(** One iteration of the loop on proposal [i], from the retained points so
    far to the retained points after it; [None] is the early [return None]
    on a bound violation. *)
Definition thin_step (lam : L) (verbose : bool) (homo_points : mat A)
    (i : nat) (retained_points : mat A) : M A (option (mat A)) :=
  p <- lift (index_row homo_points i);;
  t <- lift (index p 0);;
  let s := drop 1 p in
  his_t <- lift (column 0 retained_points);;
  let his_s := columns_from 1 retained_points in
  lam_value <- lift (value lam t his_t s his_s);;
  let lam_bar := upper_bound lam in
  D <- uniform s0 s1;;
  if sltb lam_bar lam_value then mret None
  else
    retained' <- (if sleb (smul D lam_bar) lam_value
                  then lift (rbind (row_mat homo_points i)
                                   (concatenate0 retained_points))
                  else mret retained_points);;
    _ <- lift (monitor verbose i (nrows homo_points));;
    mret (Some retained').

(** The loop over the indices [todo] still to visit. *)
Fixpoint thin_loop (lam : L) (verbose : bool) (homo_points : mat A)
    (todo : list nat) (retained_points : mat A) : M A (option (mat A)) :=
  match todo with
  | [] => mret (Some retained_points)
  | i :: todo' =>
      r <- thin_step lam verbose homo_points i retained_points;;
      match r with
      | None => mret None
      | Some retained' => thin_loop lam verbose homo_points todo' retained'
      end
  end.

Definition inhomogeneous_poisson_thinning (lam : L) (homo_points : mat A)
    (verbose : bool) : M A (option (mat A)) :=
  thin_loop lam verbose homo_points (seq 0 (nrows homo_points))
            (empty_mat (ncols homo_points)).

(** ** Batching *)

(** The local variables of [generate]. *)
Record gen_state : Type := GenState {
  points_list : list (mat A);
  sizes : list nat;
  max_len : nat;
  b : nat
}.

Definition gen_init : gen_state := GenState [] [] 0 0.

(** The state after a sequence [points] passed the acceptance test. *)
Definition gen_record (st : gen_state) (points : mat A) : gen_state :=
  GenState (points_list st ++ [points])
           (sizes st ++ [nrows points])
           (if max_len st <? nrows points then nrows points else max_len st)
           (Datatypes.S (b st)).

(** [points is None or len(points) < min_n_points]. *)
Definition rejected (min_n_points : Z) (points : option (mat A)) : bool :=
  match points with
  | None => true
  | Some pts => (Z.of_nat (nrows pts) <? min_n_points)%Z
  end.

(** [while b < batch_size: ...], unrolled at most [fuel] times. *)
Fixpoint generate_loop (fuel : nat) (lam : L) (T : interval A)
    (S : list (interval A)) (batch_size min_n_points : Z) (verbose : bool)
    (st : gen_state) : M A gen_state :=
  if (Z.of_nat (b st) <? batch_size)%Z then
    match fuel with
    | 0 => mraise OutOfFuel
    | Datatypes.S fuel' =>
        homo_points <- homogeneous_poisson_sampling lam T S;;
        points <- inhomogeneous_poisson_thinning lam homo_points verbose;;
        if rejected min_n_points points
        then generate_loop fuel' lam T S batch_size min_n_points verbose st
        else match points with
             | Some pts => generate_loop fuel' lam T S batch_size min_n_points
                                         verbose (gen_record st pts)
             | None => generate_loop fuel' lam T S batch_size min_n_points
                                     verbose st
             end
    end
  else mret st.

(** [data = np.zeros((batch_size, max_len, 3))] and the loop that copies
    sequence [b] into [data[b, :len]]. *)
Definition pack (batch_size : Z) (st : gen_state) : res (list (mat A)) :=
  if (batch_size <? 0)%Z then Raise ValueError
  else
    rtraverse (fun k =>
                 rbind (index (points_list st) k) (fun pts =>
                 assign_rows (zeros (max_len st) 3) (nrows pts) pts))
              (seq 0 (Z.to_nat batch_size)).

Definition generate (fuel : nat) (lam : L) (T : interval A)
    (S : list (interval A)) (batch_size min_n_points : Z) (verbose : bool)
    : M A (list (mat A) * list nat) :=
  st <- generate_loop fuel lam T S batch_size min_n_points verbose gen_init;;
  data <- lift (pack batch_size st);;
  mret (data, sizes st).

(** The default arguments of [generate]: [T=[0, 1]],
    [S=[[0, 1], [0, 1]]], [batch_size=10], [min_n_points=5] and
    [verbose=True].  [generate_default] is the call [generate()]. *)
Definition default_T : interval A := (sofZ 0, sofZ 1).
Definition default_S : list (interval A) :=
  [(sofZ 0, sofZ 1); (sofZ 0, sofZ 1)].

Definition generate_default (fuel : nat) (lam : L)
    : M A (list (mat A) * list nat) :=
  generate fuel lam default_T default_S 10 5 true.

End Sampler.

Arguments gen_state A : clear implicits.
