(* ===== verification/Log.v ===== *)
(** * Log: what the sampler prints

    The methods of [SpatialTemporalPointProcess] print to [sys.stderr]:
    under [verbose] the size of the proposal pool, a progress line every
    [int(N / 10)] proposals and the size of the thinned sequence; always,
    the intensity that exceeded the bound, and one line per sequence that
    [generate] accepts.

    The definitions of [Sampler] leave the printing out.  This file gives
    the same methods with it: a computation [LM X] returns what it printed
    beside its result, and what was printed before an exception stays
    printed.  A [message] holds the values a line is formatted from; the
    time stamp [arrow.now()] that starts most lines is not part of it.
    [LogLaws] proves that erasing the output gives the definitions of
    [Sampler] back. *)

From Stdlib Require Import Reals Lra ZArith.
From stdpp Require Import base tactics list strings.
From S2P Require Import Prelude Scalar NdArray ArgSort Region Rng Intensity Sampler.

Declare Scope log_scope.
Delimit Scope log_scope with log.

(** [str(self.lam)], as the last line of the thinning formats it. *)
Class Str (L : Type) : Type := str : L -> string.

#[export] Instance hawkes_str {A K : Type} : Str (HawkesLam.t A K) :=
  HawkesLam.str.

Section Messages.
Context {A : Type}.

(** One line on [sys.stderr], by the statement that prints it. *)
Inductive message : Type :=
| Proposed (shape : nat * nat)
| Exceeds (lam_value lam_bar : A)
| Checked (i retained : nat)
| Thinned (shape : nat * nat) (lam : string)
| Generated (b : nat).

(** A computation that draws, may raise, and prints. *)
Definition LM (X : Type) : Type := rng A -> list message * res (X * rng A).

Definition lret {X : Type} (x : X) : LM X := fun g => ([], Ok (x, g)).

Definition lbind {X Y : Type} (m : LM X) (k : X -> LM Y) : LM Y :=
  fun g => match m g with
           | (out, Ok (x, g')) => let r := k x g' in (out ++ r.1, r.2)
           | (out, Raise e) => (out, Raise e)
           end.

(** [print(..., file=sys.stderr)]. *)
Definition print (msg : message) : LM unit := fun g => ([msg], Ok (tt, g)).

(** A computation that prints nothing. *)
Definition silent {X : Type} (m : M A X) : LM X := fun g => ([], m g).

(** The result without the output, and the output. *)
Definition erase {X : Type} (m : LM X) : M A X := fun g => (m g).2.
Definition stderr {X : Type} (m : LM X) (g : rng A) : list message := (m g).1.

(** [array.shape] of a two-dimensional array. *)
Definition shape (m : mat A) : nat * nat := (nrows m, ncols m).

End Messages.

Arguments message A : clear implicits.
Arguments LM A X : clear implicits.

Notation "x <- m ;; k" := (lbind m (fun x => k))
  (at level 100, m at next level, right associativity) : log_scope.

Local Open Scope log_scope.

Section Logged.
Context {A : Type} `{ArgSort A} {L : Type} `{!Intensity A L} `{!Str L}.

(** The progress line of the loop body:
    [if verbose and i != 0 and i % int(N / 10) == 0: print(...)]. *)
Definition monitor_log (verbose : bool) (i N retained : nat) : LM A unit :=
  if verbose && negb (i =? 0) then
    if N / 10 =? 0 then silent (mraise ZeroDivisionError)
    else if i mod (N / 10) =? 0 then print (Checked i retained)
    else lret tt
  else lret tt.

(** One iteration of the thinning loop, with its two [print]s. *)
Definition thin_step_log (lam : L) (verbose : bool) (homo_points : mat A)
    (i : nat) (retained_points : mat A) : LM A (option (mat A)) :=
  p <- silent (lift (index_row homo_points i));;
  t <- silent (lift (index p 0));;
  let s := drop 1 p in
  his_t <- silent (lift (column 0 retained_points));;
  let his_s := columns_from 1 retained_points in
  lam_value <- silent (lift (value lam t his_t s his_s));;
  let lam_bar := upper_bound lam in
  D <- silent (uniform s0 s1);;
  if sltb lam_bar lam_value then
    _ <- print (Exceeds lam_value lam_bar);;
    lret None
  else
    retained' <- silent (if sleb (smul D lam_bar) lam_value
                         then lift (rbind (row_mat homo_points i)
                                          (concatenate0 retained_points))
                         else mret retained_points);;
    _ <- monitor_log verbose i (nrows homo_points) (nrows retained');;
    lret (Some retained').

Fixpoint thin_loop_log (lam : L) (verbose : bool) (homo_points : mat A)
    (todo : list nat) (retained_points : mat A) : LM A (option (mat A)) :=
  match todo with
  | [] => lret (Some retained_points)
  | i :: todo' =>
      r <- thin_step_log lam verbose homo_points i retained_points;;
      match r with
      | None => lret None
      | Some retained' => thin_loop_log lam verbose homo_points todo' retained'
      end
  end.

(** [if verbose: print(...)]. *)
Definition print_if (verbose : bool) (msg : message A) : LM A unit :=
  if verbose then print msg else lret tt.

(** [_inhomogeneous_poisson_thinning(homo_points, verbose)]: the size of
    the pool before the loop, the size of the result after it; the early
    [return None] skips the last line. *)
Definition inhomogeneous_poisson_thinning_log (lam : L) (homo_points : mat A)
    (verbose : bool) : LM A (option (mat A)) :=
  _ <- print_if verbose (Proposed (shape homo_points));;
  r <- thin_loop_log lam verbose homo_points (seq 0 (nrows homo_points))
         (empty_mat (ncols homo_points));;
  match r with
  | None => lret None
  | Some retained_points =>
      _ <- print_if verbose (Thinned (shape retained_points) (str lam));;
      lret (Some retained_points)
  end.

(** The loop of [generate]: every accepted sequence is announced with its
    number [b + 1], whatever [verbose] is. *)
Fixpoint generate_loop_log (fuel : nat) (lam : L) (T : interval A)
    (S : list (interval A)) (batch_size min_n_points : Z) (verbose : bool)
    (st : gen_state A) : LM A (gen_state A) :=
  if (Z.of_nat (b st) <? batch_size)%Z then
    match fuel with
    | 0 => silent (mraise OutOfFuel)
    | Datatypes.S fuel' =>
        homo_points <- silent (homogeneous_poisson_sampling lam T S);;
        points <- inhomogeneous_poisson_thinning_log lam homo_points verbose;;
        if rejected min_n_points points
        then generate_loop_log fuel' lam T S batch_size min_n_points verbose st
        else match points with
             | Some pts =>
                 _ <- print (Generated (Datatypes.S (b st)));;
                 generate_loop_log fuel' lam T S batch_size min_n_points
                                   verbose (gen_record st pts)
             | None => generate_loop_log fuel' lam T S batch_size min_n_points
                                         verbose st
             end
    end
  else lret st.

Definition generate_log (fuel : nat) (lam : L) (T : interval A)
    (S : list (interval A)) (batch_size min_n_points : Z) (verbose : bool)
    : LM A (list (mat A) * list nat) :=
  st <- generate_loop_log fuel lam T S batch_size min_n_points verbose gen_init;;
  data <- silent (lift (pack batch_size st));;
  lret (data, sizes st).

End Logged.
