(* ===== verification/Plot.v ===== *)
(** * Plot: what the plotting functions compute

    The two functions at the end of [src/stppg.py] draw an intensity given
    the events of one sequence.  This file holds what they compute; the
    functions with their calls to matplotlib are in [Draw].  What they
    compute before drawing is:

    - [space_grid]: the grid [ss] of [ngrid] samples per space dimension;
    - [history], [past]: the events with [0 < t < plot_ts], i.e. the rows of
      [points] that are neither padding nor in the future;
    - [evaluate]: the intensity at a time over the whole grid;
    - [unit_vol] and the Riemann sum [integral], [density]: the values
      [f = lambda * exp(-integral)];
    - [image], [tick_labels]: the arrays handed to [imshow] and the axis
      labels, with their shape and index errors.

    [plot_3d_pointprocess_lam_f] composes them in the order of the source
    and returns the two images.  [plot_3d_pointprocess_avg_lam] refers to two
    names that the module never binds ([tqdm] and, in its helper
    [lamval_at_t], [plot_ts]); the model raises [NameError] where Python
    does.

    The division by [(ngrid - 1) ** 3] is a floating-point division: for
    [ngrid = 1] numpy yields an infinity or a NaN and goes on.  So does
    the model: [unit_vol], [integral] and the values of the density are
    floats of [Float], finite whenever [ngrid] is not one. *)

From Stdlib Require Import ZArith Lia Reals Lra List.
From stdpp Require Import base tactics list.
From S2P Require Import Prelude Scalar Float NdArray Grid Region Intensity.

Local Open Scope res_scope.

Section Plot.
Context {A : Type} `{Scalar A} {L : Type} `{!Intensity A L}.

(** [ss]: one [linspace] per side of [S], then their product. *)
Definition space_grid (S : list (interval A)) (ngrid : Z)
  : res (list (list A)) :=
  axes <- rtraverse (fun S_k => linspace (lo S_k) (hi S_k) ngrid) S;;
  Ok (product axes).

(** [his_p = points[(points[:, 0] < plot_ts) * (points[:, 0] > 0)]]: the
    product of the two boolean arrays is their conjunction. *)
Definition history (points : mat A) (plot_ts : A) : res (mat A) :=
  t <- column 0 points;;
  let mask := zip_with andb (map (fun x => sltb x plot_ts) t)
                            (map (fun x => sltb s0 x) t) in
  boolean_index points mask.

(** [his_t] and [his_s]: the times and the locations of the history. *)
Definition past (points : mat A) (plot_ts : A) : res (list A * mat A) :=
  his_p <- history points plot_ts;;
  his_t <- column 0 his_p;;
  Ok (his_t, columns_from 1 his_p).

(** [[lam.value(t, his_t, s, his_s) for s in ss]]. *)
Definition evaluate (lam : L) (t : A) (his_t : list A) (his_s : mat A)
    (ss : list (list A)) : res (list A) :=
  rtraverse (fun s => value lam t his_t s his_s) ss.

(** [last_t = his_t[-1] if len(his_t) > 0 else 0.]. *)
Definition last_time (his_t : list A) : A := default s0 (last his_t).

(** [unit_vol]: the volume of the box between [last_t] and [plot_ts] over
    [S], divided by [(ngrid - 1) ** 3]. *)
Definition unit_vol (plot_ts last_t : A) (S : list (interval A)) (ngrid : Z)
  : float A :=
  fdiv (np_prod (ssub plot_ts last_t :: map width S)) ((ngrid - 1) ^ 3).

(** [integral = np.sum(lamvals) * unit_vol], for the values collected time
    by time. *)
Definition integral (lamvals : list (list A)) (vol : float A) : float A :=
  fmul (ssum (concat lamvals)) vol.

(** [fvals = evals * np.exp(-integral)]. *)
Definition density (evals : list A) (integral : float A) : list (float R) :=
  map (fun e => fscale e (fexp_neg integral)) evals.

(** The labels of the two axes: [S[0]] and [S[1]]. *)
Definition tick_labels (S : list (interval A)) : res (interval A * interval A) :=
  match S !! 0, S !! 1 with
  | Some x, Some y => Ok (x, y)
  | _, _ => Raise IndexError
  end.

(** What is drawn: the intensity and the density on the grid, and the axis
    labels. *)
Record figure : Type := Figure {
  lam_image : mat A;
  f_image : mat (float R);
  xticks : interval A;
  yticks : interval A
}.

(** [plot_3d_pointprocess_lam_f(points, lam, plot_ts, T, S, ngrid)]; the
    argument [T] is not used by the source. *)
Definition plot_3d_pointprocess_lam_f (points : mat A) (lam : L) (plot_ts : A)
    (T : interval A) (S : list (interval A)) (ngrid : Z) : res figure :=
  ss <- space_grid S ngrid;;
  h <- past points plot_ts;;
  let his_t := h.1 in
  let his_s := h.2 in
  evals <- evaluate lam plot_ts his_t his_s ss;;
  let last_t := last_time his_t in
  ts <- linspace last_t plot_ts ngrid;;
  let vol := unit_vol plot_ts last_t S ngrid in
  lamvals <- rtraverse (fun t => evaluate lam t his_t his_s ss) (drop 1 ts);;
  im1 <- image ngrid evals;;
  ticks <- tick_labels S;;
  im2 <- image ngrid (density evals (integral lamvals vol));;
  Ok (Figure im1 im2 ticks.1 ticks.2).

(** The helper [lamval_at_t(t)] of [plot_3d_pointprocess_avg_lam]: its list
    comprehension evaluates [lam.value(plot_ts, ...)], and [plot_ts] is not
    bound in this function nor in the module, so the first grid point
    raises. *)
Definition lamval_at_t (points : mat A) (lam : L) (ss : list (list A))
    (t : A) : res (list A) :=
  h <- past points t;;
  match ss with
  | [] => Ok []
  | _ :: _ => Raise NameError
  end.

(** [plot_3d_pointprocess_avg_lam(points, lam, T, S, ngrid)]: after the two
    grids the comprehension starts with [tqdm(ts)], and the module does not
    import [tqdm]. *)
Definition plot_3d_pointprocess_avg_lam (points : mat A) (lam : L)
    (T : interval A) (S : list (interval A)) (ngrid : Z)
  : res (list A * list A) :=
  ts <- linspace (lo T) (hi T) ngrid;;
  ss <- space_grid S ngrid;;
  Raise NameError.

End Plot.

Arguments figure A : clear implicits.
