(* ===== verification/Draw.v ===== *)
(** * Draw: the plotting functions with their calls to matplotlib

    [Plot] holds what the two plotting functions of [src/stppg.py] compute.
    This file holds the functions as the source writes them: programs that
    compute, call matplotlib and may raise in between.  A program is an
    interaction tree whose events are the calls; a call answers with the
    handle of the object it returns ([fig], [ax1], [im]), which later calls
    take as an argument.

    - [plt.command] lists the calls the source makes, with their
      arguments;
    - [panel] is the block of eight calls that draws one image with its
      ticks, its colour bar and its title; the source writes it twice;
    - [plot_3d_pointprocess_lam_f_io] and [plot_3d_pointprocess_avg_lam_io]
      are the two functions;
    - [matplotlib answer] is the library reduced to what the theorems
      need: [answer] chooses the handle a call returns and the state the
      library is left in; a call never raises.  [record] is the library
      that keeps the calls in order and returns the position of a call as
      its handle; [drawn] runs a program against it from an empty canvas,
      and [run] runs a program against any library by evaluation, for a
      given number of steps.

    The images and the curve hold floats of [Float]: an image of the
    density is drawn also when its values are not numbers.

    [plot_3d_pointprocess_avg_lam] reads two names the module never binds,
    [tqdm] and [plot_ts].  Python looks a free name up in the namespace of
    the module when the line runs: [namespace] is the part of that
    namespace the function reads, [module_namespace] is the one of the
    module as written, in which both lookups raise [NameError]. *)

From ITree Require Import ITree ITreeFacts Events.State Events.StateFacts.
From Stdlib Require Import ZArith QArith Reals List.
From stdpp Require Import base tactics list strings.
From S2P Require Import Prelude Scalar Float NdArray Grid Region Intensity Plot.

Local Close Scope Q_scope.

Declare Scope draw_scope.
Delimit Scope draw_scope with draw.

(** The handle of an object of matplotlib. *)
Definition handle : Type := nat.

(** ** The calls *)

Module plt.

Inductive command (A : Type) : Type :=
| figure (figsize : Z * Z)
| add_subplot (fig : handle) (position : Z)
| imshow (ax : handle) (X : mat (float R)) (cmap : option string)
| set_xticks (ax : handle) (ticks : list A)
| set_xticklabels (ax : handle) (labels : list A)
| set_yticks (ax : handle) (ticks : list A)
| set_yticklabels (ax : handle) (labels : list A)
| colorbar (fig mappable ax : handle) (shrink : Q)
| set_title (ax : handle) (label : string) (arg : option A) (fontsize : Z)
| plot (ax : handle) (xs : list A) (ys : list (float A))
| scatter (ax : handle) (xs ys : list A) (c : string) (s : Z)
| show.

Arguments figure {A} figsize.
Arguments add_subplot {A} fig position.
Arguments imshow {A} ax X cmap.
Arguments set_xticks {A} ax ticks.
Arguments set_xticklabels {A} ax labels.
Arguments set_yticks {A} ax ticks.
Arguments set_yticklabels {A} ax labels.
Arguments colorbar {A} fig mappable ax shrink.
Arguments set_title {A} ax label arg fontsize.
Arguments plot {A} ax xs ys.
Arguments scatter {A} ax xs ys c s.
Arguments show {A}.

End plt.

(** A call is an event that answers with a handle. *)
Inductive pltE (A : Type) : Type -> Type :=
| Call (c : plt.command A) : pltE A handle.

Arguments Call {A} c.

(** ** Programs that call and may raise *)

Definition call {A X : Type} (c : plt.command A)
    (k : handle -> itree (pltE A) X) : itree (pltE A) X :=
  ITree.bind (ITree.trigger (Call c)) k.

Definition try {E : Type -> Type} {X Y : Type} (r : res X)
    (k : X -> itree E (res Y)) : itree E (res Y) :=
  match r with
  | Ok x => k x
  | Raise e => Ret (Raise e)
  end.

Notation "x <- c ;; k" := (call c (fun x => k))
  (at level 100, c at next level, right associativity) : draw_scope.
Notation "x <-? r ;; k" := (try r (fun x => k))
  (at level 100, r at next level, right associativity) : draw_scope.

Local Open Scope draw_scope.

Section Programs.
Context {A : Type} `{Scalar A} {L : Type} `{!Intensity A L}.

(** [S[k]]. *)
Definition side (S : list (interval A)) (k : nat) : res (interval A) :=
  match S !! k with
  | Some S_k => Ok S_k
  | None => Raise IndexError
  end.

(** An image of finite values as the array of floats [imshow] receives. *)
Definition floats (m : mat A) : mat (float R) :=
  Mat (ncols m) (map (map (fun x => Finite (toR x))) (mrows m)).

(** One image with its decoration: [add_subplot], [imshow] of the reshaped
    values, the ticks at the first and the last pixel labelled with the
    ends of [S[0]] and of [S[1]], the colour bar and the title.  The values
    are reshaped after the subplot exists, and the sides of [S] are read
    when their labels are set. *)
Definition panel (fig : handle) (position : Z) (X : res (mat (float R)))
    (cmap : option string) (S : list (interval A)) (ngrid : Z)
    (title : string) (plot_ts : A) : itree (pltE A) (res unit) :=
  ax <- plt.add_subplot fig position;;
  X <-? X;;
  im <- plt.imshow ax X cmap;;
  _ <- plt.set_xticks ax [sofZ 0; sofZ (ngrid - 1)];;
  S_0 <-? side S 0;;
  _ <- plt.set_xticklabels ax [lo S_0; hi S_0];;
  _ <- plt.set_yticks ax [sofZ 0; sofZ (ngrid - 1)];;
  S_1 <-? side S 1;;
  _ <- plt.set_yticklabels ax [lo S_1; hi S_1];;
  _ <- plt.colorbar fig im ax (4 # 5);;
  _ <- plt.set_title ax title (Some plot_ts) 18;;
  Ret (Ok tt).

(** [plot_3d_pointprocess_lam_f(points, lam, plot_ts, T, S, ngrid)]:
    everything is computed first, then the figure is made, the two panels
    are drawn and the figure is shown. *)
Definition plot_3d_pointprocess_lam_f_io (points : mat A) (lam : L)
    (plot_ts : A) (T : interval A) (S : list (interval A)) (ngrid : Z)
  : itree (pltE A) (res unit) :=
  ss <-? space_grid S ngrid;;
  h <-? past points plot_ts;;
  let his_t := fst h in
  let his_s := snd h in
  evals <-? evaluate lam plot_ts his_t his_s ss;;
  let last_t := last_time his_t in
  ts <-? linspace last_t plot_ts ngrid;;
  let vol := unit_vol plot_ts last_t S ngrid in
  lamvals <-? rtraverse (fun t => evaluate lam t his_t his_s ss) (drop 1 ts);;
  let fvals := density evals (integral lamvals vol) in
  fig <- plt.figure (12, 4)%Z;;
  ITree.bind
    (panel fig 121 (rmap floats (image ngrid evals)) None S ngrid
           "$\lambda(%.1f, \cdot)$" plot_ts)
    (fun r1 =>
  _ <-? r1;;
  ITree.bind
    (panel fig 122 (image ngrid fvals) (Some "magma"%string) S ngrid
           "$f(%.1f, \cdot)$" plot_ts)
    (fun r2 =>
  _ <-? r2;;
  _ <- plt.show;;
  Ret (Ok tt))).

(** ** The average intensity *)

(** The names [plot_3d_pointprocess_avg_lam] reads from the module:
    whether [tqdm] is bound (to the iterator that yields the elements of
    its argument), and the value of [plot_ts] if it has one. *)
Record namespace : Type := Namespace {
  tqdm : bool;
  plot_ts : option A
}.

(** The module as written binds neither. *)
Definition module_namespace : namespace := Namespace false None.

(** Reading a name. *)
Definition name {X : Type} (binding : option X) : res X :=
  match binding with
  | Some x => Ok x
  | None => Raise NameError
  end.

(** [np.mean(l)]: the sum over the number of values; the mean of no
    value is a NaN. *)
Definition np_mean (l : list A) : float A :=
  fdiv (ssum l) (Z.of_nat (length l)).

(** The helper [lamval_at_t(t)]: the history before [t], and the intensity
    over the grid, evaluated at the time [plot_ts] of the module. *)
Definition lamval_at_t_in (ns : namespace) (points : mat A) (lam : L)
    (ss : list (list A)) (t : A) : res (list A) :=
  (h <- past points t;;
   rtraverse (fun s => plot_ts <- name (plot_ts ns);;
                       value lam plot_ts (fst h) s (snd h)) ss)%res.

(** [plot_3d_pointprocess_avg_lam(points, lam, T, S, ngrid)] in a
    namespace. *)
Definition plot_3d_pointprocess_avg_lam_io (ns : namespace) (points : mat A)
    (lam : L) (T : interval A) (S : list (interval A)) (ngrid : Z)
  : itree (pltE A) (res unit) :=
  ts <-? linspace (lo T) (hi T) ngrid;;
  ss <-? space_grid S ngrid;;
  _ <-? name (if tqdm ns then Some tt else None);;
  lamvals <-? rtraverse (fun t => rmap np_mean
                                        (lamval_at_t_in ns points lam ss t)) ts;;
  fig <- plt.figure (6, 4)%Z;;
  ax1 <- plt.add_subplot fig 111;;
  _ <- plt.plot ax1 ts lamvals;;
  _ <- plt.set_xticks ax1 [lo T; hi T];;
  _ <- plt.set_xticklabels ax1 [lo T; hi T];;
  _ <- plt.set_title ax1 "Average $\lambda$" None 18;;
  let zros := replicate (nrows points) s0 in
  t <-? column 0 points;;
  _ <- plt.scatter ax1 t zros "red" 10;;
  _ <- plt.show;;
  Ret (Ok tt).

End Programs.

Arguments namespace A : clear implicits.

(** ** Matplotlib, as far as the theorems go *)

Section Matplotlib.
Context {A St : Type}.

(** The library answers a call with a handle, and remembers what it
    likes. *)
Definition library : Type := St -> plt.command A -> St * handle.

Definition matplotlib (answer : library)
  : pltE A ~> Monads.stateT St (itree void1) :=
  fun _ e st =>
    match e with
    | Call c => Ret (answer st c)
    end.

(** A program against a library, by evaluation: at most [fuel] steps. *)
Fixpoint run {X : Type} (answer : library) (fuel : nat)
    (t : itree (pltE A) X) (st : St) : option (St * X) :=
  match fuel with
  | O => None
  | S fuel =>
      match observe t with
      | RetF x => Some (st, x)
      | TauF t => run answer fuel t st
      | VisF e k =>
          match e in pltE _ T return (T -> itree (pltE A) X) -> _ with
          | Call c => fun k => run answer fuel (k (answer st c).2) (answer st c).1
          end k
      end
  end.

End Matplotlib.

Arguments library A St : clear implicits.

(** The library that keeps the calls made so far, in order; the handle of
    the object a call returns is the position of the call. *)
Definition record {A : Type} : library A (list (plt.command A)) :=
  fun log c => (log ++ [c], length log).

(** A program run from an empty canvas. *)
Definition drawn {A X : Type} (t : itree (pltE A) X)
  : itree void1 (list (plt.command A) * X) :=
  interp_state (matplotlib record) t [].
