(* ===== verification/Tape.v ===== *)
(** * Tape: computations read the random tape in sequence

    A computation of the monad [M] draws from the front of the tape and
    leaves the rest.  [Sequential m] states it: a run of [m] that returns
    splits its tape into the part it consumed and the part it left, and on
    the consumed part followed by any other rest it returns the same value
    and leaves that rest.  The property holds of the draws of [Rng], is
    kept by sequencing, branching and traversal, and therefore holds of the
    three methods of the sampler.  It is what makes a run on a finite tape
    say something about a generator that never runs dry ([Endless]). *)

From Stdlib Require Import Reals ZArith Lia.
From stdpp Require Import base tactics list.
From S2P Require Import Prelude Scalar NdArray ArgSort Region Rng Intensity Sampler.

Local Open Scope rng_scope.

Section Tape.
Context {A : Type} `{Scalar A}.
Implicit Types (g u e : rng A).

(** The tape [u] followed by the tape [g], stream by stream. *)
Definition tape_app u g : rng A :=
  Rng (counts u ++ counts g) (unifs u ++ unifs g).

Definition tape_nil : rng A := Rng [] [].

Lemma tape_app_nil_l g : tape_app tape_nil g = g.
Proof. by destruct g. Qed.

Lemma tape_app_nil_r g : tape_app g tape_nil = g.
Proof. destruct g. unfold tape_app. cbn. by rewrite !app_nil_r. Qed.

Lemma tape_app_assoc u1 u2 g :
  tape_app (tape_app u1 u2) g = tape_app u1 (tape_app u2 g).
Proof. unfold tape_app. cbn. by rewrite !app_assoc. Qed.

Lemma tape_app_length u g :
  length (counts (tape_app u g)) = length (counts u) + length (counts g)
  /\ length (unifs (tape_app u g)) = length (unifs u) + length (unifs g).
Proof. unfold tape_app. cbn. by rewrite !length_app. Qed.

(** A tape is determined by what is put in front of a given rest. *)
Lemma tape_app_inj_l u1 u2 g : tape_app u1 g = tape_app u2 g -> u1 = u2.
Proof.
  destruct u1, u2. unfold tape_app. cbn. intros [= Hc Hu].
  by apply app_inv_tail in Hc, Hu; subst.
Qed.

(** [m] reads the tape in sequence. *)
Class Sequential {X : Type} (m : M A X) : Prop :=
  sequential : forall g x g',
    m g = Ok (x, g') ->
    exists u, g = tape_app u g' /\ forall e, m (tape_app u e) = Ok (x, e).

#[export] Instance mret_sequential {X : Type} (x : X) : Sequential (mret x).
Proof.
  intros g y g' [= <- <-]. exists tape_nil.
  split; [by rewrite tape_app_nil_l |]. intros e. by rewrite tape_app_nil_l.
Qed.

#[export] Instance mraise_sequential {X : Type} (err : exn) :
  Sequential (mraise err : M A X).
Proof. intros g x g' Hrun. discriminate Hrun. Qed.

#[export] Instance lift_sequential {X : Type} (r : res X) : Sequential (lift r).
Proof.
  intros g x g' Hrun. unfold lift in *. destruct r as [y|]; [|done]. inv Hrun.
  exists tape_nil. split; [by rewrite tape_app_nil_l |].
  intros e. by rewrite tape_app_nil_l.
Qed.

#[export] Instance mbind_sequential {X Y : Type} (m : M A X) (k : X -> M A Y) :
  Sequential m -> (forall x, Sequential (k x)) -> Sequential (mbind m k).
Proof.
  intros Hm Hk g y g' (x & g1 & Hx & Hy)%mbind_ok_inv.
  apply Hm in Hx as (u1 & -> & Hx). apply Hk in Hy as (u2 & -> & Hy).
  exists (tape_app u1 u2). split; [by rewrite tape_app_assoc |].
  intros e. rewrite tape_app_assoc. unfold mbind. by rewrite Hx.
Qed.

#[export] Instance poisson_sequential (lam : A) : Sequential (poisson lam).
Proof.
  intros g n g'. unfold poisson. destruct (sltb lam s0); [done |].
  destruct g as [[|c cs] us]; [done |]. intros [= <- <-].
  exists (Rng [c] []). split; [done |]. by intros [cs' us'].
Qed.

#[export] Instance random_sample_sequential : Sequential random_sample.
Proof.
  intros g x g'. unfold random_sample. destruct g as [cs [|v us]]; [done |].
  intros [= <- <-]. exists (Rng [] [v]). split; [done |]. by intros [cs' us'].
Qed.

#[export] Instance uniform_sequential (lo hi : A) : Sequential (uniform lo hi).
Proof. unfold uniform. apply _. Qed.

#[export] Instance uniform_array_sequential (lo hi : A) (n : nat) :
  Sequential (uniform_array lo hi n).
Proof. induction n as [|n IH]; cbn [uniform_array]; apply _. Qed.

#[export] Instance mtraverse_sequential {X Y : Type} (f : X -> M A Y) (l : list X) :
  (forall x, Sequential (f x)) -> Sequential (mtraverse f l).
Proof. intros Hf. induction l as [|x l IH]; cbn [mtraverse]; apply _. Qed.

#[export] Instance if_sequential {X : Type} (c : bool) (m1 m2 : M A X) :
  Sequential m1 -> Sequential m2 -> Sequential (if c then m1 else m2).
Proof. by destruct c. Qed.

End Tape.

Arguments tape_nil {A}.

(** One step of a proof that a computation is sequential: an instance, or
    the head constructor of the computation taken apart. *)
Ltac sequential_step :=
  first
    [ apply _
    | apply mbind_sequential; [|intros ?]
    | match goal with
      | |- Sequential (if ?c then _ else _) => destruct c
      | |- Sequential (match ?x with _ => _ end) => destruct x
      end ].

(** ** The sampler reads the tape in sequence *)

Section SamplerTape.
Context {A : Type} `{ArgSort A} {L : Type} `{!Intensity A L}.
Context (lam : L) (T : interval A) (S : list (interval A)).
Context (batch_size min_n_points : Z) (verbose : bool).

#[export] Instance sampling_sequential :
  Sequential (homogeneous_poisson_sampling lam T S).
Proof. unfold homogeneous_poisson_sampling. apply _. Qed.

#[export] Instance thin_step_sequential homo i retained :
  Sequential (thin_step lam verbose homo i retained).
Proof. unfold thin_step. apply _. Qed.

#[export] Instance thin_loop_sequential homo todo : forall retained,
  Sequential (thin_loop lam verbose homo todo retained).
Proof.
  induction todo as [|i todo IH]; intros retained; cbn [thin_loop];
    repeat (apply IH || sequential_step).
Qed.

#[export] Instance thinning_sequential homo :
  Sequential (inhomogeneous_poisson_thinning lam homo verbose).
Proof. unfold inhomogeneous_poisson_thinning. apply _. Qed.

(** One pass through the body of the loop of [generate]: the two stages. *)
Definition stages : M A (option (mat A)) :=
  homo_points <- homogeneous_poisson_sampling lam T S;;
  inhomogeneous_poisson_thinning lam homo_points verbose.

#[export] Instance stages_sequential : Sequential stages.
Proof. unfold stages. apply _. Qed.

#[export] Instance generate_loop_sequential fuel : forall st,
  Sequential (generate_loop fuel lam T S batch_size min_n_points verbose st).
Proof.
  induction fuel as [|fuel IH]; intros st; cbn [generate_loop];
    repeat (apply IH || sequential_step).
Qed.

#[export] Instance generate_sequential fuel :
  Sequential (generate fuel lam T S batch_size min_n_points verbose).
Proof. unfold generate. apply _. Qed.

End SamplerTape.
