(* ===== verification/Fixtures.v ===== *)
(** * Fixtures: concrete inputs on which the definitions evaluate

    The inputs the concrete instances of the theorems use, over the
    rationals so that every definition runs under [vm_compute]:

    - [quiet]: the mixture kernel with no component, whose [nu] is the
      scalar zero whatever the history ([n_comp = 0] in
      [GaussianMixtureDiffusionKernel]);
    - [lamQ mu maximum]: the [HawkesLam] intensity over it, constant [mu];
    - a unit box in time and two space dimensions, proposal pools, and
      random tapes. *)

From Stdlib Require Import Reals QArith ZArith.
From stdpp Require Import base tactics list.
From S2P Require Import Prelude Scalar NdArray ArgSort Region Rng Kernel Intensity.

Local Open Scope Q_scope.

Definition quiet : Mixture.t Q Empty_set := Mixture.Build [] 0%nat [].

Definition lamQ (mu maximum : Q) : HawkesLam.t Q (Mixture.t Q Empty_set) :=
  HawkesLam.Build mu quiet maximum.

(** [T = [0, 1]], [S = [[0, 1], [0, 1]]]: the defaults of [generate]. *)
Definition unit_T : interval Q := (0, 1).
Definition unit_S : list (interval Q) := [(0, 1); (0, 1)].

(** Three proposals, ascending in time. *)
Definition pool3 : mat Q :=
  Mat 3 [[1#4; 1#5; 3#5]; [1#2; 1#10; 1#2]; [3#4; 3#10; 7#10]].

(** Variates for three acceptance tests: accept, reject, accept at
    [mu / maximum = 1/2]. *)
Definition coins3 : rng Q := Rng [] [1#4; 3#4; 1#3].

(** A tape for two attempts of [generate] on the unit box: the counts, then
    for each attempt the coordinates column by column and the acceptance
    variates. *)
Definition tape2 : rng Q :=
  Rng [3%nat; 2%nat]
      [1#2; 1#4; 3#4;  1#10; 1#5; 3#10;  1#2; 3#5; 7#10;  1#4; 3#4; 1#3;
       1#2; 1#4;  1#10; 1#5;  1#2; 3#5;  1#4; 1#3].

(** A tape for two attempts of unequal yield: three proposals of which two
    are kept, then one proposal, kept. *)
Definition tape_pad : rng Q :=
  Rng [3%nat; 1%nat]
      [1#2; 1#4; 3#4;  1#10; 1#5; 3#10;  1#2; 3#5; 7#10;  1#4; 3#4; 1#3;
       1#2;  1#5;  2#5;  1#4].

(** A tape whose first attempt yields one point and the second two. *)
Definition tape_retry : rng Q :=
  Rng [1%nat; 3%nat]
      [1#2;  1#5;  2#5;  1#4;
       1#2; 1#4; 3#4;  1#10; 1#5; 3#10;  1#2; 3#5; 7#10;  1#4; 3#4; 1#3].

(** A tape for one attempt on a box with a single space dimension. *)
Definition tape_line : rng Q := Rng [1%nat] [1#2; 1#3; 1#4].
