(* ===== verification/Thinning.v ===== *)
(** * Thinning: Ogata's algorithm, its specification and the loop that
    implements it

    [thinned] is the thinning stage as a relation: proposals are visited in
    order; each is evaluated against the points retained so far, one
    uniform variate is consumed, a value above the bound ends the walk with
    no result, and a proposal is retained exactly when its value reaches
    the variate's fraction of the bound.  The relation records the variates
    consumed and the intensity values computed.

    The properties of thinning (retained points are a sub-sequence of the
    proposals, no computed value exceeds the bound, one variate per visited
    proposal) are proved on the relation by rule induction.  The loop of
    [inhomogeneous_poisson_thinning] is then shown to implement the
    relation, in both directions, and to depend on the scalars through
    their values only. *)

From Stdlib Require Import Reals Lra ZArith QArith.
From stdpp Require Import base tactics list sorting.
From S2P Require Import Prelude Scalar NdArray ArgSort Region Rng Kernel Intensity.
From S2P Require Import Sampler Fixtures.

Section ThinningSpec.
Context {A : Type} `{Scalar A} {L : Type} `{!Intensity A L}.
Implicit Types (lam : L) (p : list A) (ps : list (list A)) (R : mat A)
  (Ds vs : list A) (out : option (mat A)).

(** The variate [np.random.uniform()] returns for the tape entry [u]. *)
Definition unit_draw (u : A) : A := sadd s0 (smul (ssub s1 s0) u).

(** The intensity at proposal [p] given the retained points [R]:
    [lam.value(p[0], R[:, 0], p[1:], R[:, 1:])]. *)
Definition eval_at lam R p : res A :=
  value lam (nth 0 p s0) (times R) (drop 1 p) (columns_from 1 R).

Inductive thinned lam : list (list A) -> list A -> list A -> mat A
                        -> option (mat A) -> Prop :=
| thinned_done R :
    thinned lam [] [] [] R (Some R)
| thinned_violation p ps D R v :
    eval_at lam R p = Ok v ->
    slt (upper_bound lam) v ->
    thinned lam (p :: ps) [D] [v] R None
| thinned_keep p ps D Ds v vs R out :
    eval_at lam R p = Ok v ->
    sle v (upper_bound lam) ->
    sle (smul D (upper_bound lam)) v ->
    thinned lam ps Ds vs (append_row R p) out ->
    thinned lam (p :: ps) (D :: Ds) (v :: vs) R out
| thinned_drop p ps D Ds v vs R out :
    eval_at lam R p = Ok v ->
    sle v (upper_bound lam) ->
    slt v (smul D (upper_bound lam)) ->
    thinned lam ps Ds vs R out ->
    thinned lam (p :: ps) (D :: Ds) (v :: vs) R out.

(** One variate is consumed and one value computed per visited proposal. *)
Lemma thinned_lengths lam ps Ds vs R out :
  thinned lam ps Ds vs R out ->
  length Ds = length vs /\ length Ds <= length ps
  /\ (is_Some out -> length Ds = length ps).
Proof.
  induction 1 as [R|p ps D R v Hv Hb|p ps D Ds v vs R out Hv Hb Ha _ IH
                 |p ps D Ds v vs R out Hv Hb Ha _ IH]; cbn.
  - auto.
  - repeat split; [lia |]. by intros [? [=]].
  - destruct IH as (? & ? & ?). repeat split; [lia | lia |]. intros Ho. f_equal. auto.
  - destruct IH as (? & ? & ?). repeat split; [lia | lia |]. intros Ho. f_equal. auto.
Qed.

(** The retained points extend the initial ones by a sub-sequence of the
    proposals, and the width is unchanged. *)
Lemma thinned_sublist lam ps Ds vs R R' :
  thinned lam ps Ds vs R (Some R') ->
  ncols R' = ncols R
  /\ exists kept, mrows R' = mrows R ++ kept /\ sublist kept ps.
Proof.
  remember (Some R') as out eqn:Eo. intros Ht. revert R' Eo.
  induction Ht as [R|p ps D R v Hv Hb|p ps D Ds v vs R out Hv Hb Ha _ IH
                  |p ps D Ds v vs R out Hv Hb Ha _ IH]; intros R' Eo.
  - inv Eo. split; [done |]. exists []. by rewrite app_nil_r.
  - discriminate.
  - destruct (IH _ Eo) as (Hc & kept & Hr & Hs). split; [done |].
    exists (p :: kept). cbn in Hr. rewrite <- app_assoc in Hr.
    split; [done | by constructor].
  - destruct (IH _ Eo) as (Hc & kept & Hr & Hs). split; [done |].
    exists kept. split; [done | by constructor].
Qed.

(** A walk that yields a sequence never computed a value above the bound. *)
Lemma thinned_bounded lam ps Ds vs R R' :
  thinned lam ps Ds vs R (Some R') ->
  Forall (fun v => sle v (upper_bound lam)) vs.
Proof.
  remember (Some R') as out eqn:Eo. intros Ht. revert R' Eo.
  induction Ht; intros R' Eo; [constructor | discriminate | |];
    constructor; eauto.
Qed.

(** A walk yields no sequence exactly when its last computed value exceeds
    the bound; every earlier value respects it. *)
Lemma thinned_none lam ps Ds vs R :
  thinned lam ps Ds vs R None ->
  exists vs' v, vs = vs' ++ [v] /\ slt (upper_bound lam) v
                /\ Forall (fun v => sle v (upper_bound lam)) vs'.
Proof.
  remember None as out eqn:Eo. intros Ht.
  induction Ht as [R|p ps D R v Hv Hb|p ps D Ds v vs R out Hv Hb Ha _ IH
                  |p ps D Ds v vs R out Hv Hb Ha _ IH].
  - discriminate.
  - exists [], v. auto.
  - destruct (IH Eo) as (vs' & v' & -> & ? & ?). exists (v :: vs'), v'. auto.
  - destruct (IH Eo) as (vs' & v' & -> & ? & ?). exists (v :: vs'), v'. auto.
Qed.

(** The relation is functional: the proposals, the variates and the
    initial points determine the values and the outcome. *)
Lemma thinned_deterministic lam ps Ds vs1 vs2 R out1 out2 :
  thinned lam ps Ds vs1 R out1 -> thinned lam ps Ds vs2 R out2 ->
  vs1 = vs2 /\ out1 = out2.
Proof.
  intros H1. revert vs2 out2.
  induction H1 as [R|p ps D R v Hv Hb|p ps D Ds v vs R out Hv Hb Ha _ IH
                  |p ps D Ds v vs R out Hv Hb Ha _ IH];
    intros vs2 out2 H2; inv H2;
    repeat match goal with
    | H1 : eval_at _ _ _ = Ok ?a, H2 : eval_at _ _ _ = Ok ?b |- _ =>
        rewrite H1 in H2; inv H2
    end; try done; try (exfalso; scalar_lra);
    match goal with
    | Ht : thinned _ _ _ _ _ _ |- _ => by destruct (IH _ _ Ht) as [-> ->]
    end.
Qed.

End ThinningSpec.

(** ** The loop body *)

Section ThinningStep.
Context {A : Type} `{Scalar A} {L : Type} `{!Intensity A L}.
Implicit Types (lam : L) (p : list A) (R homo : mat A) (g : rng A)
  (verbose : bool) (i k N : nat).

(** The progress message cannot fail when it is off or the pool has at
    least ten proposals. *)
Definition monitor_silent verbose N : Prop := verbose = false \/ 10 <= N.

Lemma monitor_ok verbose i N : monitor_silent verbose N -> monitor verbose i N = Ok tt.
Proof.
  unfold monitor. intros [-> | HN]; [done |].
  destruct (verbose && negb (i =? 0)); [|done].
  destruct (Nat.eqb_spec (N / 10) 0) as [E|]; [|done].
  apply Nat.div_small_iff in E; lia.
Qed.

Lemma monitor_first verbose N : monitor verbose 0 N = Ok tt.
Proof. unfold monitor. cbn. by rewrite andb_false_r. Qed.

Lemma monitor_raises i N :
  0 < i -> N < 10 -> monitor true i N = Raise ZeroDivisionError.
Proof.
  intros Hi HN. unfold monitor. rewrite (Nat.div_small N 10) by done.
  by destruct (Nat.eqb_spec i 0) as [|_]; [lia |].
Qed.

(** What one iteration computes, as a function of the proposal row [p]
    and of the tape. *)
Definition thin_step_model lam verbose N i R p g
  : res (option (mat A) * rng A) :=
  match eval_at lam R p with
  | Raise e => Raise e
  | Ok v =>
      match unifs g with
      | [] => Raise TapeEnd
      | u :: us =>
          let g' := Rng (counts g) us in
          if sltb (upper_bound lam) v then Ok (None, g')
          else match monitor verbose i N with
               | Raise e => Raise e
               | Ok _ =>
                   Ok (Some (if sleb (smul (unit_draw u) (upper_bound lam)) v
                             then append_row R p else R), g')
               end
      end
  end.

Lemma thin_step_run lam verbose homo i R p g :
  mrows homo !! i = Some p -> 0 < length p ->
  mat_wf R -> 0 < ncols R -> ncols R = ncols homo ->
  thin_step lam verbose homo i R g
  = thin_step_model lam verbose (nrows homo) i R p g.
Proof.
  intros Hp Hlen Hwf Hw Hc.
  unfold thin_step, thin_step_model, eval_at, mbind, lift, index_row.
  rewrite Hp, (index_nth p 0 Hlen), (column_ok 0 R Hwf Hw). fold (times R).
  destruct (value lam _ _ _ _) as [v|e]; [|done].
  destruct g as [cs [|u us]]; [done |]. rewrite uniform_cons. fold (unit_draw u).
  cbn [unifs counts]. destruct (sltb (upper_bound lam) v); [done |].
  destruct (sleb _ v).
  - rewrite (concatenate0_row R homo i p Hc Hp).
    by destruct (monitor verbose i (nrows homo)).
  - unfold mret. by destruct (monitor verbose i (nrows homo)).
Qed.

(** The acceptance test in the variate: under a positive bound,
    [D * lam_bar <= v] says that the tape entry is at most [v / lam_bar]. *)
Lemma accept_iff (u v lam_bar : A) :
  slt s0 lam_bar ->
  sleb (smul (unit_draw u) lam_bar) v = sleb u (sdiv v lam_bar).
Proof.
  intros Hb. unfold unit_draw.
  assert (Hne : toR lam_bar <> 0%R) by scalar_lra.
  assert (Hpos : (0 < toR lam_bar)%R) by scalar_lra.
  destruct (sleb u (sdiv v lam_bar)) eqn:Hu.
  - apply sleb_true. apply sleb_true in Hu. unfold sle in *.
    rewrite toR_div in Hu by done. autorewrite with stppg_rw.
    apply (Rmult_le_compat_r (toR lam_bar)) in Hu; [|lra].
    replace (toR v / toR lam_bar * toR lam_bar)%R with (toR v) in Hu by (by field).
    lra.
  - apply sleb_false. apply sleb_false in Hu. unfold slt in *.
    rewrite toR_div in Hu by done. autorewrite with stppg_rw.
    apply (Rmult_lt_compat_r (toR lam_bar)) in Hu; [|lra].
    replace (toR v / toR lam_bar * toR lam_bar)%R with (toR v) in Hu by (by field).
    lra.
Qed.

(** C23. The variates that keep a proposal.  Under a positive bound and for an
    intensity [v] that respects it, one iteration keeps proposal [i]
    exactly when the entry [u] of the tape is at most [v / lam_bar]: of
    the variates of the unit interval, those that accept form the interval
    from zero to [v / lam_bar], whose length is the acceptance probability
    of Ogata's thinning. *)
Theorem acceptance_region lam verbose homo i R p v u us cs :
  mrows homo !! i = Some p -> 0 < length p ->
  mat_wf R -> 0 < ncols R -> ncols R = ncols homo ->
  eval_at lam R p = Ok v ->
  slt s0 (upper_bound lam) -> sle v (upper_bound lam) ->
  monitor verbose i (nrows homo) = Ok tt ->
  thin_step lam verbose homo i R (Rng cs (u :: us))
  = Ok (Some (if sleb u (sdiv v (upper_bound lam)) then append_row R p else R),
        Rng cs us).
Proof.
  intros Hp Hlen Hwf Hw Hc Hv Hb Hle Hm.
  rewrite (thin_step_run _ _ _ _ _ p) by done. unfold thin_step_model.
  rewrite Hv, Hm. cbn [unifs counts].
  rewrite (proj2 (sltb_false _ _) Hle). by rewrite accept_iff.
Qed.

End ThinningStep.

(** ** The loop implements the relation *)

Section ThinningLoop.
Context {A : Type} `{Scalar A} {L : Type} `{!Intensity A L}.
Context (lam : L) (verbose : bool) (homo : mat A).
Context (Hwf : mat_wf homo) (Hw : 0 < ncols homo).
Implicit Types (p : list A) (R : mat A) (g : rng A) (i k : nat).

(** The retained points form a matrix of the proposals' width. *)
Definition fits R : Prop := mat_wf R /\ ncols R = ncols homo.

Lemma row_at i :
  i < nrows homo -> exists p, mrows homo !! i = Some p /\ length p = ncols homo.
Proof.
  intros Hi. destruct (lookup_lt_is_Some_2 (mrows homo) i Hi) as [p Hp].
  exists p. split; [done |].
  by apply (proj1 (Forall_lookup _ _) Hwf i p).
Qed.

Lemma fits_empty : fits (empty_mat (ncols homo)).
Proof. split; [constructor | done]. Qed.

Lemma fits_append R p i :
  fits R -> mrows homo !! i = Some p -> fits (append_row R p).
Proof.
  intros [HR Hc] Hp. split; [|done]. apply append_row_wf; [done |].
  rewrite Hc. by apply (proj1 (Forall_lookup _ _) Hwf i p).
Qed.

Lemma thin_loop_cons i todo R g :
  thin_loop lam verbose homo (i :: todo) R g
  = match thin_step lam verbose homo i R g with
    | Ok (Some R', g') => thin_loop lam verbose homo todo R' g'
    | Ok (None, g') => Ok (None, g')
    | Raise e => Raise e
    end.
Proof.
  cbn [thin_loop]. unfold mbind.
  by destruct (thin_step _ _ _ _ _ _) as [[[R'|] g']|e].
Qed.

(** One iteration on the proposal [p] at index [i], in terms of the
    model of the step. *)
Lemma thin_loop_step i todo R p g :
  mrows homo !! i = Some p -> fits R ->
  thin_loop lam verbose homo (i :: todo) R g
  = match thin_step_model lam verbose (nrows homo) i R p g with
    | Ok (Some R', g') => thin_loop lam verbose homo todo R' g'
    | Ok (None, g') => Ok (None, g')
    | Raise e => Raise e
    end.
Proof.
  intros Hp [HR Hc]. rewrite thin_loop_cons.
  pose proof (proj1 (Forall_lookup _ _) Hwf i p Hp) as Hl. cbn in Hl.
  by rewrite (thin_step_run lam verbose homo i R p) by (done || lia).
Qed.

(** Every successful run of the loop is a walk of the relation, and it
    consumed the variates of that walk from the front of the tape. *)
Lemma thin_loop_sound k : forall i R g out g',
  i + k <= nrows homo -> fits R ->
  thin_loop lam verbose homo (seq i k) R g = Ok (out, g') ->
  exists us vs,
    unifs g = us ++ unifs g' /\ counts g' = counts g
    /\ thinned lam (take k (drop i (mrows homo))) (map unit_draw us) vs R out.
Proof.
  induction k as [|k IH]; intros i R g out g' Hik HR Hrun.
  - cbn in Hrun. inv Hrun. exists [], []. rewrite take_0. repeat split. constructor.
  - cbn [seq] in Hrun. destruct (row_at i) as (p & Hp & Hl); [lia |].
    rewrite (thin_loop_step i _ R p g Hp HR) in Hrun. destruct HR as [HRwf HRc].
    unfold thin_step_model in Hrun. rewrite (drop_S _ _ _ Hp). cbn [take].
    destruct (eval_at lam R p) as [v|] eqn:Ev; [|done].
    destruct g as [cs [|u us]]; [done |]. cbn [unifs counts] in *.
    destruct (sltb (upper_bound lam) v) eqn:Eb.
    + inv Hrun. exists [u], [v]. repeat split.
      apply thinned_violation; [done | by apply sltb_true].
    + apply sltb_false in Eb.
      destruct (monitor verbose i (nrows homo)); [|done].
      destruct (sleb _ v) eqn:Ea;
        apply IH in Hrun as (us' & vs & Hus & Hcs & Ht);
        try lia; try (split; [done | done]); try (by eapply fits_append);
        cbn [unifs counts] in *; subst us; exists (u :: us'), (v :: vs);
        (repeat split; [done |]).
      * apply thinned_keep; [done | done | by apply sleb_true | done].
      * apply thinned_drop; [done | done | by apply sleb_false | done].
Qed.

(** Conversely, a walk of the relation is the run of the loop on a tape
    that starts with its variates, provided the progress message is
    silent. *)
Lemma thin_loop_complete k : forall i R us vs out cs rest,
  monitor_silent verbose (nrows homo) ->
  i + k <= nrows homo -> fits R ->
  thinned lam (take k (drop i (mrows homo))) (map unit_draw us) vs R out ->
  thin_loop lam verbose homo (seq i k) R (Rng cs (us ++ rest))
  = Ok (out, Rng cs rest).
Proof.
  induction k as [|k IH]; intros i R us vs out cs rest Hm Hik HR Ht.
  - rewrite take_0 in Ht. inv Ht. by destruct us.
  - cbn [seq]. destruct (row_at i) as (p & Hp & Hl); [lia |].
    rewrite (thin_loop_step i _ R p _ Hp HR). pose proof HR as [HRwf HRc].
    unfold thin_step_model. rewrite (monitor_ok _ _ _ Hm).
    rewrite (drop_S _ _ _ Hp) in Ht. cbn [take] in Ht.
    inv Ht; destruct us as [|u us]; try discriminate;
      match goal with Hd : _ :: _ = map unit_draw (_ :: _) |- _ =>
        cbn [map] in Hd; inv Hd end;
      match goal with Hv : eval_at _ _ _ = Ok _ |- _ => rewrite Hv end;
      cbn [unifs counts app].
    + destruct us; [|discriminate]. cbn [app].
      by rewrite (proj2 (sltb_true _ _)).
    + rewrite (proj2 (sltb_false _ _)), (proj2 (sleb_true _ _)) by done.
      eapply IH; eauto using fits_append. lia.
    + rewrite (proj2 (sltb_false _ _)), (proj2 (sleb_false _ _)) by done.
      eapply IH; eauto. lia.
Qed.

(** The outcome of a walk from proposals of the right width fits. *)
Lemma thinned_fits ps Ds vs R R' :
  Forall (fun p => length p = ncols homo) ps -> fits R ->
  thinned lam ps Ds vs R (Some R') -> fits R'.
Proof.
  intros Hps [HR Hc] Ht. apply thinned_sublist in Ht as (Hc' & kept & Hk & Hs).
  split; [|congruence]. unfold mat_wf. rewrite Hk, Hc', Hc.
  apply Forall_app. split.
  - by rewrite <- Hc.
  - by eapply sublist_Forall.
Qed.

End ThinningLoop.

#[export] Hint Resolve fits_empty fits_append : stppg.
#[export] Hint Constructors thinned : stppg.

(** ** The entry point *)

Section ThinningEntry.
Context {A : Type} `{Scalar A} {L : Type} `{!Intensity A L}.
Implicit Types (lam : L) (R homo : mat A) (g : rng A) (verbose : bool).

Lemma thinning_sound lam homo verbose g out g' :
  mat_wf homo -> 0 < ncols homo ->
  inhomogeneous_poisson_thinning lam homo verbose g = Ok (out, g') ->
  exists us vs,
    unifs g = us ++ unifs g' /\ counts g' = counts g
    /\ thinned lam (mrows homo) (map unit_draw us) vs
               (empty_mat (ncols homo)) out.
Proof.
  intros Hwf Hw Hrun. unfold inhomogeneous_poisson_thinning in Hrun.
  apply (thin_loop_sound lam verbose homo Hwf Hw) in Hrun
    as (us & vs & Hus & Hcs & Ht); [|lia | auto with stppg].
  rewrite drop_0, take_ge in Ht by done. eauto.
Qed.

Lemma thinning_complete lam homo verbose us vs out cs rest :
  mat_wf homo -> 0 < ncols homo -> monitor_silent verbose (nrows homo) ->
  thinned lam (mrows homo) (map unit_draw us) vs (empty_mat (ncols homo)) out ->
  inhomogeneous_poisson_thinning lam homo verbose (Rng cs (us ++ rest))
  = Ok (out, Rng cs rest).
Proof.
  intros Hwf Hw Hm Ht. unfold inhomogeneous_poisson_thinning.
  apply (thin_loop_complete lam verbose homo Hwf Hw _ _ _ _ vs);
    [done | lia | auto with stppg |].
  by rewrite drop_0, take_ge.
Qed.

(** C1. Refinement: a run of [inhomogeneous_poisson_thinning] that returns
    is a walk of Ogata's thinning relation over the proposals, from no
    retained point, driven by the variates the run took from the front of
    the tape; the Poisson counts of the tape are untouched. *)
Theorem thinning_refines_spec lam homo verbose g out g' :
  mat_wf homo -> 0 < ncols homo ->
  inhomogeneous_poisson_thinning lam homo verbose g = Ok (out, g') ->
  exists us vs,
    unifs g = us ++ unifs g' /\ counts g' = counts g
    /\ thinned lam (mrows homo) (map unit_draw us) vs
               (empty_mat (ncols homo)) out.
Proof. apply thinning_sound. Qed.

(** C2. Safety: when thinning returns a sequence, an intensity value was
    computed for every proposal and none of them exceeded the declared
    upper bound. *)
Theorem thinning_respects_bound lam homo verbose g R' g' :
  mat_wf homo -> 0 < ncols homo ->
  inhomogeneous_poisson_thinning lam homo verbose g = Ok (Some R', g') ->
  exists us vs,
    thinned lam (mrows homo) (map unit_draw us) vs
            (empty_mat (ncols homo)) (Some R')
    /\ length vs = nrows homo
    /\ Forall (fun v => sle v (upper_bound lam)) vs.
Proof.
  intros Hwf Hw Hrun.
  destruct (thinning_sound _ _ _ _ _ _ Hwf Hw Hrun) as (us & vs & _ & _ & Ht).
  exists us, vs. split; [done |]. split; [|by eapply thinned_bounded].
  apply thinned_lengths in Ht as (Hl & _ & Hs). rewrite <- Hl. by apply Hs.
Qed.

(** A returned sequence has the pool's width, is well formed, and its rows
    are a sub-sequence of the pool; it is ascending in time when the pool
    is. *)
Lemma thinning_some_shape lam homo verbose g R' g' :
  mat_wf homo -> 0 < ncols homo ->
  inhomogeneous_poisson_thinning lam homo verbose g = Ok (Some R', g') ->
  ncols R' = ncols homo /\ mat_wf R' /\ sublist (mrows R') (mrows homo)
  /\ (Sorted sle (times homo) -> Sorted sle (times R')).
Proof.
  intros Hwf Hw Hrun.
  destruct (thinning_sound _ _ _ _ _ _ Hwf Hw Hrun) as (us & vs & _ & _ & Ht).
  pose proof (thinned_fits lam homo _ _ _ _ _ Hwf (fits_empty homo) Ht) as [HR Hc].
  apply thinned_sublist in Ht as (_ & kept & Hk & Hs). cbn in Hk. subst kept.
  repeat split; try done. intros Hsorted.
  eapply sublist_Sorted; [apply _ | | exact Hsorted].
  unfold times. by apply sublist_map.
Qed.

(** C3. The sequence thinning returns is a sub-sequence of the proposals:
    same width, rows taken from the pool in pool order, nothing added. *)
Theorem thinning_keeps_subsequence lam homo verbose g R' g' :
  mat_wf homo -> 0 < ncols homo ->
  inhomogeneous_poisson_thinning lam homo verbose g = Ok (Some R', g') ->
  ncols R' = ncols homo /\ mat_wf R' /\ sublist (mrows R') (mrows homo).
Proof.
  intros Hwf Hw Hrun.
  by destruct (thinning_some_shape _ _ _ _ _ _ Hwf Hw Hrun) as (? & ? & ? & _).
Qed.

(** C4. Thinning preserves the time order: if the proposals are ascending
    in their time coordinate, so is the returned sequence. *)
Theorem thinning_ascending lam homo verbose g R' g' :
  mat_wf homo -> 0 < ncols homo -> Sorted sle (times homo) ->
  inhomogeneous_poisson_thinning lam homo verbose g = Ok (Some R', g') ->
  Sorted sle (times R').
Proof.
  intros Hwf Hw Hs Hrun.
  destruct (thinning_some_shape _ _ _ _ _ _ Hwf Hw Hrun) as (_ & _ & _ & Hsorted).
  by apply Hsorted.
Qed.

(** C5. A bound violation discards the whole attempt: thinning returns
    [None] exactly after computing a value above the bound, every earlier
    value having respected it; no retained point survives. *)
Theorem thinning_violation_discards lam homo verbose g g' :
  mat_wf homo -> 0 < ncols homo ->
  inhomogeneous_poisson_thinning lam homo verbose g = Ok (None, g') ->
  exists us vs v,
    thinned lam (mrows homo) (map unit_draw us) (vs ++ [v])
            (empty_mat (ncols homo)) None
    /\ slt (upper_bound lam) v
    /\ Forall (fun v' => sle v' (upper_bound lam)) vs.
Proof.
  intros Hwf Hw Hrun.
  destruct (thinning_sound _ _ _ _ _ _ Hwf Hw Hrun) as (us & vs & _ & _ & Ht).
  destruct (thinned_none _ _ _ _ _ Ht) as (vs' & v & -> & Hv & Hvs). eauto 6.
Qed.

End ThinningEntry.

(** ** Completeness, totality and the failing progress message *)

Section ThinningTotal.
Context {A : Type} `{Scalar A} {L : Type} `{!Intensity A L}.
Implicit Types (lam : L) (p : list A) (R homo : mat A) (g : rng A)
  (verbose : bool) (w : nat).

(** The intensity evaluates without raising at every proposal of width [w]
    against every retained matrix of width [w]. *)
Definition evaluable lam w : Prop :=
  forall R p, mat_wf R -> ncols R = w -> length p = w ->
              exists v, eval_at lam R p = Ok v.

Lemma thin_loop_total lam verbose homo k : forall i R g,
  mat_wf homo -> 0 < ncols homo ->
  monitor_silent verbose (nrows homo) -> evaluable lam (ncols homo) ->
  i + k <= nrows homo -> fits homo R -> k <= length (unifs g) ->
  exists out g', thin_loop lam verbose homo (seq i k) R g = Ok (out, g').
Proof.
  induction k as [|k IH]; intros i R g Hwf Hw Hm He Hik HR Hk; [cbn; eauto |].
  cbn [seq]. destruct (row_at homo Hwf i) as (p & Hp & Hl); [lia |].
  rewrite (thin_loop_step lam verbose homo Hwf Hw i _ R p _ Hp HR).
  pose proof HR as [HRwf HRc].
  unfold thin_step_model. rewrite (monitor_ok _ _ _ Hm).
  destruct (He R p HRwf HRc Hl) as [v ->].
  destruct g as [cs [|u us]]; cbn [unifs counts length] in *; [lia |].
  destruct (sltb (upper_bound lam) v); [eauto |].
  destruct (sleb _ v); apply IH; cbn; try done; try lia.
  by eapply fits_append.
Qed.

(** C11. Completeness: every walk of the thinning relation over the
    proposals is the run of [inhomogeneous_poisson_thinning] on a tape that
    starts with the walk's variates, when the progress message is silent;
    the run leaves the rest of the tape. *)
Theorem thinning_implements_spec lam homo verbose us vs out cs rest :
  mat_wf homo -> 0 < ncols homo -> monitor_silent verbose (nrows homo) ->
  thinned lam (mrows homo) (map unit_draw us) vs (empty_mat (ncols homo)) out ->
  inhomogeneous_poisson_thinning lam homo verbose (Rng cs (us ++ rest))
  = Ok (out, Rng cs rest).
Proof. apply thinning_complete. Qed.

(** Termination without error: with a silent progress message, an
    intensity that evaluates on matrices of the pool's width and one
    variate per proposal on the tape, thinning returns (a sequence or
    [None]); it neither raises nor runs out of tape. *)
Theorem thinning_total lam homo verbose g :
  mat_wf homo -> 0 < ncols homo ->
  monitor_silent verbose (nrows homo) -> evaluable lam (ncols homo) ->
  nrows homo <= length (unifs g) ->
  exists out g', inhomogeneous_poisson_thinning lam homo verbose g = Ok (out, g').
Proof.
  intros Hwf Hw Hm He Hg. unfold inhomogeneous_poisson_thinning.
  apply thin_loop_total; auto with stppg.
Qed.

(** The first iteration, on a proposal that evaluates within the bound:
    the loop goes on from the one-row or the empty matrix. *)
Lemma thinning_first_step lam verbose homo p0 rest v0 u0 us cs :
  mat_wf homo -> 0 < ncols homo -> mrows homo = p0 :: rest ->
  eval_at lam (empty_mat (ncols homo)) p0 = Ok v0 ->
  sle v0 (upper_bound lam) ->
  let R1 := if sleb (smul (unit_draw u0) (upper_bound lam)) v0
            then append_row (empty_mat (ncols homo)) p0
            else empty_mat (ncols homo) in
  fits homo R1
  /\ inhomogeneous_poisson_thinning lam homo verbose (Rng cs (u0 :: us))
     = thin_loop lam verbose homo (seq 1 (length rest)) R1 (Rng cs us).
Proof.
  intros Hwf Hw Hrows Hv0 Hb0 R1.
  assert (Hp0 : mrows homo !! 0 = Some p0) by (by rewrite Hrows).
  split.
  - unfold R1. destruct (sleb _ v0); eauto with stppg.
  - unfold inhomogeneous_poisson_thinning, nrows. rewrite Hrows. cbn [length seq].
    rewrite (thin_loop_step lam verbose homo Hwf Hw 0 _ _ p0)
      by (done || auto with stppg).
    unfold thin_step_model. rewrite Hv0, monitor_first. cbn [unifs counts].
    by rewrite (proj2 (sltb_false _ _) Hb0).
Qed.

(** Any iteration but the first, on a pool of fewer than ten proposals and
    with [verbose] set: a proposal that evaluates within the bound reaches
    the progress message, whose [i % int(N / 10)] divides by zero. *)
Lemma verbose_step_raises lam homo i todo R p v u us cs :
  mat_wf homo -> 0 < ncols homo -> mrows homo !! i = Some p -> fits homo R ->
  0 < i -> nrows homo < 10 ->
  eval_at lam R p = Ok v -> sle v (upper_bound lam) ->
  thin_loop lam true homo (i :: todo) R (Rng cs (u :: us))
  = Raise ZeroDivisionError.
Proof.
  intros Hwf Hw Hp HR Hi HN Hv Hb.
  rewrite (thin_loop_step lam true homo Hwf Hw i _ _ p) by done.
  unfold thin_step_model. rewrite Hv. cbn [unifs counts].
  by rewrite (proj2 (sltb_false _ _) Hb), monitor_raises by lia.
Qed.

(** C24. With [verbose] set, a pool of two to nine proposals makes thinning
    raise [ZeroDivisionError]: the progress message of the second iteration
    computes [i % int(N / 10)] with [int(N / 10) = 0].  The first two
    proposals only need to evaluate within the bound. *)
Theorem thinning_verbose_crash lam homo p0 p1 rest v0 v1 u0 u1 us cs :
  mat_wf homo -> 0 < ncols homo ->
  mrows homo = p0 :: p1 :: rest -> nrows homo < 10 ->
  eval_at lam (empty_mat (ncols homo)) p0 = Ok v0 ->
  sle v0 (upper_bound lam) ->
  eval_at lam (if sleb (smul (unit_draw u0) (upper_bound lam)) v0
               then append_row (empty_mat (ncols homo)) p0
               else empty_mat (ncols homo)) p1 = Ok v1 ->
  sle v1 (upper_bound lam) ->
  inhomogeneous_poisson_thinning lam homo true (Rng cs (u0 :: u1 :: us))
  = Raise ZeroDivisionError.
Proof.
  intros Hwf Hw Hrows HN Hv0 Hb0 Hv1 Hb1.
  destruct (thinning_first_step lam true homo p0 (p1 :: rest) v0 u0 (u1 :: us) cs
              Hwf Hw Hrows Hv0 Hb0) as [HR1 ->].
  cbn [length seq].
  apply (verbose_step_raises _ _ _ _ _ p1 v1); by (lia || rewrite ?Hrows).
Qed.

End ThinningTotal.

(** ** Thinning depends on the scalars through their values only

    Two rationals, or two floats, may denote the same number.  Every test
    of the loop compares values, so two intensity models that agree up to
    [seqv] drive the loop the same way: same accepted proposals, same
    exceptions, same use of the tape. *)

Section ThinningValues.
Context {A : Type} `{Scalar A} {L L' : Type}.
Context `{!Intensity A L} `{!Intensity A L'}.
Implicit Types (R homo : mat A) (g : rng A) (verbose : bool).

(** Two results that agree: equivalent values, or the same exception. *)
Definition same_result (r r' : res A) : Prop :=
  match r, r' with
  | Ok v, Ok v' => seqv v v'
  | Raise e, Raise e' => e = e'
  | _, _ => False
  end.

(** Two intensity models that agree on the bound and at every proposal. *)
Definition same_values (lam : L) (lam' : L') : Prop :=
  seqv (upper_bound lam) (upper_bound lam')
  /\ forall R p, same_result (eval_at lam R p) (eval_at lam' R p).

Lemma thin_step_model_values (lam : L) (lam' : L') verbose N i R p g :
  same_values lam lam' ->
  thin_step_model lam verbose N i R p g = thin_step_model lam' verbose N i R p g.
Proof.
  intros [Hb Hv]. unfold thin_step_model. specialize (Hv R p).
  destruct (eval_at lam R p) as [v|e], (eval_at lam' R p) as [v'|e'];
    cbn in Hv; try done; [|by subst].
  destruct (unifs g) as [|u us]; [done |].
  rewrite (sltb_proper _ _ Hb _ _ Hv).
  by rewrite (sleb_proper _ _ (smul_proper _ _ (reflexivity _) _ _ Hb) _ _ Hv).
Qed.

Lemma thin_loop_values (lam : L) (lam' : L') verbose homo k : forall i R g,
  mat_wf homo -> 0 < ncols homo -> same_values lam lam' ->
  i + k <= nrows homo -> fits homo R ->
  thin_loop lam verbose homo (seq i k) R g
  = thin_loop lam' verbose homo (seq i k) R g.
Proof.
  induction k as [|k IH]; intros i R g Hwf Hw Hs Hik HR; [done |].
  cbn [seq]. destruct (row_at homo Hwf i) as (p & Hp & Hl); [lia |].
  rewrite !(thin_loop_step _ verbose homo Hwf Hw i _ R p g Hp HR).
  rewrite (thin_step_model_values lam lam') by done.
  unfold thin_step_model. destruct (eval_at lam' R p) as [v|]; [|done].
  destruct (unifs g) as [|u us]; [done |].
  destruct (sltb _ v); [done |].
  destruct (monitor verbose i (nrows homo)); [|done].
  destruct (sleb _ v); apply IH; eauto with stppg; lia.
Qed.

(** Thinning under two intensity models that agree up to [seqv] is the same
    computation: same outcome, same exceptions, same tape left. *)
Theorem thinning_value_invariant (lam : L) (lam' : L') homo verbose g :
  mat_wf homo -> 0 < ncols homo -> same_values lam lam' ->
  inhomogeneous_poisson_thinning lam homo verbose g
  = inhomogeneous_poisson_thinning lam' homo verbose g.
Proof.
  intros Hwf Hw Hs. unfold inhomogeneous_poisson_thinning.
  apply thin_loop_values; auto with stppg.
Qed.

End ThinningValues.

(** ** Concrete instances

    The pool [pool3] thinned at the constant intensity [1] under the bound
    [2] with the variates [1/4, 3/4, 1/3]: the first and third proposals
    are retained.  At the constant intensity [3] the first evaluation
    violates the bound. *)

Local Open Scope Q_scope.

Definition kept3 : mat Q := Mat 3 [[1#4; 1#5; 3#5]; [3#4; 3#10; 7#10]].

Lemma pool3_wf : mat_wf pool3.
Proof. apply mat_wfb_spec. reflexivity. Defined.

Lemma pool3_width : (0 < ncols pool3)%nat.
Proof. cbn. lia. Defined.

Lemma pool3_run :
  inhomogeneous_poisson_thinning (lamQ 1 2) pool3 false coins3
  = Ok (Some kept3, Rng [] []).
Proof. vm_compute. reflexivity. Defined.

Lemma pool3_violation :
  inhomogeneous_poisson_thinning (lamQ 3 2) pool3 false coins3
  = Ok (None, Rng [] [3#4; 1#3]).
Proof. vm_compute. reflexivity. Defined.

Lemma pool3_sorted : Sorted sle (times pool3).
Proof.
  apply (bool_decide_unpack _). vm_compute. exact I.
Defined.

Lemma thinning_refines_spec_witness :
  exists us vs,
    unifs coins3 = us ++ [] /\ counts (Rng [] ([] : list Q)) = counts coins3
    /\ thinned (lamQ 1 2) (mrows pool3) (map unit_draw us) vs
               (empty_mat (ncols pool3)) (Some kept3).
Proof.
  exact (thinning_refines_spec _ _ _ _ _ _ pool3_wf pool3_width pool3_run).
Defined.

Lemma thinning_respects_bound_witness :
  exists us vs,
    thinned (lamQ 1 2) (mrows pool3) (map unit_draw us) vs
            (empty_mat (ncols pool3)) (Some kept3)
    /\ length vs = nrows pool3
    /\ Forall (fun v => sle v (upper_bound (lamQ 1 2))) vs.
Proof.
  exact (thinning_respects_bound _ _ _ _ _ _ pool3_wf pool3_width pool3_run).
Defined.

Lemma thinning_keeps_subsequence_witness :
  ncols kept3 = ncols pool3 /\ mat_wf kept3 /\ sublist (mrows kept3) (mrows pool3).
Proof.
  exact (thinning_keeps_subsequence _ _ _ _ _ _ pool3_wf pool3_width pool3_run).
Defined.

Lemma thinning_ascending_witness : Sorted sle (times kept3).
Proof.
  exact (thinning_ascending _ _ _ _ _ _ pool3_wf pool3_width pool3_sorted
                            pool3_run).
Defined.

Lemma thinning_violation_discards_witness :
  exists us vs v,
    thinned (lamQ 3 2) (mrows pool3) (map unit_draw us) (vs ++ [v])
            (empty_mat (ncols pool3)) None
    /\ slt (upper_bound (lamQ 3 2)) v
    /\ Forall (fun v' => sle v' (upper_bound (lamQ 3 2))) vs.
Proof.
  exact (thinning_violation_discards _ _ _ _ _ pool3_wf pool3_width
                                     pool3_violation).
Defined.

Lemma lamQ_evaluable (mu maximum : Q) (w : nat) : evaluable (lamQ mu maximum) w.
Proof.
  intros R p _ _ _. unfold eval_at. cbn. unfold HawkesLam.value.
  destruct (0 <? length (times R))%nat; cbn; eauto.
Defined.

Lemma pool3_walk :
  thinned (lamQ 1 2) (mrows pool3) (map unit_draw [1#4; 3#4; 1#3]) [1; 1; 1]
          (empty_mat (ncols pool3)) (Some kept3).
Proof.
  apply thinned_keep; [vm_compute; reflexivity | | |];
    [apply sleb_true; vm_compute; reflexivity ..|].
  apply thinned_drop; [vm_compute; reflexivity | | |];
    [apply sleb_true; vm_compute; reflexivity
    |apply sltb_true; vm_compute; reflexivity|].
  apply thinned_keep; [vm_compute; reflexivity | | |];
    [apply sleb_true; vm_compute; reflexivity ..|].
  apply thinned_done.
Defined.

Lemma thinning_implements_spec_witness :
  inhomogeneous_poisson_thinning (lamQ 1 2) pool3 false
    (Rng [5%nat] ([1#4; 3#4; 1#3] ++ [7#8]))
  = Ok (Some kept3, Rng [5%nat] [7#8]).
Proof.
  exact (thinning_implements_spec (lamQ 1 2) pool3 false _ _ _ [5%nat] [7#8]
           pool3_wf pool3_width (or_introl eq_refl) pool3_walk).
Defined.

Lemma thinning_total_witness :
  exists out g',
    inhomogeneous_poisson_thinning (lamQ 1 2) pool3 false coins3 = Ok (out, g').
Proof.
  apply (thinning_total (lamQ 1 2) pool3 false coins3 pool3_wf pool3_width
           (or_introl eq_refl) (lamQ_evaluable 1 2 3)).
  cbn. lia.
Defined.

(** The first proposal of [pool3] under the intensity [1] and the bound
    [2]: the variate [1/4] is below [1/2] and keeps it. *)
Lemma acceptance_region_witness :
  thin_step (lamQ 1 2) false pool3 0 (empty_mat 3) (Rng [] [1#4; 3#4])
  = Ok (Some (if sleb (1#4) (sdiv 1 (upper_bound (lamQ 1 2)))
              then append_row (empty_mat 3) [1#4; 1#5; 3#5]
              else empty_mat 3),
        Rng [] [3#4]).
Proof.
  apply (acceptance_region (lamQ 1 2) false pool3 0 (empty_mat 3)
           [1#4; 1#5; 3#5] 1 (1#4) [3#4] []);
    try done; try (cbn; lia); try constructor;
    by (apply sltb_true || apply sleb_true).
Defined.

Lemma thinning_verbose_crash_witness :
  inhomogeneous_poisson_thinning (lamQ 1 2) pool3 true
    (Rng [] [1#4; 3#4; 1#3])
  = Raise ZeroDivisionError.
Proof.
  apply (thinning_verbose_crash (lamQ 1 2) pool3 [1#4; 1#5; 3#5]
           [1#2; 1#10; 1#2] [[3#4; 3#10; 7#10]] 1 1 (1#4) (3#4) [1#3] []
           pool3_wf pool3_width eq_refl).
  - cbn. lia.
  - vm_compute. reflexivity.
  - apply sleb_true. vm_compute. reflexivity.
  - vm_compute. reflexivity.
  - apply sleb_true. vm_compute. reflexivity.
Defined.

(** The constant intensity [1] under the bound [2], written with other
    fractions. *)
Lemma lamQ_same_values : same_values (lamQ 1 2) (lamQ (2#2) (4#2)).
Proof.
  split; [by apply Qreals.Qeq_eqR |]. intros R p. unfold eval_at. cbn.
  unfold HawkesLam.value.
  destruct (0 <? length (times R))%nat; cbn; by apply Qreals.Qeq_eqR.
Defined.

Lemma thinning_value_invariant_witness :
  inhomogeneous_poisson_thinning (lamQ 1 2) pool3 false coins3
  = inhomogeneous_poisson_thinning (lamQ (2#2) (4#2)) pool3 false coins3.
Proof.
  exact (thinning_value_invariant (lamQ 1 2) (lamQ (2#2) (4#2)) pool3 false coins3
           pool3_wf pool3_width lamQ_same_values).
Defined.
