(* ===== verification/Proposal.v ===== *)
(** * Proposal: the homogeneous Poisson proposal pool

    What [homogeneous_poisson_sampling] returns, read off the tape: the
    next count [N], the next [N * (1 + len S)] variates taken column by
    column (all times, then each space coordinate) and scaled into their
    intervals, as an [N]-row matrix sorted by time.  A negative mean
    (an improper box or a negative bound) is numpy's [ValueError]. *)

From Stdlib Require Import Reals Lra ZArith QArith.
From stdpp Require Import base tactics list sorting.
From S2P Require Import Prelude Scalar NdArray ArgSort Region Rng Kernel Intensity.
From S2P Require Import Sampler Fixtures.

Section Proposal.
Context {A : Type} `{ArgSort A} {L : Type} `{!Intensity A L}.
Implicit Types (lam : L) (T iv : interval A) (S region : list (interval A))
  (g : rng A) (m : mat A) (N : nat) (r c : list A).

(** [x] lies in the closed interval [iv]. *)
Definition in_interval iv (x : A) : Prop := sle (lo iv) x /\ sle x (hi iv).

(** The point [r] lies in the box [region], coordinate by coordinate. *)
Definition in_box region r : Prop := Forall2 (fun x iv => in_interval iv x) r region.

(** The mean of the Poisson count: [lam.upper_bound() * n]. *)
Definition poisson_mean lam T S : A :=
  smul (upper_bound lam) (lebesgue_measure (time_space T S)).

Lemma uniform_array_in_interval iv N g c g' :
  uniform_array (lo iv) (hi iv) N g = Ok (c, g') ->
  length c = N
  /\ (tape_wf g -> proper_interval iv -> Forall (in_interval iv) c).
Proof.
  intros Hu. split; [by eapply uniform_array_length |].
  apply uniform_array_inv in Hu as (_ & -> & _). intros Hwf Hiv.
  apply Forall_map. eapply Forall_impl; [apply Forall_take, Hwf |].
  intros u Hu. by apply scale_in_interval.
Qed.

(** The columns drawn for a box: one per side, [N] entries each, taken from
    the front of the tape. *)
Lemma draw_columns_inv N region : forall g cols g',
  mtraverse (fun iv => uniform_array (lo iv) (hi iv) N) region g = Ok (cols, g') ->
  counts g' = counts g
  /\ unifs g' = drop (length region * N) (unifs g)
  /\ length region * N <= length (unifs g)
  /\ Forall2 (fun c iv => length c = N
                /\ (tape_wf g -> proper_interval iv -> Forall (in_interval iv) c))
             cols region.
Proof.
  induction region as [|iv region IH]; intros g cols g' Hrun.
  - cbn in Hrun. inv Hrun. split; [done |]. split; [done |].
    split; [cbn; lia | constructor].
  - cbn [mtraverse] in Hrun. unfold mbind at 1 in Hrun.
    destruct (uniform_array _ _ N g) as [[c g1]|] eqn:E1; [|done].
    unfold mbind in Hrun.
    destruct (mtraverse _ region g1) as [[cs g2]|] eqn:E2; [|done]. inv Hrun.
    pose proof (uniform_array_in_interval _ _ _ _ _ E1) as [Hc Hin].
    apply uniform_array_inv in E1 as (Hn & _ & ->).
    apply IH in E2 as (Hcs & Hus & Hlen & HF). cbn [counts unifs length] in *.
    rewrite length_drop in Hlen.
    split; [done |]. split; [|split; [lia |]].
    + by rewrite Hus, drop_drop.
    + constructor; [done |]. eapply Forall2_impl; [exact HF |].
      intros c' iv' [Hc' Hin']. split; [done |]. intros Hwf. apply Hin'.
      unfold tape_wf in *. cbn. by apply Forall_drop.
Qed.

Lemma draw_columns_total N region : forall g,
  length region * N <= length (unifs g) ->
  exists cols g', mtraverse (fun iv => uniform_array (lo iv) (hi iv) N) region g
                  = Ok (cols, g').
Proof.
  induction region as [|iv region IH]; intros g Hlen; [cbn; unfold mret; eauto |].
  cbn [mtraverse length] in *. unfold mbind at 1.
  rewrite uniform_array_spec by lia. unfold mbind.
  destruct (IH (Rng (counts g) (drop N (unifs g)))) as (cols & g' & ->);
    [cbn; rewrite length_drop; lia |]. unfold mret. eauto.
Qed.

(** What a successful run of the sampling stage produced. *)
Lemma sampling_inv lam T S g m g' :
  homogeneous_poisson_sampling lam T S g = Ok (m, g') ->
  exists N cols,
    sle s0 (poisson_mean lam T S)
    /\ counts g = N :: counts g'
    /\ unifs g' = drop (Datatypes.S (length S) * N) (unifs g)
    /\ Datatypes.S (length S) * N <= length (unifs g)
    /\ Forall2 (fun c iv => length c = N
                  /\ (tape_wf g -> proper_interval iv -> Forall (in_interval iv) c))
               cols (T :: S)
    /\ sort_by_time (from_columns N cols) = Ok m.
Proof.
  unfold homogeneous_poisson_sampling. intros Hrun. unfold mbind at 1 in Hrun.
  destruct (poisson _ g) as [[N g1]|] eqn:E1; [|done].
  unfold mbind in Hrun. unfold time_space in *.
  destruct (mtraverse _ (T :: S) g1) as [[cols g2]|] eqn:E2; [|done].
  unfold lift in Hrun. destruct (sort_by_time _) as [m'|] eqn:E3; [|done]. inv Hrun.
  apply poisson_inv in E1 as (Hmean & Hc & Hu).
  apply draw_columns_inv in E2 as (Hcs & Hus & Hlen & HF). cbn [length] in *.
  exists N, cols. rewrite Hu in *.
  split; [done |]. split; [congruence |]. split; [done |]. split; [done |].
  split; [|done].
  - eapply Forall2_impl; [exact HF |]. intros c iv [Hl Hin]. split; [done |].
    intros Hwf. apply Hin. unfold tape_wf in *. by rewrite Hu.
Qed.

(** The shape and the content of a pool the sampling stage returned. *)
Lemma sampling_shape lam T S g m g' :
  homogeneous_poisson_sampling lam T S g = Ok (m, g') ->
  ncols m = Datatypes.S (length S) /\ mat_wf m /\ Sorted sle (times m)
  /\ counts g = nrows m :: counts g'
  /\ length (unifs g) = Datatypes.S (length S) * nrows m + length (unifs g')
  /\ (tape_wf g -> Forall proper_interval (T :: S) ->
      Forall (in_box (T :: S)) (mrows m)).
Proof.
  intros Hrun.
  apply sampling_inv in Hrun as (N & cols & _ & Hc & Hus & Hlen & HF & Hsort).
  pose proof (Forall2_length _ _ _ HF) as Hcols. cbn [length] in Hcols.
  destruct (sort_by_time_ok (from_columns N cols)) as (m' & E & Hw & Hp & Hs);
    [apply from_columns_wf | cbn; lia |].
  rewrite E in Hsort. inv Hsort.
  assert (Hn : nrows m = N).
  { unfold nrows. rewrite (Permutation_length Hp). apply nrows_from_columns. }
  split; [by rewrite Hw |]. split.
  { unfold mat_wf. rewrite Hw.
    eapply Permutation_Forall; [symmetry; exact Hp | apply from_columns_wf]. }
  split; [done |]. split; [by rewrite Hn |]. split.
  { rewrite Hus, length_drop, Hn. lia. }
  intros Hwf Hbox. eapply Permutation_Forall; [symmetry; exact Hp |].
  apply (from_columns_Forall2 (fun iv x => in_interval iv x)).
  eapply Forall2_strengthen_r; [|exact HF | exact Hbox].
  intros c iv [Hl Hin] Hiv. split; [done | by apply Hin].
Qed.

(** The time column of [np.array(cols).transpose()] is the first of the
    columns. *)
Lemma from_columns_times N c cols :
  length c = N -> times (from_columns N (c :: cols)) = c.
Proof.
  intros <-. unfold times, from_columns. cbn [mrows]. rewrite map_map.
  cbn [map nth]. apply list_eq. intros i. rewrite list_lookup_fmap.
  destruct (decide (i < length c)) as [Hi|Hi].
  - rewrite lookup_seq_lt by done. cbn. symmetry. by apply lookup_nth_lt.
  - rewrite lookup_seq_ge, lookup_ge_None_2 by lia. done.
Qed.

(** The times of the pool are the first variates of the tape, one per
    proposal, scaled to the time interval and sorted. *)
Lemma sampling_times lam T S g m g' :
  homogeneous_poisson_sampling lam T S g = Ok (m, g') ->
  Permutation (times m)
    (map (fun u => sadd (lo T) (smul (ssub (hi T) (lo T)) u))
         (take (nrows m) (unifs g))).
Proof.
  intros Hrun.
  pose proof (sampling_shape _ _ _ _ _ _ Hrun) as (_ & _ & _ & Hc & _).
  unfold homogeneous_poisson_sampling, time_space in Hrun.
  unfold mbind at 1 in Hrun.
  destruct (poisson _ g) as [[N g1]|] eqn:E1; [|done].
  apply poisson_inv in E1 as (_ & HN & Hu).
  assert (N = nrows m) as -> by congruence.
  cbn [mtraverse] in Hrun. unfold mbind at 1 2 in Hrun.
  destruct (uniform_array _ _ _ g1) as [[c g2]|] eqn:E2; [|done].
  unfold mbind at 1 in Hrun.
  destruct (mtraverse _ S g2) as [[cols g3]|]; [|done].
  unfold mbind, mret, lift in Hrun.
  destruct (sort_by_time _) as [m'|] eqn:E3; [|done]. inv Hrun.
  pose proof (uniform_array_length _ _ _ _ _ _ E2) as Hlen.
  apply uniform_array_inv in E2 as (_ & Hcol & _).
  rewrite Hu in Hcol. rewrite <- Hcol. clear Hcol.
  destruct (sort_by_time_ok (from_columns (nrows m) (c :: cols)))
    as (m' & E & _ & Hp & _); [apply from_columns_wf | cbn; lia |].
  rewrite E in E3. inv E3.
  rewrite <- (from_columns_times (nrows m) c cols Hlen).
  unfold times. by apply Permutation_map.
Qed.

(** C10. The proposal pool: a run of [homogeneous_poisson_sampling] that
    returns yields a well-formed matrix with one column per side of the box
    [[T] + S] and as many rows as the Poisson count taken from the tape,
    ascending in time; it consumed one variate per entry; and on a tape of
    unit variates and a box with proper sides every row lies in the box. *)
Theorem homogeneous_sampling_spec lam T S g m g' :
  homogeneous_poisson_sampling lam T S g = Ok (m, g') ->
  ncols m = Datatypes.S (length S) /\ mat_wf m /\ Sorted sle (times m)
  /\ counts g = nrows m :: counts g'
  /\ length (unifs g) = Datatypes.S (length S) * nrows m + length (unifs g')
  /\ (tape_wf g -> Forall proper_interval (T :: S) ->
      Forall (in_box (T :: S)) (mrows m)).
Proof. apply sampling_shape. Qed.

(** A negative Poisson mean is refused: when the bound times the
    volume of the box is negative (a negative bound, or an odd number of
    reversed sides), the sampling stage raises [ValueError] before it
    draws. *)
Theorem sampling_negative_mean lam T S g :
  slt (poisson_mean lam T S) s0 ->
  homogeneous_poisson_sampling lam T S g = Raise ValueError.
Proof.
  intros Hneg. unfold homogeneous_poisson_sampling, mbind, poisson_mean in *.
  cbv zeta. by rewrite (poisson_negative _ g Hneg).
Qed.

(** The sampling stage returns whenever the mean is not negative and
    the tape holds the count and one variate per entry of the pool. *)
Theorem sampling_total lam T S N cs us :
  sle s0 (poisson_mean lam T S) ->
  Datatypes.S (length S) * N <= length us ->
  exists m g',
    homogeneous_poisson_sampling lam T S (Rng (N :: cs) us) = Ok (m, g').
Proof.
  intros Hmean Hlen. unfold homogeneous_poisson_sampling, poisson_mean in *.
  cbv zeta. unfold mbind at 1.
  rewrite (poisson_pop _ _ _ Hmean). unfold mbind, time_space.
  destruct (draw_columns_total N (T :: S) (Rng cs us) Hlen) as (cols & g' & E).
  rewrite E. pose proof E as E'.
  apply draw_columns_inv in E' as (_ & _ & _ & HF).
  pose proof (Forall2_length _ _ _ HF) as Hcols. cbn [length] in Hcols.
  destruct (sort_by_time_ok (from_columns N cols)) as (m' & -> & _);
    [apply from_columns_wf | cbn; lia |].
  cbn. eauto.
Qed.

End Proposal.

(** ** Concrete instances *)

Local Open Scope Q_scope.

Lemma tape2_wf : tape_wf tape2.
Proof. unfold tape_wf. apply (bool_decide_unpack _). vm_compute. exact I. Defined.

Lemma unit_box_proper : Forall proper_interval (unit_T :: unit_S).
Proof.
  unfold proper_interval. apply (bool_decide_unpack _). vm_compute. exact I.
Defined.

Lemma tape2_pool :
  homogeneous_poisson_sampling (lamQ 1 2) unit_T unit_S tape2
  = Ok (pool3, Rng [2%nat] [1#4; 3#4; 1#3; 1#2; 1#4; 1#10; 1#5; 1#2; 3#5;
                            1#4; 1#3]).
Proof. vm_compute. reflexivity. Defined.

Lemma homogeneous_sampling_spec_witness :
  ncols pool3 = 3%nat /\ mat_wf pool3 /\ Sorted sle (times pool3)
  /\ counts tape2 = [nrows pool3; 2%nat]
  /\ length (unifs tape2) = (3 * nrows pool3 + 11)%nat
  /\ (tape_wf tape2 -> Forall proper_interval (unit_T :: unit_S) ->
      Forall (in_box (unit_T :: unit_S)) (mrows pool3)).
Proof.
  exact (homogeneous_sampling_spec (lamQ 1 2) unit_T unit_S tape2 _ _ tape2_pool).
Defined.

Lemma sampling_negative_mean_witness :
  homogeneous_poisson_sampling (lamQ 1 2) (1, 0) unit_S tape2 = Raise ValueError.
Proof.
  apply sampling_negative_mean. apply sltb_true. vm_compute. reflexivity.
Defined.

Lemma sampling_total_witness :
  exists m g',
    homogeneous_poisson_sampling (lamQ 1 2) unit_T unit_S
      (Rng [1%nat] [1#2; 1#3; 1#4]) = Ok (m, g').
Proof.
  apply sampling_total.
  - apply sleb_true. vm_compute. reflexivity.
  - cbn. lia.
Defined.
