(* ===== verification/Generate.v ===== *)
(** * Generate: batching accepted sequences

    [generate] retries the two stages until [batch_size] sequences passed
    the acceptance test, then pads them to a common length.  This file
    states the invariant of the retry loop ([gen_inv]: the recorded
    sequences are well formed, long enough and ascending; [sizes] and
    [max_len] describe them), proves it of every state the loop reaches,
    and derives the shape and the content of the returned tensor.

    The loop is also given as a transition system: [attempt] is one pass
    through its body, [iterates n] a chain of [n] passes that ends in the
    first state whose counter reached [batch_size].  The fuelled loop
    computes exactly these chains.

    What the loop is for is stated without its variables: [passes] is the
    series of outcomes of the two stages run one after the other on the
    generator, [accepted] the acceptance test of the specification (a
    sequence of at least [min_n_points] points).  [generate] is rejection
    sampling over that series ([generate_rejection_sampling]): it returns
    the accepted outcomes in order, padded to the longest, and stops at
    the first pass that completes the batch.

    Fuel: the loop consumes one unit per attempt.  A run that does not run
    out of fuel is the same with any larger fuel
    ([generate_fuel_monotone]); the length of the chain, [batch_size] plus
    the number of rejected attempts, is enough ([generate_terminates]).

    Last, the call [generate()] with the default arguments: an exception
    of the first thinning ends it ([generate_first_raises]), and the
    default [verbose=True] raises one on a small first pool
    ([generate_default_crash]). *)

From Stdlib Require Import Reals Lra ZArith QArith.
From stdpp Require Import base tactics list sorting.
From S2P Require Import Prelude Scalar NdArray ArgSort Region Rng Kernel Intensity.
From S2P Require Import Sampler Fixtures Thinning Proposal.

Section GenerateLoop.
Context {A : Type} `{ArgSort A} {L : Type} `{!Intensity A L}.
Context (lam : L) (T : interval A) (S : list (interval A)).
Context (batch_size min_n_points : Z) (verbose : bool).
Implicit Types (st : gen_state A) (g : rng A) (pts homo : mat A) (fuel : nat).

(** A sequence [generate] may record: a well-formed matrix with one column
    per side of the box, at least [min_n_points] rows, ascending in time. *)
Definition good_sequence pts : Prop :=
  mat_wf pts /\ ncols pts = Datatypes.S (length S)
  /\ (min_n_points <= Z.of_nat (nrows pts))%Z
  /\ Sorted sle (times pts).

(** The invariant of the [while] loop. *)
Definition gen_inv st : Prop :=
  length (points_list st) = b st
  /\ sizes st = map nrows (points_list st)
  /\ max_len st = fold_left Nat.max (sizes st) 0
  /\ Forall good_sequence (points_list st).

Lemma gen_inv_init : gen_inv gen_init.
Proof. repeat split. constructor. Qed.

Lemma gen_inv_record st pts :
  gen_inv st -> good_sequence pts -> gen_inv (gen_record st pts).
Proof.
  intros (Hb & Hs & Hm & Hg) Hpts. unfold gen_record.
  repeat split; cbn [points_list sizes max_len b].
  - rewrite length_app. cbn. lia.
  - by rewrite map_app, Hs.
  - rewrite fold_left_app, <- Hm. cbn [fold_left].
    destruct (Nat.ltb_spec (max_len st) (nrows pts)); lia.
  - apply Forall_app. split; [done | by constructor].
Qed.

(** An attempt that passes the acceptance test yields a good sequence. *)
Lemma attempt_good g homo g1 pts g2 :
  homogeneous_poisson_sampling lam T S g = Ok (homo, g1) ->
  inhomogeneous_poisson_thinning lam homo verbose g1 = Ok (Some pts, g2) ->
  rejected min_n_points (Some pts) = false ->
  good_sequence pts.
Proof.
  intros Hs Ht Hr. apply sampling_shape in Hs as (Hc & Hwf & Hsorted & _).
  apply thinning_some_shape in Ht as (Hc' & Hwf' & _ & Hs'); [|done | lia].
  repeat split; [done | congruence | | by apply Hs'].
  cbn in Hr. by apply Z.ltb_ge in Hr.
Qed.

(** One unrolling of the loop. *)
Lemma generate_loop_eq fuel st g :
  generate_loop fuel lam T S batch_size min_n_points verbose st g
  = if (Z.of_nat (b st) <? batch_size)%Z then
      match fuel with
      | 0 => Raise OutOfFuel
      | Datatypes.S fuel' =>
          match homogeneous_poisson_sampling lam T S g with
          | Raise e => Raise e
          | Ok (homo, g1) =>
              match inhomogeneous_poisson_thinning lam homo verbose g1 with
              | Raise e => Raise e
              | Ok (points, g2) =>
                  generate_loop fuel' lam T S batch_size min_n_points verbose
                    (match points with
                     | Some pts => if rejected min_n_points points then st
                                   else gen_record st pts
                     | None => st
                     end) g2
              end
          end
      end
    else Ok (st, g).
Proof.
  destruct fuel as [|fuel]; cbn [generate_loop];
    destruct (Z.of_nat (b st) <? batch_size)%Z; try done.
  unfold mbind. destruct (homogeneous_poisson_sampling _ _ _ g) as [[homo g1]|]; [|done].
  destruct (inhomogeneous_poisson_thinning _ _ _ g1) as [[[pts|] g2]|]; try done.
  by destruct (rejected _ _).
Qed.

(** The loop preserves the invariant and stops with exactly the requested
    number of sequences. *)
Lemma generate_loop_inv fuel : forall st g st' g',
  gen_inv st ->
  generate_loop fuel lam T S batch_size min_n_points verbose st g = Ok (st', g') ->
  gen_inv st' /\ b st' = Nat.max (b st) (Z.to_nat batch_size).
Proof.
  induction fuel as [|fuel IH]; intros st g st' g' Hinv Hrun;
    rewrite generate_loop_eq in Hrun;
    destruct (Z.ltb_spec (Z.of_nat (b st)) batch_size) as [Hlt|Hge];
    try discriminate; try (inv Hrun; split; [done | lia]).
  destruct (homogeneous_poisson_sampling _ _ _ g) as [[homo g1]|] eqn:Es; [|done].
  destruct (inhomogeneous_poisson_thinning _ _ _ g1) as [[[pts|] g2]|] eqn:Et;
    [| |done].
  - destruct (rejected min_n_points (Some pts)) eqn:Er.
    + apply IH in Hrun as [? ?]; done.
    + apply IH in Hrun as [? Hb]; [|eauto using gen_inv_record, attempt_good].
      split; [done |]. cbn in Hb. lia.
  - apply IH in Hrun as [? ?]; done.
Qed.

(** More fuel does not change a run that did not run out of it. *)
Lemma generate_loop_fuel fuel : forall fuel' st g r,
  fuel <= fuel' ->
  generate_loop fuel lam T S batch_size min_n_points verbose st g = r ->
  r <> Raise OutOfFuel ->
  generate_loop fuel' lam T S batch_size min_n_points verbose st g = r.
Proof.
  induction fuel as [|fuel IH]; intros fuel' st g r Hle Hrun Hr;
    rewrite generate_loop_eq in Hrun; rewrite generate_loop_eq;
    destruct (Z.of_nat (b st) <? batch_size)%Z; try done.
  destruct fuel' as [|fuel']; [lia |].
  destruct (homogeneous_poisson_sampling _ _ _ g) as [[homo g1]|]; [|done].
  destruct (inhomogeneous_poisson_thinning _ _ _ g1) as [[points g2]|]; [|done].
  apply IH; [lia | done | done].
Qed.

End GenerateLoop.

(** ** The returned batch *)

Section GenerateBatch.
Context {A : Type} `{ArgSort A} {L : Type} `{!Intensity A L}.
Context (lam : L) (T : interval A) (S : list (interval A)).
Context (batch_size min_n_points : Z) (verbose : bool).
Implicit Types (st : gen_state A) (g : rng A) (pts d : mat A) (fuel : nat)
  (data : list (mat A)) (szs : list nat).

(** The sequence [pts], three columns wide, right-padded with zero rows to
    [n] rows. *)
Definition pad (n : nat) pts : mat A :=
  Mat 3 (mrows pts ++ replicate (n - nrows pts) (replicate 3 s0)).

(** The padding loop runs over the recorded sequences. *)
Lemma pack_rows st :
  (0 <= batch_size)%Z -> b st = Z.to_nat batch_size ->
  length (points_list st) = b st ->
  pack batch_size st
  = rtraverse (fun pts => assign_rows (zeros (max_len st) 3) (nrows pts) pts)
              (points_list st).
Proof.
  intros Hb Hn Hl. unfold pack. rewrite (proj2 (Z.ltb_ge _ _) Hb).
  rewrite <- Hn, <- Hl. apply rtraverse_index_seq.
Qed.

(** A returning run of [generate] is a returning loop followed by a
    successful [pack]. *)
Lemma generate_ok_inv fuel g data szs g' :
  generate fuel lam T S batch_size min_n_points verbose g = Ok (data, szs, g') ->
  exists st,
    generate_loop fuel lam T S batch_size min_n_points verbose gen_init g
    = Ok (st, g')
    /\ pack batch_size st = Ok data /\ szs = sizes st.
Proof. unfold generate. intros Hrun. m_inv. eauto. Qed.

(** What a returning run of [generate] went through: a final state of the
    loop that satisfies the invariant, holds [batch_size] sequences, and
    was packed. *)
Lemma generate_inv fuel g data szs g' :
  generate fuel lam T S batch_size min_n_points verbose g = Ok (data, szs, g') ->
  exists st,
    gen_inv S min_n_points st /\ (0 <= batch_size)%Z
    /\ b st = Z.to_nat batch_size /\ szs = sizes st
    /\ rtraverse (fun pts => assign_rows (zeros (max_len st) 3) (nrows pts) pts)
                 (points_list st) = Ok data
    /\ generate_loop fuel lam T S batch_size min_n_points verbose gen_init g
       = Ok (st, g').
Proof.
  intros (st & El & Ep & ->)%generate_ok_inv. pose proof El as El'.
  apply generate_loop_inv in El as [Hinv Hb]; [|apply gen_inv_init].
  cbn in Hb. assert (Hpos : (0 <= batch_size)%Z).
  { unfold pack in Ep. by destruct (Z.ltb_spec batch_size 0). }
  exists st. rewrite pack_rows in Ep by (done || apply Hinv). auto 7.
Qed.

Lemma recorded_fits st pts :
  gen_inv S min_n_points st -> pts ∈ points_list st -> nrows pts <= max_len st.
Proof.
  intros (_ & Hs & Hm & _) Hin. rewrite Hm, Hs.
  pose proof (fold_left_max_ge (map nrows (points_list st)) 0) as HF.
  apply (proj1 (Forall_forall _ _) HF). apply list_elem_of_In, in_map.
  by apply list_elem_of_In.
Qed.

(** C6. The shape of the batch: when [generate] returns, [data] holds
    [batch_size] matrices and [sizes] as many entries; every matrix is well
    formed, three columns wide, and has as many rows as the longest
    recorded sequence. *)
Theorem generate_shape fuel g data szs g' :
  generate fuel lam T S batch_size min_n_points verbose g = Ok (data, szs, g') ->
  length data = Z.to_nat batch_size /\ length szs = Z.to_nat batch_size
  /\ Forall (fun d => ncols d = 3 /\ nrows d = fold_left Nat.max szs 0 /\ mat_wf d)
            data.
Proof.
  intros Hrun.
  apply generate_inv in Hrun as (st & Hinv & _ & Hb & -> & Hp & _).
  pose proof Hinv as (Hl & Hs & Hm & Hg).
  apply rtraverse_ok_Forall2 in Hp. pose proof (Forall2_length _ _ _ Hp) as Hd.
  split; [lia |]. split; [rewrite Hs, length_map; lia |].
  rewrite <- Hm. eapply Forall2_Forall_r; [exact Hp |].
  eapply Forall_impl; [exact Hg |]. intros pts (Hwf & _) d Ha.
  apply assign_rows_shape in Ha as (Hc & Hn & Hwd); [|apply zeros_wf | done].
  by rewrite nrows_zeros in Hn.
Qed.

(** In two space dimensions every recorded sequence fits its slice of the
    zero tensor: the padding loop succeeds and pads. *)
Lemma pad_rows st :
  length S = 2 -> gen_inv S min_n_points st ->
  rtraverse (fun pts => assign_rows (zeros (max_len st) 3) (nrows pts) pts)
            (points_list st)
  = Ok (map (pad (max_len st)) (points_list st)).
Proof.
  intros HS Hinv. apply rtraverse_map, Forall_forall. intros pts Hin.
  pose proof Hinv as (_ & _ & _ & Hg).
  pose proof (proj1 (Forall_forall _ _) Hg pts Hin) as (Hwf & Hc & _).
  rewrite assign_rows_fit;
    [|done | rewrite nrows_zeros; by eapply recorded_fits | by rewrite Hc, HS].
  unfold pad, zeros. cbn [mrows ncols]. by rewrite drop_replicate.
Qed.

(** Outside two space dimensions a recorded sequence does not fit: the
    first assignment of the padding loop raises. *)
Lemma pad_rows_mismatch st :
  length S <> 2 -> length S <> 0 -> gen_inv S min_n_points st -> 0 < b st ->
  rtraverse (fun pts => assign_rows (zeros (max_len st) 3) (nrows pts) pts)
            (points_list st)
  = Raise ValueError.
Proof.
  intros Hn2 Hn0 (Hl & _ & _ & Hg) Hb.
  destruct (points_list st) as [|pts rest]; [cbn in Hl; lia |].
  apply Forall_cons in Hg as [(_ & Hc & _) _]. cbn [rtraverse].
  rewrite assign_rows_mismatch; [done | |]; rewrite Hc; cbn; lia.
Qed.

(** The sequence [pts] of times alone as [pack] stores it: every time
    repeated across the three columns, then zero rows. *)
Definition pad_time (n : nat) pts : mat A :=
  Mat 3 (map (fun r => replicate 3 (nth 0 r s0)) (mrows pts)
         ++ replicate (n - nrows pts) (replicate 3 s0)).

(** Without space dimension a recorded sequence has one column, which the
    assignment broadcasts. *)
Lemma pad_rows_time st :
  length S = 0 -> gen_inv S min_n_points st ->
  rtraverse (fun pts => assign_rows (zeros (max_len st) 3) (nrows pts) pts)
            (points_list st)
  = Ok (map (pad_time (max_len st)) (points_list st)).
Proof.
  intros HS Hinv. apply rtraverse_map, Forall_forall. intros pts Hin.
  pose proof Hinv as (_ & _ & _ & Hg).
  pose proof (proj1 (Forall_forall _ _) Hg pts Hin) as (Hwf & Hc & _).
  rewrite assign_rows_widen;
    [|done | rewrite nrows_zeros; by eapply recorded_fits | by rewrite Hc, HS
     | done].
  unfold pad_time, zeros. cbn [mrows ncols]. by rewrite drop_replicate.
Qed.

(** C7. The content of the batch in two space dimensions: [data] is the
    list of the recorded sequences, each right-padded with zero rows to the
    common length, and [sizes] lists their true lengths; every recorded
    sequence is well formed, ascending in time and has at least
    [min_n_points] rows. *)
Theorem generate_padding fuel g data szs g' :
  length S = 2 ->
  generate fuel lam T S batch_size min_n_points verbose g = Ok (data, szs, g') ->
  exists seqs,
    Forall (good_sequence S min_n_points) seqs
    /\ szs = map nrows seqs
    /\ data = map (pad (fold_left Nat.max szs 0)) seqs.
Proof.
  intros HS Hrun.
  apply generate_inv in Hrun as (st & Hinv & _ & Hb & -> & Hp & _).
  pose proof Hinv as (Hl & Hs & Hm & Hg).
  exists (points_list st). split; [done |]. split; [done |].
  rewrite <- Hm. rewrite pad_rows in Hp by done. by inv Hp.
Qed.

(** Without space dimension the batch is still three columns wide: every
    row of [data] holds the time of an event three times, or zeros. *)
Theorem generate_no_space fuel g data szs g' :
  length S = 0 ->
  generate fuel lam T S batch_size min_n_points verbose g = Ok (data, szs, g') ->
  exists seqs,
    Forall (good_sequence S min_n_points) seqs
    /\ szs = map nrows seqs
    /\ data = map (pad_time (fold_left Nat.max szs 0)) seqs.
Proof.
  intros HS Hrun.
  apply generate_inv in Hrun as (st & Hinv & _ & Hb & -> & Hp & _).
  pose proof Hinv as (Hl & Hs & Hm & Hg).
  exists (points_list st). split; [done |]. split; [done |].
  rewrite <- Hm. rewrite pad_rows_time in Hp by done. by inv Hp.
Qed.

(** C8. No short sequence is returned: every entry of [sizes] is at least
    [min_n_points]. *)
Theorem generate_min_points fuel g data szs g' :
  generate fuel lam T S batch_size min_n_points verbose g = Ok (data, szs, g') ->
  Forall (fun n => (min_n_points <= Z.of_nat n)%Z) szs.
Proof.
  intros Hrun.
  apply generate_inv in Hrun as (st & (_ & Hs & _ & Hg) & _ & _ & -> & _).
  rewrite Hs. apply Forall_map. eapply Forall_impl; [exact Hg |].
  by intros pts (_ & _ & Hmin & _).
Qed.

End GenerateBatch.

(** ** The retry loop as a transition system

    One attempt is one transition; a run of the loop is a chain of attempts
    that ends in the first state whose counter reached [batch_size].  The
    fuelled loop computes exactly these chains, and the length of the chain
    is the fuel it needs. *)

Section GenerateRuns.
Context {A : Type} `{ArgSort A} {L : Type} `{!Intensity A L}.
Context (lam : L) (T : interval A) (S : list (interval A)).
Context (batch_size min_n_points : Z) (verbose : bool).
Implicit Types (st : gen_state A) (g : rng A) (pts homo : mat A)
  (fuel n : nat) (points : option (mat A)).

(** The state after an attempt that produced [points]. *)
Definition gen_next st points : gen_state A :=
  match points with
  | Some pts => if rejected min_n_points points then st else gen_record st pts
  | None => st
  end.

(** One pass through the body of the [while] loop. *)
Inductive attempt : gen_state A -> rng A -> gen_state A -> rng A -> Prop :=
| attempt_pass st g homo g1 points g2 :
    (Z.of_nat (b st) < batch_size)%Z ->
    homogeneous_poisson_sampling lam T S g = Ok (homo, g1) ->
    inhomogeneous_poisson_thinning lam homo verbose g1 = Ok (points, g2) ->
    attempt st g (gen_next st points) g2.

(** [iterates n st g st' g']: the loop entered in [st] with tape [g] leaves
    after [n] attempts in [st'] with tape [g']. *)
Inductive iterates : nat -> gen_state A -> rng A -> gen_state A -> rng A -> Prop :=
| iterates_exit st g :
    (batch_size <= Z.of_nat (b st))%Z -> iterates 0 st g st g
| iterates_again n st g st1 g1 st' g' :
    attempt st g st1 g1 -> iterates n st1 g1 st' g' ->
    iterates (Datatypes.S n) st g st' g'.

Lemma attempt_counter st g st1 g1 :
  attempt st g st1 g1 -> b st <= b st1 <= Datatypes.S (b st).
Proof.
  intros [st0 g0 homo g2 [pts|] g3 _ _ _]; unfold gen_next; cbn; [|lia].
  destruct (_ <? _)%Z; cbn; lia.
Qed.

Lemma attempt_deterministic st g st1 g1 st2 g2 :
  attempt st g st1 g1 -> attempt st g st2 g2 -> st1 = st2 /\ g1 = g2.
Proof.
  intros Ha Hb. inv Ha. inv Hb. split; congruence.
Qed.

(** A chain of [n] attempts is what the loop computes with fuel [n] or
    more. *)
Lemma iterates_run n st g st' g' :
  iterates n st g st' g' -> forall fuel, n <= fuel ->
  generate_loop fuel lam T S batch_size min_n_points verbose st g = Ok (st', g').
Proof.
  induction 1 as [st g Hb|n st g st1 g1 st' g' Ha _ IH]; intros fuel Hle;
    rewrite generate_loop_eq.
  - by rewrite (proj2 (Z.ltb_ge _ _) Hb).
  - inv Ha. rewrite (proj2 (Z.ltb_lt _ _) H1).
    destruct fuel as [|fuel]; [lia |]. rewrite H2, H3. apply IH. lia.
Qed.

(** A returning run of the loop is a chain of at most [fuel] attempts. *)
Lemma run_iterates fuel : forall st g st' g',
  generate_loop fuel lam T S batch_size min_n_points verbose st g = Ok (st', g') ->
  exists n, n <= fuel /\ iterates n st g st' g'.
Proof.
  induction fuel as [|fuel IH]; intros st g st' g' Hrun;
    rewrite generate_loop_eq in Hrun;
    destruct (Z.ltb_spec (Z.of_nat (b st)) batch_size) as [Hlt|Hge];
    try (inv Hrun; exists 0; split; [lia | by constructor]); [done |].
  destruct (homogeneous_poisson_sampling _ _ _ g) as [[homo g1]|] eqn:Eh; [|done].
  destruct (inhomogeneous_poisson_thinning _ _ _ g1) as [[points g2]|] eqn:Et;
    [|done].
  apply IH in Hrun as (n & Hle & Hn). exists (Datatypes.S n). split; [lia |].
  eapply iterates_again; [|exact Hn]. by eapply attempt_pass.
Qed.

(** *** The loop as rejection sampling

    What the loop does, without its local variables: the passes produce
    outcomes one after the other, each the result of thinning the pool
    drawn next from the tape, and the batch is made of the outcomes that
    are a sequence of [min_n_points] events or more. *)

Inductive passes : rng A -> list (option (mat A)) -> rng A -> Prop :=
| passes_nil g : passes g [] g
| passes_cons g homo g1 points g2 outs g' :
    homogeneous_poisson_sampling lam T S g = Ok (homo, g1) ->
    inhomogeneous_poisson_thinning lam homo verbose g1 = Ok (points, g2) ->
    passes g2 outs g' ->
    passes g (points :: outs) g'.

(** The sequence an outcome contributes to the batch, if any. *)
Definition accepted points : option (mat A) :=
  match points with
  | Some pts =>
      if (min_n_points <=? Z.of_nat (nrows pts))%Z then Some pts else None
  | None => None
  end.

(** One pass records what it accepted, and counts it. *)
Lemma gen_next_keeps st points :
  points_list (gen_next st points) = points_list st ++ omap accepted [points]
  /\ b (gen_next st points) = b st + length (omap accepted [points]).
Proof.
  destruct points as [pts|]; unfold gen_next, rejected, accepted;
    cbn [omap list_omap];
    [destruct (Z.ltb_spec (Z.of_nat (nrows pts)) min_n_points),
       (Z.leb_spec min_n_points (Z.of_nat (nrows pts))); try lia |];
    cbn; rewrite ?app_nil_r; split; (done || lia).
Qed.

(** A chain of [n] passes produced [n] outcomes; the state it ends in holds
    the accepted ones after those it started with, and before each pass
    the batch was not full. *)
Lemma iterates_passes n st g st' g' :
  iterates n st g st' g' ->
  exists outs,
    passes g outs g' /\ length outs = n
    /\ points_list st' = points_list st ++ omap accepted outs
    /\ b st' = b st + length (omap accepted outs)
    /\ forall k, k < n ->
         (Z.of_nat (b st + length (omap accepted (take k outs)))
          < batch_size)%Z.
Proof.
  induction 1 as [st g Hb|n st g st1 g1 st' g' Ha _ IH].
  { exists []. cbn. rewrite app_nil_r.
    split; [constructor | repeat split; lia]. }
  destruct IH as (outs & Hp & Hlen & Hl & Hb & Hk).
  destruct Ha as [st g homo g1 points g2 Hlt Hs Ht].
  destruct (gen_next_keeps st points) as [Hl1 Hb1].
  assert (Hcons : forall l, omap accepted (points :: l)
                            = omap accepted [points] ++ omap accepted l)
    by (intros l; apply (omap_app _ [points] l)).
  exists (points :: outs). rewrite Hcons, Hl, Hb, Hl1, Hb1, !length_app.
  split; [by econstructor |]. split; [cbn; lia |].
  split; [by rewrite app_assoc |]. split; [lia |].
  intros [|k] Hlt'; [cbn; lia |]. cbn [take].
  rewrite Hcons, length_app. specialize (Hk k). lia.
Qed.

(** The chain that leaves the loop is unique: the tape determines it. *)
Lemma iterates_deterministic n st g st1 g1 :
  iterates n st g st1 g1 -> forall m st2 g2, iterates m st g st2 g2 ->
  n = m /\ st1 = st2 /\ g1 = g2.
Proof.
  induction 1 as [st g Hb|n st g sta ga st1 g1 Ha _ IH]; intros m st2 g2 Hm.
  - inv Hm; [done |]. inv H1. lia.
  - inv Hm; [inv Ha; lia |].
    destruct (attempt_deterministic _ _ _ _ _ _ Ha H1) as [-> ->].
    destruct (IH _ _ _ H2) as (-> & -> & ->). done.
Qed.

(** A chain from the initial state takes at least [batch_size] attempts:
    every attempt records at most one sequence. *)
Lemma iterates_counter n st g st' g' :
  iterates n st g st' g' -> b st' <= b st + n.
Proof.
  induction 1 as [|n st g st1 g1 st' g' Ha _ IH]; [lia |].
  apply attempt_counter in Ha. lia.
Qed.

(** Every attempt takes one Poisson count from the tape: the chain is as
    long as the number of counts it consumed. *)
Lemma attempt_counts st g st1 g1 :
  attempt st g st1 g1 -> length (counts g) = Datatypes.S (length (counts g1)).
Proof.
  intros [st0 g0 homo g2 points g3 _ Hs Ht].
  pose proof (sampling_shape _ _ _ _ _ _ Hs) as (Hc & Hwf & _).
  apply sampling_inv in Hs as (N & cols & _ & -> & _).
  assert (Hw : 0 < ncols homo) by lia.
  apply (thinning_sound _ _ _ _ _ _ Hwf Hw) in Ht as (us & vs & _ & -> & _).
  done.
Qed.

Lemma iterates_counts n st g st' g' :
  iterates n st g st' g' -> length (counts g) = n + length (counts g').
Proof.
  induction 1 as [|n st g st1 g1 st' g' Ha _ IH]; [done |].
  apply attempt_counts in Ha. lia.
Qed.

(** Fuel beyond the number of counts on the tape is never used: the loop
    has left, or raised, by the time the tape is empty. *)
Lemma generate_loop_saturates fuel : forall st g,
  length (counts g) < fuel ->
  generate_loop fuel lam T S batch_size min_n_points verbose st g
  = generate_loop (Datatypes.S (length (counts g))) lam T S batch_size
                  min_n_points verbose st g.
Proof.
  induction fuel as [|fuel IH]; intros st g Hlt; [lia |].
  rewrite !generate_loop_eq.
  destruct (Z.ltb_spec (Z.of_nat (b st)) batch_size) as [Hb|]; [|done].
  destruct (homogeneous_poisson_sampling _ _ _ g) as [[homo g1]|] eqn:Es; [|done].
  destruct (inhomogeneous_poisson_thinning _ _ _ g1) as [[points g2]|] eqn:Et;
    [|done].
  pose proof (attempt_counts _ _ _ _ (attempt_pass st g homo g1 points g2 Hb Es Et))
    as Hc.
  fold (gen_next st points). rewrite Hc. apply IH. lia.
Qed.

(** Every event of [pts] lies in the box [[T] + S]. *)
Definition boxed pts : Prop := Forall (in_box (T :: S)) (mrows pts).

(** An attempt on a tape of unit variates over a proper box leaves such a
    tape and records events of the box only. *)
Lemma attempt_boxed st g st1 g1 :
  Forall proper_interval (T :: S) ->
  attempt st g st1 g1 -> tape_wf g -> Forall boxed (points_list st) ->
  tape_wf g1 /\ Forall boxed (points_list st1).
Proof.
  intros Hbox Ha Hwf Hst. destruct Ha as [st g homo g1 points g2 _ Hs Ht].
  pose proof (sampling_shape _ _ _ _ _ _ Hs) as (Hc & Hwfh & _ & _ & _ & Hin).
  apply sampling_inv in Hs as (N & cols & _ & _ & Hus & _).
  assert (Hwf1 : tape_wf g1)
    by (unfold tape_wf; rewrite Hus; by apply Forall_drop).
  assert (Hw : 0 < ncols homo) by lia.
  pose proof (thinning_sound _ _ _ _ _ _ Hwfh Hw Ht) as (us & vs & Hu & _ & _).
  assert (Hwf2 : tape_wf g2).
  { unfold tape_wf in *. rewrite Hu in Hwf1. by apply Forall_app in Hwf1 as [_ ?]. }
  split; [done |]. unfold gen_next. destruct points as [pts|]; [|done].
  destruct (rejected _ _); [done |]. cbn [gen_record points_list].
  apply Forall_app. split; [done |]. constructor; [|done].
  apply thinning_some_shape in Ht as (_ & _ & Hsub & _); [|done | done].
  unfold boxed. eapply sublist_Forall; [exact Hsub | by apply Hin].
Qed.

(** By induction on the chain: the loop preserves both. *)
Lemma iterates_boxed n st g st' g' :
  Forall proper_interval (T :: S) ->
  iterates n st g st' g' -> tape_wf g -> Forall boxed (points_list st) ->
  tape_wf g' /\ Forall boxed (points_list st').
Proof.
  intros Hbox. induction 1 as [|n st g st1 g1 st' g' Ha _ IH]; [done |].
  intros Hwf Hst. destruct (attempt_boxed _ _ _ _ Hbox Ha Hwf Hst). by apply IH.
Qed.

End GenerateRuns.

(** ** Termination and the error paths of [generate] *)

Section GenerateTotal.
Context {A : Type} `{ArgSort A} {L : Type} `{!Intensity A L}.
Context (lam : L) (T : interval A) (S : list (interval A)).
Context (batch_size min_n_points : Z) (verbose : bool).
Implicit Types (st : gen_state A) (g : rng A) (fuel n : nat).

(** [generate] after a loop that returned. *)
Lemma generate_after_loop fuel g st g' :
  generate_loop fuel lam T S batch_size min_n_points verbose gen_init g
  = Ok (st, g') ->
  gen_inv S min_n_points st /\ b st = Z.to_nat batch_size
  /\ generate fuel lam T S batch_size min_n_points verbose g
     = match pack batch_size st with
       | Ok data => Ok (data, sizes st, g')
       | Raise e => Raise e
       end.
Proof.
  intros El. pose proof El as Hinv.
  apply generate_loop_inv in Hinv as [Hinv Hb]; [|apply gen_inv_init].
  split; [done |]. split; [done |].
  unfold generate, mbind, lift, mret. rewrite El. by destruct (pack _ _).
Qed.

(** A returning run over a proper box in two space dimensions: the batch is
    the padding of recorded sequences that satisfy the loop invariant and
    lie in the box. *)
Lemma generate_batch fuel g data szs g' :
  length S = 2 -> Forall proper_interval (T :: S) -> tape_wf g ->
  generate fuel lam T S batch_size min_n_points verbose g = Ok (data, szs, g') ->
  tape_wf g'
  /\ exists seqs,
       Forall (good_sequence S min_n_points) seqs /\ Forall (boxed T S) seqs
       /\ szs = map nrows seqs
       /\ data = map (pad (fold_left Nat.max szs 0)) seqs.
Proof.
  intros HS Hbox Hwf Hrun.
  apply generate_inv in Hrun as (st & Hinv & _ & _ & -> & Hp & El).
  apply run_iterates in El as (n & _ & Hit).
  destruct (iterates_boxed _ _ _ _ _ _ _ _ _ _ _ Hbox Hit Hwf) as [Hwf' Hst];
    [constructor |].
  split; [done |]. exists (points_list st).
  pose proof Hinv as (_ & Hs & Hm & Hg). do 3 (split; [done |]).
  rewrite (pad_rows S min_n_points) in Hp by done. rewrite <- Hm. by inv Hp.
Qed.

(** C9. The events of a batch lie in the box: on a tape of unit variates and
    a box with proper sides in two space dimensions, [data] is the padding
    of sequences whose every event lies in [[T] + S]; the tape left over is
    a tape of unit variates. *)
Theorem generate_in_box fuel g data szs g' :
  length S = 2 -> Forall proper_interval (T :: S) -> tape_wf g ->
  generate fuel lam T S batch_size min_n_points verbose g = Ok (data, szs, g') ->
  tape_wf g'
  /\ exists seqs,
       Forall (boxed T S) seqs /\ szs = map nrows seqs
       /\ data = map (pad (fold_left Nat.max szs 0)) seqs.
Proof.
  intros HS Hbox Hwf Hrun.
  destruct (generate_batch _ _ _ _ _ HS Hbox Hwf Hrun)
    as (Hwf' & seqs & _ & Hb & Hs & Hd).
  eauto 6.
Qed.

(** The fuel a run can use is bounded by the tape: with more fuel than
    there are Poisson counts on the tape, the outcome of [generate] does
    not depend on the fuel.  It is the outcome of the unbounded loop. *)
Theorem generate_fuel_saturates fuel g :
  length (counts g) < fuel ->
  generate fuel lam T S batch_size min_n_points verbose g
  = generate (Datatypes.S (length (counts g))) lam T S batch_size min_n_points
             verbose g.
Proof.
  intros Hlt. unfold generate, mbind.
  by rewrite (generate_loop_saturates _ _ _ _ _ _ fuel) by done.
Qed.

(** More fuel never changes an outcome: a run of [generate] that did
    not run out of fuel, whether it returned or raised, is the run with any
    larger fuel. *)
Theorem generate_fuel_monotone fuel fuel' g r :
  generate fuel lam T S batch_size min_n_points verbose g = r ->
  r <> Raise OutOfFuel -> fuel <= fuel' ->
  generate fuel' lam T S batch_size min_n_points verbose g = r.
Proof.
  unfold generate, mbind. intros Hrun Hr Hle.
  destruct (generate_loop fuel _ _ _ _ _ _ _ g) as [[st g1]|e] eqn:El.
  - by rewrite (generate_loop_fuel _ _ _ _ _ _ _ _ _ _ _ Hle El).
  - rewrite (generate_loop_fuel _ _ _ _ _ _ _ _ _ _ _ Hle El); congruence.
Qed.

(** C13. Termination in two space dimensions: when the tape drives the loop
    out after [n] attempts, any fuel of at least [n] makes [generate] return
    the recorded sequences, padded, with their lengths.  The number of
    attempts is at least [batch_size], and it is the number of Poisson
    counts the run took from the tape: the length of the tape bounds the
    fuel a returning run needs. *)
Theorem generate_terminates fuel n g st g' :
  length S = 2 -> (0 <= batch_size)%Z ->
  iterates lam T S batch_size min_n_points verbose n gen_init g st g' ->
  n <= fuel ->
  generate fuel lam T S batch_size min_n_points verbose g
  = Ok (map (pad (max_len st)) (points_list st), sizes st, g')
  /\ Z.to_nat batch_size <= n
  /\ length (counts g) = n + length (counts g').
Proof.
  intros HS Hpos Hit Hle. pose proof (iterates_counter _ _ _ _ _ _ _ _ _ _ _ Hit).
  pose proof (iterates_counts _ _ _ _ _ _ _ _ _ _ _ Hit).
  apply iterates_run with (fuel := fuel) in Hit; [|done].
  apply generate_after_loop in Hit as (Hinv & Hb & ->).
  rewrite pack_rows by (done || apply Hinv).
  rewrite (pad_rows S min_n_points) by done. split; [done |].
  cbn in *. lia.
Qed.

(** C12. [generate] is rejection sampling: a run that returns in two space
    dimensions went through at most [fuel] passes, each thinning the pool
    drawn next from the tape; the batch is made of the outcomes that are
    a sequence of [min_n_points] events or more, all of them and in the
    order of the passes, padded with zero rows to the longest; there are
    [batch_size] of them, and the loop stopped at the first pass that
    filled the batch. *)
Theorem generate_rejection_sampling fuel g data szs g' :
  length S = 2 ->
  generate fuel lam T S batch_size min_n_points verbose g = Ok (data, szs, g') ->
  exists outs,
    passes lam T S verbose g outs g' /\ length outs <= fuel
    /\ length (omap (accepted min_n_points) outs) = Z.to_nat batch_size
    /\ (forall k, k < length outs ->
          length (omap (accepted min_n_points) (take k outs))
          < Z.to_nat batch_size)
    /\ szs = map nrows (omap (accepted min_n_points) outs)
    /\ data = map (pad (fold_left Nat.max szs 0))
                  (omap (accepted min_n_points) outs).
Proof.
  intros HS (st & Hinv & _ & Hb & -> & Hp & El)%generate_inv.
  apply run_iterates in El as (n & Hle & Hit).
  apply iterates_passes in Hit as (outs & Hps & <- & Hl & Hb' & Hk).
  cbn [points_list b gen_init app] in Hl, Hb', Hk.
  pose proof Hinv as (Hlen & Hs & Hm & _).
  rewrite (pad_rows S min_n_points) in Hp by done. inv Hp.
  exists outs. rewrite <- Hm, Hs, <- Hl.
  split; [done |]. split; [lia |]. split; [lia |]. split; [|done].
  intros k Hlt. specialize (Hk k Hlt). lia.
Qed.

(** C26. The tensor is three columns wide whatever the box: with one space
    dimension, or three or more, a loop that collected a non-empty batch is
    followed by a shape error in the padding loop. *)
Theorem generate_width_mismatch fuel g st g' :
  length S <> 2 -> length S <> 0 -> (0 < batch_size)%Z ->
  generate_loop fuel lam T S batch_size min_n_points verbose gen_init g
  = Ok (st, g') ->
  generate fuel lam T S batch_size min_n_points verbose g = Raise ValueError.
Proof.
  intros Hn2 Hn0 Hpos El.
  apply generate_after_loop in El as (Hinv & Hb & ->).
  rewrite pack_rows by (lia || apply Hinv).
  by rewrite (pad_rows_mismatch S min_n_points) by (done || lia).
Qed.

(** A negative [batch_size] skips the loop and fails in the allocation
    of the tensor, whatever the fuel and the tape. *)
Theorem generate_negative_batch fuel g :
  (batch_size < 0)%Z ->
  generate fuel lam T S batch_size min_n_points verbose g = Raise ValueError.
Proof.
  intros Hneg. unfold generate, mbind, lift. rewrite generate_loop_eq.
  cbn [b gen_init]. rewrite (proj2 (Z.ltb_ge _ _)) by lia.
  unfold pack. by rewrite (proj2 (Z.ltb_lt _ _) Hneg).
Qed.

End GenerateTotal.

(** ** The call with the default arguments

    [generate()] asks for progress messages.  A first pool of two to nine
    proposals, whose first two evaluate within the bound, ends the call in
    the progress message of the second iteration, before any sequence is
    recorded. *)

Section GenerateDefault.
Context {A : Type} `{ArgSort A} {L : Type} `{!Intensity A L}.
Context (lam : L).

(** An exception of the first thinning leaves [generate] as it is. *)
Lemma generate_first_raises T S batch_size min_n_points verbose fuel g homo
    g1 e :
  (0 < batch_size)%Z ->
  homogeneous_poisson_sampling lam T S g = Ok (homo, g1) ->
  inhomogeneous_poisson_thinning lam homo verbose g1 = Raise e ->
  generate (Datatypes.S fuel) lam T S batch_size min_n_points verbose g
  = Raise e.
Proof.
  intros Hpos Hs Ht. unfold generate, mbind. rewrite generate_loop_eq.
  cbn [b gen_init]. rewrite (proj2 (Z.ltb_lt _ _)) by lia.
  by rewrite Hs, Ht.
Qed.

Theorem generate_default_crash fuel g homo p0 p1 rest v0 v1 u0 u1 us cs :
  homogeneous_poisson_sampling lam default_T default_S g
  = Ok (homo, Rng cs (u0 :: u1 :: us)) ->
  mrows homo = p0 :: p1 :: rest -> nrows homo < 10 ->
  eval_at lam (empty_mat 3) p0 = Ok v0 -> sle v0 (upper_bound lam) ->
  eval_at lam (if sleb (smul (unit_draw u0) (upper_bound lam)) v0
               then append_row (empty_mat 3) p0 else empty_mat 3) p1
  = Ok v1 ->
  sle v1 (upper_bound lam) ->
  generate_default (Datatypes.S fuel) lam g = Raise ZeroDivisionError.
Proof.
  intros Hs Hrows HN Hv0 Hb0 Hv1 Hb1.
  destruct (sampling_shape _ _ _ _ _ _ Hs) as (Hc & Hwf & _).
  cbn [length default_S] in Hc. rewrite <- Hc in Hv0, Hv1.
  assert (Hw : 0 < ncols homo) by lia.
  unfold generate_default. eapply generate_first_raises; [lia | exact Hs |].
  destruct (thinning_first_step lam true homo p0 (p1 :: rest) v0 u0 (u1 :: us)
              cs Hwf Hw Hrows Hv0 Hb0) as [HR1 ->].
  cbn [length seq].
  apply (verbose_step_raises _ _ _ _ _ p1 v1); by (lia || rewrite ?Hrows).
Qed.

End GenerateDefault.

(** ** Concrete instances

    Runs of [generate] on the unit box with the constant intensity
    [lamQ 1 2] (every proposal is kept when its variate is at most [1/2]). *)

Local Open Scope Q_scope.

(** The one-point sequence of the short attempt of [tape_pad]. *)
Definition kept1 : mat Q := Mat 3 [[1#2; 1#5; 2#5]].

Lemma batch_pad_run :
  generate 5 (lamQ 1 2) unit_T unit_S 2 1 false tape_pad
  = Ok ([kept3; pad 2 kept1], [2%nat; 1%nat], Rng [] []).
Proof. vm_compute. reflexivity. Defined.

Lemma line_loop_run :
  generate_loop 5 (lamQ 1 2) unit_T [(0, 1)] 1 1 false gen_init tape_line
  = Ok (GenState [Mat 2 [[1#2; 1#3]]] [1%nat] 1 1, Rng [] []).
Proof. vm_compute. reflexivity. Defined.

(** The chain of [tape_retry]: a rejected attempt, then a recorded one. *)
Lemma retry_chain :
  iterates (lamQ 1 2) unit_T unit_S 1 2 false 2 gen_init tape_retry
           (GenState [kept3] [2%nat] 2 1) (Rng [] []).
Proof.
  eapply iterates_again;
    [eapply attempt_pass; [done | vm_compute; reflexivity ..] |].
  eapply iterates_again;
    [eapply attempt_pass; [done | vm_compute; reflexivity ..] |].
  by apply iterates_exit.
Defined.

Lemma generate_shape_witness :
  length [kept3; pad 2 kept1] = Z.to_nat 2
  /\ length [2%nat; 1%nat] = Z.to_nat 2
  /\ Forall (fun d => ncols d = 3%nat
                      /\ nrows d = fold_left Nat.max [2%nat; 1%nat] 0%nat
                      /\ mat_wf d)
            [kept3; pad 2 kept1].
Proof. exact (generate_shape _ _ _ _ _ _ _ _ _ _ _ batch_pad_run). Defined.

Lemma generate_padding_witness :
  exists seqs,
    Forall (good_sequence unit_S 1) seqs
    /\ [2%nat; 1%nat] = map nrows seqs
    /\ [kept3; pad 2 kept1]
       = map (pad (fold_left Nat.max [2%nat; 1%nat] 0%nat)) seqs.
Proof.
  exact (generate_padding _ _ unit_S _ _ _ _ _ _ _ _ eq_refl batch_pad_run).
Defined.

Lemma generate_min_points_witness :
  Forall (fun n => (1 <= Z.of_nat n)%Z) [2%nat; 1%nat].
Proof. exact (generate_min_points _ _ _ _ _ _ _ _ _ _ _ batch_pad_run). Defined.

Lemma generate_fuel_monotone_witness :
  generate 9 (lamQ 1 2) unit_T unit_S 2 1 false tape_pad
  = Ok ([kept3; pad 2 kept1], [2%nat; 1%nat], Rng [] []).
Proof.
  apply (generate_fuel_monotone _ _ _ _ _ _ 5%nat); [exact batch_pad_run | done | lia].
Defined.

Lemma generate_terminates_witness :
  generate 2 (lamQ 1 2) unit_T unit_S 1 2 false tape_retry
  = Ok ([pad 2 kept3], [2%nat], Rng [] [])
  /\ (Z.to_nat 1 <= 2)%nat
  /\ length (counts tape_retry) = (2 + length (counts (Rng [] [] : rng Q)))%nat.
Proof.
  exact (generate_terminates (lamQ 1 2) _ unit_S 1%Z _ _ 2%nat _ _ _ _ eq_refl
           ltac:(done) retry_chain ltac:(done)).
Defined.

(** The run on [tape_retry] with [min_n_points = 2]: the first pass yields
    one point and is discarded, the second is recorded. *)
Lemma batch_retry_run :
  generate 2 (lamQ 1 2) unit_T unit_S 1 2 false tape_retry
  = Ok ([pad 2 kept3], [2%nat], Rng [] []).
Proof. vm_compute. reflexivity. Defined.

Lemma generate_rejection_sampling_witness :
  exists outs,
    passes (lamQ 1 2) unit_T unit_S false tape_retry outs (Rng [] [])
    /\ (length outs <= 2)%nat
    /\ length (omap (accepted 2) outs) = Z.to_nat 1
    /\ (forall k, (k < length outs)%nat ->
          (length (omap (accepted 2) (take k outs)) < Z.to_nat 1)%nat)
    /\ [2%nat] = map nrows (omap (accepted 2) outs)
    /\ [pad 2 kept3]
       = map (pad (fold_left Nat.max [2%nat] 0%nat)) (omap (accepted 2) outs).
Proof.
  exact (generate_rejection_sampling (lamQ 1 2) unit_T unit_S 1 2 false 2
           tape_retry _ _ _ eq_refl batch_retry_run).
Defined.

Lemma generate_width_mismatch_witness :
  generate 5 (lamQ 1 2) unit_T [(0, 1)] 1 1 false tape_line = Raise ValueError.
Proof.
  eapply generate_width_mismatch; [cbn; lia | cbn; lia | lia | exact line_loop_run].
Defined.

Lemma generate_negative_batch_witness :
  generate 5 (lamQ 1 2) unit_T unit_S (-1) 1 false tape_pad = Raise ValueError.
Proof. apply generate_negative_batch. lia. Defined.

(** A run on the time axis alone: one proposal, retained. *)
Lemma time_only_run :
  generate 5 (lamQ 1 2) unit_T [] 1 1 false (Rng [1%nat] [1#2; 1#4])
  = Ok ([pad_time 1 (Mat 1 [[1#2]])], [1%nat], Rng [] []).
Proof. vm_compute. reflexivity. Defined.

Lemma generate_no_space_witness :
  exists seqs,
    Forall (good_sequence [] 1) seqs
    /\ [1%nat] = map nrows seqs
    /\ [pad_time 1 (Mat 1 [[1#2]])]
       = map (pad_time (fold_left Nat.max [1%nat] 0%nat)) seqs.
Proof.
  exact (generate_no_space (lamQ 1 2) unit_T [] 1 1 false _ _ _ _ _ eq_refl
           time_only_run).
Defined.

Lemma tape_pad_wf : tape_wf tape_pad.
Proof. unfold tape_wf. apply (bool_decide_unpack _). vm_compute. exact I. Defined.

Lemma generate_in_box_witness :
  tape_wf (Rng [] [] : rng Q)
  /\ exists seqs,
       Forall (boxed unit_T unit_S) seqs /\ [2%nat; 1%nat] = map nrows seqs
       /\ [kept3; pad 2 kept1]
          = map (pad (fold_left Nat.max [2%nat; 1%nat] 0%nat)) seqs.
Proof.
  exact (generate_in_box (lamQ 1 2) unit_T unit_S 2 1 false _ _ _ _ _ eq_refl
           unit_box_proper tape_pad_wf batch_pad_run).
Defined.

Lemma generate_fuel_saturates_witness :
  generate 9 (lamQ 1 2) unit_T unit_S 2 1 false tape_pad
  = generate (Datatypes.S (length (counts tape_pad))) (lamQ 1 2) unit_T unit_S
             2 1 false tape_pad.
Proof. apply generate_fuel_saturates. cbn. lia. Defined.

(** [generate()] on the unit-rate intensity and a tape whose first pool has
    three proposals. *)
Lemma generate_default_crash_witness :
  generate_default 1 (lamQ 1 2) tape2 = Raise ZeroDivisionError.
Proof.
  apply (generate_default_crash (lamQ 1 2) 0 tape2 pool3 [1#4; 1#5; 3#5]
           [1#2; 1#10; 1#2] [[3#4; 3#10; 7#10]] 1 1 (1#4) (3#4)
           [1#3; 1#2; 1#4; 1#10; 1#5; 1#2; 3#5; 1#4; 1#3] [2%nat] tape2_pool
           eq_refl).
  - cbn. lia.
  - vm_compute. reflexivity.
  - apply sleb_true. vm_compute. reflexivity.
  - vm_compute. reflexivity.
  - apply sleb_true. vm_compute. reflexivity.
Defined.
