(* ===== verification/Endless.v ===== *)
(** * Endless: the sampler on a generator that never runs dry

    The tapes of [Rng] are finite, so every run on them ends.  numpy's
    generator does not run dry, and the loop of [generate] has no bound: on
    an unlucky stream it goes on for ever.  This file gives the generator
    as an endless [source] (two functions of the position), runs the loop
    on it ([attempt_at], [run_endless]), and proves

    - refinement: a run on the source is the run of [generate_loop] on the
      finite window of the source it consumed, and a run of [generate_loop]
      on any window of the source is a run on the source
      ([run_endless_window], [window_run_endless]);
    - liveness: on a fair source, where every attempt returns and ever
      again one is accepted, the loop fills the batch and [generate]
      returns ([fair_generate_returns]);
    - divergence: on a starved source, where every attempt is rejected, no
      fuel is enough and [generate] returns on no window
      ([starved_never_returns]).

    A source is a pair of functions, not a coinductive stream: position
    [(i, j)] says that [i] counts and [j] variates were drawn. *)

From Stdlib Require Import Reals ZArith QArith Lia.
From stdpp Require Import base tactics list.
From S2P Require Import Prelude Scalar NdArray ArgSort Region Rng Kernel Intensity.
From S2P Require Import Sampler Tape Fixtures Thinning Proposal Generate.

Local Open Scope res_scope.
Local Close Scope Q_scope.

Section Source.
Context {A : Type} `{ArgSort A} {L : Type} `{!Intensity A L}.
Context (lam : L) (T : interval A) (S : list (interval A)).
Context (batch_size min_n_points : Z) (verbose : bool).

(** What [np.random] will ever produce: the Poisson counts and the unit
    variates, by position. *)
Record source : Type := Source { s_counts : nat -> nat; s_unifs : nat -> A }.

(** How many counts and variates were drawn so far. *)
Definition pos : Type := (nat * nat)%type.

(** The finite tape of the [n] counts and [m] variates that follow position
    [p]. *)
Definition window (src : source) (p : pos) (n m : nat) : rng A :=
  Rng (map (s_counts src) (seq p.1 n)) (map (s_unifs src) (seq p.2 m)).

(** An attempt that starts with the count [N] draws [N] values per side of
    the box and at most [N] acceptance variates. *)
Definition need (src : source) (p : pos) : nat :=
  s_counts src p.1 * (length S + 2).

(** One pass through the body of the loop at position [p]: the two stages
    on the window that is sure to suffice, and the position after them. *)
Definition attempt_at (src : source) (p : pos) : res (option (mat A) * pos) :=
  match stages lam T S verbose (window src p 1 (need src p)) with
  | Ok (points, g') =>
      Ok (points, (Datatypes.S p.1, p.2 + (need src p - length (unifs g'))))
  | Raise e => Raise e
  end.

(** [while b < batch_size: ...] on the source, unrolled at most [fuel]
    times. *)
Fixpoint run_endless (fuel : nat) (src : source) (st : gen_state A) (p : pos)
  : res (gen_state A * pos) :=
  if (Z.of_nat (b st) <? batch_size)%Z then
    match fuel with
    | 0 => Raise OutOfFuel
    | Datatypes.S fuel' =>
        r <- attempt_at src p;;
        run_endless fuel' src (gen_next min_n_points st r.1) r.2
    end
  else Ok (st, p).

(** [generate] on the source. *)
Definition generate_endless (fuel : nat) (src : source)
  : res (list (mat A) * list nat * pos) :=
  r <- run_endless fuel src gen_init (0, 0);;
  data <- pack batch_size r.1;;
  Ok (data, sizes r.1, r.2).

(** The position at which attempt [k] starts when the loop is never left,
    and what that attempt yields. *)
Fixpoint position (src : source) (k : nat) : res pos :=
  match k with
  | 0 => Ok (0, 0)
  | Datatypes.S k' => p <- position src k';; r <- attempt_at src p;; Ok r.2
  end.

Definition outcome (src : source) (k : nat) : res (option (mat A)) :=
  p <- position src k;; r <- attempt_at src p;; Ok r.1.

Definition accepted_at (src : source) (k : nat) : Prop :=
  exists points,
    outcome src k = Ok points /\ rejected min_n_points points = false.

Definition rejected_at (src : source) (k : nat) : Prop :=
  exists points,
    outcome src k = Ok points /\ rejected min_n_points points = true.

(** A fair source: every attempt returns, and after every attempt there is
    one that is accepted. *)
Definition fair (src : source) : Prop :=
  forall k, (accepted_at src k \/ rejected_at src k)
            /\ exists k', k <= k' /\ accepted_at src k'.

(** A starved source: every attempt returns and is rejected. *)
Definition starved (src : source) : Prop := forall k, rejected_at src k.

End Source.

Arguments source A : clear implicits.

(** ** Windows *)

Section Windows.
Context {A : Type} `{Scalar A}.
Implicit Types (src : source A) (p : pos) (u g : rng A).

Lemma map_seq_app {X : Type} (f : nat -> X) (i n : nat) (a b : list X) :
  map f (seq i n) = a ++ b ->
  a = map f (seq i (length a))
  /\ b = map f (seq (i + length a) (n - length a)).
Proof.
  intros Hab. assert (Hn : length a <= n).
  { apply (f_equal length) in Hab.
    rewrite length_map, length_seq, length_app in Hab. lia. }
  replace n with (length a + (n - length a)) in Hab at 1 by lia.
  rewrite seq_app, map_app in Hab.
  by apply app_inj_1 in Hab as [Ha Hb]; [|by rewrite length_map, length_seq].
Qed.

Lemma window_app src p n n' m m' :
  window src p (n + n') (m + m')
  = tape_app (window src p n m) (window src (p.1 + n, p.2 + m) n' m').
Proof. unfold window, tape_app. cbn. by rewrite !seq_app, !map_app. Qed.

Lemma window_length src p n m :
  length (counts (window src p n m)) = n
  /\ length (unifs (window src p n m)) = m.
Proof. unfold window. cbn. by rewrite !length_map, !length_seq. Qed.

(** A front part of a window is a window, and so is what follows it. *)
Lemma window_split src p n m u g :
  window src p n m = tape_app u g ->
  let a := length (counts u) in
  let c := length (unifs u) in
  u = window src p a c /\ g = window src (p.1 + a, p.2 + c) (n - a) (m - c).
Proof.
  destruct u as [uc uu], g as [gc gu]. unfold window, tape_app. cbn.
  intros [= [-> ->]%map_seq_app [-> ->]%map_seq_app].
  by rewrite !length_map, !length_seq.
Qed.

End Windows.

(** ** One attempt on the source and on its windows *)

Section Attempts.
Context {A : Type} `{ArgSort A} {L : Type} `{!Intensity A L}.
Context (lam : L) (T : interval A) (S : list (interval A)).
Context (batch_size min_n_points : Z) (verbose : bool).
Implicit Types (src : source A) (p : pos) (g u : rng A) (st : gen_state A)
  (points : option (mat A)) (fuel n m c k : nat).

(** What the two stages take from the tape: one count [N] and at most
    [N * (d + 2)] variates. *)
Lemma stages_consumes g points g' :
  stages lam T S verbose g = Ok (points, g') ->
  exists N,
    counts g = N :: counts g'
    /\ length (unifs g) <= N * (length S + 2) + length (unifs g').
Proof.
  intros (homo & g1 & Hs & Ht)%mbind_ok_inv.
  pose proof (sampling_shape _ _ _ _ _ _ Hs) as (Hc & Hwf & _ & Hcs & Hus & _).
  apply (thinning_sound _ _ _ _ _ _ Hwf ltac:(lia)) in Ht
    as (us & vs & Hu & Hcs' & Hth).
  apply thinned_lengths in Hth as (_ & Hle & _).
  rewrite length_map in Hle. fold (nrows homo) in Hle.
  exists (nrows homo). split; [congruence |].
  apply (f_equal length) in Hu. rewrite length_app in Hu. lia.
Qed.

(** A returning run of the two stages on a window: it consumed the count at
    [p] and [c] variates, left the window that follows, and returns the
    same on every tape that starts with what it consumed. *)
Lemma stages_window src p n m points g' :
  stages lam T S verbose (window src p n m) = Ok (points, g') ->
  exists c,
    c <= need S src p /\ 1 <= n /\ c <= m
    /\ g' = window src (Datatypes.S p.1, p.2 + c) (n - 1) (m - c)
    /\ forall e,
         stages lam T S verbose (tape_app (window src p 1 c) e) = Ok (points, e).
Proof.
  intros Hrun. pose proof (stages_consumes _ _ _ Hrun) as (N & Hc & Hu).
  apply sequential in Hrun as (u & Hw & Hall).
  pose proof (window_split _ _ _ _ _ _ Hw) as [Hu' Hg'].
  destruct (window_length src p n m) as [Hlc Hlu]. rewrite Hlu in Hu.
  destruct (tape_app_length u g') as [Hac Hau]. rewrite <- Hw, ?Hlc, ?Hlu in Hac, Hau.
  pose proof (f_equal length Hc) as Ha. rewrite Hlc in Ha. cbn in Ha.
  assert (HN : N = s_counts src p.1).
  { destruct n as [|n]; [lia |]. cbn in Hc. by inv Hc. }
  assert (Hone : length (counts u) = 1) by lia.
  rewrite Hone, Nat.add_1_r in Hg'. rewrite Hone in Hu'.
  exists (length (unifs u)). rewrite <- Hu'. unfold need. subst N.
  repeat split; try done; lia.
Qed.

(** The attempt on the source is the attempt on any window that holds what
    it reads. *)
Lemma attempt_at_window src p n m points g' :
  stages lam T S verbose (window src p n m) = Ok (points, g') ->
  exists c,
    attempt_at lam T S verbose src p = Ok (points, (Datatypes.S p.1, p.2 + c))
    /\ 1 <= n /\ c <= m
    /\ g' = window src (Datatypes.S p.1, p.2 + c) (n - 1) (m - c).
Proof.
  intros (c & Hc & Hn & Hm & -> & Hall)%stages_window. exists c.
  split; [|done]. unfold attempt_at.
  replace (need S src p) with (c + (need S src p - c)) at 1 by lia.
  rewrite (window_app src p 1 0 c), Hall.
  destruct (window_length src (p.1 + 1, p.2 + c) 0 (need S src p - c)) as [_ ->].
  do 3 f_equal. lia.
Qed.

Lemma attempt_at_run src p points p' :
  attempt_at lam T S verbose src p = Ok (points, p') ->
  p'.1 = Datatypes.S p.1 /\ p.2 <= p'.2
  /\ forall n m,
       stages lam T S verbose (window src p (1 + n) (p'.2 - p.2 + m))
       = Ok (points, window src p' n m).
Proof.
  unfold attempt_at.
  destruct (stages _ _ _ _ _) as [[pts g']|] eqn:Hrun; [|done].
  apply stages_window in Hrun as (c & Hc & _ & Hm & -> & Hall).
  destruct (window_length src (Datatypes.S p.1, p.2 + c) (1 - 1)
              (need S src p - c)) as [_ ->].
  intros [= <- <-]. cbn [fst snd]. split; [done |]. split; [lia |].
  intros n m. replace (p.2 + (need S src p - (need S src p - c)) - p.2) with c by lia.
  rewrite window_app, Hall, Nat.add_1_r.
  by replace (need S src p - (need S src p - c)) with c by lia.
Qed.

End Attempts.

(** ** The loop on the source and on its windows *)

Section Runs.
Context {A : Type} `{ArgSort A} {L : Type} `{!Intensity A L}.
Context (lam : L) (T : interval A) (S : list (interval A)).
Context (batch_size min_n_points : Z) (verbose : bool).
Implicit Types (src : source A) (p : pos) (g : rng A) (st : gen_state A)
  (points : option (mat A)) (fuel n m k : nat).

(** The body of the loop is the two stages followed by the update of the
    state. *)
Lemma generate_loop_stages fuel st g :
  generate_loop (Datatypes.S fuel) lam T S batch_size min_n_points verbose st g
  = if (Z.of_nat (b st) <? batch_size)%Z then
      match stages lam T S verbose g with
      | Ok (points, g2) =>
          generate_loop fuel lam T S batch_size min_n_points verbose
                        (gen_next min_n_points st points) g2
      | Raise e => Raise e
      end
    else Ok (st, g).
Proof.
  rewrite generate_loop_eq. destruct (_ <? _)%Z; [|done]. unfold stages, mbind.
  destruct (homogeneous_poisson_sampling _ _ _ g) as [[homo g1]|]; [|done].
  by destruct (inhomogeneous_poisson_thinning _ _ _ g1) as [[points g2]|].
Qed.

(** Refinement, from the source to the tapes: a run on the source is the
    run of the loop on the window it consumed, followed by anything. *)
Lemma run_endless_window fuel : forall src st p st' p',
  run_endless lam T S batch_size min_n_points verbose fuel src st p
  = Ok (st', p') ->
  p.1 <= p'.1 /\ p.2 <= p'.2
  /\ forall n m,
       generate_loop fuel lam T S batch_size min_n_points verbose st
                     (window src p (p'.1 - p.1 + n) (p'.2 - p.2 + m))
       = Ok (st', window src p' n m).
Proof.
  induction fuel as [|fuel IH]; intros src st p st' p' Hrun;
    cbn [run_endless] in Hrun;
    destruct (Z.of_nat (b st) <? batch_size)%Z eqn:Hb; try done.
  - inv Hrun. do 2 (split; [done |]). intros n m.
    rewrite generate_loop_eq, Hb. by rewrite !Nat.sub_diag.
  - destruct (attempt_at _ _ _ _ src p) as [[points p1]|] eqn:Ha; [|done].
    cbn [rbind fst snd] in Hrun. apply IH in Hrun as (Hc & Hu & Hall).
    apply attempt_at_run in Ha as (H1 & H2 & Hst).
    split; [lia |]. split; [lia |]. intros n m.
    rewrite generate_loop_stages, Hb.
    replace (p'.1 - p.1 + n) with (1 + (p'.1 - p1.1 + n)) by lia.
    replace (p'.2 - p.2 + m) with (p1.2 - p.2 + (p'.2 - p1.2 + m)) by lia.
    rewrite Hst. apply Hall.
  - inv Hrun. do 2 (split; [done |]). intros n m.
    rewrite generate_loop_eq, Hb. by rewrite !Nat.sub_diag.
Qed.

(** Refinement, from the tapes to the source: a run of the loop that
    returns on a window of the source is a run on the source. *)
Lemma window_run_endless fuel : forall src st p n m st' g',
  generate_loop fuel lam T S batch_size min_n_points verbose st
                (window src p n m) = Ok (st', g') ->
  exists p',
    run_endless lam T S batch_size min_n_points verbose fuel src st p = Ok (st', p')
    /\ g' = window src p' (n - (p'.1 - p.1)) (m - (p'.2 - p.2)).
Proof.
  induction fuel as [|fuel IH]; intros src st p n m st' g' Hrun.
  - rewrite generate_loop_eq in Hrun. cbn [run_endless].
    destruct (_ <? _)%Z; [done |]. inv Hrun. exists p.
    by rewrite !Nat.sub_diag, !Nat.sub_0_r.
  - rewrite generate_loop_stages in Hrun. cbn [run_endless].
    destruct (_ <? _)%Z.
    + destruct (stages _ _ _ _ _) as [[points g2]|] eqn:Hs; [|done].
      apply attempt_at_window in Hs as (c & -> & Hn & Hm & ->).
      cbn [rbind fst snd]. apply IH in Hrun as (p' & Hrun & ->).
      exists p'. split; [done |].
      apply run_endless_window in Hrun as (Hc & Hu & _). cbn [fst snd] in *.
      f_equal; lia.
    + inv Hrun. exists p. by rewrite !Nat.sub_diag, !Nat.sub_0_r.
Qed.

End Runs.

(** ** Liveness and divergence *)

Section Liveness.
Context {A : Type} `{ArgSort A} {L : Type} `{!Intensity A L}.
Context (lam : L) (T : interval A) (S : list (interval A)).
Context (batch_size min_n_points : Z) (verbose : bool).
Implicit Types (src : source A) (p : pos) (g : rng A) (st : gen_state A)
  (points : option (mat A)) (fuel n m k r : nat).

(** The loop entered in [st] at position [p] leaves with a full batch. *)
Definition exits src st p : Prop :=
  exists fuel st' p',
    run_endless lam T S batch_size min_n_points verbose fuel src st p
    = Ok (st', p')
    /\ (batch_size <= Z.of_nat (b st'))%Z.

Lemma exits_done src st p : (batch_size <= Z.of_nat (b st))%Z -> exits src st p.
Proof.
  intros Hb. exists 0, st, p. cbn. by rewrite (proj2 (Z.ltb_ge _ _) Hb).
Qed.

Lemma exits_step src st p points p1 :
  attempt_at lam T S verbose src p = Ok (points, p1) ->
  exits src (gen_next min_n_points st points) p1 -> exits src st p.
Proof.
  intros Ha (fuel & st' & p' & Hrun & Hb).
  destruct (Z.ltb_spec (Z.of_nat (b st)) batch_size) as [Hlt | Hge];
    [|by apply exits_done].
  exists (Datatypes.S fuel), st', p'. split; [|done]. cbn [run_endless].
  by rewrite (proj2 (Z.ltb_lt _ _) Hlt), Ha.
Qed.

Lemma outcome_inv src k points :
  outcome lam T S verbose src k = Ok points ->
  exists p p1,
    position lam T S verbose src k = Ok p
    /\ attempt_at lam T S verbose src p = Ok (points, p1)
    /\ position lam T S verbose src (Datatypes.S k) = Ok p1.
Proof.
  unfold outcome. cbn [position].
  destruct (position _ _ _ _ src k) as [p|]; [|done]. cbn [rbind].
  destruct (attempt_at _ _ _ _ src p) as [[pts p1]|] eqn:Ha; [|done].
  cbn. intros [= <-]. by exists p, p1.
Qed.

Lemma gen_next_rejected st points :
  rejected min_n_points points = true -> gen_next min_n_points st points = st.
Proof. unfold gen_next. destruct points; [by intros -> | done]. Qed.

Lemma gen_next_accepted st points :
  rejected min_n_points points = false ->
  b (gen_next min_n_points st points) = Datatypes.S (b st).
Proof. unfold gen_next. destruct points; [by intros -> | done]. Qed.

(** One step of the argument: at attempt [k] the loop goes on from the
    next position, in the same state after a rejection and with one more
    sequence after an acceptance. *)
Lemma exits_attempt src k st p :
  accepted_at lam T S min_n_points verbose src k
  \/ rejected_at lam T S min_n_points verbose src k ->
  position lam T S verbose src k = Ok p ->
  (forall st1 p1,
     position lam T S verbose src (Datatypes.S k) = Ok p1 ->
     (rejected_at lam T S min_n_points verbose src k /\ st1 = st)
     \/ (accepted_at lam T S min_n_points verbose src k
         /\ b st1 = Datatypes.S (b st)) ->
     exits src st1 p1) ->
  exits src st p.
Proof.
  intros Hk Hp Hnext.
  destruct Hk as [(points & Ho & Hr) | (points & Ho & Hr)];
    pose proof Ho as (p0 & p1 & Hp0 & Ha & Hp1)%outcome_inv;
    rewrite Hp in Hp0; inv Hp0;
    apply (exits_step _ _ _ _ _ Ha), Hnext; try done.
  - right. split; [by exists points | by apply gen_next_accepted].
  - left. split; [by exists points | by apply gen_next_rejected].
Qed.

(** From a fair source the loop leaves: by induction on the number [r] of
    sequences still missing, then on the distance to the next accepted
    attempt. *)
Lemma fair_exits src :
  fair lam T S min_n_points verbose src ->
  forall r k st p,
    position lam T S verbose src k = Ok p ->
    (batch_size - Z.of_nat (b st) <= Z.of_nat r)%Z ->
    exits src st p.
Proof.
  intros Hfair. induction r as [|r IHr]; intros k st p Hp Hr;
    [apply exits_done; lia |].
  destruct (Hfair k) as [_ (k' & Hle & Hacc)].
  remember (k' - k) as d eqn:Hd. revert k p Hp Hle Hd.
  induction d as [|d IHd]; intros k p Hp Hle Hd.
  - replace k' with k in Hacc by lia.
    apply (exits_attempt src k st p); [by left | done |].
    intros st1 p1 Hp1 [[(pts & Ho & Hrej) _] | [_ Hb]]; [|apply (IHr _ _ _ Hp1); lia].
    destruct Hacc as (pts' & Ho' & Hacc). congruence.
  - apply (exits_attempt src k st p); [apply Hfair | done |].
    intros st1 p1 Hp1 [[_ ->] | [_ Hb]]; [|apply (IHr _ _ _ Hp1); lia].
    apply (IHd _ _ Hp1); lia.
Qed.

(** On a starved source no fuel is enough. *)
Lemma starved_out_of_fuel src :
  starved lam T S min_n_points verbose src ->
  forall fuel k st p,
    position lam T S verbose src k = Ok p ->
    (Z.of_nat (b st) < batch_size)%Z ->
    run_endless lam T S batch_size min_n_points verbose fuel src st p
    = Raise OutOfFuel.
Proof.
  intros Hst. induction fuel as [|fuel IH]; intros k st p Hp Hb;
    cbn [run_endless]; rewrite (proj2 (Z.ltb_lt _ _) Hb); [done |].
  destruct (Hst k) as (points & (p0 & p1 & Hp0 & Ha & Hp1)%outcome_inv & Hr).
  rewrite Hp in Hp0. inv Hp0. rewrite Ha. cbn [rbind fst snd].
  rewrite gen_next_rejected by done. by apply (IH (Datatypes.S k)).
Qed.

End Liveness.

(** ** [generate] on the source *)

Section GenerateEndless.
Context {A : Type} `{ArgSort A} {L : Type} `{!Intensity A L}.
Context (lam : L) (T : interval A) (S : list (interval A)).
Context (batch_size min_n_points : Z) (verbose : bool).
Implicit Types (src : source A) (p : pos) (g : rng A) (st : gen_state A)
  (fuel n m k : nat).

Lemma generate_unfold fuel g :
  generate fuel lam T S batch_size min_n_points verbose g
  = (r <- generate_loop fuel lam T S batch_size min_n_points verbose gen_init g;;
     data <- pack batch_size r.1;;
     Ok (data, sizes r.1, r.2)).
Proof.
  unfold generate, mbind, lift, mret.
  destruct (generate_loop _ _ _ _ _ _ _ _ g) as [[st g1]|]; [|done]. cbn.
  by destruct (pack _ _).
Qed.

(** Refinement, from the source to the tapes: a run of [generate] on the
    endless source that returns at position [p'] is the run of [generate]
    on the tape of the first [p'.1] counts and [p'.2] variates of the
    source, which it consumes entirely; whatever follows on the tape is
    left untouched. *)
Theorem endless_refines_generate fuel src data szs p' :
  generate_endless lam T S batch_size min_n_points verbose fuel src
  = Ok (data, szs, p') ->
  forall n m,
    generate fuel lam T S batch_size min_n_points verbose
             (window src (0, 0) (p'.1 + n) (p'.2 + m))
    = Ok (data, szs, window src p' n m).
Proof.
  unfold generate_endless. intros Hrun n m. res_inv.
  match goal with r : (gen_state A * pos)%type |- _ => destruct r as [st p1] end.
  match goal with Hr : run_endless _ _ _ _ _ _ _ _ _ _ = _ |- _ =>
    apply run_endless_window in Hr as (_ & _ & Hall) end.
  specialize (Hall n m). cbn [fst snd] in *. rewrite !Nat.sub_0_r in Hall.
  rewrite generate_unfold, Hall. cbn [rbind fst snd].
  match goal with Hp : pack _ _ = _ |- _ => by rewrite Hp end.
Qed.

(** Refinement, from the tapes to the source: a run of [generate] that
    returns on a window of the source is a run on the source, and the tape
    it leaves is the rest of the window. *)
Theorem window_refines_endless fuel src n m data szs g' :
  generate fuel lam T S batch_size min_n_points verbose (window src (0, 0) n m)
  = Ok (data, szs, g') ->
  exists p',
    generate_endless lam T S batch_size min_n_points verbose fuel src
    = Ok (data, szs, p')
    /\ g' = window src p' (n - p'.1) (m - p'.2).
Proof.
  rewrite generate_unfold. intros Hgen. res_inv.
  match goal with r : (gen_state A * rng A)%type |- _ => destruct r as [st g1] end.
  match goal with Hr : generate_loop _ _ _ _ _ _ _ _ _ = _ |- _ =>
    apply window_run_endless in Hr as (p' & Hrun & ->) end.
  exists p'. unfold generate_endless. rewrite Hrun. cbn [rbind fst snd] in *.
  match goal with Hp : pack _ _ = _ |- _ => rewrite Hp end.
  by rewrite !Nat.sub_0_r.
Qed.

(** On a fair source the loop leaves with a full batch, which [pack] pads:
    the state the run on the source ends in. *)
Lemma fair_endless_returns src :
  fair lam T S min_n_points verbose src ->
  length S = 2 -> (0 <= batch_size)%Z ->
  exists fuel st p',
    run_endless lam T S batch_size min_n_points verbose fuel src gen_init (0, 0)
    = Ok (st, p')
    /\ pack batch_size st = Ok (map (pad (max_len st)) (points_list st))
    /\ length (points_list st) = Z.to_nat batch_size.
Proof.
  intros Hfair HS Hb.
  destruct (fair_exits lam T S batch_size min_n_points verbose src Hfair
              (Z.to_nat batch_size) 0 gen_init (0, 0) eq_refl)
    as (fuel & st & p' & Hrun & _); [cbn; lia |].
  exists fuel, st, p'. split; [done |].
  apply run_endless_window in Hrun as (_ & _ & Hall). specialize (Hall 0 0).
  destruct (generate_after_loop _ _ _ _ _ _ _ _ _ _ Hall) as (Hinv & Hbst & _).
  pose proof Hinv as (Hlen & _).
  rewrite pack_rows, (pad_rows S min_n_points) by done. split; [done | lia].
Qed.

(** C18. Liveness: on a fair source, where every attempt returns and after
    every attempt one is accepted, the loop of [generate] fills the batch:
    for a box with two space dimensions and a non-negative [batch_size]
    there is a fuel and a finite part of the source on which [generate]
    returns [batch_size] sequences, consuming that part entirely. *)
Theorem fair_generate_returns src :
  fair lam T S min_n_points verbose src ->
  length S = 2 -> (0 <= batch_size)%Z ->
  exists fuel n m data szs,
    generate fuel lam T S batch_size min_n_points verbose (window src (0, 0) n m)
    = Ok (data, szs, tape_nil)
    /\ length data = Z.to_nat batch_size.
Proof.
  intros Hfair HS Hb.
  destruct (fair_endless_returns src Hfair HS Hb)
    as (fuel & st & p' & Hrun & Hpack & Hlen).
  apply run_endless_window in Hrun as (_ & _ & Hall). specialize (Hall 0 0).
  exists fuel, (p'.1 - 0 + 0), (p'.2 - 0 + 0),
    (map (pad (max_len st)) (points_list st)), (sizes st).
  split; [|by rewrite length_map].
  rewrite generate_unfold. cbn [fst snd] in Hall. rewrite Hall. cbn [rbind fst snd].
  by rewrite Hpack.
Qed.

(** C19. Divergence: on a starved source, where every attempt is rejected,
    the loop never ends: for a positive [batch_size] the run on the source
    is out of fuel whatever the fuel, and [generate] returns on no finite
    part of the source. *)
Theorem starved_never_returns src :
  starved lam T S min_n_points verbose src -> (0 < batch_size)%Z ->
  forall fuel,
    run_endless lam T S batch_size min_n_points verbose fuel src gen_init (0, 0)
    = Raise OutOfFuel
    /\ forall n m,
         is_ok (generate fuel lam T S batch_size min_n_points verbose
                         (window src (0, 0) n m)) = false.
Proof.
  intros Hst Hb fuel.
  pose proof (starved_out_of_fuel lam T S batch_size min_n_points verbose src
                Hst fuel 0 gen_init (0, 0) eq_refl Hb) as Hout.
  split; [done |]. intros n m.
  rewrite generate_unfold.
  destruct (generate_loop _ _ _ _ _ _ _ _ _) as [[st g']|] eqn:Hrun; [|done].
  apply window_run_endless in Hrun as (p' & Hrun & _). congruence.
Qed.

End GenerateEndless.

(** ** Concrete sources *)

Local Open Scope Q_scope.

(** A source of one proposal per attempt, each accepted: the acceptance
    variate [1/4] is below [mu / maximum = 1/2]. *)
Definition steady : source Q := Source (fun _ => 1%nat) (fun _ => 1#4).

(** A source of empty pools: every Poisson count is zero. *)
Definition barren : source Q := Source (fun _ => 0%nat) (fun _ => 1#4).

Definition steady_point : mat Q := Mat 3 [[1#4; 1#4; 1#4]].

Lemma steady_attempt (k j : nat) :
  attempt_at (lamQ 1 2) unit_T unit_S false steady (k, j)
  = Ok (Some steady_point, (Datatypes.S k, (j + 4)%nat)).
Proof. vm_compute. reflexivity. Qed.

Lemma steady_position (k : nat) :
  position (lamQ 1 2) unit_T unit_S false steady k = Ok (k, (4 * k)%nat).
Proof.
  induction k as [|k IH]; [done |]. cbn [position].
  rewrite IH. cbn [rbind]. rewrite steady_attempt. cbn [rbind snd].
  do 2 f_equal. lia.
Qed.

Lemma steady_fair : fair (lamQ 1 2) unit_T unit_S 1 false steady.
Proof.
  assert (Hacc : forall k, accepted_at (lamQ 1 2) unit_T unit_S 1 false steady k).
  { intros k. exists (Some steady_point). split; [|done]. unfold outcome.
    rewrite steady_position. cbn [rbind]. by rewrite steady_attempt. }
  intros k. split; [by left |]. by exists k.
Qed.

Lemma barren_attempt (k j : nat) :
  attempt_at (lamQ 1 2) unit_T unit_S false barren (k, j)
  = Ok (Some (Mat 3 []), (Datatypes.S k, (j + 0)%nat)).
Proof. vm_compute. reflexivity. Qed.

Lemma barren_position (k : nat) :
  position (lamQ 1 2) unit_T unit_S false barren k = Ok (k, 0%nat).
Proof.
  induction k as [|k IH]; [done |]. cbn [position].
  rewrite IH. cbn [rbind]. by rewrite barren_attempt.
Qed.

Lemma barren_starved : starved (lamQ 1 2) unit_T unit_S 1 false barren.
Proof.
  intros k. exists (Some (Mat 3 [])). split; [|done]. unfold outcome.
  rewrite barren_position. cbn [rbind]. by rewrite barren_attempt.
Qed.

Lemma steady_run :
  generate_endless (lamQ 1 2) unit_T unit_S 2 1 false 2 steady
  = Ok ([steady_point; steady_point], [1%nat; 1%nat], (2%nat, 8%nat)).
Proof. vm_compute. reflexivity. Defined.

Lemma steady_window_run :
  generate 2 (lamQ 1 2) unit_T unit_S 2 1 false (window steady (0%nat, 0%nat) 3 10)
  = Ok ([steady_point; steady_point], [1%nat; 1%nat], Rng [1%nat] [1#4; 1#4]).
Proof. vm_compute. reflexivity. Defined.

Lemma endless_refines_generate_witness :
  generate 2 (lamQ 1 2) unit_T unit_S 2 1 false
           (window steady (0%nat, 0%nat) (2 + 1) (8 + 2))
  = Ok ([steady_point; steady_point], [1%nat; 1%nat],
        window steady (2%nat, 8%nat) 1 2).
Proof.
  exact (endless_refines_generate (lamQ 1 2) unit_T unit_S 2 1 false 2 steady
           _ _ (2%nat, 8%nat) steady_run 1%nat 2%nat).
Defined.

Lemma window_refines_endless_witness :
  exists p',
    generate_endless (lamQ 1 2) unit_T unit_S 2 1 false 2 steady
    = Ok ([steady_point; steady_point], [1%nat; 1%nat], p')
    /\ Rng [1%nat] [1#4; 1#4] = window steady p' (3 - p'.1) (10 - p'.2).
Proof.
  exact (window_refines_endless (lamQ 1 2) unit_T unit_S 2 1 false 2 steady
           3 10 _ _ _ steady_window_run).
Defined.

Lemma fair_generate_returns_witness :
  exists fuel n m data szs,
    generate fuel (lamQ 1 2) unit_T unit_S 2 1 false
             (window steady (0%nat, 0%nat) n m)
    = Ok (data, szs, tape_nil)
    /\ length data = Z.to_nat 2.
Proof.
  apply (fair_generate_returns (lamQ 1 2) unit_T unit_S 2 1 false steady);
    [exact steady_fair | reflexivity | lia].
Defined.

Lemma starved_never_returns_witness :
  run_endless (lamQ 1 2) unit_T unit_S 2 1 false 7 barren gen_init (0%nat, 0%nat)
  = Raise OutOfFuel
  /\ forall n m,
       is_ok (generate 7 (lamQ 1 2) unit_T unit_S 2 1 false
                       (window barren (0%nat, 0%nat) n m)) = false.
Proof.
  apply (starved_never_returns (lamQ 1 2) unit_T unit_S 2 1 false barren);
    [exact barren_starved | lia].
Defined.

