(* ===== verification/KernelLaws.v ===== *)
(** * KernelLaws: what the excitation kernels compute

    The laws of the kernels of [Kernel.v]:

    - the value for one past event is positive for an event in the past
      ([0 < dt]) and admissible parameters (a positive constant, positive
      spreads, a correlation strictly between [-1] and [1]), and it never
      exceeds the peak it has at zero offset;
    - the classes are nested: a Gaussian kernel with no correlation and no
      shift is the standard kernel, and a spatially variant kernel whose
      parameter functions are constant is the Gaussian kernel with those
      constants, value by value and as [nu] methods;
    - [nu] on a history of [n] events in a plane returns [n] values, one
      per event, and raises on the shapes numpy rejects;
    - a mixture returns the weighted sum of its components, the scalar zero
      when it has none, and [IndexError] when [n_comp] exceeds the weights;
      with one component it is that component, scaled by its weight;
    - the constructors of the two mixture classes succeed exactly when
      every parameter list has [n_comp] entries.

    The class [Elementwise] is the interface of the kernels whose [nu]
    applies one function to the delay and the offset of every past event;
    the standard and the Gaussian kernel are its instances, and the
    theorems of [HawkesLaws] on histories with one space coordinate are
    proved against it.  [Excitation] holds the interface that covers all
    five classes. *)

From Stdlib Require Import Reals Lra.
From stdpp Require Import base tactics list.
From S2P Require Import Prelude Scalar NdArray Kernel.

Local Open Scope res_scope.
Local Open Scope R_scope.

(** ** Analytic facts shared by the kernels *)

Section Analysis.
Implicit Types (a b c dt dx dy sx sy rho : R).

Lemma exp_nonpos_le_1 a : a <= 0 -> exp a <= 1.
Proof.
  intros [Ha| ->]; [|rewrite exp_0; lra].
  left. rewrite <- exp_0. by apply exp_increasing.
Qed.

(** The prefactor [C / (2 pi sx sy dt c)] is positive when its parts are. *)
Lemma peak_pos C sx sy dt c :
  0 < C -> 0 < sx -> 0 < sy -> 0 < dt -> 0 < c ->
  0 < C / (2 * PI * sx * sy * dt * c).
Proof.
  intros HC Hx Hy Ht Hc. pose proof PI_RGT_0 as Hpi.
  set (p := PI) in *. clearbody p.
  apply Rdiv_lt_0_compat; [done |]. repeat apply Rmult_lt_0_compat; lra.
Qed.

(** The quadratic form of a bivariate normal density is non-negative. *)
Lemma quad_form_nonneg u v sx sy rho :
  0 < sx -> 0 < sy -> -1 < rho < 1 ->
  0 <= Rsqr u / Rsqr sx + Rsqr v / Rsqr sy - 2 * rho * u * v / (sx * sy).
Proof.
  intros Hx Hy Hr. set (a := u / sx). set (b := v / sy).
  replace (Rsqr u / Rsqr sx + Rsqr v / Rsqr sy - 2 * rho * u * v / (sx * sy))
    with (a * a + b * b - 2 * rho * a * b)
    by (unfold a, b, Rsqr; field; lra).
  pose proof (Rle_0_sqr (a - rho * b)) as H1.
  assert (H2 : 0 <= (1 - rho * rho) * (b * b))
    by (apply Rmult_le_pos; [nra | apply Rle_0_sqr]).
  unfold Rsqr in H1. nra.
Qed.

Lemma one_minus_sqr_pos rho : -1 < rho < 1 -> 0 < 1 - Rsqr rho.
Proof. intros Hr. unfold Rsqr. nra. Qed.

(** The exponent of the spatial factor is non-positive. *)
Lemma spatial_exponent_nonpos dt c q :
  0 < dt -> 0 < c -> 0 <= q -> (-1 / (2 * dt * c)) * q <= 0.
Proof.
  intros Ht Hc Hq.
  assert (0 < / (2 * dt * c)) by (apply Rinv_0_lt_compat; nra).
  unfold Rdiv. nra.
Qed.

End Analysis.

(** ** The standard diffusion kernel *)

Section StdLaws.
Import StdDiffusionKernel.
Implicit Types (k : StdDiffusionKernel.t) (dt dx dy : R).

(** The parameters for which the kernel is a density shape. *)
Definition std_admissible k : Prop :=
  0 < C k /\ 0 <= beta k /\ 0 < sigma_x k /\ 0 < sigma_y k.

(** The value at zero offset, the largest the kernel takes after [dt]. *)
Definition std_peak k dt : R :=
  exp (- beta k * dt) * (C k / (2 * PI * sigma_x k * sigma_y k * dt)).

Lemma std_peak_pos k dt : std_admissible k -> 0 < dt -> 0 < std_peak k dt.
Proof.
  intros (HC & _ & Hx & Hy) Ht. unfold std_peak.
  apply Rmult_lt_0_compat; [apply exp_pos |].
  pose proof (peak_pos (C k) (sigma_x k) (sigma_y k) dt 1 HC Hx Hy Ht) as Hp.
  rewrite Rmult_1_r in Hp. apply Hp. lra.
Qed.

Lemma std_exponent_nonpos k dt dx dy :
  std_admissible k -> 0 < dt ->
  (-1 / (2 * dt)) * (Rsqr dx / Rsqr (sigma_x k) + Rsqr dy / Rsqr (sigma_y k)) <= 0.
Proof.
  intros (_ & _ & Hx & Hy) Ht.
  pose proof (quad_form_nonneg dx dy _ _ 0 Hx Hy ltac:(lra)) as Hq.
  pose proof (spatial_exponent_nonpos dt 1 _ Ht ltac:(lra) Hq) as He.
  rewrite Rmult_1_r in He. eapply Rle_trans; [|exact He]. right. f_equal.
  unfold Rdiv. ring.
Qed.

(** The kernel is positive at every offset from an event in the past. *)
Theorem std_val_pos k dt dx dy :
  std_admissible k -> 0 < dt -> 0 < val k dt dx dy.
Proof.
  intros Hk Ht. apply Rmult_lt_0_compat; [|apply exp_pos].
  by apply std_peak_pos.
Qed.

(** The standard kernel with admissible parameters is largest at zero
    offset, and its value there is at most [C / (2 pi sigma_x sigma_y dt)]:
    the temporal factor only lowers it. *)
Theorem std_val_le_peak k dt dx dy :
  std_admissible k -> 0 < dt ->
  val k dt dx dy <= std_peak k dt
  /\ std_peak k dt <= C k / (2 * PI * sigma_x k * sigma_y k * dt).
Proof.
  intros Hk Ht. pose proof (std_peak_pos k dt Hk Ht) as Hp.
  pose proof (exp_nonpos_le_1 _ (std_exponent_nonpos k dt dx dy Hk Ht)) as He.
  split; [unfold val; fold (std_peak k dt); nra |].
  pose proof Hk as (HC & Hb & Hx & Hy).
  pose proof (peak_pos (C k) (sigma_x k) (sigma_y k) dt 1 HC Hx Hy Ht Rlt_0_1) as Hq.
  rewrite Rmult_1_r in Hq.
  pose proof (exp_nonpos_le_1 (- beta k * dt) ltac:(nra)) as Hd.
  unfold std_peak. nra.
Qed.

End StdLaws.

(** ** The Gaussian diffusion kernel *)

Section GaussianLaws.
Import GaussianDiffusionKernel.
Implicit Types (k : GaussianDiffusionKernel.t) (dt dx dy : R).

Definition gauss_admissible k : Prop :=
  0 < C k /\ 0 <= beta k /\ 0 < sigma_x k /\ 0 < sigma_y k /\ -1 < rho k < 1.

Definition gauss_peak k dt : R :=
  exp (- beta k * dt)
  * (C k / (2 * PI * sigma_x k * sigma_y k * dt * sqrt (1 - Rsqr (rho k)))).

Lemma gauss_peak_pos k dt : gauss_admissible k -> 0 < dt -> 0 < gauss_peak k dt.
Proof.
  intros (HC & _ & Hx & Hy & Hr) Ht. unfold gauss_peak.
  apply Rmult_lt_0_compat; [apply exp_pos |].
  apply peak_pos; try done. by apply sqrt_lt_R0, one_minus_sqr_pos.
Qed.

Lemma gauss_exponent_nonpos k dt dx dy :
  gauss_admissible k -> 0 < dt ->
  (-1 / (2 * dt * (1 - Rsqr (rho k))))
  * (Rsqr (dx - mu_x k) / Rsqr (sigma_x k)
     + Rsqr (dy - mu_y k) / Rsqr (sigma_y k)
     - 2 * rho k * (dx - mu_x k) * (dy - mu_y k) / (sigma_x k * sigma_y k)) <= 0.
Proof.
  intros (_ & _ & Hx & Hy & Hr) Ht.
  apply spatial_exponent_nonpos; [done | by apply one_minus_sqr_pos |].
  by apply quad_form_nonneg.
Qed.

(** The kernel is positive at every offset from an event in the past. *)
Theorem gauss_val_pos k dt dx dy :
  gauss_admissible k -> 0 < dt -> 0 < val k dt dx dy.
Proof.
  intros Hk Ht. apply Rmult_lt_0_compat; [|apply exp_pos].
  by apply gauss_peak_pos.
Qed.

(** The Gaussian kernel with admissible parameters never exceeds its
    prefactor, the value it takes where the quadratic form vanishes. *)
Theorem gauss_val_le_peak k dt dx dy :
  gauss_admissible k -> 0 < dt -> val k dt dx dy <= gauss_peak k dt.
Proof.
  intros Hk Ht. pose proof (gauss_peak_pos k dt Hk Ht) as Hp.
  pose proof (exp_nonpos_le_1 _ (gauss_exponent_nonpos k dt dx dy Hk Ht)) as He.
  unfold val. fold (gauss_peak k dt). nra.
Qed.

(** The standard kernel with the constant, decay and spreads of [k]. *)
Definition std_of k : StdDiffusionKernel.t :=
  StdDiffusionKernel.Build (C k) (beta k) (sigma_x k) (sigma_y k).

(** Without correlation and shift the Gaussian kernel is the standard
    kernel, at every offset and for every parameter. *)
Theorem gauss_val_std k dt dx dy :
  rho k = 0 -> mu_x k = 0 -> mu_y k = 0 ->
  val k dt dx dy = StdDiffusionKernel.val (std_of k) dt dx dy.
Proof.
  intros Hr Hx Hy. unfold val, StdDiffusionKernel.val, std_of. cbn.
  rewrite Hr, Hx, Hy, Rsqr_0, !Rminus_0_r, sqrt_1, !Rmult_1_r.
  do 2 f_equal. f_equal. unfold Rdiv. ring.
Qed.

End GaussianLaws.

(** ** The spatially variant kernel *)

Section SpatialVariantLaws.
Import SpatialVariantGaussianDiffusionKernel.
Implicit Types (k : SpatialVariantGaussianDiffusionKernel.t) (dt dx dy hx hy : R).

(** The Gaussian kernel a spatially variant kernel is at the past event
    located at [(hx, hy)]. *)
Definition gauss_at k hx hy : GaussianDiffusionKernel.t :=
  GaussianDiffusionKernel.Build (C k) (beta k) (mu_x k hx hy) (mu_y k hx hy)
    (sigma_x k hx hy) (sigma_y k hx hy) (rho k hx hy).

Definition sv_admissible k : Prop :=
  forall hx hy, gauss_admissible (gauss_at k hx hy).

Lemma sv_val_gauss k dt dx dy hx hy :
  val k dt dx dy hx hy = GaussianDiffusionKernel.val (gauss_at k hx hy) dt dx dy.
Proof. reflexivity. Qed.

(** The kernel is positive wherever its parameter functions are
    admissible. *)
Theorem sv_val_pos k dt dx dy hx hy :
  sv_admissible k -> 0 < dt -> 0 < val k dt dx dy hx hy.
Proof. intros Hk Ht. rewrite sv_val_gauss. by apply gauss_val_pos. Qed.

End SpatialVariantLaws.

(** ** The [nu] methods of the base kernels *)

Section NuLaws.
Implicit Types (s his_t : list R) (his_s : mat R) (f : R -> R * R -> R).

(** The offsets of [s] from the past location [r], in a plane. *)
Definition offset s (r : list R) : R * R :=
  (nth 0 s 0 - nth 0 r 0, nth 1 s 0 - nth 1 r 0).

(** The shape shared by the [nu] of the standard and the Gaussian kernel:
    [f] evaluated elementwise on the delays and the offsets. *)
Definition elementwise {B : Type} (f : R -> R * R -> B) (t0 : R) s his_t
    his_s : res (npval B) :=
  dxy <- spatial_deltas s his_s;;
  rmap NArray (bcast2 f (time_deltas t0 his_t) dxy).

(** A history in a plane: [n] locations of two coordinates each, and as
    many times. *)
Definition plane_history his_t his_s : Prop :=
  mat_wf his_s /\ ncols his_s = 2%nat /\ length his_t = nrows his_s.

Lemma spatial_deltas_plane s his_s :
  mat_wf his_s -> ncols his_s = 2%nat -> length s = 2%nat ->
  spatial_deltas s his_s = Ok (map (offset s) (mrows his_s)).
Proof.
  intros Hwf Hc Hs. unfold spatial_deltas.
  rewrite row_minus_mat_ok by congruence. cbn [rbind].
  assert (Hd : mat_wf (Mat (ncols his_s) (map (zip_with ssub s) (mrows his_s)))).
  { unfold mat_wf. cbn. apply Forall_map. eapply Forall_impl; [exact Hwf |].
    intros r Hr. cbn in *. rewrite length_zip_with. lia. }
  rewrite !column_ok by (done || cbn; lia). cbn [rbind mrows]. f_equal.
  rewrite !map_map, zip_with_fmap_l, zip_with_fmap_r, zip_with_diag.
  apply map_ext_Forall. eapply Forall_impl; [exact Hwf |]. intros r Hr.
  cbn in Hr. rewrite Hc in Hr.
  by destruct s as [|a [|b [|? ?]]], r as [|c [|d [|? ?]]].
Qed.

Lemma spatial_deltas_length s his_s dxy :
  spatial_deltas s his_s = Ok dxy -> length dxy = nrows his_s.
Proof.
  unfold spatial_deltas. intros Hd.
  destruct (row_minus_mat s his_s) as [d|] eqn:Ed; [|done].
  apply row_minus_mat_shape in Ed as [Hn _]. cbn [rbind] in Hd.
  destruct (column 0 d) as [xs|] eqn:Ex; [|done].
  destruct (column 1 d) as [ys|] eqn:Ey; [|done]. inv Hd.
  apply column_length in Ex, Ey. rewrite length_zip. lia.
Qed.

(** A history on a line has no second coordinate: the slice
    [delta_s[:, 1]] is out of range. *)
Lemma spatial_deltas_line s his_s :
  mat_wf his_s -> ncols his_s = 1%nat -> length s = 1%nat ->
  spatial_deltas s his_s = Raise IndexError.
Proof.
  intros Hwf Hc Hs. unfold spatial_deltas.
  rewrite row_minus_mat_ok by congruence. cbn [rbind].
  assert (Hd : mat_wf (Mat (ncols his_s) (map (zip_with ssub s) (mrows his_s)))).
  { unfold mat_wf. cbn. apply Forall_map. eapply Forall_impl; [exact Hwf |].
    intros r Hr. cbn in *. rewrite length_zip_with. lia. }
  rewrite column_ok by (done || cbn; lia). cbn [rbind].
  by rewrite column_out_of_range by (cbn; lia).
Qed.

(** On a history in a plane, an elementwise kernel returns one value per
    past event: [f] at its delay and its offset. *)
Lemma elementwise_plane {B : Type} (f : R -> R * R -> B) t0 s his_t his_s :
  plane_history his_t his_s -> length s = 2%nat ->
  elementwise f t0 s his_t his_s
  = Ok (NArray (zip_with (fun h r => f (t0 - h) (offset s r)) his_t (mrows his_s))).
Proof.
  intros (Hwf & Hc & Hn) Hs. unfold elementwise, time_deltas.
  rewrite spatial_deltas_plane by done. cbn [rbind].
  rewrite bcast2_same by (rewrite !length_map; done). cbn.
  by rewrite zip_with_fmap_l, zip_with_fmap_r.
Qed.

Lemma elementwise_ext f f' t0 s his_t his_s :
  (forall dt d, f dt d = f' dt d) ->
  elementwise f t0 s his_t his_s = elementwise f' t0 s his_t his_s.
Proof.
  intros Hf. unfold elementwise. destruct (spatial_deltas s his_s); [|done].
  cbn. by rewrite (bcast2_ext f f').
Qed.

(** Every value is positive when [f] is positive on positive delays and the
    history lies strictly in the past. *)
Lemma elementwise_pos f t0 s his_t his_s :
  (forall dt d, 0 < dt -> 0 < f dt d) ->
  plane_history his_t his_s -> length s = 2%nat -> Forall (fun h => h < t0) his_t ->
  exists l, elementwise f t0 s his_t his_s = Ok (NArray l)
            /\ length l = nrows his_s /\ Forall (Rlt 0) l.
Proof.
  intros Hf Hp Hs Hpast. rewrite elementwise_plane by done.
  destruct Hp as (_ & _ & Hn). eexists. split; [done |].
  split; [rewrite length_zip_with; unfold nrows in *; lia |].
  clear Hn. revert his_t Hpast.
  induction (mrows his_s) as [|r rs IH]; intros [|h hs] Hpast; cbn;
    try constructor; inv Hpast; [apply Hf; lra | by apply IH].
Qed.

End NuLaws.

(** The two elementwise kernels. *)
Definition std_fn (k : StdDiffusionKernel.t) (dt : R) (d : R * R) : R :=
  StdDiffusionKernel.val k dt (fst d) (snd d).

Definition gauss_fn (k : GaussianDiffusionKernel.t) (dt : R) (d : R * R) : R :=
  GaussianDiffusionKernel.val k dt (fst d) (snd d).

(** A kernel whose [nu] evaluates one function of the delay and the offset
    for every past event.  The theorems on the sampler are proved against
    this interface. *)
Class Elementwise (K : Type) `{!Kernel R K} : Type := {
  point_value : K -> R -> R * R -> R;
  admissible : K -> Prop;
  nu_elementwise k t0 s his_t his_s :
    nu k t0 s his_t his_s = elementwise (point_value k) t0 s his_t his_s;
  point_value_pos k dt d : admissible k -> 0 < dt -> 0 < point_value k dt d
}.

#[export] Instance std_elementwise : Elementwise StdDiffusionKernel.t := {|
  point_value := std_fn;
  admissible := std_admissible;
  nu_elementwise := fun _ _ _ _ _ => eq_refl;
  point_value_pos := fun k dt d Hk Ht => std_val_pos k dt (fst d) (snd d) Hk Ht
|}.

#[export] Instance gauss_elementwise : Elementwise GaussianDiffusionKernel.t := {|
  point_value := gauss_fn;
  admissible := gauss_admissible;
  nu_elementwise := fun _ _ _ _ _ => eq_refl;
  point_value_pos := fun k dt d Hk Ht => gauss_val_pos k dt (fst d) (snd d) Hk Ht
|}.

Section ClassLaws.
Implicit Types (s his_t : list R) (his_s : mat R).

(** The standard kernel on a history in a plane returns one value per
    past event: the kernel at the event's delay and offset. *)
Theorem std_nu_plane k t0 s his_t his_s :
  plane_history his_t his_s -> length s = 2%nat ->
  StdDiffusionKernel.nu k t0 s his_t his_s
  = Ok (NArray (zip_with (fun h r => std_fn k (t0 - h) (offset s r))
                         his_t (mrows his_s))).
Proof. intros Hp Hs. by rewrite <- (elementwise_plane (std_fn k)). Qed.

(** Every contribution of the standard kernel with admissible
    parameters is positive when the history lies strictly in the past, and
    there is one contribution per past event. *)
Theorem std_nu_pos k t0 s his_t his_s :
  std_admissible k -> plane_history his_t his_s -> length s = 2%nat ->
  Forall (fun h => h < t0) his_t ->
  exists l, StdDiffusionKernel.nu k t0 s his_t his_s = Ok (NArray l)
            /\ length l = nrows his_s /\ Forall (Rlt 0) l.
Proof.
  intros Hk. apply (elementwise_pos (std_fn k)).
  intros dt d Ht. by apply std_val_pos.
Qed.

(** Every contribution of the Gaussian kernel with admissible
    parameters (a correlation strictly between [-1] and [1]) is positive
    when the history lies strictly in the past, and there is one
    contribution per past event. *)
Theorem gauss_nu_pos k t0 s his_t his_s :
  gauss_admissible k -> plane_history his_t his_s -> length s = 2%nat ->
  Forall (fun h => h < t0) his_t ->
  exists l, GaussianDiffusionKernel.nu k t0 s his_t his_s = Ok (NArray l)
            /\ length l = nrows his_s /\ Forall (Rlt 0) l.
Proof.
  intros Hk. apply (elementwise_pos (gauss_fn k)).
  intros dt d Ht. by apply gauss_val_pos.
Qed.

(** A history with a single space coordinate makes the standard and
    the Gaussian kernel raise [IndexError]. *)
Theorem nu_line k g t0 s his_t his_s :
  mat_wf his_s -> ncols his_s = 1%nat -> length s = 1%nat ->
  StdDiffusionKernel.nu k t0 s his_t his_s = Raise IndexError
  /\ GaussianDiffusionKernel.nu g t0 s his_t his_s = Raise IndexError.
Proof.
  intros Hwf Hc Hs.
  unfold StdDiffusionKernel.nu, GaussianDiffusionKernel.nu.
  by rewrite spatial_deltas_line.
Qed.

(** Without correlation and shift the Gaussian [nu] is the standard
    [nu], on every argument, the ill-shaped ones included. *)
Theorem gauss_nu_std k t0 s his_t his_s :
  GaussianDiffusionKernel.rho k = 0 ->
  GaussianDiffusionKernel.mu_x k = 0 -> GaussianDiffusionKernel.mu_y k = 0 ->
  GaussianDiffusionKernel.nu k t0 s his_t his_s
  = StdDiffusionKernel.nu (std_of k) t0 s his_t his_s.
Proof.
  intros Hr Hx Hy. apply (elementwise_ext (gauss_fn k) (std_fn (std_of k))).
  intros dt d. by apply gauss_val_std.
Qed.

(** A spatially variant kernel whose parameter functions are constant
    is the Gaussian kernel with those constants, on every history of two
    or more columns. *)
Theorem sv_nu_constant k g t0 s his_t his_s :
  (forall hx hy, gauss_at k hx hy = g) ->
  mat_wf his_s -> (2 <= ncols his_s)%nat ->
  SpatialVariantGaussianDiffusionKernel.nu k t0 s his_t his_s
  = GaussianDiffusionKernel.nu g t0 s his_t his_s.
Proof.
  intros Hg Hwf Hc.
  unfold SpatialVariantGaussianDiffusionKernel.nu, GaussianDiffusionKernel.nu.
  destruct (spatial_deltas s his_s) as [dxy|] eqn:Ed; [|done].
  apply spatial_deltas_length in Ed. cbn [rbind].
  rewrite !column_ok by (done || lia). cbn [rbind]. f_equal.
  rewrite (bcast2_ext _ (fun dt d => gauss_fn g dt (fst d)))
    by (intros dt [[dx dy] [hx hy]]; cbn; by rewrite sv_val_gauss, Hg).
  rewrite (bcast2_map_r (gauss_fn g) fst). f_equal. apply fst_zip.
  rewrite length_zip, !length_map. unfold nrows in Ed. lia.
Qed.

(** Combining a list with three columns computed from one list of rows. *)
Lemma zip_with_columns {X Y Z B C D : Type} (F : X -> B * (C * D) -> Z)
    (a : Y -> X) (b : list R -> B) (c : list R -> C) (d : list R -> D)
    (hs : list Y) (rows : list (list R)) :
  zip_with F (map a hs) (zip (map b rows) (zip (map c rows) (map d rows)))
  = zip_with (fun h r => F (a h) (b r, (c r, d r))) hs rows.
Proof.
  revert rows. induction hs as [|h hs IH]; intros [|r rows]; cbn; [done.. |].
  f_equal. apply IH.
Qed.

(** The spatially variant kernel on a history in a plane: one value per
    past event, the kernel with the parameters its functions take at the
    event's own location. *)
Lemma sv_nu_plane k t0 s his_t his_s :
  plane_history his_t his_s -> length s = 2%nat ->
  SpatialVariantGaussianDiffusionKernel.nu k t0 s his_t his_s
  = Ok (NArray (zip_with
                  (fun h r => gauss_fn (gauss_at k (nth 0 r 0) (nth 1 r 0))
                                       (t0 - h) (offset s r))
                  his_t (mrows his_s))).
Proof.
  intros (Hwf & Hc & Hn) Hs. unfold SpatialVariantGaussianDiffusionKernel.nu.
  rewrite spatial_deltas_plane by done. cbn [rbind].
  rewrite !column_ok by (done || lia). cbn [rbind]. unfold time_deltas.
  rewrite bcast2_same
    by (rewrite !length_zip, !length_map; unfold nrows in Hn; lia).
  cbn [rmap rbind]. do 2 f_equal. apply zip_with_columns.
Qed.

(** Every contribution of the spatially variant kernel is positive when its
    parameter functions are admissible everywhere and the history lies
    strictly in the past, and there is one contribution per past event. *)
Theorem sv_nu_pos k t0 s his_t his_s :
  sv_admissible k -> plane_history his_t his_s -> length s = 2%nat ->
  Forall (fun h => h < t0) his_t ->
  exists l, SpatialVariantGaussianDiffusionKernel.nu k t0 s his_t his_s
            = Ok (NArray l)
            /\ length l = nrows his_s /\ Forall (Rlt 0) l.
Proof.
  intros Hk Hp Hs Hpast. rewrite sv_nu_plane by done.
  destruct Hp as (_ & _ & Hn). eexists. split; [done |].
  split; [rewrite length_zip_with; unfold nrows in *; lia |].
  clear Hn. revert his_t Hpast.
  induction (mrows his_s) as [|r rs IH]; intros [|h hs] Hpast; cbn [zip_with];
    try constructor; inv Hpast; [|by apply IH].
  apply gauss_val_pos; [apply Hk | lra].
Qed.

End ClassLaws.

(** ** Mixtures *)

Section MixtureLaws.
Context {A K : Type} `{Scalar A} `{!Kernel A K}.
Implicit Types (m : Mixture.t A K) (s his_t : list A) (his_s : mat A)
  (ks : list nat) (acc : npval A) (vs : list (list A)).

Local Open Scope nat_scope.

(** The loop over a concatenation of index lists. *)
Lemma mixture_loop_app m t0 s his_t his_s ks ks' acc :
  Mixture.loop m t0 s his_t his_s (ks ++ ks') acc
  = (acc' <- Mixture.loop m t0 s his_t his_s ks acc;;
     Mixture.loop m t0 s his_t his_s ks' acc').
Proof.
  revert acc. induction ks as [|k ks IH]; intros acc; cbn [app Mixture.loop];
    [done |].
  destruct (index (Mixture.w m) k) as [wk|]; [|done].
  destruct (index (Mixture.gdks m) k) as [g|]; [|done]. cbn [rbind].
  destruct (nu g t0 s his_t his_s) as [v|]; [|done]. cbn [rbind].
  destruct (np_add acc (np_scale wk v)); [|done]. cbn [rbind]. apply IH.
Qed.

(** The loop reads the weights and the components, not [n_comp]. *)
Lemma mixture_loop_fields m m' t0 s his_t his_s ks : forall acc,
  Mixture.w m = Mixture.w m' -> Mixture.gdks m = Mixture.gdks m' ->
  Mixture.loop m t0 s his_t his_s ks acc = Mixture.loop m' t0 s his_t his_s ks acc.
Proof.
  intros acc Hw Hg. revert acc.
  induction ks as [|k ks IH]; intros acc; cbn [Mixture.loop]; [done |].
  rewrite Hw, Hg. destruct (index (Mixture.w m') k) as [wk|]; [|done].
  destruct (index (Mixture.gdks m') k) as [g|]; [|done]. cbn [rbind].
  destruct (nu g t0 s his_t his_s) as [v|]; [|done]. cbn [rbind].
  destruct (np_add acc (np_scale wk v)); [|done]. cbn [rbind]. apply IH.
Qed.

(** The loop stops with [IndexError] at the first index beyond the
    weights. *)
Lemma mixture_loop_no_weight m t0 s his_t his_s k ks acc :
  length (Mixture.w m) <= k ->
  Mixture.loop m t0 s his_t his_s (k :: ks) acc = Raise IndexError.
Proof. intros Hk. cbn. by rewrite index_out_of_range. Qed.

(** The array the loop holds after visiting [ks] from [out], when component
    [k] contributes the array [vs !! k]. *)
Definition mix_ref (ws : list A) vs ks (out : list A) : list A :=
  fold_left (fun out k => zip_with sadd out (map (smul (nth k ws s0)) (nth k vs [])))
            ks out.

(** Component [k] of [m] exists, has a weight, and returns the [n] values
    [vs !! k] on the arguments at hand. *)
Definition contributes m t0 s his_t his_s vs (n k : nat) : Prop :=
  k < length (Mixture.w m)
  /\ exists g, Mixture.gdks m !! k = Some g
               /\ nu g t0 s his_t his_s = Ok (NArray (nth k vs []))
               /\ length (nth k vs []) = n.

Lemma mix_ref_length ws vs ks out n :
  length out = n -> Forall (fun k => length (nth k vs []) = n) ks ->
  length (mix_ref ws vs ks out) = n.
Proof.
  intros Ho Hks. revert out Ho.
  induction Hks as [|k ks Hk _ IH]; intros out Ho; cbn; [done |].
  apply IH. rewrite length_zip_with, length_map. lia.
Qed.

(** From an array, the loop computes [mix_ref]. *)
Lemma mixture_loop_arrays m t0 s his_t his_s vs n ks : forall out,
  length out = n -> Forall (contributes m t0 s his_t his_s vs n) ks ->
  Mixture.loop m t0 s his_t his_s ks (NArray out)
  = Ok (NArray (mix_ref (Mixture.w m) vs ks out)).
Proof.
  induction ks as [|k ks IH]; intros out Ho Hks; cbn [Mixture.loop mix_ref fold_left];
    [done |].
  apply Forall_cons in Hks as [(Hw & g & Hg & Hv & Hn) Hks].
  rewrite (index_nth _ _ Hw). unfold index at 1. rewrite Hg. cbn [rbind].
  rewrite Hv. cbn [rbind np_scale np_add].
  rewrite bcast2_same by (rewrite length_map; lia). cbn [rmap rbind].
  apply IH; [|done]. rewrite length_zip_with, length_map. lia.
Qed.

(** A mixture without component returns the Python scalar zero. *)
Lemma mixture_nu_empty m t0 s his_t his_s :
  Mixture.n_comp m = 0 -> Mixture.nu m t0 s his_t his_s = Ok (NScalar s0).
Proof. intros Hn. unfold Mixture.nu. by rewrite Hn. Qed.

(** A mixture of one component or more returns the weighted sum of the
    arrays its components return. *)
Lemma mixture_nu_ref m t0 s his_t his_s vs n :
  0 < Mixture.n_comp m ->
  Forall (contributes m t0 s his_t his_s vs n) (seq 0 (Mixture.n_comp m)) ->
  Mixture.nu m t0 s his_t his_s
  = Ok (NArray (mix_ref (Mixture.w m) vs (seq 0 (Mixture.n_comp m))
                        (replicate n s0))).
Proof.
  intros Hpos Hks. unfold Mixture.nu.
  destruct (Mixture.n_comp m) as [|c]; [lia |]. cbn [seq] in *.
  pose proof Hks as [(Hw & g & Hg & Hv & Hn) Hks']%Forall_cons.
  cbn [Mixture.loop]. rewrite (index_nth _ _ Hw). unfold index at 1.
  rewrite Hg. cbn [rbind]. rewrite Hv. cbn [rbind np_scale].
  rewrite np_add_scalar_l. cbn [rbind].
  rewrite (mixture_loop_arrays m t0 s his_t his_s vs n) by
    (done || by rewrite !length_map).
  do 2 f_equal. cbn [mix_ref fold_left]. f_equal.
  by rewrite zip_with_replicate_l by (rewrite length_map; lia).
Qed.

End MixtureLaws.

(** ** What a mixture returns *)

Section MixtureSum.
Context {A K : Type} `{Scalar A} `{!Kernel A K}.
Implicit Types (m : Mixture.t A K) (s his_t : list A) (his_s : mat A)
  (ks : list nat) (vs : list (list A)).

Local Open Scope nat_scope.

(** The weighted total of the contributions of the components [ks]. *)
Definition weighted_total (ws : list A) vs ks : R :=
  fold_right Rplus 0%R
    (map (fun k => (toR (nth k ws s0) * toR (ssum (nth k vs [])))%R) ks).

Lemma mix_ref_total ws vs n ks : forall out,
  length out = n -> Forall (fun k => length (nth k vs []) = n) ks ->
  toR (ssum (mix_ref ws vs ks out))
  = (toR (ssum out) + weighted_total ws vs ks)%R.
Proof.
  induction ks as [|k ks IH]; intros out Ho Hks;
    [unfold mix_ref, weighted_total; cbn [fold_left map fold_right]; lra |].
  apply Forall_cons in Hks as [Hk Hks].
  change (mix_ref ws vs (k :: ks) out)
    with (mix_ref ws vs ks (zip_with sadd out (map (smul (nth k ws s0)) (nth k vs [])))).
  change (weighted_total ws vs (k :: ks))
    with (toR (nth k ws s0) * toR (ssum (nth k vs [])) + weighted_total ws vs ks)%R.
  rewrite IH by (done || rewrite length_zip_with, length_map; lia).
  rewrite toR_ssum_zip_add by (rewrite length_map; lia).
  rewrite toR_ssum_scale. lra.
Qed.

Lemma ssum_replicate_zero n : toR (ssum (replicate n (s0 : A))) = 0%R.
Proof.
  rewrite toR_ssum. induction n as [|n IH]; cbn; [done |].
  rewrite IH, toR_0. lra.
Qed.

(** C35. The value of a mixture of one component or more is an array of one
    entry per past event whose total is the weighted total of the
    components' totals. *)
Theorem mixture_nu_weighted_sum m t0 s his_t his_s vs n :
  0 < Mixture.n_comp m ->
  Forall (contributes m t0 s his_t his_s vs n) (seq 0 (Mixture.n_comp m)) ->
  exists out,
    Mixture.nu m t0 s his_t his_s = Ok (NArray out)
    /\ length out = n
    /\ toR (ssum out)
       = weighted_total (Mixture.w m) vs (seq 0 (Mixture.n_comp m)).
Proof.
  intros Hpos Hks. rewrite (mixture_nu_ref m t0 s his_t his_s vs n) by done.
  assert (Hl : Forall (fun k => length (nth k vs []) = n)
                      (seq 0 (Mixture.n_comp m))).
  { eapply Forall_impl; [exact Hks |]. by intros k (_ & g & _ & _ & Hn). }
  eexists. split; [done |].
  split; [apply mix_ref_length; [apply length_replicate | done] |].
  rewrite (mix_ref_total _ _ n) by (done || apply length_replicate).
  rewrite ssum_replicate_zero. lra.
Qed.

(** With fewer weights than components the loop of a mixture reaches
    an index without weight: [nu] raises [IndexError] once the components
    before it have contributed. *)
Theorem mixture_nu_missing_weight m t0 s his_t his_s vs n :
  length (Mixture.w m) < Mixture.n_comp m ->
  Forall (contributes m t0 s his_t his_s vs n) (seq 0 (length (Mixture.w m))) ->
  Mixture.nu m t0 s his_t his_s = Raise IndexError.
Proof.
  intros Hlt Hks. unfold Mixture.nu.
  replace (Mixture.n_comp m)
    with (length (Mixture.w m) + S (Mixture.n_comp m - S (length (Mixture.w m))))
    by lia.
  rewrite seq_app, mixture_loop_app. cbn [seq].
  set (m' := Mixture.Build (Mixture.gdks m) (length (Mixture.w m)) (Mixture.w m)).
  rewrite (mixture_loop_fields m m') by done.
  change (Mixture.loop m' t0 s his_t his_s _ (NScalar s0))
    with (Mixture.nu m' t0 s his_t his_s).
  destruct (length (Mixture.w m)) as [|c] eqn:Ec.
  - rewrite mixture_nu_empty by done. cbn [rbind].
    apply mixture_loop_no_weight. lia.
  - rewrite (mixture_nu_ref m' t0 s his_t his_s vs n) by (cbn; done || lia).
    cbn [rbind]. apply mixture_loop_no_weight. lia.
Qed.

End MixtureSum.

Section MixtureReal.
Context {K : Type} `{!Kernel R K}.

(** A mixture of one component returns the component's array, scaled by
    the weight: with weight one, the component itself. *)
Theorem mixture_single (g : K) (w : R) t0 s his_t his_s l :
  nu g t0 s his_t his_s = Ok (NArray l) ->
  Mixture.nu (Mixture.Build [g] 1 [w]) t0 s his_t his_s
  = Ok (NArray (map (Rmult w) l))
  /\ (w = 1 -> Mixture.nu (Mixture.Build [g] 1 [w]) t0 s his_t his_s
               = Ok (NArray l)).
Proof.
  intros Hg.
  assert (Hm : Mixture.nu (Mixture.Build [g] 1 [w]) t0 s his_t his_s
               = Ok (NArray (map (Rmult w) l))).
  { rewrite (mixture_nu_ref _ t0 s his_t his_s [l] (length l));
      [|cbn; lia | repeat constructor; by exists g].
    do 2 f_equal. cbn.
    rewrite zip_with_replicate_l by (rewrite length_map; lia).
    rewrite map_map. apply map_ext. intros x. lra. }
  split; [done |]. intros ->. rewrite Hm. do 2 f_equal.
  rewrite <- (map_id l) at 2. apply map_ext. intros x. lra.
Qed.

End MixtureReal.

(** ** The constructors of the mixtures

    Both [__init__] methods build component [k] from entry [k] of five
    parameter lists.  The laws are proved once, for any type of parameter
    and any way [F] of building a component. *)

Section Components.
Context {X Y : Type} (F : X -> X -> X -> X -> X -> Y).
Implicit Types (a b c d e : list X) (k n : nat).

Local Open Scope nat_scope.

Definition component_at a b c d e k : res Y :=
  x1 <- index a k;; x2 <- index b k;; x3 <- index c k;;
  x4 <- index d k;; x5 <- index e k;; Ok (F x1 x2 x3 x4 x5).

(** Every list reaches index [n - 1]. *)
Definition long_enough a b c d e n : Prop :=
  n <= length a /\ n <= length b /\ n <= length c /\ n <= length d
  /\ n <= length e.

(** Component [y] is built from entry [k] of every list. *)
Definition built_from a b c d e k (y : Y) : Prop :=
  exists x1 x2 x3 x4 x5,
    a !! k = Some x1 /\ b !! k = Some x2 /\ c !! k = Some x3
    /\ d !! k = Some x4 /\ e !! k = Some x5 /\ y = F x1 x2 x3 x4 x5.

Lemma component_at_cases a b c d e k :
  (exists y, component_at a b c d e k = Ok y /\ built_from a b c d e k y
             /\ long_enough a b c d e (S k))
  \/ (component_at a b c d e k = Raise IndexError
      /\ ~ long_enough a b c d e (S k)).
Proof.
  unfold component_at, index, long_enough, built_from.
  destruct (a !! k) as [x1|] eqn:E1;
    [|right; apply lookup_ge_None in E1; split; [done | lia]].
  destruct (b !! k) as [x2|] eqn:E2;
    [|right; apply lookup_ge_None in E2; split; [done | lia]].
  destruct (c !! k) as [x3|] eqn:E3;
    [|right; apply lookup_ge_None in E3; split; [done | lia]].
  destruct (d !! k) as [x4|] eqn:E4;
    [|right; apply lookup_ge_None in E4; split; [done | lia]].
  destruct (e !! k) as [x5|] eqn:E5;
    [|right; apply lookup_ge_None in E5; split; [done | lia]].
  left. eexists. split; [done |]. split; [by do 5 eexists |].
  apply lookup_lt_Some in E1, E2, E3, E4, E5. lia.
Qed.

(** Lists that are long enough yield [n] components, each built from its
    entries. *)
Lemma components_ok a b c d e n :
  long_enough a b c d e n ->
  exists ys, rtraverse (component_at a b c d e) (seq 0 n) = Ok ys
             /\ Forall2 (built_from a b c d e) (seq 0 n) ys.
Proof.
  intros Hn.
  destruct (rtraverse_total (component_at a b c d e) (seq 0 n)) as [ys Hys].
  { apply Forall_forall. intros k Hk%list_elem_of_In%in_seq.
    destruct (component_at_cases a b c d e k) as [(y & -> & _)|[_ Hs]]; [done |].
    unfold long_enough in *. lia. }
  exists ys. split; [done |]. apply rtraverse_ok_Forall2 in Hys.
  eapply Forall2_impl; [exact Hys |]. intros k y Hy. cbn in Hy.
  destruct (component_at_cases a b c d e k) as [(y' & Hy' & Hb & _)|[Hr _]];
    congruence.
Qed.

(** A list that is too short makes the constructor raise [IndexError]. *)
Lemma components_short a b c d e n :
  ~ long_enough a b c d e n ->
  rtraverse (component_at a b c d e) (seq 0 n) = Raise IndexError.
Proof.
  intros Hn. destruct (rtraverse _ _) as [ys|err] eqn:Er.
  - exfalso. apply Hn. apply rtraverse_ok_Forall2 in Er.
    destruct n as [|n]; [unfold long_enough; lia |].
    assert (Hk : exists y, component_at a b c d e n = Ok y).
    { rewrite seq_S in Er. apply Forall2_app_inv_l in Er
        as (ys1 & ys2 & _ & Hl & _). inv Hl. eauto. }
    destruct Hk as [y Hy].
    destruct (component_at_cases a b c d e n) as [(_ & _ & _ & Hl)|[Hr _]];
      [done | congruence].
  - apply rtraverse_raise_first, Exists_exists in Er as (k & _ & Hk).
    destruct (component_at_cases a b c d e k) as [(y & Hy & _)|[Hr _]];
      congruence.
Qed.

End Components.

Section InitLaws.
Implicit Types (n_comp : nat) (w : list R) (beta C : R).

(** [GaussianMixtureDiffusionKernel.__init__] with parameter lists of
    [n_comp] entries or more: the mixture holds [n_comp] components,
    component [k] built from entry [k] of every list, and the weights as
    given, whatever their number. *)
Theorem gm_init_ok n_comp w mu_x mu_y sigma_x sigma_y rho beta C :
  long_enough mu_x mu_y sigma_x sigma_y rho n_comp ->
  exists m,
    GaussianMixtureDiffusionKernel.init n_comp w mu_x mu_y sigma_x sigma_y rho
      beta C = Ok m
    /\ Mixture.n_comp m = n_comp /\ Mixture.w m = w
    /\ Forall2 (built_from (GaussianDiffusionKernel.Build C beta)
                           mu_x mu_y sigma_x sigma_y rho)
               (seq 0 n_comp) (Mixture.gdks m).
Proof.
  intros Hn. unfold GaussianMixtureDiffusionKernel.init.
  destruct (components_ok (GaussianDiffusionKernel.Build C beta) _ _ _ _ _ _ Hn)
    as (gs & Hgs & Hb).
  unfold component_at in Hgs. rewrite Hgs. cbn [rbind]. by eexists.
Qed.

(** A parameter list shorter than [n_comp] makes
    [GaussianMixtureDiffusionKernel.__init__] raise [IndexError]. *)
Theorem gm_init_short n_comp w mu_x mu_y sigma_x sigma_y rho beta C :
  ~ long_enough mu_x mu_y sigma_x sigma_y rho n_comp ->
  GaussianMixtureDiffusionKernel.init n_comp w mu_x mu_y sigma_x sigma_y rho
    beta C = Raise IndexError.
Proof.
  intros Hn. unfold GaussianMixtureDiffusionKernel.init.
  pose proof (components_short (GaussianDiffusionKernel.Build C beta)
                _ _ _ _ _ _ Hn) as Hs.
  unfold component_at in Hs. by rewrite Hs.
Qed.

(** [SpatialVariantGaussianMixtureDiffusionKernel.__init__] with lists
    of [n_comp] parameter functions or more: the mixture holds [n_comp]
    components, component [k] built from entry [k] of every list, and the
    weights as given. *)
Theorem sv_init_ok n_comp w f_mu_x f_mu_y f_sigma_x f_sigma_y f_rho beta C :
  long_enough f_mu_x f_mu_y f_sigma_x f_sigma_y f_rho n_comp ->
  exists m,
    SpatialVariantGaussianMixtureDiffusionKernel.init n_comp w
      f_mu_x f_mu_y f_sigma_x f_sigma_y f_rho beta C = Ok m
    /\ Mixture.n_comp m = n_comp /\ Mixture.w m = w
    /\ Forall2 (built_from (SpatialVariantGaussianDiffusionKernel.Build C beta)
                           f_mu_x f_mu_y f_sigma_x f_sigma_y f_rho)
               (seq 0 n_comp) (Mixture.gdks m).
Proof.
  intros Hn. unfold SpatialVariantGaussianMixtureDiffusionKernel.init.
  destruct (components_ok (SpatialVariantGaussianDiffusionKernel.Build C beta)
              _ _ _ _ _ _ Hn) as (gs & Hgs & Hb).
  unfold component_at in Hgs. rewrite Hgs. cbn [rbind]. by eexists.
Qed.

(** A list of parameter functions shorter than [n_comp] makes
    [SpatialVariantGaussianMixtureDiffusionKernel.__init__] raise
    [IndexError]. *)
Theorem sv_init_short n_comp w f_mu_x f_mu_y f_sigma_x f_sigma_y f_rho beta C :
  ~ long_enough f_mu_x f_mu_y f_sigma_x f_sigma_y f_rho n_comp ->
  SpatialVariantGaussianMixtureDiffusionKernel.init n_comp w
    f_mu_x f_mu_y f_sigma_x f_sigma_y f_rho beta C = Raise IndexError.
Proof.
  intros Hn. unfold SpatialVariantGaussianMixtureDiffusionKernel.init.
  pose proof (components_short (SpatialVariantGaussianDiffusionKernel.Build C beta)
                _ _ _ _ _ _ Hn) as Hs.
  unfold component_at in Hs. by rewrite Hs.
Qed.

End InitLaws.

(** ** Concrete instances

    The default kernels of the three classes at time [1] and location
    [(1, 1)], after one event at time [0] at the origin. *)

Definition origin_t : list R := [0].
Definition origin_s : mat R := Mat 2 [[0; 0]].

Lemma origin_plane : plane_history origin_t origin_s.
Proof. split; [by repeat constructor | done]. Defined.

Lemma origin_past : Forall (fun h => h < 1) origin_t.
Proof. repeat constructor. lra. Defined.

Lemma std_default_admissible : std_admissible StdDiffusionKernel.default.
Proof. unfold std_admissible. cbn. lra. Defined.

Lemma gauss_default_admissible : gauss_admissible GaussianDiffusionKernel.default.
Proof. unfold gauss_admissible. cbn. lra. Defined.

(** The one-component mixture of the default Gaussian kernel, with weight
    [1/2], and what its component returns on the history above. *)
Definition half_mixture : Mixture.t R GaussianDiffusionKernel.t :=
  Mixture.Build [GaussianDiffusionKernel.default] 1 [1 / 2].

Definition half_values : list (list R) :=
  [zip_with (fun h r => gauss_fn GaussianDiffusionKernel.default (1 - h)
                                 (offset [1; 1] r))
            origin_t (mrows origin_s)].

Lemma half_contributes :
  Forall (contributes half_mixture 1 [1; 1] origin_t origin_s half_values 1)
         (seq 0 (Mixture.n_comp half_mixture)).
Proof.
  repeat constructor. exists GaussianDiffusionKernel.default.
  split; [done |]. split; [|done].
  exact (elementwise_plane (gauss_fn GaussianDiffusionKernel.default) 1 [1; 1]
           origin_t origin_s origin_plane eq_refl).
Defined.

Lemma std_val_le_peak_witness :
  StdDiffusionKernel.val StdDiffusionKernel.default 1 0 0
  <= std_peak StdDiffusionKernel.default 1
  /\ std_peak StdDiffusionKernel.default 1
     <= StdDiffusionKernel.C StdDiffusionKernel.default
        / (2 * PI * StdDiffusionKernel.sigma_x StdDiffusionKernel.default
           * StdDiffusionKernel.sigma_y StdDiffusionKernel.default * 1).
Proof. apply std_val_le_peak; [exact std_default_admissible | lra]. Defined.

Lemma gauss_val_le_peak_witness :
  GaussianDiffusionKernel.val GaussianDiffusionKernel.default 1 0 0
  <= gauss_peak GaussianDiffusionKernel.default 1.
Proof. apply gauss_val_le_peak; [exact gauss_default_admissible | lra]. Defined.

Lemma std_nu_plane_witness :
  StdDiffusionKernel.nu StdDiffusionKernel.default 1 [1; 1] origin_t origin_s
  = Ok (NArray (zip_with (fun h r => std_fn StdDiffusionKernel.default (1 - h)
                                            (offset [1; 1] r))
                         origin_t (mrows origin_s))).
Proof. apply std_nu_plane; [exact origin_plane | reflexivity]. Defined.

Lemma std_nu_pos_witness :
  exists l,
    StdDiffusionKernel.nu StdDiffusionKernel.default 1 [1; 1] origin_t origin_s
    = Ok (NArray l)
    /\ length l = nrows origin_s /\ Forall (Rlt 0) l.
Proof.
  apply std_nu_pos;
    [exact std_default_admissible | exact origin_plane | reflexivity
    | exact origin_past].
Defined.

Lemma gauss_nu_pos_witness :
  exists l,
    GaussianDiffusionKernel.nu GaussianDiffusionKernel.default 1 [1; 1]
      origin_t origin_s = Ok (NArray l)
    /\ length l = nrows origin_s /\ Forall (Rlt 0) l.
Proof.
  apply gauss_nu_pos;
    [exact gauss_default_admissible | exact origin_plane | reflexivity
    | exact origin_past].
Defined.

Lemma nu_line_witness :
  StdDiffusionKernel.nu StdDiffusionKernel.default 1 [1] origin_t (Mat 1 [[0]])
  = Raise IndexError
  /\ GaussianDiffusionKernel.nu GaussianDiffusionKernel.default 1 [1] origin_t
       (Mat 1 [[0]]) = Raise IndexError.
Proof. apply nu_line; [by repeat constructor | reflexivity | reflexivity]. Defined.

Lemma gauss_nu_std_witness :
  GaussianDiffusionKernel.nu GaussianDiffusionKernel.default 1 [1; 1]
    origin_t origin_s
  = StdDiffusionKernel.nu (std_of GaussianDiffusionKernel.default) 1 [1; 1]
      origin_t origin_s.
Proof. apply gauss_nu_std; reflexivity. Defined.

Lemma sv_nu_constant_witness :
  SpatialVariantGaussianDiffusionKernel.nu
    SpatialVariantGaussianDiffusionKernel.default 1 [1; 1] origin_t origin_s
  = GaussianDiffusionKernel.nu GaussianDiffusionKernel.default 1 [1; 1]
      origin_t origin_s.
Proof.
  apply sv_nu_constant; [reflexivity | by repeat constructor | cbn; lia].
Defined.

Lemma mixture_nu_weighted_sum_witness :
  exists out,
    Mixture.nu half_mixture 1 [1; 1] origin_t origin_s = Ok (NArray out)
    /\ length out = 1%nat
    /\ toR (ssum out)
       = weighted_total (Mixture.w half_mixture) half_values
           (seq 0 (Mixture.n_comp half_mixture)).
Proof.
  apply mixture_nu_weighted_sum; [cbn; lia | exact half_contributes].
Defined.

Lemma mixture_nu_missing_weight_witness :
  Mixture.nu (Mixture.Build [GaussianDiffusionKernel.default] 1 [])
             1 [1; 1] origin_t origin_s
  = Raise IndexError.
Proof.
  apply (mixture_nu_missing_weight _ _ _ _ _ [] 0%nat); [cbn; lia | constructor].
Defined.

Lemma gm_init_ok_witness :
  exists m,
    GaussianMixtureDiffusionKernel.init 1 [1] [0] [0] [1] [1] [0] 1 1 = Ok m
    /\ Mixture.n_comp m = 1%nat /\ Mixture.w m = [1]
    /\ Forall2 (built_from (GaussianDiffusionKernel.Build 1 1) [0] [0] [1] [1] [0])
               (seq 0 1) (Mixture.gdks m).
Proof. apply gm_init_ok. unfold long_enough. cbn. lia. Defined.

Lemma gm_init_short_witness :
  GaussianMixtureDiffusionKernel.init 2 [1; 1] [0; 0] [0; 0] [1; 1] [1; 1] [0] 1 1
  = Raise IndexError.
Proof. apply gm_init_short. unfold long_enough. cbn. lia. Defined.

Lemma sv_init_ok_witness :
  exists m,
    SpatialVariantGaussianMixtureDiffusionKernel.init 0 [] [] [] [] [] [] 1 1
    = Ok m
    /\ Mixture.n_comp m = 0%nat /\ Mixture.w m = []
    /\ Forall2 (built_from (SpatialVariantGaussianDiffusionKernel.Build 1 1)
                           [] [] [] [] [])
               (seq 0 0) (Mixture.gdks m).
Proof. apply sv_init_ok. unfold long_enough. cbn. lia. Defined.

Lemma sv_init_short_witness :
  SpatialVariantGaussianMixtureDiffusionKernel.init 1 [1] [] [] [] [] [] 1 1
  = Raise IndexError.
Proof. apply sv_init_short. unfold long_enough. cbn. lia. Defined.

Lemma sv_nu_pos_witness :
  exists l,
    SpatialVariantGaussianDiffusionKernel.nu
      SpatialVariantGaussianDiffusionKernel.default 1 [1; 1] origin_t origin_s
    = Ok (NArray l)
    /\ length l = nrows origin_s /\ Forall (Rlt 0) l.
Proof.
  apply sv_nu_pos;
    [intros hx hy; exact gauss_default_admissible | exact origin_plane
    | reflexivity | exact origin_past].
Defined.

Lemma mixture_single_witness :
  Mixture.nu (Mixture.Build [GaussianDiffusionKernel.default] 1 [1])
             1 [1; 1] origin_t origin_s
  = Ok (NArray (map (Rmult 1) (nth 0 half_values [])))
  /\ (1 = 1 ->
      Mixture.nu (Mixture.Build [GaussianDiffusionKernel.default] 1 [1])
                 1 [1; 1] origin_t origin_s
      = Ok (NArray (nth 0 half_values []))).
Proof.
  apply mixture_single.
  exact (elementwise_plane (gauss_fn GaussianDiffusionKernel.default) 1 [1; 1]
           origin_t origin_s origin_plane eq_refl).
Defined.
