(* ===== verification/Excitation.v ===== *)
(** * Excitation: what the intensity requires of a kernel

    [HawkesLam.value] sums what [kernel.nu] returns; the sampler compares
    the result with the bound and the plotting function integrates it.
    Their theorems need two facts of a kernel, on a history in a plane:

    - [nu] returns, a scalar or one value per past event;
    - when the history lies strictly in the past, no value is negative.

    The class [Excitation] states them.  All five kernel classes of
    [src/stppg.py] are instances: the standard and the Gaussian kernel
    through [Elementwise], the spatially variant kernel, and a mixture of
    instances that has a non-negative weight and a component for every
    index below [n_comp]. *)

From Stdlib Require Import Reals Lra.
From stdpp Require Import base tactics list.
From S2P Require Import Prelude Scalar NdArray Kernel KernelLaws.

Local Open Scope res_scope.
Local Open Scope R_scope.

(** ** Results of [nu] *)

Section Results.
Implicit Types (u v r : npval R) (l k : list R) (n : nat) (w : R).

(** A result that broadcasts against [n] values: a scalar, or an array of
    [n] values. *)
Definition fits n v : Prop :=
  match v with
  | NScalar _ => True
  | NArray l => length l = n
  end.

(** A result without negative value. *)
Definition nonneg v : Prop :=
  match v with
  | NScalar a => 0 <= a
  | NArray l => Forall (Rle 0) l
  end.

Lemma np_sum_nonneg v : nonneg v -> 0 <= np_sum v.
Proof.
  destruct v as [a|l]; [done |]. intros Hl.
  change (Forall (sle (A := R) s0) l) in Hl. exact (ssum_nonneg l Hl).
Qed.

Lemma np_scale_fits n w v : fits n v -> fits n (np_scale w v).
Proof. destruct v as [a|l]; cbn; [done |]. by rewrite length_map. Qed.

Lemma np_scale_nonneg w v : 0 <= w -> nonneg v -> nonneg (np_scale w v).
Proof.
  intros Hw. destruct v as [a|l]; cbn; [by apply Rmult_le_pos |].
  intros Hl. apply Forall_map. eapply Forall_impl; [exact Hl |].
  intros x Hx. by apply Rmult_le_pos.
Qed.

Lemma np_add_fits n u v :
  fits n u -> fits n v -> exists r, np_add u v = Ok r /\ fits n r.
Proof.
  destruct u as [a|l], v as [b|k]; cbn; intros Hu Hv.
  - eauto.
  - eexists. split; [done |]. cbn. by rewrite length_map.
  - eexists. split; [done |]. cbn. by rewrite length_map.
  - rewrite bcast2_same by congruence. eexists. split; [done |]. cbn.
    rewrite length_zip_with. lia.
Qed.

(** Broadcasting applies the operation to elements of its operands. *)
Lemma bcast2_Forall {B C D : Type} (f : B -> C -> D) (P : B -> Prop)
    (Q : C -> Prop) (S : D -> Prop) (xs : list B) (ys : list C) (out : list D) :
  (forall x y, P x -> Q y -> S (f x y)) -> Forall P xs -> Forall Q ys ->
  bcast2 f xs ys = Ok out -> Forall S out.
Proof.
  intros Hf Hx Hy. unfold bcast2. destruct (_ =? _)%nat.
  - intros [= <-]. revert ys Hy. induction Hx as [|x xs Hp _ IH];
      intros [|y ys] Hy; cbn; try constructor; inv Hy; auto.
  - destruct xs as [|x [|? ?]], ys as [|y [|? ?]]; cbn; intros [= <-];
      repeat constructor; try apply Forall_map;
      repeat match goal with
             | Hl : Forall _ (_ :: _) |- _ => apply Forall_cons in Hl as [? ?]
             end; auto.
    all: eapply Forall_impl; [eassumption |]; cbn; auto.
Qed.

Lemma np_add_nonneg u v r :
  np_add u v = Ok r -> nonneg u -> nonneg v -> nonneg r.
Proof.
  destruct u as [a|l], v as [b|k]; cbn; intros Hr Hu Hv; res_inv; cbn.
  - lra.
  - apply Forall_map. eapply Forall_impl; [exact Hv |]. cbn. intros. lra.
  - apply Forall_map. eapply Forall_impl; [exact Hu |]. cbn. intros. lra.
  - eapply (bcast2_Forall Rplus); [| exact Hu | exact Hv | eassumption].
    cbn. intros. lra.
Qed.

End Results.

(** ** The interface *)

(** [complete k]: [k] was built with everything [nu] reads.
    [excitatory k]: the parameters of [k] make every contribution
    non-negative. *)
Class Excitation (K : Type) `{!Kernel R K} : Type := {
  complete : K -> Prop;
  excitatory : K -> Prop;
  nu_returns k t0 s his_t his_s :
    complete k -> plane_history his_t his_s -> length s = 2%nat ->
    exists v, nu k t0 s his_t his_s = Ok v /\ fits (nrows his_s) v;
  nu_nonneg k t0 s his_t his_s v :
    excitatory k -> plane_history his_t his_s -> length s = 2%nat ->
    Forall (fun h => h < t0) his_t ->
    nu k t0 s his_t his_s = Ok v -> nonneg v
}.

(** ** The kernels that evaluate one function per past event *)

Section FromElementwise.
Context {K : Type} `{!Kernel R K} `{!Elementwise K}.

Lemma elementwise_returns (k : K) t0 s his_t his_s :
  True -> plane_history his_t his_s -> length s = 2%nat ->
  exists v, nu k t0 s his_t his_s = Ok v /\ fits (nrows his_s) v.
Proof.
  intros _ Hp Hs. rewrite nu_elementwise, elementwise_plane by done.
  eexists. split; [done |]. destruct Hp as (_ & _ & Hn). cbn.
  rewrite length_zip_with. unfold nrows in *. lia.
Qed.

Lemma elementwise_nonneg (k : K) t0 s his_t his_s v :
  admissible k -> plane_history his_t his_s -> length s = 2%nat ->
  Forall (fun h => h < t0) his_t ->
  nu k t0 s his_t his_s = Ok v -> nonneg v.
Proof.
  intros Hk Hp Hs Hpast Hv.
  destruct (elementwise_pos (point_value k) t0 s his_t his_s)
    as (l & Hl & _ & Hpos); try done.
  { intros dt d. by apply point_value_pos. }
  rewrite <- nu_elementwise, Hv in Hl. inv Hl. cbn.
  eapply Forall_impl; [exact Hpos |]. intros x Hx. lra.
Qed.

#[export] Instance elementwise_excitation : Excitation K := {|
  complete := fun _ => True;
  excitatory := admissible;
  nu_returns := elementwise_returns;
  nu_nonneg := elementwise_nonneg
|}.

End FromElementwise.

(** ** The spatially variant kernel *)

Lemma sv_returns (k : SpatialVariantGaussianDiffusionKernel.t) t0 s his_t his_s :
  True -> plane_history his_t his_s -> length s = 2%nat ->
  exists v, nu k t0 s his_t his_s = Ok v /\ fits (nrows his_s) v.
Proof.
  intros _ Hp Hs. cbn [nu spatial_variant_kernel]. rewrite sv_nu_plane by done.
  eexists. split; [done |]. destruct Hp as (_ & _ & Hn). cbn.
  rewrite length_zip_with. unfold nrows in *. lia.
Qed.

Lemma sv_nonneg (k : SpatialVariantGaussianDiffusionKernel.t) t0 s his_t his_s v :
  sv_admissible k -> plane_history his_t his_s -> length s = 2%nat ->
  Forall (fun h => h < t0) his_t ->
  nu k t0 s his_t his_s = Ok v -> nonneg v.
Proof.
  intros Hk Hp Hs Hpast Hv.
  destruct (sv_nu_pos k t0 s his_t his_s) as (l & Hl & _ & Hpos); try done.
  cbn [nu spatial_variant_kernel] in Hv. rewrite Hv in Hl. inv Hl. cbn.
  eapply Forall_impl; [exact Hpos |]. intros x Hx. lra.
Qed.

#[export] Instance sv_excitation
  : Excitation SpatialVariantGaussianDiffusionKernel.t := {|
  complete := fun _ => True;
  excitatory := sv_admissible;
  nu_returns := sv_returns;
  nu_nonneg := sv_nonneg
|}.

(** ** Mixtures *)

Section MixtureExcitation.
Context {K : Type} `{!Kernel R K} `{!Excitation K}.
Implicit Types (m : Mixture.t R K) (ks : list nat) (acc v : npval R).

(** Index [k] of the mixture has a weight with [Q] and a component with
    [P]. *)
Definition part (P : K -> Prop) (Q : R -> Prop) m (k : nat) : Prop :=
  (exists wk, Mixture.w m !! k = Some wk /\ Q wk)
  /\ exists g, Mixture.gdks m !! k = Some g /\ P g.

(** Every index below [n_comp] has a weight and a complete component. *)
Definition mixture_complete m : Prop :=
  Forall (part complete (fun _ => True) m) (seq 0 (Mixture.n_comp m)).

(** Every index below [n_comp] has a non-negative weight and an excitatory
    component. *)
Definition mixture_excitatory m : Prop :=
  Forall (part excitatory (Rle 0) m) (seq 0 (Mixture.n_comp m)).

Lemma mixture_loop_returns m t0 s his_t his_s ks : forall acc,
  plane_history his_t his_s -> length s = 2%nat ->
  Forall (part complete (fun _ => True) m) ks -> fits (nrows his_s) acc ->
  exists v, Mixture.loop m t0 s his_t his_s ks acc = Ok v
            /\ fits (nrows his_s) v.
Proof.
  induction ks as [|k ks IH]; intros acc Hp Hs Hks Hacc; cbn [Mixture.loop];
    [eauto |].
  apply Forall_cons in Hks as [[(wk & Hw & _) (g & Hg & Hc)] Hks].
  unfold index. rewrite Hw, Hg. cbn [rbind].
  destruct (nu_returns g t0 s his_t his_s Hc Hp Hs) as (v & -> & Hv).
  cbn [rbind].
  destruct (np_add_fits _ acc (np_scale wk v) Hacc (np_scale_fits _ wk v Hv))
    as (acc' & -> & Hacc').
  cbn [rbind]. by apply IH.
Qed.

Lemma mixture_loop_nonneg m t0 s his_t his_s ks : forall acc v,
  plane_history his_t his_s -> length s = 2%nat ->
  Forall (fun h => h < t0) his_t ->
  Forall (part excitatory (Rle 0) m) ks -> nonneg acc ->
  Mixture.loop m t0 s his_t his_s ks acc = Ok v -> nonneg v.
Proof.
  induction ks as [|k ks IH]; intros acc v Hp Hs Hpast Hks Hacc;
    cbn [Mixture.loop]; [by intros [= <-] |].
  apply Forall_cons in Hks as [[(wk & Hw & Hwk) (g & Hg & He)] Hks].
  unfold index. rewrite Hw, Hg. cbn [rbind].
  destruct (nu g t0 s his_t his_s) as [x|] eqn:Hx; [|done]. cbn [rbind].
  destruct (np_add acc (np_scale wk x)) as [acc'|] eqn:Ha; [|done].
  cbn [rbind]. apply IH; try done.
  eapply np_add_nonneg; [exact Ha | done |].
  apply np_scale_nonneg; [done |]. by eapply nu_nonneg.
Qed.

Lemma mixture_returns m t0 s his_t his_s :
  mixture_complete m -> plane_history his_t his_s -> length s = 2%nat ->
  exists v, nu m t0 s his_t his_s = Ok v /\ fits (nrows his_s) v.
Proof. intros Hm Hp Hs. by apply mixture_loop_returns. Qed.

Lemma mixture_nonneg m t0 s his_t his_s v :
  mixture_excitatory m -> plane_history his_t his_s -> length s = 2%nat ->
  Forall (fun h => h < t0) his_t ->
  nu m t0 s his_t his_s = Ok v -> nonneg v.
Proof.
  intros Hm Hp Hs Hpast. apply mixture_loop_nonneg; try done. cbn. lra.
Qed.

#[export] Instance mixture_excitation : Excitation (Mixture.t R K) := {|
  complete := mixture_complete;
  excitatory := mixture_excitatory;
  nu_returns := mixture_returns;
  nu_nonneg := mixture_nonneg
|}.

(** A mixture that has, for every index below [n_comp], a non-negative
    weight and a complete, excitatory component: on a history in a plane
    that lies strictly in the past its [nu] returns, a scalar or one value
    per past event, no value is negative, and neither is their sum. *)
Theorem mixture_excites m t0 s his_t his_s :
  mixture_complete m -> mixture_excitatory m ->
  plane_history his_t his_s -> length s = 2%nat ->
  Forall (fun h => h < t0) his_t ->
  exists v, Mixture.nu m t0 s his_t his_s = Ok v
            /\ fits (nrows his_s) v /\ nonneg v /\ 0 <= np_sum v.
Proof.
  intros Hc He Hp Hs Hpast.
  destruct (mixture_returns m t0 s his_t his_s Hc Hp Hs) as (v & Hv & Hfit).
  pose proof (mixture_nonneg m t0 s his_t his_s v He Hp Hs Hpast Hv) as Hnn.
  exists v. repeat split; [done .. | by apply np_sum_nonneg].
Qed.

End MixtureExcitation.

(** ** A concrete mixture *)

(** The mixture [half_mixture] has a weight and a component for its one
    index; the weight is positive and the component admissible. *)
Lemma half_complete : complete half_mixture.
Proof. repeat constructor; eexists; by split. Defined.

Lemma half_excitatory : excitatory half_mixture.
Proof.
  repeat constructor; eexists; (split; [done |]);
    [lra | exact gauss_default_admissible].
Defined.

Lemma mixture_excites_witness :
  exists v, Mixture.nu half_mixture 1 [1; 1] origin_t origin_s = Ok v
            /\ fits (nrows origin_s) v /\ nonneg v /\ 0 <= np_sum v.
Proof.
  apply mixture_excites;
    [exact half_complete | exact half_excitatory | exact origin_plane
    | reflexivity | exact origin_past].
Defined.
