(* ===== verification/HawkesLaws.v ===== *)
(** * HawkesLaws: the Hawkes intensity over the kernels, inside the sampler

    What the sampler gets from a [HawkesLam] built on the kernels of
    [Kernel.v]:

    - with a declared upper bound below the background rate every pass of
      the loop of [generate] is rejected, on every source of random
      numbers: the loop never leaves ([invalid_bound_hangs]);
    - over a mixture, the intensity is the background rate plus the
      weighted total of the components' contributions;
    - over any kernel of the interface [Excitation] (each of the five
      classes, with admissible parameters), the intensity at a point later
      than the whole history is at least the background rate;
    - on proposals of a time and two space coordinates these kernels
      evaluate whatever was retained, so thinning returns; on proposals of
      a time and one space coordinate the standard and the Gaussian kernel
      raise [IndexError] as soon as a point has been retained. *)

From Stdlib Require Import Reals Lra QArith.
From stdpp Require Import base tactics list.
From S2P Require Import Prelude Scalar NdArray ArgSort Region Rng Kernel Intensity.
From S2P Require Import Sampler Tape Fixtures Thinning Proposal Generate Endless KernelLaws Excitation.

Local Open Scope res_scope.

(** ** Over any scalars *)

Section HawkesGeneric.
Context {A K : Type} `{Scalar A} `{!Kernel A K}.
Implicit Types (lam : HawkesLam.t A K) (his_t s l : list A) (his_s : mat A).

(** Non-negative contributions keep the intensity at or above the
    background rate. *)
Lemma value_ge_mu lam t0 his_t s his_s l :
  nu (HawkesLam.kernel lam) t0 s his_t his_s = Ok (NArray l) ->
  Forall (sle s0) l ->
  exists v, HawkesLam.value lam t0 his_t s his_s = Ok v
            /\ sle (HawkesLam.mu lam) v.
Proof.
  intros Hnu Hl. unfold HawkesLam.value.
  destruct (0 <? length his_t); [|by eexists].
  rewrite Hnu. cbn [rbind np_sum]. eexists. split; [done |].
  pose proof (ssum_nonneg l Hl). scalar_lra.
Qed.

End HawkesGeneric.

(** ** A bound below the background rate *)

Section InvalidBound.
Context {A K : Type} `{ArgSort A} `{!Kernel A K}.
Context (lam : HawkesLam.t A K) (T : interval A) (S : list (interval A)).
Context (batch_size min_n_points : Z) (verbose : bool).
Context (Hbound : slt (upper_bound lam) (HawkesLam.mu lam)).
Implicit Types (homo : mat A) (src : source A) (g : rng A).

(** The first proposal of a pool meets no history: its intensity is the
    background rate, above the bound, and thinning gives the pool up
    after one variate. *)
Lemma thinning_first_violation homo u us cs :
  mat_wf homo -> 0 < ncols homo -> 0 < nrows homo ->
  inhomogeneous_poisson_thinning lam homo verbose (Rng cs (u :: us))
  = Ok (None, Rng cs us).
Proof.
  intros Hwf Hw Hn. unfold inhomogeneous_poisson_thinning, nrows in *.
  destruct (mrows homo) as [|p0 rest] eqn:Hrows; [cbn in Hn; lia |].
  cbn [length seq].
  rewrite (thin_loop_step lam verbose homo Hwf Hw 0 _ _ p0)
    by (by rewrite ?Hrows || auto with stppg).
  unfold thin_step_model, eval_at. cbn [value hawkes_intensity times mrows empty_mat map].
  rewrite value_empty_history. cbn [unifs counts].
  by rewrite (proj2 (sltb_true _ _) Hbound).
Qed.

(** An empty pool is thinned to the empty sequence. *)
Lemma thinning_empty_pool homo g :
  nrows homo = 0 ->
  inhomogeneous_poisson_thinning lam homo verbose g
  = Ok (Some (empty_mat (ncols homo)), g).
Proof. intros Hn. unfold inhomogeneous_poisson_thinning. by rewrite Hn. Qed.

(** Every pass of the loop of [generate] returns and is rejected. *)
Lemma invalid_bound_attempt src p :
  sle s0 (poisson_mean lam T S) -> (0 < min_n_points)%Z ->
  exists points p',
    attempt_at lam T S verbose src p = Ok (points, p')
    /\ rejected min_n_points points = true.
Proof.
  intros Hmean Hmin. unfold attempt_at, stages, window, need. cbn [seq map].
  set (N := s_counts src p.1).
  destruct (sampling_total lam T S N [] (map (s_unifs src) (seq p.2 (N * (length S + 2)))))
    as (homo & g' & Hs); [done | rewrite length_map, length_seq; lia |].
  unfold mbind at 1. rewrite Hs.
  apply sampling_shape in Hs as (Hc & Hwf & _ & Hcs & Hus & _).
  cbn [counts unifs] in Hcs, Hus. injection Hcs as HN _.
  rewrite length_map, length_seq in Hus.
  destruct (nrows homo) as [|n] eqn:Hn.
  - rewrite thinning_empty_pool by done. eexists _, _. split; [done |].
    cbn. apply Z.ltb_lt. lia.
  - destruct g' as [cs' [|u us]]; [cbn in Hus; lia |].
    rewrite thinning_first_violation by (done || lia). by eexists _, _.
Qed.

Lemma invalid_bound_position src k :
  sle s0 (poisson_mean lam T S) -> (0 < min_n_points)%Z ->
  exists p, position lam T S verbose src k = Ok p.
Proof.
  intros Hmean Hmin. induction k as [|k [p IH]]; [by eexists |].
  destruct (invalid_bound_attempt src p Hmean Hmin) as (points & p' & Ha & _).
  exists p'. cbn [position]. rewrite IH. cbn [rbind]. by rewrite Ha.
Qed.

(** C22. An upper bound below the background rate starves the loop of
    [generate], whatever the generator produces: every sequence is given
    up at its first proposal, or is empty, and the loop never leaves.  No
    exception is raised. *)
Theorem invalid_bound_hangs src fuel :
  sle s0 (poisson_mean lam T S) -> (0 < min_n_points)%Z ->
  (0 < batch_size)%Z ->
  starved lam T S min_n_points verbose src
  /\ run_endless lam T S batch_size min_n_points verbose fuel src gen_init
       (0, 0)
     = Raise OutOfFuel.
Proof.
  intros Hmean Hmin Hb.
  assert (Hst : starved lam T S min_n_points verbose src).
  { intros k. destruct (invalid_bound_position src k Hmean Hmin) as [p Hp].
    destruct (invalid_bound_attempt src p Hmean Hmin) as (points & p' & Ha & Hr).
    exists points. split; [|done]. unfold outcome. rewrite Hp. cbn [rbind].
    by rewrite Ha. }
  split; [done |].
  by apply (starved_out_of_fuel lam T S batch_size min_n_points verbose src
              Hst fuel 0).
Qed.

End InvalidBound.

(** The same for a result of any shape, over the reals. *)
Lemma value_lower {K : Type} `{!Kernel R K} (lam : HawkesLam.t R K) t0 his_t s
    his_s v :
  nu (HawkesLam.kernel lam) t0 s his_t his_s = Ok v -> nonneg v ->
  exists x, value lam t0 his_t s his_s = Ok x /\ sle (HawkesLam.mu lam) x.
Proof.
  intros Hnu Hv%np_sum_nonneg. cbn [value hawkes_intensity].
  unfold HawkesLam.value. destruct (0 <? length his_t)%nat; [|by eexists].
  rewrite Hnu. cbn [rbind]. eexists. split; [done |]. unfold sle. cbn. lra.
Qed.

Section HawkesMixture.
Context {A K : Type} `{Scalar A} `{!Kernel A K}.
Implicit Types (lam : HawkesLam.t A (Mixture.t A K)) (his_t s : list A)
  (his_s : mat A) (vs : list (list A)).

(** The intensity over a mixture, given a non-empty history, is the
    background rate plus the weighted total of what the components
    return. *)
Theorem hawkes_mixture_value lam t0 his_t s his_s vs n :
  his_t <> [] -> (0 < Mixture.n_comp (HawkesLam.kernel lam))%nat ->
  Forall (contributes (HawkesLam.kernel lam) t0 s his_t his_s vs n)
         (seq 0 (Mixture.n_comp (HawkesLam.kernel lam))) ->
  exists v,
    HawkesLam.value lam t0 his_t s his_s = Ok v
    /\ toR v = (toR (HawkesLam.mu lam)
                + weighted_total (Mixture.w (HawkesLam.kernel lam)) vs
                    (seq 0 (Mixture.n_comp (HawkesLam.kernel lam))))%R.
Proof.
  intros Hne Hpos Hks.
  pose proof (mixture_nu_ref _ t0 s his_t his_s vs n Hpos Hks) as Hnu.
  change (Mixture.nu (HawkesLam.kernel lam)) with (nu (HawkesLam.kernel lam)) in Hnu.
  rewrite (value_nonempty_history lam t0 his_t s his_s _ Hne Hnu).
  eexists. split; [done |]. rewrite toR_add. cbn [np_sum]. f_equal.
  assert (Hl : Forall (fun k => length (nth k vs []) = n)
                      (seq 0 (Mixture.n_comp (HawkesLam.kernel lam)))).
  { eapply Forall_impl; [exact Hks |]. by intros k (_ & g & _ & _ & Hn). }
  rewrite (mix_ref_total _ _ n) by (done || apply length_replicate).
  rewrite ssum_replicate_zero. lra.
Qed.

(** Over a mixture without component the intensity equals the
    background rate, whatever the history. *)
Theorem hawkes_no_component lam t0 his_t s his_s :
  Mixture.n_comp (HawkesLam.kernel lam) = 0%nat ->
  exists v, HawkesLam.value lam t0 his_t s his_s = Ok v
            /\ seqv v (HawkesLam.mu lam).
Proof.
  intros Hn. unfold HawkesLam.value. destruct (0 <? length his_t).
  - cbn [nu mixture_kernel]. rewrite mixture_nu_empty by done. cbn [rbind np_sum].
    eexists. split; [done |]. unfold seqv. rewrite toR_add, toR_0. lra.
  - by eexists.
Qed.

End HawkesMixture.

(** ** Over the kernels of the interface, inside the sampler *)

Section HawkesExcitation.
Context {K : Type} `{!Kernel R K} `{!Excitation K}.
Implicit Types (lam : HawkesLam.t R K) (p s his_t : list R)
  (kept homo his_s : mat R) (g : rng R).

Local Open Scope R_scope.

(** The history the sampler passes for retained points of a time and two
    space coordinates is a history in a plane. *)
Lemma retained_plane kept :
  mat_wf kept -> ncols kept = 3%nat -> plane_history (times kept) (columns_from 1 kept).
Proof.
  intros Hwf Hc. split; [by apply columns_from_wf |].
  split; [cbn; lia |]. unfold times. by rewrite length_map, nrows_columns_from.
Qed.

(** Such proposals always evaluate. *)
Lemma excitation_evaluable lam : complete (HawkesLam.kernel lam) -> evaluable lam 3.
Proof.
  intros Hk kept p Hwf Hc Hp. unfold eval_at. cbn [value hawkes_intensity].
  unfold HawkesLam.value. destruct (0 <? length (times kept))%nat; [|by eexists].
  match goal with |- context [nu ?k ?t ?s ?ht ?hs] =>
    destruct (nu_returns k t s ht hs) as (v & -> & _) end;
    [done | by apply retained_plane | rewrite length_drop; lia | by eexists].
Qed.

(** C27. With a complete kernel of any of the five classes and
    [verbose = False], thinning a well-formed pool of proposals of a time
    and two space coordinates returns, a sequence or a bound violation,
    when the tape holds one variate per proposal: no shape error can
    occur.  (Under [verbose] the progress message can raise, see
    [thinning_verbose_crash].) *)
Theorem thinning_plane_returns lam homo g :
  complete (HawkesLam.kernel lam) ->
  mat_wf homo -> ncols homo = 3%nat -> (nrows homo <= length (unifs g))%nat ->
  exists out g', inhomogeneous_poisson_thinning lam homo false g = Ok (out, g').
Proof.
  intros Hk Hwf Hc Hg. unfold inhomogeneous_poisson_thinning.
  apply thin_loop_total; auto with stppg; try lia.
  - by left.
  - rewrite Hc. by apply excitation_evaluable.
Qed.

(** The intensity through the interface of the sampler: the background rate
    bounds it from below at every point later than the whole history. *)
Lemma excitation_value_lower lam t0 his_t s his_s :
  complete (HawkesLam.kernel lam) -> excitatory (HawkesLam.kernel lam) ->
  plane_history his_t his_s -> length s = 2%nat ->
  Forall (fun h => h < t0) his_t ->
  exists v, value lam t0 his_t s his_s = Ok v /\ sle (HawkesLam.mu lam) v.
Proof.
  intros Hc Hk Hp Hs Hpast.
  destruct (nu_returns (HawkesLam.kernel lam) t0 s his_t his_s Hc Hp Hs)
    as (v & Hv & _).
  apply (value_lower lam t0 his_t s his_s v Hv).
  by eapply nu_nonneg.
Qed.

(** With a complete kernel and excitatory parameters the Hawkes intensity
    at a point later than the whole history is at least the background
    rate. *)
Theorem hawkes_value_ge_mu lam t0 his_t s his_s :
  complete (HawkesLam.kernel lam) -> excitatory (HawkesLam.kernel lam) ->
  plane_history his_t his_s -> length s = 2%nat ->
  Forall (fun h => h < t0) his_t ->
  exists v, HawkesLam.value lam t0 his_t s his_s = Ok v /\ HawkesLam.mu lam <= v.
Proof. exact (excitation_value_lower lam t0 his_t s his_s). Qed.

End HawkesExcitation.

(** ** Over the elementwise kernels, on a line *)

Section HawkesElementwise.
Context {K : Type} `{!Kernel R K} `{!Elementwise K}.
Implicit Types (lam : HawkesLam.t R K) (p s his_t : list R)
  (kept homo his_s : mat R) (g : rng R).

Local Open Scope R_scope.

(** On a line the kernel has no second coordinate to read: evaluating
    against a non-empty history raises [IndexError]. *)
Lemma eval_line_raises lam kept p :
  mat_wf kept -> ncols kept = 2%nat -> (0 < nrows kept)%nat -> length p = 2%nat ->
  eval_at lam kept p = Raise IndexError.
Proof.
  intros Hwf Hc Hn Hp. unfold eval_at. cbn [value hawkes_intensity].
  apply value_kernel_raises.
  - unfold times, nrows in *. destruct (mrows kept); [cbn in Hn; lia | done].
  - rewrite nu_elementwise. unfold elementwise.
    rewrite spatial_deltas_line;
      [done | by apply columns_from_wf | cbn; lia | rewrite length_drop; lia].
Qed.

(** C28. With one space dimension thinning raises [IndexError] at the
    second proposal once the first has been retained: the kernels read two
    space coordinates. *)
Theorem thinning_line_raises lam homo verbose p0 p1 rest u0 us cs :
  mat_wf homo -> ncols homo = 2%nat -> mrows homo = p0 :: p1 :: rest ->
  HawkesLam.mu lam <= HawkesLam.maximum lam ->
  unit_draw u0 * HawkesLam.maximum lam <= HawkesLam.mu lam ->
  inhomogeneous_poisson_thinning lam homo verbose (Rng cs (u0 :: us))
  = Raise IndexError.
Proof.
  intros Hwf Hc Hrows Hb Hu.
  assert (Hw : (0 < ncols homo)%nat) by lia.
  assert (Hv0 : eval_at lam (empty_mat (ncols homo)) p0 = Ok (HawkesLam.mu lam))
    by reflexivity.
  destruct (thinning_first_step lam verbose homo p0 (p1 :: rest)
              (HawkesLam.mu lam) u0 us cs Hwf Hw Hrows Hv0 Hb) as [HR1 ->].
  cbn [length seq].
  assert (Hk : sleb (smul (unit_draw u0) (upper_bound lam)) (HawkesLam.mu lam)
               = true) by (apply sleb_true; exact Hu).
  rewrite Hk in *.
  rewrite (thin_loop_step lam verbose homo Hwf Hw 1 _ _ p1)
    by (done || by rewrite Hrows).
  unfold thin_step_model.
  rewrite eval_line_raises;
    [done | apply HR1 | by destruct HR1 as [_ ->]
    | rewrite nrows_append_row; lia |].
  rewrite <- Hc. apply (proj1 (Forall_lookup _ _) Hwf 1%nat p1). by rewrite Hrows.
Qed.

End HawkesElementwise.

(** ** Concrete instances *)

Local Open Scope R_scope.

(** The Hawkes intensity of background rate [1] and bound [2] over the
    default standard kernel, and over the mixture [half_mixture]. *)
Definition lam_std : HawkesLam.t R StdDiffusionKernel.t :=
  HawkesLam.Build 1 StdDiffusionKernel.default 2.

Definition lam_half : HawkesLam.t R (Mixture.t R GaussianDiffusionKernel.t) :=
  HawkesLam.Build 1 half_mixture 2.

(** Two proposals in a plane, and two on a line. *)
Definition plane2 : mat R := Mat 3 [[0; 0; 0]; [1; 1; 1]].
Definition line2 : mat R := Mat 2 [[0; 0]; [1; 1]].

Lemma plane2_wf : mat_wf plane2.
Proof. by repeat constructor. Defined.

Lemma line2_wf : mat_wf line2.
Proof. by repeat constructor. Defined.

Lemma hawkes_mixture_value_witness :
  exists v,
    HawkesLam.value lam_half 1 origin_t [1; 1] origin_s = Ok v
    /\ toR v = toR (HawkesLam.mu lam_half)
               + weighted_total (Mixture.w (HawkesLam.kernel lam_half)) half_values
                   (seq 0 (Mixture.n_comp (HawkesLam.kernel lam_half))).
Proof.
  apply (hawkes_mixture_value lam_half 1 origin_t [1; 1] origin_s half_values 1%nat);
    [done | cbn; lia | exact half_contributes].
Defined.

Lemma hawkes_no_component_witness :
  exists v,
    HawkesLam.value (lamQ 1 2) 1%Q [0%Q] [1%Q; 1%Q] (Mat 2 [[0%Q; 0%Q]]) = Ok v
    /\ seqv v (HawkesLam.mu (lamQ 1 2)).
Proof. apply hawkes_no_component. reflexivity. Defined.

Lemma hawkes_value_ge_mu_witness :
  exists v,
    HawkesLam.value lam_half 1 origin_t [1; 1] origin_s = Ok v
    /\ HawkesLam.mu lam_half <= v.
Proof.
  apply hawkes_value_ge_mu;
    [exact half_complete | exact half_excitatory | exact origin_plane
    | reflexivity | exact origin_past].
Defined.

Lemma thinning_plane_returns_witness :
  exists out g',
    inhomogeneous_poisson_thinning lam_half plane2 false (Rng [] [0; 0])
    = Ok (out, g').
Proof.
  apply thinning_plane_returns;
    [exact half_complete | exact plane2_wf | reflexivity | cbn; lia].
Defined.

(** A background rate of [3] under a declared bound of [2], on the source
    that always draws one proposal. *)
Lemma invalid_bound_hangs_witness :
  starved (lamQ 3 2) unit_T unit_S 1 false steady
  /\ run_endless (lamQ 3 2) unit_T unit_S 1 1 false 5 steady gen_init (0, 0)%nat
     = Raise OutOfFuel.
Proof.
  apply (invalid_bound_hangs (lamQ 3 2) unit_T unit_S 1 1 false);
    try lia; by (apply sltb_true || apply sleb_true).
Defined.

Lemma thinning_line_raises_witness :
  inhomogeneous_poisson_thinning lam_std line2 false (Rng [] [0; 0])
  = Raise IndexError.
Proof.
  apply (thinning_line_raises lam_std line2 false [0; 0] [1; 1] [] 0 [0] []);
    [exact line2_wf | reflexivity | reflexivity | cbn; lra
    | unfold unit_draw; cbn; lra].
Defined.
