(* ===== verification/PlotLaws.v ===== *)
(** * PlotLaws: what the plotting functions compute

    Theorems on the definitions of [Plot]:

    - the history filter keeps exactly the events with [0 < t < plot_ts], in
      order, and applied to a zero-padded row of a batch it gives back the
      recorded sequence ([history_spec], [history_padded],
      [generate_history_roundtrip]);
    - the grid has [ngrid ^ d] points of the box ([space_grid_spec]);
    - on an intensity that is flat over the grid the whole function returns,
      and the Riemann sum it computes is the exact integral times
      [(ngrid / (ngrid - 1)) ^ 2] ([plot_flat_intensity]);
    - the function returns only for two space dimensions
      ([plot_returns_two_dims]), each pixel of its images is the value at
      the point of the grid with the samples of its column and its row
      ([plot_pixels]), and the density it draws lies between zero and the
      intensity ([density_bounds]); with one sample per side the density
      is NaN ([plot_one_sample]);
    - a lower bound of the intensity after the last event carries over to
      the figure ([plot_lower_bound]); for a Hawkes intensity over a
      kernel of the interface [Excitation] the intensity image is nowhere below
      the background rate and the density image lies between zero and the
      intensity image ([plot_hawkes_bounds]), for every row of a batch of
      [generate] ([generate_plot_bounds]);
    - [plot_3d_pointprocess_avg_lam] never returns in the module as
      written ([avg_lam_raises]). *)

From Stdlib Require Import ZArith Lia Reals Lra QArith List.
From stdpp Require Import base tactics list sorting.
From S2P Require Import Prelude Scalar Float NdArray ArgSort Grid Region Rng Kernel Intensity.
From S2P Require Import Sampler Plot Fixtures Proposal Generate KernelLaws Excitation.
From S2P Require Import HawkesLaws.

Local Open Scope res_scope.
Local Close Scope Q_scope.

(** ** The history filter *)

Section History.
Context {A : Type} `{Scalar A}.
Implicit Types (points pts : mat A) (plot_ts : A) (r : list A).

(** The test of the mask on one row: its time lies strictly between zero
    and [plot_ts]. *)
Definition in_past plot_ts r : bool :=
  sltb (nth 0 r s0) plot_ts && sltb s0 (nth 0 r s0).

Lemma in_past_spec plot_ts r :
  in_past plot_ts r = true <-> slt s0 (nth 0 r s0) /\ slt (nth 0 r s0) plot_ts.
Proof. unfold in_past. rewrite andb_true_iff, !sltb_true. tauto. Qed.

(** The mask selects the rows that pass the test. *)
Lemma history_filters points plot_ts :
  mat_wf points -> 0 < ncols points ->
  history points plot_ts
  = Ok (Mat (ncols points) (List.filter (in_past plot_ts) (mrows points))).
Proof.
  intros Hwf Hw. unfold history. rewrite column_ok by done. cbn [rbind].
  rewrite <- boolean_index_ok. f_equal.
  induction (mrows points) as [|r rows IH]; [done |]. cbn. by rewrite IH.
Qed.

Lemma history_no_column points plot_ts :
  ncols points = 0 -> history points plot_ts = Raise IndexError.
Proof.
  intros Hw. unfold history. rewrite column_out_of_range by lia. done.
Qed.

Lemma filter_wf (f : list A -> bool) points :
  mat_wf points -> mat_wf (Mat (ncols points) (List.filter f (mrows points))).
Proof.
  unfold mat_wf. cbn. rewrite !Forall_forall. intros Hwf r Hr.
  apply list_elem_of_In, filter_In in Hr as [Hr _]. by apply Hwf, list_elem_of_In.
Qed.

(** [his_t] and [his_s] of a well-formed array of events. *)
Lemma past_ok points plot_ts :
  mat_wf points -> 0 < ncols points ->
  let his_p := Mat (ncols points) (List.filter (in_past plot_ts) (mrows points)) in
  past points plot_ts
  = Ok (map (fun r => nth 0 r s0) (mrows his_p), columns_from 1 his_p).
Proof.
  intros Hwf Hw his_p. unfold past. rewrite history_filters by done.
  cbn [rbind]. fold his_p. by rewrite column_ok by (by apply filter_wf || done).
Qed.

(** Filtering keeps a list whose elements all pass and drops the others. *)
Lemma filter_app_all {X : Type} (f : X -> bool) (l k : list X) :
  Forall (fun x => f x = true) l -> Forall (fun x => f x = false) k ->
  List.filter f (l ++ k) = l.
Proof.
  intros Hl Hk. induction Hl as [|x l Hx _ IH]; cbn.
  - induction Hk as [|x k Hx _ IH]; cbn; [done |]. by rewrite Hx.
  - by rewrite Hx, IH.
Qed.

Lemma filter_none {X : Type} (f : X -> bool) (k : list X) :
  Forall (fun x => f x = false) k -> List.filter f k = [].
Proof. apply (filter_app_all f [] k). constructor. Qed.

Lemma padding_not_in_past plot_ts w : in_past plot_ts (replicate w s0) = false.
Proof.
  unfold in_past. replace (nth 0 (replicate w s0) s0) with (s0 : A) by (by destruct w).
  rewrite (proj2 (sltb_false s0 s0)) by reflexivity. apply andb_false_r.
Qed.

(** The filter undoes the padding of [generate]: a sequence of events with
    times in [(0, plot_ts)], padded with zero rows, comes back. *)
Lemma pad_wf n pts : mat_wf pts -> ncols pts = 3 -> mat_wf (pad n pts).
Proof.
  intros Hwf Hw. unfold mat_wf, pad. cbn. apply Forall_app.
  split; [by rewrite <- Hw | by apply Forall_replicate].
Qed.

Lemma history_padded n pts plot_ts :
  mat_wf pts -> ncols pts = 3 ->
  Forall (fun r => in_past plot_ts r = true) (mrows pts) ->
  history (pad n pts) plot_ts = Ok pts.
Proof.
  intros Hwf Hw Hin. rewrite history_filters by (by apply pad_wf || (cbn; lia)).
  cbn [pad ncols mrows].
  rewrite filter_app_all; [by destruct pts; cbn in *; subst | done |].
  apply Forall_replicate, padding_not_in_past.
Qed.

(** The padding of a sequence is no part of its past. *)
Lemma past_padded n pts plot_ts :
  mat_wf pts -> ncols pts = 3 -> past (pad n pts) plot_ts = past pts plot_ts.
Proof.
  intros Hwf Hw. rewrite (past_ok (pad n pts)) by (by apply pad_wf || (cbn; lia)).
  rewrite (past_ok pts) by (done || lia). cbn [pad ncols mrows].
  rewrite List.filter_app, (filter_none _ (replicate _ _)), app_nil_r, Hw;
    [done | apply Forall_replicate, padding_not_in_past].
Qed.

(** *** The last event of an ascending history *)

Lemma filter_sublist {X : Type} (f : X -> bool) (l : list X) :
  sublist (List.filter f l) l.
Proof.
  induction l as [|x l IH]; cbn; [constructor |].
  destruct (f x); by constructor.
Qed.

(** In an ascending history every time is at most [last_t]. *)
Lemma last_time_max (his_t : list A) :
  Sorted sle his_t -> Forall (fun h => sle h (last_time his_t)) his_t.
Proof.
  intros HS%Sorted_StronglySorted; [|apply _].
  induction HS as [|h l _ IH Hh]; [constructor |].
  destruct l as [|k l]; [by repeat constructor |].
  change (last_time (h :: k :: l)) with (last_time (k :: l)).
  constructor; [|exact IH]. etrans; [exact (Forall_inv Hh) | exact (Forall_inv IH)].
Qed.

(** [last_t] lies below every positive bound of the history. *)
Lemma last_time_below (his_t : list A) (b : A) :
  slt s0 b -> Forall (fun h => slt h b) his_t -> slt (last_time his_t) b.
Proof.
  intros Hb Hall. unfold last_time. destruct (last his_t) as [h|] eqn:E; [|done].
  apply last_Some_elem_of in E. rewrite Forall_forall in Hall. by apply Hall.
Qed.

(** The history of ascending events: well formed, ascending, and strictly
    between zero and [plot_ts]. *)
Lemma past_ascending points plot_ts :
  mat_wf points -> 0 < ncols points -> Sorted sle (times points) ->
  exists his_p,
    past points plot_ts = Ok (times his_p, columns_from 1 his_p)
    /\ mat_wf his_p /\ ncols his_p = ncols points
    /\ Sorted sle (times his_p)
    /\ Forall (fun h => slt h plot_ts) (times his_p).
Proof.
  intros Hwf Hw HS. eexists. split; [by apply past_ok |].
  split; [by apply filter_wf |]. split; [done |]. unfold times. cbn [mrows]. split.
  - eapply sublist_Sorted; [apply _ | | exact HS].
    apply sublist_map, filter_sublist.
  - apply Forall_fmap, Forall_forall.
    intros r [_ Hr]%list_elem_of_In%filter_In. by apply in_past_spec in Hr as [_ ?].
Qed.

End History.

(** What the history filter returns on a well-formed array of events:
    a well-formed array of the same width whose rows are, in order, the rows
    of [points] with a time strictly between zero and [plot_ts]. *)
Theorem history_spec {A : Type} `{Scalar A} (points : mat A) (plot_ts : A) :
  mat_wf points -> 0 < ncols points ->
  exists his_p,
    history points plot_ts = Ok his_p
    /\ mat_wf his_p /\ ncols his_p = ncols points
    /\ mrows his_p `sublist_of` mrows points
    /\ forall r, r ∈ mrows his_p <->
         r ∈ mrows points /\ slt s0 (nth 0 r s0) /\ slt (nth 0 r s0) plot_ts.
Proof.
  intros Hwf Hw. eexists. split; [by apply history_filters |].
  split; [by apply filter_wf |]. split; [done |]. cbn. split.
  - rewrite <- select_rows_map. apply select_rows_sublist.
  - intros r. by rewrite !list_elem_of_In, filter_In, in_past_spec.
Qed.

(** ** From a batch back to its sequences *)

Section Recover.
Context {A : Type} `{ArgSort A} {L : Type} `{!Intensity A L}.
Context (lam : L) (T : interval A) (S : list (interval A)).
Context (batch_size min_n_points : Z) (verbose : bool).

(** Events of a box that starts after zero and ends before [plot_ts] pass
    the test of the mask. *)
Lemma boxed_in_past plot_ts (pts : mat A) :
  slt s0 (lo T) -> slt (hi T) plot_ts -> boxed T S pts ->
  Forall (fun r => in_past plot_ts r = true) (mrows pts).
Proof.
  unfold slt, boxed. intros Hlo0 Hhi1 Hb. eapply Forall_impl; [exact Hb |].
  intros r Hr.
  apply in_past_spec. apply Forall2_cons_inv_r in Hr as (t & r' & [Hlo Hhi] & _ & ->).
  cbn. unfold slt, sle in *. lra.
Qed.

(** C20. Round trip from the sampler to the plotting functions: when the time
    interval starts after zero and ends before [plot_ts], the history filter
    applied to each padded row of a batch of [generate] gives back the
    sequence that was recorded, whose length is the reported size. *)
Theorem generate_history_roundtrip fuel g data szs g' plot_ts :
  length S = 2 -> Forall proper_interval (T :: S) -> tape_wf g ->
  slt s0 (lo T) -> slt (hi T) plot_ts ->
  generate fuel lam T S batch_size min_n_points verbose g = Ok (data, szs, g') ->
  exists seqs,
    szs = map nrows seqs
    /\ Forall2 (fun d pts => history d plot_ts = Ok pts) data seqs.
Proof.
  intros HS Hbox Hwf Hlo0 Hhi1 Hrun.
  destruct (generate_batch _ _ _ _ _ _ _ _ _ _ _ HS Hbox Hwf Hrun)
    as (_ & seqs & Hg & Hb & -> & ->).
  exists seqs. split; [done |]. apply Forall2_fmap_l, Forall_Forall2_diag.
  rewrite Forall_forall in Hg, Hb. apply Forall_forall. intros pts Hin.
  destruct (Hg pts Hin) as (Hwf' & Hc & _).
  apply history_padded; [done | by rewrite Hc, HS |].
  by apply boxed_in_past, Hb.
Qed.

End Recover.

(** ** The grid *)

Section GridOfSpace.
Context {A : Type} `{Scalar A}.
Implicit Types (S : list (interval A)) (ngrid : Z) (ss : list (list A)).

(** A returning [space_grid] is the product of one [linspace] per side. *)
Lemma space_grid_inv S ngrid ss :
  space_grid S ngrid = Ok ss ->
  exists axes,
    ss = product axes
    /\ Forall2 (fun S_k axis => linspace (lo S_k) (hi S_k) ngrid = Ok axis) S axes.
Proof.
  unfold space_grid. intros Hss. res_inv. eexists. split; [done |].
  by apply rtraverse_ok_Forall2.
Qed.

Lemma space_grid_total S ngrid :
  (0 <= ngrid)%Z -> exists ss, space_grid S ngrid = Ok ss.
Proof.
  intros Hn. unfold space_grid.
  destruct (rtraverse_total (fun S_k => linspace (lo S_k) (hi S_k) ngrid) S)
    as [axes ->]; [|by eexists].
  apply Forall_forall. intros S_k _.
  by destruct (linspace_total (lo S_k) (hi S_k) _ Hn) as [l ->].
Qed.

Lemma space_grid_negative S ngrid :
  (ngrid < 0)%Z -> S <> [] -> space_grid S ngrid = Raise ValueError.
Proof.
  intros Hn HS. destruct S as [|S_k S]; [done |]. unfold space_grid. cbn.
  by rewrite linspace_negative.
Qed.

(** The grid has [ngrid ^ d] points of [d] coordinates. *)
Lemma space_grid_shape S ngrid ss :
  space_grid S ngrid = Ok ss ->
  length ss = Z.to_nat ngrid ^ length S
  /\ Forall (fun s => length s = length S) ss.
Proof.
  intros (axes & -> & Hax)%space_grid_inv. split.
  - rewrite product_length. induction Hax as [|S_k axis S axes Hl _ IH]; [done |].
    cbn. by rewrite IH, (linspace_length _ _ _ _ Hl).
  - rewrite (Forall2_length _ _ _ Hax). apply product_width.
Qed.

(** Over proper intervals the points of the grid lie in the box. *)
Lemma space_grid_in_box S ngrid ss :
  Forall proper_interval S -> space_grid S ngrid = Ok ss ->
  Forall (in_box S) ss.
Proof.
  intros Hbox (axes & -> & Hax)%space_grid_inv. apply Forall_forall.
  intros s Hs%elem_of_product. unfold in_box.
  revert s Hs Hbox. induction Hax as [|S_k axis S axes Hl _ IH]; intros s Hs Hbox.
  - apply Forall2_nil_inv_r in Hs as ->. constructor.
  - apply Forall2_cons_inv_r in Hs as (x & s' & Hx & Hs' & ->).
    apply Forall_cons in Hbox as [Hk Hbox]. constructor; [|by apply IH].
    pose proof (linspace_in_range _ _ _ _ Hk Hl) as Hall.
    rewrite Forall_forall in Hall. by apply Hall.
Qed.

End GridOfSpace.

(** The grid of space points: for a non-negative [ngrid] and a box with
    proper sides, [space_grid] returns [ngrid ^ d] points, each of [d]
    coordinates inside the box. *)
Theorem space_grid_spec {A : Type} `{Scalar A} (S : list (interval A)) (ngrid : Z) :
  (0 <= ngrid)%Z -> Forall proper_interval S ->
  exists ss,
    space_grid S ngrid = Ok ss
    /\ length ss = Z.to_nat ngrid ^ length S
    /\ Forall (in_box S) ss.
Proof.
  intros Hn Hbox. destruct (space_grid_total S _ Hn) as [ss Hss].
  exists ss. split; [done |].
  split; [apply (space_grid_shape _ _ _ Hss) | by eapply space_grid_in_box].
Qed.

(** ** Runs of [plot_3d_pointprocess_lam_f] *)

Section PlotRun.
Context {A : Type} `{Scalar A} {L : Type} `{!Intensity A L}.
Implicit Types (points his_s : mat A) (lam : L) (plot_ts c : A)
  (T x y : interval A) (S : list (interval A)) (ngrid : Z) (his_t : list A).

Lemma evaluate_length lam t his_t his_s ss evals :
  evaluate lam t his_t his_s ss = Ok evals -> length evals = length ss.
Proof. apply rtraverse_ok_length. Qed.

(** Only the square has as many points as an [n] by [n] image. *)
Lemma pow_square (n d : nat) : 2 <= n -> n ^ d = n * n -> d = 2.
Proof.
  intros Hn Hd. apply (Nat.pow_inj_r n); [lia |]. rewrite Hd. cbn. lia.
Qed.

Lemma tick_labels_inv S ticks : tick_labels S = Ok ticks -> 2 <= length S.
Proof. destruct S as [|? [|? ?]]; cbn; [done.. | lia]. Qed.

(** The Riemann sum for a finite cell volume. *)
Definition riemann (lamvals : list (list A)) (v : A) : A :=
  smul (ssum (concat lamvals)) v.

Lemma integral_finite (lamvals : list (list A)) (v : A) :
  integral lamvals (Finite v) = Finite (riemann lamvals v).
Proof. reflexivity. Qed.

Lemma density_lookup (evals : list A) (I : float A) (k : nat) :
  density evals I !! k = (fun e => fscale e (fexp_neg I)) <$> evals !! k.
Proof. apply list_lookup_fmap. Qed.

Lemma density_flat (n : nat) (c I : A) :
  density (replicate n c) (Finite I)
  = replicate n (Finite (toR c * exp (- toR I))%R).
Proof. unfold density. by rewrite fmap_replicate. Qed.

(** What a returning run went through. *)
Lemma plot_inv points lam plot_ts T S ngrid fig :
  plot_3d_pointprocess_lam_f points lam plot_ts T S ngrid = Ok fig ->
  exists ss his_t his_s evals,
    space_grid S ngrid = Ok ss
    /\ past points plot_ts = Ok (his_t, his_s)
    /\ evaluate lam plot_ts his_t his_s ss = Ok evals
    /\ image ngrid evals = Ok (lam_image fig)
    /\ tick_labels S = Ok (xticks fig, yticks fig)
    /\ exists ts lamvals,
         linspace (last_time his_t) plot_ts ngrid = Ok ts
         /\ rtraverse (fun t => evaluate lam t his_t his_s ss) (drop 1 ts)
            = Ok lamvals
         /\ image ngrid
              (density evals
                 (integral lamvals (unit_vol plot_ts (last_time his_t) S ngrid)))
            = Ok (f_image fig).
Proof.
  unfold plot_3d_pointprocess_lam_f. intros Hrun. res_inv.
  repeat match goal with x : (_ * _)%type |- _ => destruct x end.
  cbn in *. eauto 15.
Qed.

(** Entry [k] of the values is the intensity at point [k] of the grid. *)
Lemma evaluate_lookup lam t his_t his_s ss evals (k : nat) (s : list A) :
  evaluate lam t his_t his_s ss = Ok evals -> ss !! k = Some s ->
  exists v, evals !! k = Some v /\ value lam t his_t s his_s = Ok v.
Proof.
  intros Hev%rtraverse_ok_Forall2 Hs.
  destruct (Forall2_lookup_l _ _ _ _ _ Hev Hs) as (v & Hv & Hval). eauto.
Qed.

(** ** A flat intensity *)

Lemma evaluate_flat lam t his_t his_s c ss :
  (forall s, value lam t his_t s his_s = Ok c) ->
  evaluate lam t his_t his_s ss = Ok (replicate (length ss) c).
Proof.
  intros Hc. unfold evaluate. rewrite (rtraverse_map _ (fun _ => c)).
  - f_equal. apply map_constant. by apply Forall_forall.
  - by apply Forall_forall.
Qed.

Lemma concat_replicate_flat {X : Type} (a k : nat) (x : X) :
  concat (replicate a (replicate k x)) = replicate (a * k) x.
Proof.
  induction a as [|a IH]; [done |]. cbn. by rewrite IH, replicate_add.
Qed.

Lemma integral_flat (a k : nat) c v :
  toR (riemann (replicate a (replicate k c)) v)
  = (INR a * INR k * toR c * toR v)%R.
Proof.
  unfold riemann.
  by rewrite toR_mul, concat_replicate_flat, toR_ssum_replicate, mult_INR.
Qed.

Lemma np_prod_widths (region : list (interval A)) :
  np_prod (map width region) = lebesgue_measure region.
Proof.
  unfold np_prod, lebesgue_measure. generalize (@s1 A _).
  induction region as [|iv region IH]; intros a; cbn; [done |]. apply IH.
Qed.

(** With two samples or more the cell volume is the volume of the box
    divided by [(ngrid - 1) ^ 3]. *)
Lemma unit_vol_ok plot_ts last_t S ngrid :
  (2 <= ngrid)%Z ->
  exists v,
    unit_vol plot_ts last_t S ngrid = Finite v
    /\ toR v = (toR (lebesgue_measure ((last_t, plot_ts) :: S))
               / IZR (ngrid - 1) ^ 3)%R.
Proof.
  intros Hn. unfold unit_vol.
  assert (Hc : ((ngrid - 1) ^ 3 <> 0)%Z) by (apply Z.pow_nonzero; lia).
  rewrite (fdiv_finite _ _ Hc). eexists. split; [done |].
  rewrite toR_div, toR_ofZ by (rewrite toR_ofZ; by apply not_0_IZR).
  change (ssub plot_ts last_t :: map width S)
    with (map width ((last_t, plot_ts) :: S)).
  by rewrite np_prod_widths, pow_IZR.
Qed.

(** On an intensity that is flat given the history, the run comes down to
    the two images. *)
Lemma plot_flat_steps points lam plot_ts T S ngrid his_t his_s c :
  (0 <= ngrid)%Z -> past points plot_ts = Ok (his_t, his_s) ->
  (forall t s, value lam t his_t s his_s = Ok c) ->
  let n := Z.to_nat ngrid in
  let evals := replicate (n ^ length S) c in
  plot_3d_pointprocess_lam_f points lam plot_ts T S ngrid
  = (im1 <- image ngrid evals;;
     ticks <- tick_labels S;;
     im2 <- image ngrid
              (density evals
                 (integral (replicate (n - 1) evals)
                    (unit_vol plot_ts (last_time his_t) S ngrid)));;
     Ok (Figure im1 im2 ticks.1 ticks.2)).
Proof.
  intros Hn Hpast Hc n evals. unfold plot_3d_pointprocess_lam_f.
  destruct (space_grid_total S _ Hn) as [ss Hss].
  destruct (linspace_total (last_time his_t) plot_ts _ Hn) as [ts Hts].
  pose proof (space_grid_shape _ _ _ Hss) as [Hlen _].
  rewrite Hss, Hpast. cbn [rbind fst snd].
  rewrite (evaluate_flat _ _ _ _ c), Hts by (intros; apply Hc).
  cbn [rbind]. rewrite (rtraverse_map _ (fun _ => evals)).
  - cbn [rbind]. rewrite (map_constant _ evals) by (by apply Forall_forall).
    rewrite length_drop, (linspace_length _ _ _ _ Hts). subst evals n.
    by rewrite Hlen.
  - apply Forall_forall. intros t _. subst evals n. rewrite <- Hlen.
    by apply evaluate_flat.
Qed.

(** The function reads the events through their past only: the zero rows
    of the padding change nothing. *)
Lemma plot_padded n (pts : mat A) lam plot_ts T S ngrid :
  mat_wf pts -> ncols pts = 3 ->
  plot_3d_pointprocess_lam_f (pad n pts) lam plot_ts T S ngrid
  = plot_3d_pointprocess_lam_f pts lam plot_ts T S ngrid.
Proof.
  intros Hwf Hw. unfold plot_3d_pointprocess_lam_f. by rewrite past_padded.
Qed.

End PlotRun.

Section PlotTheorems.
Context {A : Type} `{Scalar A} {L : Type} `{!Intensity A L}.
Implicit Types (points his_s : mat A) (lam : L) (plot_ts c : A)
  (T x y : interval A) (S : list (interval A)) (ngrid : Z) (his_t : list A).

(** The function returns only for two space dimensions: a returning run
    had at least two sides in [S]; with two samples or more per side there
    are exactly two sides; both images are [ngrid] by [ngrid]. *)
Theorem plot_returns_two_dims points lam plot_ts T S ngrid fig :
  plot_3d_pointprocess_lam_f points lam plot_ts T S ngrid = Ok fig ->
  (0 <= ngrid)%Z /\ 2 <= length S
  /\ ((2 <= ngrid)%Z -> length S = 2)
  /\ nrows (lam_image fig) = Z.to_nat ngrid
  /\ ncols (lam_image fig) = Z.to_nat ngrid
  /\ nrows (f_image fig) = Z.to_nat ngrid
  /\ ncols (f_image fig) = Z.to_nat ngrid.
Proof.
  intros (ss & his_t & his_s & evals & Hss & _ & Hev & Him & Ht
          & ts & lamvals & _ & _ & Hf)%plot_inv.
  apply image_inv in Him as (Hn & Hlen & Hr & Hc).
  apply image_inv in Hf as (_ & _ & Hr' & Hc').
  apply evaluate_length in Hev. apply space_grid_shape in Hss as [Hss _].
  apply tick_labels_inv in Ht. repeat split; try done.
  intros Hn2. apply (pow_square (Z.to_nat ngrid)); [lia | congruence].
Qed.

(** C34. One sample per side: the time grid is the last event alone, no value
    enters the Riemann sum, and the cell volume is a quotient by
    [(1 - 1) ** 3]: the sum is zero times a float that is not a number.
    Whenever the function returns with [ngrid = 1], the density image is
    the single pixel NaN, whatever the intensity and the events. *)
Theorem plot_one_sample points lam plot_ts T S fig :
  plot_3d_pointprocess_lam_f points lam plot_ts T S 1 = Ok fig ->
  f_image fig = flat 1 NaN.
Proof.
  intros (ss & his_t & his_s & evals & _ & _ & _ & _ & _
          & ts & lamvals & Hts & Hlv & Hf)%plot_inv.
  injection Hts as <-. injection Hlv as <-.
  unfold integral, unit_vol, ssum in Hf. cbn [concat fold_left] in Hf.
  rewrite fmul_zero in Hf by apply fdiv_zero.
  pose proof (image_inv _ _ _ Hf) as (_ & Hlen & _).
  unfold density in Hf, Hlen. rewrite length_map in Hlen.
  rewrite (map_constant _ NaN), Hlen, image_flat in Hf by (done || by apply Forall_forall).
  by injection Hf.
Qed.

(** C31. Pixel by pixel: in a figure the function returns, the pixel at row
    [row] and column [col] of the first image is the intensity at time
    [plot_ts], given the past, at the point whose first coordinate is
    sample [col] of [S[0]] and whose second coordinate is sample [row] of
    [S[1]]; the same pixel of the second image is that value times
    [exp (- I)], with one [I] for the whole image. *)
Theorem plot_pixels points lam plot_ts T x y ngrid fig :
  plot_3d_pointprocess_lam_f points lam plot_ts T [x; y] ngrid = Ok fig ->
  exists his_t his_s xs ys lamvals,
    let I := integral lamvals
               (unit_vol plot_ts (last_time his_t) [x; y] ngrid) in
    past points plot_ts = Ok (his_t, his_s)
    /\ linspace (lo x) (hi x) ngrid = Ok xs
    /\ linspace (lo y) (hi y) ngrid = Ok ys
    /\ forall (col row : nat) (xc yr : A),
         xs !! col = Some xc -> ys !! row = Some yr ->
         exists v,
           value lam plot_ts his_t [xc; yr] his_s = Ok v
           /\ pixel (lam_image fig) row col = Some v
           /\ pixel (f_image fig) row col = Some (fscale v (fexp_neg I)).
Proof.
  intros (ss & his_t & his_s & evals & Hss & Hpast & Hev & Him & _
          & ts & lamvals & _ & _ & Hf)%plot_inv.
  apply space_grid_inv in Hss as (axes & -> & Hax).
  apply Forall2_cons_inv_l in Hax as (xs & axes' & Hxs & Hax & ->).
  apply Forall2_cons_inv_l in Hax as (ys & ? & Hys & ->%Forall2_nil_inv_l & ->).
  exists his_t, his_s, xs, ys, lamvals. do 3 (split; [done |]).
  intros col row xc yr Hx Hy.
  pose proof (lookup_lt_Some _ _ _ Hx) as Hc.
  pose proof (lookup_lt_Some _ _ _ Hy) as Hr.
  rewrite (linspace_length _ _ _ _ Hxs) in Hc.
  pose proof (linspace_length _ _ _ _ Hys) as Hn. rewrite Hn in Hr.
  pose proof (product_pair_lookup xs ys col row xc yr Hx Hy) as Hk.
  rewrite Hn in Hk.
  destruct (evaluate_lookup _ _ _ _ _ _ _ _ Hev Hk) as (v & Hv & Hval).
  exists v. split; [done |].
  rewrite (image_pixel _ _ _ _ _ Him), (image_pixel _ _ _ _ _ Hf) by done.
  split; [done |]. by rewrite density_lookup, Hv.
Qed.

(** The run on a flat intensity in two space dimensions, with the Riemann
    sum as the source computes it. *)
Lemma plot_flat_run points lam plot_ts T x y ngrid his_t his_s c :
  (2 <= ngrid)%Z -> past points plot_ts = Ok (his_t, his_s) ->
  (forall t s, value lam t his_t s his_s = Ok c) ->
  let n := Z.to_nat ngrid in
  exists v,
    unit_vol plot_ts (last_time his_t) [x; y] ngrid = Finite v
    /\ plot_3d_pointprocess_lam_f points lam plot_ts T [x; y] ngrid
       = Ok (Figure (flat n c)
               (flat n (Finite (toR c * exp (- toR (riemann
                          (replicate (n - 1) (replicate (n * n) c)) v)))%R))
               x y).
Proof.
  intros Hn Hpast Hc n. assert (Hn0 : (0 <= ngrid)%Z) by lia.
  rewrite (plot_flat_steps _ _ _ T _ _ _ _ _ Hn0 Hpast Hc).
  destruct (unit_vol_ok plot_ts (last_time his_t) [x; y] _ Hn) as (v & Hv & _).
  exists v. split; [done |]. rewrite Hv. cbn [length].
  replace (Z.to_nat ngrid ^ 2) with (n * n) by (cbn; lia).
  rewrite image_flat by lia. cbn [tick_labels lookup list_lookup rbind].
  by rewrite integral_finite, density_flat, image_flat by lia.
Qed.

(** The Riemann sum of a flat intensity [c]: the exact integral
    [c * volume] times [(ngrid / (ngrid - 1)) ^ 2]. *)
Lemma integral_flat_value plot_ts last_t S ngrid c v :
  (2 <= ngrid)%Z -> unit_vol plot_ts last_t S ngrid = Finite v ->
  let n := Z.to_nat ngrid in
  toR (riemann (replicate (n - 1) (replicate (n * n) c)) v)
  = (toR c * toR (lebesgue_measure ((last_t, plot_ts) :: S))
     * (IZR ngrid / IZR (ngrid - 1)) ^ 2)%R.
Proof.
  intros Hn Hv n. destruct (unit_vol_ok plot_ts last_t S _ Hn) as (v' & Hv' & Hr).
  rewrite Hv in Hv'. inv Hv'. subst n.
  rewrite integral_flat, Hr, mult_INR, !INR_IZR_INZ, Nat2Z.inj_sub by lia.
  rewrite Z2Nat.id by lia. change (Z.of_nat 1) with 1%Z.
  assert (IZR (ngrid - 1) <> 0%R) by (apply not_0_IZR; lia). by field.
Qed.

(** C36. A flat intensity in two space dimensions: when the intensity given
    the history is the constant [c] over the grid and [ngrid >= 2], the run
    returns, the first image is [c] everywhere and the second is
    [c * exp(-I)] everywhere, where the Riemann sum [I] is the exact
    integral [c * volume] of the box between the last event and [plot_ts]
    multiplied by [(ngrid / (ngrid - 1)) ^ 2]: the sum runs over [ngrid]
    nodes per side of [S] while the cell is [1 / (ngrid - 1)] of the side. *)
Theorem plot_flat_intensity points lam plot_ts T x y ngrid his_t his_s c :
  (2 <= ngrid)%Z ->
  past points plot_ts = Ok (his_t, his_s) ->
  (forall t s, value lam t his_t s his_s = Ok c) ->
  let volume := lebesgue_measure [(last_time his_t, plot_ts); x; y] in
  let I := (toR c * toR volume * (IZR ngrid / IZR (ngrid - 1)) ^ 2)%R in
  plot_3d_pointprocess_lam_f points lam plot_ts T [x; y] ngrid
  = Ok (Figure (flat (Z.to_nat ngrid) c)
               (flat (Z.to_nat ngrid) (Finite (toR c * exp (- I))%R)) x y).
Proof.
  intros Hn Hpast Hc volume I.
  destruct (plot_flat_run _ _ _ T x y _ _ _ _ Hn Hpast Hc) as (v & Hv & Hrun).
  rewrite Hrun. by rewrite (integral_flat_value _ _ _ _ _ _ Hn Hv).
Qed.

(** The density drawn lies between zero and the intensity: for a
    non-negative integral and non-negative intensities,
    [0 <= f <= lambda] at every grid point. *)
Theorem density_bounds (evals : list A) (integral : A) :
  sle s0 integral -> Forall (sle s0) evals ->
  Forall2 (fun f e => within 0 (toR e) f) (density evals (Finite integral))
          evals.
Proof.
  unfold sle. rewrite toR_0. intros Hi He. apply Forall2_fmap_l, Forall_Forall2_diag.
  eapply Forall_impl; [exact He |]. intros e Hpos. cbn in Hpos.
  cbn.
  pose proof (exp_pos (- toR integral)).
  assert (exp (- toR integral) <= 1)%R.
  { rewrite <- exp_0. destruct (Req_dec (toR integral) 0) as [-> | Hne].
    - rewrite Ropp_0. lra.
    - left. apply exp_increasing. lra. }
  nra.
Qed.

(** [plot_3d_pointprocess_avg_lam] never returns: whatever its
    arguments it raises, and for a non-negative [ngrid] the exception is the
    [NameError] of the unbound name [tqdm]. *)
Theorem avg_lam_raises points lam T S ngrid :
  exists e,
    plot_3d_pointprocess_avg_lam points lam T S ngrid = Raise e
    /\ python_exn e = true
    /\ ((0 <= ngrid)%Z -> e = NameError).
Proof.
  unfold plot_3d_pointprocess_avg_lam.
  destruct (Z.le_gt_cases 0 ngrid) as [Hn | Hn].
  - destruct (linspace_total (lo T) (hi T) _ Hn) as [ts ->].
    destruct (space_grid_total S _ Hn) as [ss ->]. cbn. eauto.
  - rewrite linspace_negative by lia. cbn. exists ValueError.
    split; [done |]. split; [done | lia].
Qed.

(** The helper of the average plot fails at the first grid point. *)
Lemma lamval_at_t_raises points lam ss t :
  mat_wf points -> 0 < ncols points -> ss <> [] ->
  lamval_at_t points lam ss t = Raise NameError.
Proof.
  intros Hwf Hw Hss. unfold lamval_at_t. rewrite past_ok by done. cbn.
  by destruct ss.
Qed.

End PlotTheorems.

(** ** A lower bound on the intensity carries over to the figure *)

Section PlotBounds.
Context {A : Type} `{Scalar A} {L : Type} `{!Intensity A L}.
Implicit Types (points his_s : mat A) (lam : L) (plot_ts last_t c : A)
  (T x y : interval A) (S : list (interval A)) (ngrid : Z) (his_t : list A).

(** Given the history, the intensity evaluates to [c] or more at every time
    after [last_t] and every location of a plane. *)
Definition bounded_below lam his_t his_s last_t c : Prop :=
  forall t s, slt last_t t -> length s = 2 ->
    exists v, value lam t his_t s his_s = Ok v /\ sle c v.

Lemma evaluate_lower lam his_t his_s last_t c t ss :
  bounded_below lam his_t his_s last_t c -> slt last_t t ->
  Forall (fun s => length s = 2) ss ->
  exists evals, evaluate lam t his_t his_s ss = Ok evals /\ Forall (sle c) evals.
Proof.
  intros Hlam Ht Hss. apply rtraverse_Forall.
  eapply Forall_impl; [exact Hss |]. intros s Hs. by apply Hlam.
Qed.

(** The Riemann sum of non-negative values over a non-negative cell. *)
Lemma integral_nonneg (lamvals : list (list A)) (v : A) :
  Forall (Forall (sle s0)) lamvals -> sle s0 v -> sle s0 (riemann lamvals v).
Proof.
  intros Hl%Forall_concat%ssum_nonneg Hv. unfold sle, riemann in *.
  rewrite toR_mul, toR_0 in *. by apply Rmult_le_pos.
Qed.

Lemma unit_vol_nonneg plot_ts last_t S ngrid :
  (2 <= ngrid)%Z -> sle last_t plot_ts -> Forall proper_interval S ->
  exists v, unit_vol plot_ts last_t S ngrid = Finite v /\ sle s0 v.
Proof.
  intros Hn Hle HS. destruct (unit_vol_ok plot_ts last_t S _ Hn) as (v & Hv & Hr).
  exists v. split; [done |].
  assert (Hm : sle s0 (lebesgue_measure ((last_t, plot_ts) :: S)))
    by (apply lebesgue_measure_nonneg; by constructor).
  unfold sle in *. rewrite Hr, toR_0 in *.
  apply Rmult_le_pos; [done |]. apply Rlt_le, Rinv_0_lt_compat, pow_lt, IZR_lt. lia.
Qed.

(** When the intensity is bounded below by [c >= 0] after the last event,
    the function returns in two space dimensions: the first image holds
    values [evals] of [c] or more and the second one their product with
    [exp (- I)] for a Riemann sum [I >= 0]. *)
Lemma plot_lower_bound points lam plot_ts T x y ngrid his_t his_s c :
  (2 <= ngrid)%Z -> Forall proper_interval [x; y] ->
  past points plot_ts = Ok (his_t, his_s) ->
  slt (last_time his_t) plot_ts -> sle s0 c ->
  bounded_below lam his_t his_s (last_time his_t) c ->
  exists fig evals I,
    plot_3d_pointprocess_lam_f points lam plot_ts T [x; y] ngrid = Ok fig
    /\ image ngrid evals = Ok (lam_image fig)
    /\ image ngrid (density evals (Finite I)) = Ok (f_image fig)
    /\ Forall (sle c) evals /\ sle s0 I.
Proof.
  intros Hn HS Hpast Hlast Hc Hlam. unfold plot_3d_pointprocess_lam_f.
  destruct (space_grid_total [x; y] ngrid) as [ss Hss]; [lia |].
  destruct (space_grid_shape _ _ _ Hss) as [Hlen Hw]. cbn [length] in Hlen, Hw.
  destruct (evaluate_lower _ _ _ _ _ plot_ts ss Hlam Hlast Hw)
    as (evals & Hev & Hge).
  destruct (linspace_total (last_time his_t) plot_ts ngrid) as [ts Hts]; [lia |].
  destruct (rtraverse_Forall (fun t => evaluate lam t his_t his_s ss)
              (Forall (sle c)) (drop 1 ts)) as (lamvals & Hlv & Hall).
  { eapply Forall_impl; [exact (linspace_after_start _ _ _ _ Hn Hlast Hts) |].
    intros t Ht. by apply (evaluate_lower _ _ _ _ _ t ss Hlam). }
  destruct (unit_vol_nonneg plot_ts (last_time his_t) [x; y] _ Hn)
    as (v & Hv & Hv0); [by apply slt_sle | done |].
  assert (Hsz : length evals = Z.to_nat ngrid * Z.to_nat ngrid).
  { rewrite (evaluate_length _ _ _ _ _ _ Hev), Hlen. cbn. lia. }
  destruct (image_ok ngrid evals) as [im1 Him1]; [lia | done |].
  destruct (image_ok ngrid (density evals (Finite (riemann lamvals v))))
    as [im2 Him2]; [lia | by unfold density; rewrite length_map |].
  rewrite Hss, Hpast. cbn [rbind fst snd]. rewrite Hev. cbn [rbind].
  rewrite Hts. cbn [rbind]. rewrite Hlv. cbn [rbind].
  rewrite Him1. cbn [rbind tick_labels lookup list_lookup].
  rewrite Hv, integral_finite, Him2. cbn [rbind].
  eexists _, evals, (riemann lamvals v). repeat split; try done.
  apply integral_nonneg; [|done]. eapply Forall_impl; [exact Hall |].
  intros l Hl. eapply Forall_impl; [exact Hl |]. intros e He.
  etrans; [exact Hc | exact He].
Qed.

End PlotBounds.

(** ** The figure of a Hawkes intensity *)

Section PlotHawkes.
Context {K : Type} `{!Kernel R K} `{!Excitation K}.
Implicit Types (lam : HawkesLam.t R K) (points : mat R) (plot_ts : R)
  (T x y : interval R) (ngrid : Z).

(** After the last event of a history in a plane, the intensity is the
    background rate or more. *)
Lemma hawkes_bounded_below lam (his_p : mat R) :
  complete (HawkesLam.kernel lam) -> excitatory (HawkesLam.kernel lam) ->
  mat_wf his_p -> ncols his_p = 3 ->
  Sorted sle (times his_p) ->
  bounded_below lam (times his_p) (columns_from 1 his_p)
    (last_time (times his_p)) (HawkesLam.mu lam).
Proof.
  intros Hk He Hwf Hc HS t s Ht Hs.
  apply excitation_value_lower; [done | done | by apply retained_plane | done |].
  eapply Forall_impl; [exact (last_time_max _ HS) |].
  intros h Hh. unfold sle, slt in *. cbn in *. lra.
Qed.

(** The figure of ascending events. *)
Lemma plot_hawkes_run lam points plot_ts T x y ngrid :
  complete (HawkesLam.kernel lam) -> excitatory (HawkesLam.kernel lam) ->
  (0 <= HawkesLam.mu lam)%R ->
  mat_wf points -> ncols points = 3 -> Sorted sle (times points) ->
  (0 < plot_ts)%R -> Forall proper_interval [x; y] -> (2 <= ngrid)%Z ->
  exists fig evals I,
    plot_3d_pointprocess_lam_f points lam plot_ts T [x; y] ngrid = Ok fig
    /\ image ngrid evals = Ok (lam_image fig)
    /\ image ngrid (density evals (Finite I)) = Ok (f_image fig)
    /\ Forall (Rle (HawkesLam.mu lam)) evals
    /\ Forall2 (fun f e => within 0 e f) (density evals (Finite I)) evals.
Proof.
  intros Hk He Hmu Hwf Hc HS Hts Hbox Hn.
  destruct (past_ascending points plot_ts Hwf ltac:(lia) HS)
    as (his_p & Hpast & Hwf' & Hc' & HS' & Hbefore).
  destruct (plot_lower_bound points lam plot_ts T x y ngrid _ _
              (HawkesLam.mu lam) Hn Hbox Hpast)
    as (fig & evals & I & Hrun & Him1 & Him2 & Hge & HI).
  - by apply last_time_below.
  - unfold sle. cbn. lra.
  - apply hawkes_bounded_below; [done | done | done | congruence | done].
  - exists fig, evals, I. repeat split; try done.
    apply (density_bounds evals I HI). eapply Forall_impl; [exact Hge |].
    intros e Hle. unfold sle in *. cbn in *. lra.
Qed.

(** C29. Drawing a Hawkes intensity over a complete and excitatory kernel of
    any of the five classes, with a non-negative background rate [mu],
    given a row of a batch (ascending events of a time and two space
    coordinates, followed by any number of zero rows), at a time
    [plot_ts > 0], over a proper box and with two samples or more per
    side: the function returns; every
    value of the first image is [mu] or more; every value of the second
    image lies between zero and the value of the first image at the same
    place. *)
Theorem plot_hawkes_bounds lam (pts : mat R) (n : nat) plot_ts T x y ngrid :
  complete (HawkesLam.kernel lam) -> excitatory (HawkesLam.kernel lam) ->
  (0 <= HawkesLam.mu lam)%R ->
  mat_wf pts -> ncols pts = 3 -> Sorted sle (times pts) ->
  (0 < plot_ts)%R -> Forall proper_interval [x; y] -> (2 <= ngrid)%Z ->
  exists fig evals I,
    plot_3d_pointprocess_lam_f (pad n pts) lam plot_ts T [x; y] ngrid = Ok fig
    /\ image ngrid evals = Ok (lam_image fig)
    /\ image ngrid (density evals (Finite I)) = Ok (f_image fig)
    /\ Forall (Rle (HawkesLam.mu lam)) evals
    /\ Forall2 (fun f e => within 0 e f) (density evals (Finite I)) evals.
Proof.
  intros Hk He Hmu Hwf Hc HS Hts Hbox Hn. rewrite plot_padded by done.
  by apply plot_hawkes_run.
Qed.

(** From the sampler to the figure: every row of a batch that [generate]
    returns over a proper box in two space dimensions can be drawn, and
    its figure obeys the bounds. *)
Theorem generate_plot_bounds `{!ArgSort R} lam fuel T x y batch_size
    min_n_points verbose g data szs g' plot_ts ngrid :
  complete (HawkesLam.kernel lam) -> excitatory (HawkesLam.kernel lam) ->
  (0 <= HawkesLam.mu lam)%R ->
  Forall proper_interval [T; x; y] -> tape_wf g ->
  (0 < plot_ts)%R -> (2 <= ngrid)%Z ->
  generate fuel lam T [x; y] batch_size min_n_points verbose g
  = Ok (data, szs, g') ->
  Forall (fun points =>
            exists fig evals I,
              plot_3d_pointprocess_lam_f points lam plot_ts T [x; y] ngrid
              = Ok fig
              /\ image ngrid evals = Ok (lam_image fig)
              /\ image ngrid (density evals (Finite I)) = Ok (f_image fig)
              /\ Forall (Rle (HawkesLam.mu lam)) evals
              /\ Forall2 (fun f e => within 0 e f) (density evals (Finite I)) evals)
         data.
Proof.
  intros Hk He Hmu Hbox Hwf Hts Hn Hrun.
  destruct (generate_batch lam T [x; y] _ _ _ _ _ _ _ _ eq_refl Hbox Hwf Hrun)
    as (_ & seqs & Hg & _ & -> & ->).
  apply Forall_fmap. eapply Forall_impl; [exact Hg |].
  intros pts (Hwf' & Hc & _ & HS). cbn. rewrite plot_padded by done.
  apply plot_hawkes_run; try done. by apply Forall_inv_tail in Hbox.
Qed.

End PlotHawkes.

(** The events [plane2] drawn at time [2] over the unit square with the
    intensity [lam_half], a Hawkes intensity over a mixture. *)
Lemma plane2_ascending : Sorted sle (times plane2).
Proof. repeat constructor. unfold sle. cbn. lra. Defined.

Lemma unit_square_proper :
  Forall proper_interval [((0, 1) : interval R); ((0, 1) : interval R)]%R.
Proof. repeat constructor; unfold proper_interval, sle; cbn; lra. Defined.

Lemma plot_hawkes_bounds_witness :
  exists fig evals I,
    plot_3d_pointprocess_lam_f (pad 3 plane2) lam_half 2%R (0, 2)%R
      [(0, 1); (0, 1)]%R 2 = Ok fig
    /\ image 2 evals = Ok (lam_image fig)
    /\ image 2 (density evals (Finite I)) = Ok (f_image fig)
    /\ Forall (Rle (HawkesLam.mu lam_half)) evals
    /\ Forall2 (fun f e => within 0 e f) (density evals (Finite I)) evals.
Proof.
  apply plot_hawkes_bounds;
    [exact half_complete | exact half_excitatory | cbn; lra | exact plane2_wf
    | reflexivity | exact plane2_ascending | lra | exact unit_square_proper
    | lia].
Defined.

(** ** Concrete runs *)

Local Open Scope Q_scope.

(** A batch row that holds padding only, a time interval that starts after
    zero, and the batch [generate] returns over it. *)
Definition padding_only : mat Q := Mat 3 [[0; 0; 0]].
Definition late_T : interval Q := (1, 2).
Definition late_batch : list (mat Q) :=
  [Mat 3 [[5#4; 1#5; 3#5]; [7#4; 3#10; 7#10]];
   Mat 3 [[3#2; 1#5; 2#5]; [0; 0; 0]]].

Lemma late_box_proper : Forall proper_interval (late_T :: unit_S).
Proof.
  unfold proper_interval. apply (bool_decide_unpack _). vm_compute. exact I.
Defined.

Lemma late_run :
  generate 5 (lamQ 1 2) late_T unit_S 2 1 false tape_pad
  = Ok (late_batch, [2%nat; 1%nat], Rng [] []).
Proof. vm_compute. reflexivity. Defined.

Lemma padding_only_past : past padding_only 1 = Ok ([], Mat 2 []).
Proof. vm_compute. reflexivity. Defined.

Lemma history_spec_witness :
  exists his_p,
    history (pad 2 kept1) 1 = Ok his_p
    /\ mat_wf his_p /\ ncols his_p = ncols (pad 2 kept1)
    /\ mrows his_p `sublist_of` mrows (pad 2 kept1)
    /\ forall r, r ∈ mrows his_p <->
         r ∈ mrows (pad 2 kept1) /\ slt s0 (nth 0 r s0) /\ slt (nth 0 r s0) 1.
Proof.
  apply history_spec; [apply mat_wfb_spec; reflexivity | cbn; lia].
Defined.

Lemma generate_history_roundtrip_witness :
  exists seqs,
    [2%nat; 1%nat] = map nrows seqs
    /\ Forall2 (fun d pts => history d 3 = Ok pts) late_batch seqs.
Proof.
  apply (generate_history_roundtrip (lamQ 1 2) late_T unit_S 2 1 false 5
           tape_pad _ _ (Rng [] []) 3 eq_refl late_box_proper tape_pad_wf).
  - apply sltb_true. vm_compute. reflexivity.
  - apply sltb_true. vm_compute. reflexivity.
  - exact late_run.
Defined.

Lemma space_grid_spec_witness :
  exists ss,
    space_grid unit_S 3 = Ok ss
    /\ length ss = (Z.to_nat 3 ^ length unit_S)%nat
    /\ Forall (in_box unit_S) ss.
Proof.
  apply space_grid_spec; [lia | exact (Forall_inv_tail unit_box_proper)].
Defined.

Lemma plot_flat_intensity_witness :
  let volume := lebesgue_measure [(last_time [], 1); (0, 1); (0, 1)] in
  let I := (toR (1 : Q) * toR volume * (IZR 3 / IZR (3 - 1)) ^ 2)%R in
  plot_3d_pointprocess_lam_f padding_only (lamQ 1 2) 1 unit_T unit_S 3
  = Ok (Figure (flat (Z.to_nat 3) (1 : Q))
               (flat (Z.to_nat 3) (Finite (toR (1 : Q) * exp (- I))%R))
               ((0, 1) : interval Q) ((0, 1) : interval Q)).
Proof.
  apply (plot_flat_intensity padding_only (lamQ 1 2) 1 unit_T (0, 1) (0, 1) 3
           [] (Mat 2 []) 1); [lia | exact padding_only_past | reflexivity].
Defined.

(** The figure of a unit intensity without history on a grid of three by
    three. *)
Definition fig3 : figure Q :=
  Figure (flat 3 1)
         (flat 3 (Finite (toR (1 : Q)
                          * exp (- toR (riemann (replicate 2 (replicate 9 (1 : Q)))
                                                (1 # 8))))%R))
         (0, 1) (0, 1).

Lemma fig3_run :
  plot_3d_pointprocess_lam_f padding_only (lamQ 1 2) 1 unit_T unit_S 3 = Ok fig3.
Proof.
  destruct (plot_flat_run padding_only (lamQ 1 2) 1 unit_T (0, 1) (0, 1) 3
              [] (Mat 2 []) 1) as (v & Hv & Hrun);
    [lia | exact padding_only_past | reflexivity |].
  vm_compute in Hv. inv Hv. exact Hrun.
Defined.

Lemma plot_pixels_witness :
  exists his_t his_s xs ys lamvals,
    let I := integral lamvals (unit_vol 1 (last_time his_t) unit_S 3) in
    past padding_only 1 = Ok (his_t, his_s)
    /\ linspace (lo ((0, 1) : interval Q)) (hi ((0, 1) : interval Q)) 3 = Ok xs
    /\ linspace (lo ((0, 1) : interval Q)) (hi ((0, 1) : interval Q)) 3 = Ok ys
    /\ forall (col row : nat) (xc yr : Q),
         xs !! col = Some xc -> ys !! row = Some yr ->
         exists v,
           value (lamQ 1 2) 1 his_t [xc; yr] his_s = Ok v
           /\ pixel (lam_image fig3) row col = Some v
           /\ pixel (f_image fig3) row col = Some (fscale v (fexp_neg I)).
Proof.
  exact (plot_pixels padding_only (lamQ 1 2) 1 unit_T (0, 1) (0, 1) 3 fig3
           fig3_run).
Defined.

Lemma plot_returns_two_dims_witness :
  (0 <= 3)%Z /\ (2 <= length unit_S)%nat
  /\ ((2 <= 3)%Z -> length unit_S = 2%nat)
  /\ nrows (lam_image fig3) = Z.to_nat 3 /\ ncols (lam_image fig3) = Z.to_nat 3
  /\ nrows (f_image fig3) = Z.to_nat 3 /\ ncols (f_image fig3) = Z.to_nat 3.
Proof.
  exact (plot_returns_two_dims padding_only (lamQ 1 2) 1 unit_T unit_S 3 fig3
           fig3_run).
Defined.

(** The same inputs with one sample per side: the intensity image is the
    pixel [1] and the density image the pixel NaN. *)
Definition fig1 : figure Q := Figure (flat 1 1) (flat 1 NaN) (0, 1) (0, 1).

Lemma fig1_run :
  plot_3d_pointprocess_lam_f padding_only (lamQ 1 2) 1 unit_T unit_S 1 = Ok fig1.
Proof. reflexivity. Defined.

Lemma plot_one_sample_witness :
  plot_3d_pointprocess_lam_f padding_only (lamQ 1 2) 1 unit_T unit_S 1 = Ok fig1
  /\ f_image fig1 = flat 1 NaN.
Proof.
  split; [exact fig1_run |].
  exact (plot_one_sample padding_only (lamQ 1 2) 1 unit_T unit_S fig1 fig1_run).
Defined.

Lemma density_bounds_witness :
  Forall2 (fun f e => within 0 (toR e) f) (density [1; 2] (Finite (1 : Q)))
          [1; 2].
Proof.
  apply density_bounds.
  - apply sleb_true. vm_compute. reflexivity.
  - apply (bool_decide_unpack _). vm_compute. exact I.
Defined.
