(* ===== verification/LogLaws.v ===== *)
(** * LogLaws: the sampler with its printing

    Theorems on the definitions of [Log]:

    - erasing the output of the logged methods gives the methods of
      [Sampler]: printing changes no result, no exception and no draw
      ([thinning_log_erases], [generate_log_erases]);
    - what the thinning prints, by its result ([thinning_log_spec]);
    - [generate] announces every sequence it accepts, once and in order,
      whatever [verbose] is ([generate_log_announces]); without [verbose]
      it prints nothing else but bound violations ([generate_log_quiet]). *)

From Stdlib Require Import Reals Lra ZArith QArith.
From stdpp Require Import base tactics list strings.
From S2P Require Import Prelude Scalar NdArray ArgSort Region Rng Kernel Intensity.
From S2P Require Import Sampler Log Fixtures Thinning Generate.

Local Open Scope log_scope.
Local Close Scope Q_scope.

(** ** The monad of logged computations *)

Section LogMonad.
Context {A : Type}.
Implicit Types (g : rng A) (out : list (message A)) (msg : message A).

Lemma lbind_ok {X Y : Type} (m : LM A X) (k : X -> LM A Y) g out x g' :
  m g = (out, Ok (x, g')) -> lbind m k g = (out ++ (k x g').1, (k x g').2).
Proof. unfold lbind. by intros ->. Qed.

Lemma lbind_raise {X Y : Type} (m : LM A X) (k : X -> LM A Y) g out e :
  m g = (out, Raise e) -> lbind m k g = (out, Raise e).
Proof. unfold lbind. by intros ->. Qed.

(** A bind that returns ran both parts, and printed what they printed, in
    that order. *)
Lemma lbind_inv {X Y : Type} (m : LM A X) (k : X -> LM A Y) g out y g2 :
  lbind m k g = (out, Ok (y, g2)) ->
  exists out1 x g1 out2,
    m g = (out1, Ok (x, g1)) /\ k x g1 = (out2, Ok (y, g2))
    /\ out = out1 ++ out2.
Proof.
  unfold lbind. destruct (m g) as [out1 [[x g1]|e]]; [|done].
  destruct (k x g1) as [out2 r] eqn:Hk. cbn. intros [= <- ->]. eauto 8.
Qed.

Lemma silent_inv {X : Type} (m : M A X) g out r :
  silent m g = (out, r) -> out = [] /\ m g = r.
Proof. unfold silent. by intros [= <- <-]. Qed.

(** *** Erasure *)

(** [Erases ml m]: without its output, [ml] is [m]. *)
Class Erases {X : Type} (ml : LM A X) (m : M A X) : Prop :=
  erases : forall g, erase ml g = m g.

#[export] Instance lret_erases {X : Type} (x : X) : Erases (lret x) (mret x).
Proof. done. Qed.

#[export] Instance silent_erases {X : Type} (m : M A X) : Erases (silent m) m.
Proof. done. Qed.

#[export] Instance lbind_erases {X Y : Type} (ml : LM A X) (m : M A X)
    (kl : X -> LM A Y) (k : X -> M A Y) :
  Erases ml m -> (forall x, Erases (kl x) (k x)) -> Erases (lbind ml kl) (mbind m k).
Proof.
  intros Hm Hk g. specialize (Hm g). unfold erase, lbind, mbind in *.
  destruct (ml g) as [out [[x g']|e]]; cbn in Hm; rewrite <- Hm; [|done].
  apply Hk.
Qed.

(** A [print] is erased with its bind. *)
Lemma print_erases {X : Type} msg (kl : LM A X) (k : M A X) :
  Erases kl k -> Erases (lbind (print msg) (fun _ => kl)) k.
Proof. intros Hk g. apply Hk. Qed.

(** A bind whose second part only prints is erased to its first part. *)
Lemma lbind_lret_erases {X : Type} (ml : LM A X) (m : M A X) (kl : X -> LM A X) :
  Erases ml m -> (forall x, Erases (kl x) (mret x)) -> Erases (lbind ml kl) m.
Proof.
  intros Hm Hk g. specialize (Hm g). unfold erase, lbind in *.
  destruct (ml g) as [out [[x g']|e]]; cbn in Hm; rewrite <- Hm; [|done].
  apply Hk.
Qed.

(** *** What is printed *)

(** [Prints P ml]: every line [ml] prints satisfies [P], on every tape and
    whether [ml] returns or raises. *)
Class Prints {X : Type} (P : message A -> Prop) (ml : LM A X) : Prop :=
  prints : forall g, Forall P (stderr ml g).

#[export] Instance lret_prints {X : Type} P (x : X) : Prints P (lret x).
Proof. intros g. constructor. Qed.

#[export] Instance silent_prints {X : Type} P (m : M A X) : Prints P (silent m).
Proof. intros g. constructor. Qed.

#[export] Instance lbind_prints {X Y : Type} P (ml : LM A X) (kl : X -> LM A Y) :
  Prints P ml -> (forall x, Prints P (kl x)) -> Prints P (lbind ml kl).
Proof.
  intros Hm Hk g. specialize (Hm g). unfold stderr, lbind in *.
  destruct (ml g) as [out [[x g']|e]]; cbn in *; [|done].
  apply Forall_app. split; [done | apply Hk].
Qed.

Lemma print_prints (P : message A -> Prop) msg : P msg -> Prints P (print msg).
Proof. intros HP g. by repeat constructor. Qed.

Lemma prints_impl {X : Type} (P Q : message A -> Prop) (ml : LM A X) :
  (forall msg, P msg -> Q msg) -> Prints P ml -> Prints Q ml.
Proof. intros HPQ Hm g. eapply Forall_impl; [apply Hm | exact HPQ]. Qed.

End LogMonad.

(** One step of a proof of [Erases] or [Prints] along the structure of the
    computation. *)
Ltac log_step :=
  first
    [ apply _
    | apply print_erases
    | apply lbind_erases; [|intros ?]
    | apply lbind_prints; [|intros ?]
    | apply print_prints
    | match goal with
      | |- Erases (if ?c then _ else _) _ => destruct c
      | |- Erases (match ?r with _ => _ end) _ => destruct r
      | |- Prints _ (if ?c then _ else _) => destruct c
      | |- Prints _ (match ?r with _ => _ end) => destruct r
      end ].

(** ** Erasing the output gives the sampler back *)

Section Erasure.
Context {A : Type} `{ArgSort A} {L : Type} `{!Intensity A L} `{!Str L}.
Implicit Types (lam : L) (homo R : mat A) (verbose : bool) (g : rng A).

#[export] Instance monitor_log_erases verbose i N retained :
  Erases (A := A) (monitor_log verbose i N retained) (lift (monitor verbose i N)).
Proof.
  intros g. unfold monitor_log, monitor.
  by destruct (verbose && negb (i =? 0)), (N / 10 =? 0), (i mod (N / 10) =? 0).
Qed.

#[export] Instance print_if_erases {X : Type} verbose msg (kl : LM A X) k :
  Erases kl k -> Erases (lbind (print_if verbose msg) (fun _ => kl)) k.
Proof. intros Hk g. destruct verbose; apply Hk. Qed.

#[export] Instance thin_step_log_erases lam verbose homo i R :
  Erases (thin_step_log lam verbose homo i R) (thin_step lam verbose homo i R).
Proof. unfold thin_step_log, thin_step. repeat log_step. Qed.

#[export] Instance thin_loop_log_erases lam verbose homo todo R :
  Erases (thin_loop_log lam verbose homo todo R) (thin_loop lam verbose homo todo R).
Proof.
  revert R. induction todo as [|i todo IH]; intros R; cbn [thin_loop_log thin_loop];
    repeat (apply IH || log_step).
Qed.

#[export] Instance thinning_log_erases lam homo verbose :
  Erases (inhomogeneous_poisson_thinning_log lam homo verbose)
         (inhomogeneous_poisson_thinning lam homo verbose).
Proof.
  unfold inhomogeneous_poisson_thinning_log, inhomogeneous_poisson_thinning.
  apply print_if_erases, lbind_lret_erases; [apply _ |].
  intros [kept|]; repeat log_step.
Qed.

#[export] Instance generate_loop_log_erases fuel lam T S batch_size min_n_points
    verbose st :
  Erases (generate_loop_log fuel lam T S batch_size min_n_points verbose st)
         (generate_loop fuel lam T S batch_size min_n_points verbose st).
Proof.
  revert st. induction fuel as [|fuel IH]; intros st;
    cbn [generate_loop_log generate_loop]; repeat (apply IH || log_step).
Qed.

#[export] Instance generate_log_erases fuel lam T S batch_size min_n_points
    verbose :
  Erases (generate_log fuel lam T S batch_size min_n_points verbose)
         (generate fuel lam T S batch_size min_n_points verbose).
Proof. unfold generate_log, generate. repeat log_step. Qed.

End Erasure.

(** [l_inv]: split a logged computation that returned, in a hypothesis,
    into its steps. *)
Ltac l_inv :=
  repeat match goal with
  | H : lbind _ _ _ = (_, Ok _) |- _ =>
      apply lbind_inv in H as (? & ? & ? & ? & ? & H & ->); cbn beta zeta in H
  | H : silent _ _ = (_, _) |- _ => apply silent_inv in H as [-> ?]
  | H : lret _ _ = (_, _) |- _ => unfold lret in H; inv H
  | H : print _ _ = (_, _) |- _ => unfold print in H; inv H
  end.

(** ** What the thinning prints *)

Section ThinningLog.
Context {A : Type} `{ArgSort A} {L : Type} `{!Intensity A L} `{!Str L}.
Implicit Types (lam : L) (homo R kept : mat A) (verbose : bool) (g : rng A)
  (out : list (message A)) (msg : message A).

(** The line of a bound violation. *)
Definition violation msg : Prop :=
  match msg with Exceeds _ _ => True | _ => False end.

(** A progress line, printed under [verbose] only. *)
Definition progress verbose msg : Prop :=
  verbose = true /\ exists i retained, msg = Checked i retained.

(** The output of a run that ended on a bound violation: its last line
    reports an intensity above the bound. *)
Definition ends_on_violation lam out : Prop :=
  exists v, last out = Some (Exceeds v (upper_bound lam))
            /\ slt (upper_bound lam) v.

Lemma monitor_log_progress verbose i N retained g out r :
  monitor_log (A := A) verbose i N retained g = (out, r) ->
  Forall (progress verbose) out.
Proof.
  unfold monitor_log. destruct verbose; cbn [andb].
  - destruct (negb _), (N / 10 =? 0), (i mod (N / 10) =? 0);
      intros [= <- <-]; repeat constructor; eauto.
  - intros [= <- <-]. constructor.
Qed.

(** One iteration either reports a violation and returns [None], or prints
    at most a progress line. *)
Lemma thin_step_log_inv lam verbose homo i R g out r g' :
  thin_step_log lam verbose homo i R g = (out, Ok (r, g')) ->
  match r with
  | None => ends_on_violation lam out
  | Some _ => Forall (progress verbose) out
  end.
Proof.
  unfold thin_step_log. intros Hrun. l_inv.
  destruct (sltb (upper_bound lam) _) eqn:Hv; l_inv.
  - eexists. split; [done | by apply sltb_true].
  - rewrite app_nil_r. by eapply monitor_log_progress.
Qed.

Lemma thin_loop_log_inv lam verbose homo todo R g out r g' :
  thin_loop_log lam verbose homo todo R g = (out, Ok (r, g')) ->
  match r with
  | None => ends_on_violation lam out
  | Some _ => Forall (progress verbose) out
  end.
Proof.
  revert R g out. induction todo as [|i todo IH]; intros R g out Hrun;
    cbn [thin_loop_log] in Hrun; [l_inv; constructor |].
  apply lbind_inv in Hrun as (out1 & [R'|] & g1 & out2 & Hstep & Hrest & ->);
    apply thin_step_log_inv in Hstep; [|l_inv; by rewrite app_nil_r].
  apply IH in Hrest. destruct r; [by apply Forall_app |].
  destruct Hrest as (v & Hlast & Hv). exists v. split; [|done].
  by rewrite last_app, Hlast.
Qed.

Lemma progress_not_violation verbose out :
  Forall (progress verbose) out -> Forall (fun msg => ~ violation msg) out.
Proof.
  intros Hp. eapply Forall_impl; [exact Hp |].
  intros msg (_ & i & retained & ->) Hv. exact Hv.
Qed.

Lemma progress_quiet out : Forall (progress false) out -> out = [].
Proof. destruct 1 as [|msg out [? _]]; done. Qed.

(** C38. What the thinning prints, by its result.  A run that returns [None]
    printed, last, the intensity that exceeded the bound.  A run that
    returns a sequence reported no violation; under [verbose] its first
    line is the size of the pool and its last line the size of the
    sequence with the name of the intensity; without [verbose] it printed
    nothing. *)
Theorem thinning_log_spec lam homo verbose g out r g' :
  inhomogeneous_poisson_thinning_log lam homo verbose g = (out, Ok (r, g')) ->
  match r with
  | None => ends_on_violation lam out
  | Some kept =>
      Forall (fun msg => ~ violation msg) out
      /\ if verbose
         then head out = Some (Proposed (shape homo))
              /\ last out = Some (Thinned (shape kept) (str lam))
         else out = []
  end.
Proof.
  unfold inhomogeneous_poisson_thinning_log. intros Hrun.
  apply lbind_inv in Hrun as (out0 & [] & g0 & out' & Hp & Hrun & ->).
  apply lbind_inv in Hrun as (out1 & r1 & g1 & out2 & Hloop & Hend & ->).
  apply thin_loop_log_inv in Hloop. destruct r1 as [kept|].
  - pose proof (progress_not_violation _ _ Hloop) as Hnv.
    destruct verbose; cbn [print_if] in Hp, Hend; l_inv.
    + rewrite app_nil_r. split; [|split; [done | by rewrite !app_assoc, last_snoc]].
      rewrite !Forall_app, !Forall_singleton. repeat split; try done; intros [].
    + by rewrite (progress_quiet _ Hloop).
  - l_inv. destruct Hloop as (v & Hlast & Hv). exists v. split; [|done].
    by rewrite app_nil_r, last_app, Hlast.
Qed.

End ThinningLog.

(** ** What [generate] prints *)

Section GenerateLog.
Context {A : Type} `{ArgSort A} {L : Type} `{!Intensity A L} `{!Str L}.
Implicit Types (lam : L) (homo R kept : mat A) (verbose : bool) (g : rng A)
  (out : list (message A)) (msg : message A) (st : gen_state A).

(** The numbers of the sequences announced, in the order of the lines. *)
Definition announced out : list nat :=
  omap (fun msg => match msg with Generated b => Some b | _ => None end) out.

(** The lines of the thinning: a violation at any time, the others under
    [verbose] only, and never an announcement. *)
Definition thinning_line verbose msg : Prop :=
  match msg with
  | Exceeds _ _ => True
  | Generated _ => False
  | _ => verbose = true
  end.

(** The lines of [generate]: those of the thinning and the announcements. *)
Definition generate_line verbose msg : Prop :=
  match msg with
  | Exceeds _ _ | Generated _ => True
  | _ => verbose = true
  end.

Lemma announced_none verbose out :
  Forall (thinning_line verbose) out -> announced out = [].
Proof. induction 1 as [|[] out Hmsg _ IH]; done. Qed.

#[export] Instance monitor_log_prints verbose i N retained :
  Prints (A := A) (thinning_line verbose) (monitor_log verbose i N retained).
Proof.
  unfold monitor_log. destruct verbose; cbn [andb]; repeat (log_step || done).
Qed.

Lemma print_if_prints verbose msg :
  (verbose = true -> thinning_line verbose msg) ->
  Prints (thinning_line verbose) (print_if verbose msg).
Proof.
  intros Hmsg. unfold print_if. destruct verbose; [|apply _].
  by apply print_prints, Hmsg.
Qed.

#[export] Instance thin_step_log_prints lam verbose homo i R :
  Prints (thinning_line verbose) (thin_step_log lam verbose homo i R).
Proof. unfold thin_step_log. repeat (log_step || done). Qed.

#[export] Instance thin_loop_log_prints lam verbose homo todo R :
  Prints (thinning_line verbose) (thin_loop_log lam verbose homo todo R).
Proof.
  revert R. induction todo as [|i todo IH]; intros R; cbn [thin_loop_log];
    repeat (apply IH || log_step).
Qed.

#[export] Instance thinning_log_prints lam homo verbose :
  Prints (thinning_line verbose)
         (inhomogeneous_poisson_thinning_log lam homo verbose).
Proof.
  unfold inhomogeneous_poisson_thinning_log.
  repeat (log_step || (apply print_if_prints; by intros ->)).
Qed.

#[export] Instance thinning_log_generate_line lam homo verbose :
  Prints (generate_line verbose)
         (inhomogeneous_poisson_thinning_log lam homo verbose).
Proof. eapply prints_impl; [|apply thinning_log_prints]. by intros []. Qed.

#[export] Instance generate_loop_log_prints fuel lam T S batch_size
    min_n_points verbose st :
  Prints (generate_line verbose)
         (generate_loop_log fuel lam T S batch_size min_n_points verbose st).
Proof.
  revert st. induction fuel as [|fuel IH]; intros st; cbn [generate_loop_log];
    repeat (apply IH || log_step || done).
Qed.

(** The loop announces the sequences it records, with the numbers that
    follow [b], and leaves [b] at [batch_size]. *)
Lemma generate_loop_log_announces fuel lam T S batch_size min_n_points verbose
    st g out st' g' :
  generate_loop_log fuel lam T S batch_size min_n_points verbose st g
  = (out, Ok (st', g')) ->
  announced out = seq (Datatypes.S (b st)) (b st' - b st) /\ b st <= b st'
  /\ ((Z.of_nat (b st) <= batch_size)%Z -> Z.of_nat (b st') = batch_size).
Proof.
  revert st g out. induction fuel as [|fuel IH]; intros st g out Hrun;
    cbn [generate_loop_log] in Hrun;
    destruct (Z.ltb_spec (Z.of_nat (b st)) batch_size) as [Hlt | Hge];
    try (l_inv; rewrite Nat.sub_diag; repeat split; (done || lia)).
  { by apply silent_inv in Hrun as [_ ?]. }
  apply lbind_inv in Hrun as (? & homo & g1 & out' & [-> _]%silent_inv & Hrun & ->).
  apply lbind_inv in Hrun as (out1 & points & g2 & out2 & Hthin & Hrest & ->).
  assert (Hnone : announced out1 = []).
  { apply (announced_none verbose).
    pose proof (prints (Prints := thinning_log_prints lam homo verbose) g1) as Hp.
    unfold stderr in Hp. by rewrite Hthin in Hp. }
  unfold announced in *. rewrite app_nil_l, omap_app, Hnone, app_nil_l.
  destruct (rejected min_n_points points), points as [pts|];
    try (apply IH in Hrest as (-> & Hle & Hb); repeat split; (done || lia)).
  apply lbind_inv in Hrest as (? & [] & ? & out3 & [= <- <-] & Hrest & ->).
  apply IH in Hrest as (Hout & Hle & Hb). cbn [b gen_record] in *.
  rewrite omap_app, Hout. repeat split; [|lia..].
  by replace (b st' - b st) with (Datatypes.S (b st' - Datatypes.S (b st))) by lia.
Qed.

#[export] Instance generate_log_prints fuel lam T S batch_size min_n_points
    verbose :
  Prints (generate_line verbose)
         (generate_log fuel lam T S batch_size min_n_points verbose).
Proof. unfold generate_log. repeat log_step. Qed.

(** C37. A run of [generate] that returns announced every sequence of the batch
    once, with the numbers [1] to [batch_size] in that order, whatever
    [verbose] is; without [verbose] the only other lines are the bound
    violations of the attempts it discarded. *)
Theorem generate_log_announces fuel lam T S batch_size min_n_points verbose g
    out data szs g' :
  generate_log fuel lam T S batch_size min_n_points verbose g
  = (out, Ok (data, szs, g')) ->
  announced out = seq 1 (Z.to_nat batch_size)
  /\ Forall (generate_line verbose) out.
Proof.
  intros Hrun. split.
  - unfold generate_log in Hrun.
    apply lbind_inv in Hrun as (out1 & st & g1 & out2 & Hloop & Hrest & ->).
    apply generate_loop_log_announces in Hloop as (Hout & _ & Hb).
    l_inv. match goal with Hp : lift (pack _ _) _ = Ok _ |- _ =>
      unfold lift, pack in Hp; destruct (Z.ltb_spec batch_size 0); [done |] end.
    unfold announced in *. rewrite !app_nil_r, Hout. cbn [b gen_init] in *.
    f_equal. lia.
  - pose proof (prints (ml := generate_log fuel lam T S batch_size min_n_points
                              verbose) g) as Hp.
    unfold stderr in Hp. by rewrite Hrun in Hp.
Qed.

End GenerateLog.

(** ** Concrete runs *)

Local Open Scope Q_scope.

(** The batch of [tape_pad], with what is printed without [verbose]. *)
Lemma batch_pad_log :
  generate_log 5 (lamQ 1 2) unit_T unit_S 2 1 false tape_pad
  = ([Generated 1; Generated 2],
     Ok ([kept3; pad 2 kept1], [2%nat; 1%nat], Rng [] [])).
Proof. vm_compute. reflexivity. Defined.

(** A pool of one proposal thinned under [verbose]. *)
Lemma kept1_log :
  inhomogeneous_poisson_thinning_log (lamQ 1 2) kept1 true (Rng [] [1#4])
  = ([Proposed (1%nat, 3%nat); Thinned (1%nat, 3%nat) "Hawkes processes"%string],
     Ok (Some kept1, Rng [] [])).
Proof. vm_compute. reflexivity. Defined.

(** The pool [pool3] against a background rate above the bound. *)
Lemma pool3_violation_log :
  inhomogeneous_poisson_thinning_log (lamQ 3 2) pool3 false coins3
  = ([Exceeds 3 2], Ok (None, Rng [] [3#4; 1#3])).
Proof. vm_compute. reflexivity. Defined.

Lemma generate_log_announces_witness :
  announced (A := Q) [Generated 1; Generated 2] = seq 1 (Z.to_nat 2)
  /\ Forall (generate_line (A := Q) false) [Generated 1; Generated 2].
Proof. exact (generate_log_announces _ _ _ _ _ _ _ _ _ _ _ _ batch_pad_log). Defined.

Lemma thinning_log_spec_witness :
  Forall (fun msg => ~ violation (A := Q) msg)
         [Proposed (1%nat, 3%nat); Thinned (1%nat, 3%nat) "Hawkes processes"%string]
  /\ head [Proposed (A := Q) (1%nat, 3%nat);
           Thinned (1%nat, 3%nat) "Hawkes processes"%string]
     = Some (Proposed (shape kept1))
  /\ last [Proposed (A := Q) (1%nat, 3%nat);
           Thinned (1%nat, 3%nat) "Hawkes processes"%string]
     = Some (Thinned (shape kept1) (str (lamQ 1 2))).
Proof. exact (thinning_log_spec _ _ _ _ _ _ _ kept1_log). Defined.
