(* ===== verification/DrawLaws.v ===== *)
(** * DrawLaws: what the plotting functions draw

    The programs of [Draw] run against a library.

    - [run_sound], [run_agrees]: [run] finds a result exactly when the
      interpretation of the program returns it, so a run by evaluation is
      a run of the program, and every run that ends is found by
      evaluation.
    - [well_scoped]: every call uses only handles of objects that exist,
      of the right sort: a subplot is added to a figure, an image is shown
      on axes, a colour bar is given axes of its figure and an image shown
      on them.  [shown]: [plt.show()] was called.
    - [plot_3d_pointprocess_lam_f]: the calls of a returning run are
      [lam_f_script] ([plot_draws]); on every input the program ends
      within nineteen steps with the result of the function of [Plot],
      its calls are well scoped and the figure is shown exactly when the
      function returns ([plot_io_safe]); the result is the same whatever
      the library answers ([plot_any_library]).
    - [plot_3d_pointprocess_avg_lam]: with [tqdm] or [plot_ts] unbound it
      raises [NameError] and draws nothing ([avg_lam_needs_names]); with
      both bound it draws [avg_lam_script] ([avg_lam_draws]), whose curve
      is evaluated at the time [plot_ts] of the module whatever the time
      on the axis, and holds numbers only ([curve_finite]).
    - From the sampler to the screen: every row of a batch of [generate]
      is drawn to the end, within the bounds of the figure of a Hawkes
      intensity ([generate_draws]). *)

From ITree Require Import ITree ITreeFacts Events.State Events.StateFacts.
From Paco Require Import paco.
From Stdlib Require Import ZArith QArith Reals List Lia.
From stdpp Require Import base tactics list strings.
From S2P Require Import Prelude Scalar Float NdArray ArgSort Grid Region Rng Kernel Intensity Sampler.
From S2P Require Import Plot Draw Fixtures Excitation PlotLaws.

Local Close Scope Q_scope.
Local Open Scope draw_scope.

(** ** Runs *)

Section Runs.
Context {A St : Type} (answer : library A St).

Lemma run_sound {X : Type} fuel (t : itree (pltE A) X) st st' x :
  run answer fuel t st = Some (st', x) ->
  interp_state (matplotlib answer) t st ≈ Ret (st', x).
Proof.
  revert t st. induction fuel as [|fuel IH]; intros t st; [done |].
  intros Hrun. cbn in Hrun. rewrite (itree_eta t).
  destruct (observe t) as [r | t' | T e k].
  - injection Hrun as <- <-. by rewrite interp_state_ret.
  - rewrite interp_state_tau, tau_eutt. by apply IH.
  - destruct e. rewrite interp_state_vis. cbn.
    rewrite bind_ret_l. cbn. rewrite tau_eutt.
    rewrite (surjective_pairing (answer st c)). by apply IH.
Qed.

Lemma run_mono {X : Type} fuel fuel' (t : itree (pltE A) X) st r :
  fuel <= fuel' -> run answer fuel t st = Some r ->
  run answer fuel' t st = Some r.
Proof.
  revert fuel' t st. induction fuel as [|fuel IH]; intros fuel' t st Hle; [done |].
  destruct fuel' as [|fuel']; [lia |]. cbn.
  destruct (observe t) as [x | t' | T e k]; [done | apply IH; lia |].
  destruct e. apply IH. lia.
Qed.

(** Conversely, a program that returns is found by evaluation: by
    induction on the silent steps of its interpretation. *)
Lemma run_complete_from {X : Type} (u : itree void1 (St * X)) (r : St * X) :
  u ≈ Ret r ->
  forall (t : itree (pltE A) X) st,
    u ≅ interp_state (matplotlib answer) t st ->
    exists fuel, run answer fuel t st = Some r.
Proof.
  intros Hu. punfold Hu. red in Hu. cbn in Hu.
  remember (observe u) as ou eqn:Eu. remember (RetF r) as or eqn:Er.
  revert u Eu. induction Hu; intros w Ew t st Ht; try discriminate;
    rewrite (itree_eta w), <- Ew, unfold_interp_state in Ht.
  - injection Er as ->. exists 1. cbn.
    destruct (observe t) as [x | t' | T e k]; [| | destruct e; cbn in Ht;
      rewrite bind_ret_l in Ht]; apply eqit_inv in Ht; cbn in Ht; by subst.
  - destruct (observe t) as [x | t' | T e k] eqn:Et;
      [| | destruct e; cbn in Ht; rewrite bind_ret_l in Ht];
      apply eqit_inv in Ht; cbn in Ht; [done | |];
      destruct (IHHu Er t1 eq_refl _ _ Ht) as [fuel Hf];
      exists (S fuel); cbn; by rewrite Et.
Qed.

(** Evaluation and interpretation agree: [run] finds a result exactly
    when the interaction tree returns it. *)
Theorem run_agrees {X : Type} (t : itree (pltE A) X) st (r : St * X) :
  (exists fuel, run answer fuel t st = Some r)
  <-> interp_state (matplotlib answer) t st ≈ Ret r.
Proof.
  split.
  - intros [fuel Hrun]. destruct r. by eapply run_sound.
  - intros Hu. by apply (run_complete_from _ _ Hu).
Qed.

End Runs.

Lemma run_drawn {A X : Type} fuel (t : itree (pltE A) X) r :
  run record fuel t [] = Some r -> drawn t ≈ Ret r.
Proof. destruct r. apply run_sound. Qed.

(** ** Handles in scope *)

Section Scope.
Context {A : Type}.
Implicit Types (c : plt.command A) (log : list (plt.command A)).

Definition is_figure log (h : handle) : bool :=
  match log !! h with Some (plt.figure _) => true | _ => false end.

Definition is_axes log (h : handle) : bool :=
  match log !! h with Some (plt.add_subplot _ _) => true | _ => false end.

Definition is_axes_of log (fig h : handle) : bool :=
  match log !! h with
  | Some (plt.add_subplot fig' _) => bool_decide (fig' = fig)
  | _ => false
  end.

Definition is_image_on log (ax h : handle) : bool :=
  match log !! h with
  | Some (plt.imshow ax' _ _) => bool_decide (ax' = ax)
  | _ => false
  end.

(** The call [c] after the calls [log]. *)
Definition scoped log c : bool :=
  match c with
  | plt.figure _ | plt.show => true
  | plt.add_subplot fig _ => is_figure log fig
  | plt.imshow ax _ _ | plt.set_xticks ax _ | plt.set_xticklabels ax _
  | plt.set_yticks ax _ | plt.set_yticklabels ax _ | plt.set_title ax _ _ _
  | plt.plot ax _ _ | plt.scatter ax _ _ _ _ => is_axes log ax
  | plt.colorbar fig im ax _ => is_axes_of log fig ax && is_image_on log ax im
  end.

Fixpoint scoped_from log (calls : list (plt.command A)) : bool :=
  match calls with
  | [] => true
  | c :: calls => scoped log c && scoped_from (log ++ [c]) calls
  end.

Definition well_scoped log : bool := scoped_from [] log.

(** [plt.show()] was called. *)
Definition shown log : bool :=
  existsb (fun c => match c with plt.show => true | _ => false end) log.

End Scope.

(** ** The two images *)

Section Images.
Context {A : Type} `{Scalar A} {L : Type} `{!Intensity A L}.
Implicit Types (points : mat A) (lam : L) (plot_ts : A) (T x y : interval A)
  (S : list (interval A)) (ngrid : Z) (log : list (plt.command A)).

(** The calls of one panel that is drawn to the end: [ax] is the handle of
    its axes, and its image is made right after. *)
Definition panel_script (fig ax : handle) (position : Z) (X : mat (float R))
    (cmap : option string) x y ngrid (title : string) plot_ts
  : list (plt.command A) :=
  [plt.add_subplot fig position;
   plt.imshow ax X cmap;
   plt.set_xticks ax [sofZ 0; sofZ (ngrid - 1)];
   plt.set_xticklabels ax [lo x; hi x];
   plt.set_yticks ax [sofZ 0; sofZ (ngrid - 1)];
   plt.set_yticklabels ax [lo y; hi y];
   plt.colorbar fig (Datatypes.S ax) ax (4 # 5);
   plt.set_title ax title (Some plot_ts) 18].

(** The calls of a figure that is shown. *)
Definition lam_f_script plot_ts ngrid (fig : figure A) : list (plt.command A) :=
  plt.figure (12, 4)%Z
  :: panel_script 0 1 121 (floats (lam_image fig)) None
       (xticks fig) (yticks fig) ngrid "$\lambda(%.1f, \cdot)$" plot_ts
  ++ panel_script 0 9 122 (f_image fig) (Some "magma"%string)
       (xticks fig) (yticks fig) ngrid "$f(%.1f, \cdot)$" plot_ts
  ++ [plt.show].

(** What a run leaves: the whole script when the function returns, and
    otherwise calls in scope that do not show the figure. *)
Definition canvas_after plot_ts ngrid (r : res (figure A)) log : Prop :=
  match r with
  | Ok fig => log = lam_f_script plot_ts ngrid fig
  | Raise _ => well_scoped log = true /\ shown log = false
  end.

(** The program and the function of [Plot] side by side, stage by stage;
    [tac] closes a goal in which the outcome of every stage is known. *)
Ltac stage tac r := destruct r; cbn [try rbind rmap fst snd]; [| tac].

Ltac plot_stages tac :=
  unfold plot_3d_pointprocess_lam_f_io, plot_3d_pointprocess_lam_f;
  match goal with |- context [space_grid ?a ?b] => stage tac (space_grid a b) end;
  match goal with |- context [past ?a ?b] => stage tac (past a b) end;
  match goal with |- context [evaluate ?l ?t ?a ?b ?c] => stage tac (evaluate l t a b c) end;
  match goal with |- context [linspace ?a ?b ?c] => stage tac (linspace a b c) end;
  match goal with |- context [rtraverse ?f ?l] => stage tac (rtraverse f l) end;
  match goal with |- context [image ?n ?l] => stage tac (image n l) end;
  match goal with
  | |- context [tick_labels ?S] =>
      unfold tick_labels;
      destruct S as [|? [|? ?]]; cbn [lookup list_lookup rbind rmap]; [tac.. |]
  end;
  match goal with |- context [image ?n ?l] => stage tac (image n l) end;
  tac.

(** Eighteen calls and the return: nineteen steps are enough on every
    input, whatever the library answers. *)
Lemma plot_io_result {St : Type} (answer : library A St) st
    points lam plot_ts T S ngrid :
  exists st',
    run answer 19 (plot_3d_pointprocess_lam_f_io points lam plot_ts T S ngrid) st
    = Some (st', rmap (fun _ => tt)
                   (plot_3d_pointprocess_lam_f points lam plot_ts T S ngrid)).
Proof. plot_stages ltac:(eexists; reflexivity). Qed.

Lemma plot_io_record points lam plot_ts T S ngrid :
  exists log,
    run record 19 (plot_3d_pointprocess_lam_f_io points lam plot_ts T S ngrid) []
    = Some (log, rmap (fun _ => tt)
                   (plot_3d_pointprocess_lam_f points lam plot_ts T S ngrid))
    /\ canvas_after plot_ts ngrid
         (plot_3d_pointprocess_lam_f points lam plot_ts T S ngrid) log.
Proof. plot_stages ltac:(by (eexists; split; [reflexivity |])). Qed.

(** C32. The function draws the figure it computes: when
    [plot_3d_pointprocess_lam_f] returns [fig], the calls to matplotlib
    are those of [lam_f_script], in that order: the figure, the panel of
    the intensity, the panel of the density in the colour map magma, both
    with the ticks at the first and the last pixel labelled with the ends
    of [S[0]] and [S[1]], and [plt.show()]. *)
Theorem plot_draws points lam plot_ts T S ngrid fig :
  plot_3d_pointprocess_lam_f points lam plot_ts T S ngrid = Ok fig ->
  drawn (plot_3d_pointprocess_lam_f_io points lam plot_ts T S ngrid)
  ≈ Ret (lam_f_script plot_ts ngrid fig, Ok tt).
Proof.
  intros Hfig.
  destruct (plot_io_record points lam plot_ts T S ngrid) as (log & Hrun & Hlog).
  apply run_drawn in Hrun. rewrite Hfig in Hrun, Hlog. cbn in Hlog.
  by subst log.
Qed.

(** C33. Drawing adds no failure and hides none: on every input the program
    ends within nineteen steps, with the result of
    [plot_3d_pointprocess_lam_f] (the same exception when that raises);
    every call it made uses handles of objects made before, of the right
    sort; and [plt.show()] was called exactly when the function
    returns. *)
Theorem plot_io_safe points lam plot_ts T S ngrid :
  exists log,
    run record 19 (plot_3d_pointprocess_lam_f_io points lam plot_ts T S ngrid) []
    = Some (log, rmap (fun _ => tt)
                   (plot_3d_pointprocess_lam_f points lam plot_ts T S ngrid))
    /\ well_scoped log = true
    /\ shown log
       = is_ok (plot_3d_pointprocess_lam_f points lam plot_ts T S ngrid).
Proof.
  destruct (plot_io_record points lam plot_ts T S ngrid) as (log & Hrun & Hlog).
  exists log. split; [exact Hrun |].
  destruct (plot_3d_pointprocess_lam_f _ _ _ _ _ _) as [fig|e]; cbn in Hlog.
  - by subst log.
  - by destruct Hlog as [-> ->].
Qed.

(** What the function returns or raises does not depend on matplotlib:
    whatever handles the library answers and whatever state it starts in,
    the program ends with the result of [plot_3d_pointprocess_lam_f]. *)
Theorem plot_any_library {St : Type} (answer : library A St) st
    points lam plot_ts T S ngrid :
  exists st',
    interp_state (matplotlib answer)
      (plot_3d_pointprocess_lam_f_io points lam plot_ts T S ngrid) st
    ≈ Ret (st', rmap (fun _ => tt)
                  (plot_3d_pointprocess_lam_f points lam plot_ts T S ngrid)).
Proof.
  destruct (plot_io_result answer st points lam plot_ts T S ngrid) as [st' Hrun].
  exists st'. by eapply run_sound.
Qed.

End Images.

(** ** The average intensity *)

Section Average.
Context {A : Type} `{Scalar A} {L : Type} `{!Intensity A L}.
Implicit Types (points : mat A) (lam : L) (T : interval A)
  (S : list (interval A)) (ngrid : Z) (ns : namespace A).

(** The curve that is drawn when [plot_ts] is bound to [p]: for each time
    [t] of the grid, the mean over space of the intensity at time [p],
    given the events before [t]. *)
Definition curve points lam (p : A) (ss : list (list A)) (ts : list A)
  : res (list (float A)) :=
  rtraverse (fun t => h <- past points t;;
                      vs <- evaluate lam p h.1 h.2 ss;;
                      Ok (np_mean vs))%res ts.

Definition avg_lam_script T (ts : list A) (lamvals : list (float A))
    (times : list A) (n : nat)
  : list (plt.command A) :=
  [plt.figure (6, 4)%Z;
   plt.add_subplot 0 111;
   plt.plot 1 ts lamvals;
   plt.set_xticks 1 [lo T; hi T];
   plt.set_xticklabels 1 [lo T; hi T];
   plt.set_title 1 "Average $\lambda$" None 18;
   plt.scatter 1 times (replicate n s0) "red" 10;
   plt.show].

(** In the module as written the program is the function of [Plot]. *)
Lemma avg_lam_module points lam T S ngrid :
  drawn (plot_3d_pointprocess_avg_lam_io module_namespace points lam T S ngrid)
  ≈ Ret ([], rmap (fun _ => tt)
               (plot_3d_pointprocess_avg_lam points lam T S ngrid)).
Proof.
  apply (run_drawn 1).
  unfold plot_3d_pointprocess_avg_lam_io, plot_3d_pointprocess_avg_lam.
  destruct (linspace _ _ _); cbn [try rbind rmap]; [| done].
  by destruct (space_grid _ _).
Qed.

(** With one sample or more per side neither grid is empty. *)
Lemma grids_total T S ngrid :
  (1 <= ngrid)%Z ->
  exists t ts s ss,
    linspace (lo T) (hi T) ngrid = Ok (t :: ts)
    /\ space_grid S ngrid = Ok (s :: ss).
Proof.
  intros Hn.
  destruct (linspace_total (lo T) (hi T) ngrid) as [ts Hts]; [lia |].
  destruct (space_grid_total S ngrid) as [ss Hss]; [lia |].
  pose proof (linspace_length _ _ _ _ Hts) as Hlt.
  destruct (space_grid_shape _ _ _ Hss) as [Hls _].
  assert (Z.to_nat ngrid ^ length S <> 0) by (apply Nat.pow_nonzero; lia).
  destruct ts as [|t ts]; [cbn in Hlt; lia |].
  destruct ss as [|s ss]; [cbn in Hls; lia |]. eauto 10.
Qed.

(** C39. Both names are needed: in a module that leaves [tqdm] or [plot_ts]
    unbound, as [src/stppg.py] does, the function raises [NameError]
    before it draws anything, for every [ngrid] of one or more and every
    array of points with a column of times. *)
Theorem avg_lam_needs_names ns points lam T S ngrid :
  (1 <= ngrid)%Z -> mat_wf points -> 0 < ncols points ->
  tqdm ns = false \/ plot_ts ns = None ->
  drawn (plot_3d_pointprocess_avg_lam_io ns points lam T S ngrid)
  ≈ Ret ([], Raise NameError).
Proof.
  intros Hn Hwf Hw Hns. apply (run_drawn 1).
  destruct (grids_total T S ngrid Hn) as (t & ts & s & ss & Hts & Hss).
  unfold plot_3d_pointprocess_avg_lam_io. rewrite Hts, Hss. cbn [try].
  destruct (tqdm ns); cbn [try name]; [| done].
  destruct Hns as [? | Hp]; [done |]. cbn [rtraverse].
  unfold lamval_at_t_in at 1. by rewrite past_ok, Hp.
Qed.

Lemma lamval_at_t_bound (b : bool) (p : A) points lam ss t :
  lamval_at_t_in (Namespace b (Some p)) points lam ss t
  = (h <- past points t;; evaluate lam p h.1 h.2 ss)%res.
Proof. reflexivity. Qed.

Lemma lamvals_curve (b : bool) (p : A) points lam ss ts :
  rtraverse (fun t => rmap np_mean
                        (lamval_at_t_in (Namespace b (Some p)) points lam ss t))
            ts
  = curve points lam p ss ts.
Proof.
  apply rtraverse_ext, Forall_forall. intros t _. rewrite lamval_at_t_bound.
  by destruct (past points t).
Qed.

(** C40. With both names bound the function draws the curve [curve]: the
    figure, the line through the averages over the times [ts], the ticks
    at the ends of [T], the title, the events as red dots on the axis,
    and [plt.show()].  The value at a time [t] of the grid is the mean of
    the intensity at the fixed time [plot_ts] of the module, given the
    events before [t]. *)
Theorem avg_lam_draws (p : A) points lam T S ngrid ts ss lamvals times :
  linspace (lo T) (hi T) ngrid = Ok ts ->
  space_grid S ngrid = Ok ss ->
  curve points lam p ss ts = Ok lamvals ->
  column 0 points = Ok times ->
  drawn (plot_3d_pointprocess_avg_lam_io (Namespace true (Some p)) points lam
           T S ngrid)
  ≈ Ret (avg_lam_script T ts lamvals times (nrows points), Ok tt).
Proof.
  intros Hts Hss Hc Ht. apply (run_drawn 9).
  unfold plot_3d_pointprocess_avg_lam_io.
  rewrite Hts, Hss. cbn [try name tqdm].
  by rewrite lamvals_curve, Hc, Ht.
Qed.

(** The mean of no value is never drawn: the space grid is empty only
    when the time grid is, so every point of the curve is a number. *)
Lemma curve_finite (p : A) points lam S ngrid ss ts lamvals :
  space_grid S ngrid = Ok ss -> ss <> [] ->
  curve points lam p ss ts = Ok lamvals ->
  Forall (fun y => finite y <> None) lamvals.
Proof.
  intros Hss Hne Hc%rtraverse_ok_Forall2.
  eapply Forall2_Forall_r; [exact Hc |]. apply Forall_forall.
  intros t _ y Hy. res_inv.
  match goal with Hev : evaluate _ _ _ _ _ = Ok ?vs |- _ =>
    apply evaluate_length in Hev; unfold np_mean; rewrite fdiv_finite; [done |];
    destruct ss; [done |]; destruct vs; [done | cbn; lia]
  end.
Qed.

End Average.

(** ** From the sampler to the screen *)

Section Batch.
Context {K : Type} `{!Kernel R K} `{!Excitation K} `{!ArgSort R}.

(** Sampler, kernel, intensity and plotting function together: every row
    of a batch that [generate] returns over a proper box in two space
    dimensions is drawn to the end, and the figure that is shown obeys
    the bounds: the intensity image is nowhere below the background rate
    and the density image lies between zero and the intensity image. *)
Theorem generate_draws (lam : HawkesLam.t R K) fuel (T x y : interval R)
    batch_size min_n_points verbose g data szs g' (plot_ts : R) ngrid :
  complete (HawkesLam.kernel lam) -> excitatory (HawkesLam.kernel lam) ->
  (0 <= HawkesLam.mu lam)%R ->
  Forall proper_interval [T; x; y] -> tape_wf g ->
  (0 < plot_ts)%R -> (2 <= ngrid)%Z ->
  generate fuel lam T [x; y] batch_size min_n_points verbose g
  = Ok (data, szs, g') ->
  Forall (fun points =>
            exists fig evals I,
              drawn (plot_3d_pointprocess_lam_f_io points lam plot_ts T
                       [x; y] ngrid)
              ≈ Ret (lam_f_script plot_ts ngrid fig, Ok tt)
              /\ image ngrid evals = Ok (lam_image fig)
              /\ image ngrid (density evals (Finite I)) = Ok (f_image fig)
              /\ Forall (Rle (HawkesLam.mu lam)) evals
              /\ Forall2 (fun f e => within 0 e f)
                         (density evals (Finite I)) evals)
         data.
Proof.
  intros Hk He Hmu Hbox Hwf Hts Hn Hrun.
  eapply Forall_impl;
    [exact (generate_plot_bounds lam _ _ _ _ _ _ _ _ _ _ _ _ _
              Hk He Hmu Hbox Hwf Hts Hn Hrun) |].
  intros points (fig & evals & I & Hfig & Hrest). exists fig, evals, I.
  split; [| exact Hrest].
  destruct (plot_io_record points lam plot_ts T [x; y] ngrid)
    as (log & Hlog%run_drawn & Hout).
  rewrite Hfig in Hlog, Hout. cbn in Hout. by subst log.
Qed.

End Batch.

(** ** Concrete runs *)

Local Open Scope Q_scope.

(** One side instead of two: the intensity is evaluated on the three
    points of the grid, the figure and its first axes are made, and the
    reshape of three values to three by three raises.  The figure is never
    shown. *)
Example figure_left_open :
  drawn (plot_3d_pointprocess_lam_f_io padding_only (lamQ 1 2) 1 unit_T
           [(0, 1)] 3)
  ≈ Ret ([plt.figure (12, 4)%Z; plt.add_subplot 0%nat 121], Raise ValueError).
Proof. by apply (run_drawn 3). Qed.

(** One sample per side: the function returns, and shows a density that is
    the single pixel NaN. *)
Example nan_image_drawn :
  drawn (plot_3d_pointprocess_lam_f_io padding_only (lamQ 1 2) 1 unit_T unit_S 1)
  ≈ Ret (lam_f_script 1 1 fig1, Ok tt).
Proof. by apply (run_drawn 19). Qed.

Lemma plot_draws_witness :
  drawn (plot_3d_pointprocess_lam_f_io padding_only (lamQ 1 2) 1 unit_T unit_S 3)
  ≈ Ret (lam_f_script 1 3 fig3, Ok tt).
Proof. exact (plot_draws padding_only (lamQ 1 2) 1 unit_T unit_S 3 fig3 fig3_run). Defined.

Lemma avg_lam_needs_names_witness :
  drawn (plot_3d_pointprocess_avg_lam_io module_namespace pool3 (lamQ 1 2)
           unit_T unit_S 3)
  ≈ Ret ([], Raise NameError).
Proof.
  apply avg_lam_needs_names;
    [lia | by apply mat_wfb_spec | cbn; lia | by left].
Defined.

Lemma avg_lam_draws_witness :
  drawn (plot_3d_pointprocess_avg_lam_io (Namespace true (Some 1)) pool3
           (lamQ 1 2) unit_T unit_S 2)
  ≈ Ret (avg_lam_script unit_T [0; 1] [Finite (4 # 4); Finite (4 # 4)]
           [1 # 4; 1 # 2; 3 # 4] 3,
         Ok tt).
Proof.
  by apply (avg_lam_draws 1 pool3 (lamQ 1 2) unit_T unit_S 2 _ [[0; 0]; [0; 1]; [1; 0]; [1; 1]]).
Defined.
