(* ===== verification/Unbounded.v ===== *)
(** * Unbounded: the [while] loop of [generate] without fuel

    [generate_loop] of [Sampler.v] unrolls [while b < batch_size] a bounded
    number of times.  Here the loop is what the source writes: an
    iteration with no bound, as an interaction tree ([ITree.iter]).  The
    tree has no event: the random draws are taken from the tape, so one
    pass through the body is a function on the loop state.

    - [while cond step] is the loop on any state whose body may raise, and
      [while_fuel] its bounded unrolling; a measure that every pass
      decreases gives the fuel that makes both agree ([while_fuel_enough]);
    - the loop of [generate] is the instance whose state is the pair of
      the local variables and the tape, and whose measure is the number of
      Poisson counts left on the tape: the unbounded loop returns what
      [generate_loop] computes with one unit of fuel more than that
      number; no run on a finite tape diverges;
    - on an endless source ([Endless]) the loop can diverge:
      [generate_stream] is [generate] on the source, it returns on a fair
      source and is the silent divergence [ITree.spin] on a starved one
      (by parameterised coinduction, on an invariant of the loop). *)

From ITree Require Import ITree ITreeFacts.
From Stdlib Require Import ZArith QArith Lia List.
From S2P Require Import Prelude Scalar NdArray ArgSort Region Rng Kernel Intensity.
From S2P Require Import Sampler Tape Fixtures Thinning Proposal Generate Endless.

Local Close Scope Q_scope.

(** ** Loops whose body may raise *)

Section While.
Context {E : Type -> Type} {I : Type}.
Context (cond : I -> bool) (step : I -> res I).

(** One pass: [inl] to go round again, [inr] to leave, with the state or
    with the exception the body raised. *)
Definition while_body (i : I) : itree E (I + res I) :=
  if cond i then
    match step i with
    | Ok i' => Ret (inl i')
    | Raise e => Ret (inr (Raise e))
    end
  else Ret (inr (Ok i)).

Definition while : I -> itree E (res I) := ITree.iter while_body.

(** The loop unrolled at most [fuel] times. *)
Fixpoint while_fuel (fuel : nat) (i : I) : res I :=
  if cond i then
    match fuel with
    | O => Raise OutOfFuel
    | S fuel' =>
        match step i with
        | Ok i' => while_fuel fuel' i'
        | Raise e => Raise e
        end
    end
  else Ok i.

Lemma unfold_while (i : I) :
  while i ≈ (if cond i then
               match step i with
               | Ok i' => while i'
               | Raise e => Ret (Raise e)
               end
             else Ret (Ok i)).
Proof.
  unfold while at 1. rewrite unfold_iter. unfold while_body.
  destruct (cond i); [|rewrite bind_ret_l; reflexivity].
  destruct (step i) as [i'|e]; rewrite bind_ret_l; [|reflexivity].
  rewrite tau_eutt. reflexivity.
Qed.

Lemma while_fuel_eq (fuel : nat) (i : I) :
  while_fuel fuel i
  = if cond i then
      match fuel with
      | O => Raise OutOfFuel
      | S fuel' =>
          match step i with
          | Ok i' => while_fuel fuel' i'
          | Raise e => Raise e
          end
      end
    else Ok i.
Proof. destruct fuel; reflexivity. Qed.

(** A measure that every pass decreases bounds the number of passes: with
    more fuel than the measure of the initial state, the bounded loop
    computes what the unbounded loop returns. *)
Section Measure.
Context (m : I -> nat).
Context (Hm : forall i i', cond i = true -> step i = Ok i' -> m i' < m i).

Lemma while_fuel_enough (fuel : nat) : forall i,
  m i < fuel -> while i ≈ Ret (while_fuel fuel i).
Proof.
  induction fuel as [|fuel IH]; intros i Hlt; [lia |].
  rewrite unfold_while, while_fuel_eq.
  destruct (cond i) eqn:Ec; [|reflexivity].
  destruct (step i) as [i'|e] eqn:Es; [|reflexivity].
  apply IH. specialize (Hm i i' Ec Es). lia.
Qed.

End Measure.

(** A bounded unrolling that did not run out of fuel is the outcome of the
    loop. *)
Lemma while_returns (fuel : nat) : forall i,
  while_fuel fuel i <> Raise OutOfFuel -> while i ≈ Ret (while_fuel fuel i).
Proof.
  induction fuel as [|fuel IH]; intros i Hne; rewrite unfold_while;
    rewrite while_fuel_eq in Hne |- *;
    (destruct (cond i); [|reflexivity]); [congruence |].
  destruct (step i) as [i'|e]; [|reflexivity]. apply IH, Hne.
Qed.

(** A loop that keeps an invariant under which the condition holds and the
    body returns never ends, whatever follows it. *)
Section Diverge.
Context (P : I -> Prop).
Context (HP : forall i, P i ->
                cond i = true /\ exists i', step i = Ok i' /\ P i').

Lemma while_spin {X : Type} (k : res I -> itree E X) : forall i,
  P i -> ITree.bind (while i) k ≈ ITree.spin.
Proof.
  einit. ecofix CIH. intros i Hi.
  destruct (HP i Hi) as (Hc & i' & Hs & Hi').
  unfold while. rewrite unfold_iter. unfold while_body.
  rewrite Hc, Hs, bind_ret_l, bind_tau, (itree_eta ITree.spin). cbn.
  etau.
Qed.

End Diverge.

End While.

(** ** The loop of [generate] *)

Section GenerateWhile.
Context {A : Type} `{ArgSort A} {L : Type} `{!Intensity A L}.
Context (lam : L) (T : interval A) (S : list (interval A)).
Context (batch_size min_n_points : Z) (verbose : bool).

(** The local variables of [generate] and the random tape. *)
Definition loop_state : Type := gen_state A * rng A.

(** [b < batch_size]. *)
Definition loop_cond (x : loop_state) : bool :=
  (Z.of_nat (b (fst x)) <? batch_size)%Z.

(** The body of the loop: both stages, then the bookkeeping. *)
Definition loop_step (x : loop_state) : res loop_state :=
  match homogeneous_poisson_sampling lam T S (snd x) with
  | Raise e => Raise e
  | Ok (homo_points, g1) =>
      match inhomogeneous_poisson_thinning lam homo_points verbose g1 with
      | Raise e => Raise e
      | Ok (points, g2) => Ok (gen_next min_n_points (fst x) points, g2)
      end
  end.

(** [while b < batch_size: ...]. *)
Definition generate_while (st : gen_state A) (g : rng A)
  : itree void1 (res loop_state) :=
  while loop_cond loop_step (st, g).

(** The padding loop and the [return], after the [while]. *)
Definition finish (r : res loop_state)
  : res (list (mat A) * list nat * rng A) :=
  match r with
  | Raise e => Raise e
  | Ok (st, g') =>
      match pack batch_size st with
      | Ok data => Ok (data, sizes st, g')
      | Raise e => Raise e
      end
  end.

(** [generate] as the source writes it. *)
Definition generate_unbounded (g : rng A)
  : itree void1 (res (list (mat A) * list nat * rng A)) :=
  ITree.map finish (generate_while gen_init g).

(** The bounded loop of [Sampler.v] is the bounded unrolling of this
    loop. *)
Lemma generate_loop_while (fuel : nat) : forall st g,
  generate_loop fuel lam T S batch_size min_n_points verbose st g
  = while_fuel loop_cond loop_step fuel (st, g).
Proof.
  induction fuel as [|fuel IH]; intros st g;
    rewrite generate_loop_eq, while_fuel_eq; unfold loop_cond, loop_step; cbn;
    destruct (Z.of_nat (b st) <? batch_size)%Z; try reflexivity.
  destruct (homogeneous_poisson_sampling lam T S g) as [[homo g1]|];
    [|reflexivity].
  destruct (inhomogeneous_poisson_thinning lam homo verbose g1)
    as [[points g2]|]; [|reflexivity].
  apply IH.
Qed.

Lemma generate_finish (fuel : nat) (g : rng A) :
  generate fuel lam T S batch_size min_n_points verbose g
  = finish (generate_loop fuel lam T S batch_size min_n_points verbose
                          gen_init g).
Proof.
  unfold generate, finish, mbind, lift, mret.
  destruct (generate_loop _ _ _ _ _ _ _ _ g) as [[st g']|]; [|reflexivity].
  destruct (pack batch_size st); reflexivity.
Qed.

(** Every pass takes a Poisson count from the tape. *)
Lemma loop_step_counts (x x' : loop_state) :
  loop_cond x = true -> loop_step x = Ok x' ->
  length (counts (snd x')) < length (counts (snd x)).
Proof.
  destruct x as [st g]. unfold loop_cond, loop_step. cbn. intros Hc Hs.
  destruct (homogeneous_poisson_sampling lam T S g) as [[homo g1]|] eqn:Es;
    [|discriminate].
  destruct (inhomogeneous_poisson_thinning lam homo verbose g1)
    as [[points g2]|] eqn:Et; [|discriminate].
  injection Hs as <-. cbn. apply Z.ltb_lt in Hc.
  pose proof (attempt_counts _ _ _ _ _ _ _ _ _ _
                (attempt_pass lam T S batch_size min_n_points verbose
                   st g homo g1 points g2 Hc Es Et)).
  lia.
Qed.

(** The unbounded loop returns what the bounded loop computes with more
    fuel than there are counts on the tape. *)
Lemma generate_while_run (fuel : nat) st g :
  length (counts g) < fuel ->
  generate_while st g
  ≈ Ret (generate_loop fuel lam T S batch_size min_n_points verbose st g).
Proof.
  intros Hlt. rewrite generate_loop_while. unfold generate_while.
  apply (while_fuel_enough loop_cond loop_step
           (fun x => length (counts (snd x))) loop_step_counts fuel (st, g)).
  exact Hlt.
Qed.

End GenerateWhile.

(** ** The loop of [generate] on an endless source *)

Section GenerateStream.
Context {A : Type} `{ArgSort A} {L : Type} `{!Intensity A L}.
Context (lam : L) (T : interval A) (S : list (interval A)).
Context (batch_size min_n_points : Z) (verbose : bool).

(** The local variables of [generate] and the position in the source. *)
Definition stream_state : Type := gen_state A * pos.

Definition stream_cond (x : stream_state) : bool :=
  (Z.of_nat (b (fst x)) <? batch_size)%Z.

(** The body of the loop at the position reached. *)
Definition stream_step (src : source A) (x : stream_state) : res stream_state :=
  match attempt_at lam T S verbose src (snd x) with
  | Ok (points, p') => Ok (gen_next min_n_points (fst x) points, p')
  | Raise e => Raise e
  end.

Definition finish_stream (r : res stream_state)
  : res (list (mat A) * list nat * pos) :=
  match r with
  | Raise e => Raise e
  | Ok (st, p') =>
      match pack batch_size st with
      | Ok data => Ok (data, sizes st, p')
      | Raise e => Raise e
      end
  end.

(** [generate] on the source, as the source code writes the loop. *)
Definition generate_stream (src : source A)
  : itree void1 (res (list (mat A) * list nat * pos)) :=
  ITree.map finish_stream
    (while stream_cond (stream_step src) (gen_init, (0, 0))).

Lemma run_endless_while (src : source A) (fuel : nat) : forall st p,
  run_endless lam T S batch_size min_n_points verbose fuel src st p
  = while_fuel stream_cond (stream_step src) fuel (st, p).
Proof.
  induction fuel as [|fuel IH]; intros st p; rewrite while_fuel_eq;
    unfold stream_cond, stream_step; cbn;
    destruct (Z.of_nat (b st) <? batch_size)%Z; try reflexivity.
  destruct (attempt_at lam T S verbose src p) as [[points p']|];
    [|reflexivity].
  apply IH.
Qed.

(** When the run on the source has fuel enough, the loop without bound
    returns what it returns. *)
Lemma generate_stream_run (src : source A) (fuel : nat) st p' data :
  run_endless lam T S batch_size min_n_points verbose fuel src gen_init (0, 0)
  = Ok (st, p') ->
  pack batch_size st = Ok data ->
  generate_stream src ≈ Ret (Ok (data, sizes st, p')).
Proof.
  intros Hrun Hpack. unfold generate_stream. rewrite run_endless_while in Hrun.
  assert (Hw : while (E := void1) stream_cond (stream_step src)
                 (gen_init, (0, 0)) ≈ Ret (Ok (st, p'))).
  { rewrite <- Hrun. apply while_returns. rewrite Hrun. discriminate. }
  rewrite Hw. unfold ITree.map. rewrite bind_ret_l. cbn. rewrite Hpack.
  reflexivity.
Qed.

(** Liveness, without fuel: on a fair source, in two space dimensions and
    for a non-negative [batch_size], the loop of [generate] written without
    bound ends and returns a batch of [batch_size] sequences. *)
Theorem fair_stream_returns (src : source A) :
  fair lam T S min_n_points verbose src ->
  length S = 2 -> (0 <= batch_size)%Z ->
  exists data szs p',
    generate_stream src ≈ Ret (Ok (data, szs, p'))
    /\ length data = Z.to_nat batch_size.
Proof.
  intros Hfair HS Hb.
  destruct (fair_endless_returns lam T S batch_size min_n_points verbose src
              Hfair HS Hb) as (fuel & st & p' & Hrun & Hpack & Hlen).
  exists (map (pad (max_len st)) (points_list st)), (sizes st), p'.
  split; [exact (generate_stream_run src fuel st p' _ Hrun Hpack) |].
  rewrite length_map. exact Hlen.
Qed.

(** The states from which a starved source never lets the loop out. *)
Definition starving (src : source A) (x : stream_state) : Prop :=
  (Z.of_nat (b (fst x)) < batch_size)%Z
  /\ exists k, position lam T S verbose src k = Ok (snd x).

Lemma starving_step (src : source A) :
  starved lam T S min_n_points verbose src ->
  forall x, starving src x ->
    stream_cond x = true
    /\ exists x', stream_step src x = Ok x' /\ starving src x'.
Proof.
  intros Hst [st p] [Hb [k Hk]]. cbn in Hb, Hk.
  split; [apply Z.ltb_lt, Hb |].
  destruct (Hst k) as (points & Ho & Hr).
  apply outcome_inv in Ho as (p0 & p1 & Hp0 & Ha & Hp1).
  rewrite Hk in Hp0. injection Hp0 as <-.
  exists (st, p1). unfold stream_step. cbn. rewrite Ha.
  rewrite (gen_next_rejected min_n_points st points Hr).
  split; [reflexivity |]. split; [exact Hb | exists (Datatypes.S k); exact Hp1].
Qed.

(** C21. Divergence: on a starved source and for a positive [batch_size] the
    loop of [generate] written without bound never ends: it is the silent
    divergence. *)
Theorem starved_spins (src : source A) :
  starved lam T S min_n_points verbose src -> (0 < batch_size)%Z ->
  generate_stream src ≈ ITree.spin.
Proof.
  intros Hst Hb. unfold generate_stream, ITree.map.
  apply (while_spin stream_cond (stream_step src) (starving src)
           (starving_step src Hst)).
  split; [exact Hb | exists 0; reflexivity].
Qed.

End GenerateStream.

(** ** Concrete instance *)

Lemma fair_stream_returns_witness :
  exists data szs p',
    generate_stream (lamQ 1%Q 2%Q) unit_T unit_S 2 1 false steady
    ≈ Ret (Ok (data, szs, p'))
    /\ length data = Z.to_nat 2.
Proof.
  apply fair_stream_returns; [exact steady_fair | reflexivity | lia].
Defined.

Lemma starved_spins_witness :
  generate_stream (lamQ 1%Q 2%Q) unit_T unit_S 2 1 false barren ≈ ITree.spin.
Proof. apply starved_spins; [exact barren_starved | lia]. Defined.
