(* ===== verification/Ieee.v ===== *)
(** * Ieee: the kernels, the intensity and the thinning loop on floats

    [Kernel], [Intensity] and [Sampler] read the arithmetic of
    [src/stppg.py] as the arithmetic of the numbers.  numpy computes on
    floats: a division by zero is an infinity or a NaN, and these values
    travel through the rest of the expression.  The program meets them at
    one place.  The proposals are sorted by time with a non-strict order,
    so a proposal can carry the time of a retained event; then
    [delta_t = t - his_t] has an entry zero and the kernel divides by it.

    This file gives the same lines of the source a second reading, in the
    arithmetic of [Float]:

    - [std_val_float], [gauss_val_float], [sv_val_float]: the expressions
      the standard, the Gaussian and the spatially variant kernel return,
      every operation an operation on floats; [std_nu_float],
      [gauss_nu_float], [sv_nu_float]: their [nu];
    - [mixture_nu_float]: the loop of the two mixture classes, with
      [np_add_float] and [np_scale_float] for [+=] and [w[k] * ...];
    - [FloatKernel]: a kernel with such a reading of its [nu];
    - [hawkes_value_float]: [HawkesLam.value], with [np.sum] and [+] on
      floats;
    - [FloatIntensity]: an intensity with such a reading of its [value];
    - [thin_step_float], [thin_loop_float] and
      [inhomogeneous_poisson_thinning_float]: the thinning loop, whose
      tests [lam_value > lam_bar] and [lam_value >= D * lam_bar] compare
      floats;
    - [generate_loop_float] and [generate_float]: [generate] over that
      thinning.

    The arguments (times, locations, parameters, the bound) are finite
    floats, as the sampler produces them.  [IeeeLaws] proves that the two
    readings agree wherever no division by zero occurs, and what the
    program does where one occurs. *)

From Stdlib Require Import Reals Lra.
From Stdlib Require Import ZArith.
From stdpp Require Import base tactics list.
From S2P Require Import Prelude Scalar Float NdArray ArgSort Region Rng Kernel.
From S2P Require Import Intensity Sampler KernelLaws.

Local Open Scope res_scope.

(** ** The kernels *)

(** A kernel whose [nu] has a reading on floats. *)
Class FloatKernel (K : Type) : Type := {
  nu_float : K -> R -> list R -> list R -> mat R -> res (npval (float R))
}.

Section Kernels.
Local Open Scope R_scope.
Local Open Scope float_scope.

(** The expression [StdDiffusionKernel.nu] returns, for one past event. *)
Definition std_val_float (k : StdDiffusionKernel.t) (dt dx dy : R)
  : float R :=
  let C := Finite (StdDiffusionKernel.C k) in
  let beta := Finite (StdDiffusionKernel.beta k) in
  let sigma_x := Finite (StdDiffusionKernel.sigma_x k) in
  let sigma_y := Finite (StdDiffusionKernel.sigma_y k) in
  let delta_t := Finite dt in
  fexp (- beta * delta_t)
  * (C / (Finite 2 * Finite PI * sigma_x * sigma_y * delta_t))
  * fexp ((- Finite 1 / (Finite 2 * delta_t))
          * ((fsquare (Finite dx) / fsquare sigma_x)
             + (fsquare (Finite dy) / fsquare sigma_y))).

Definition std_nu_float (k : StdDiffusionKernel.t) (t0 : R) (s his_t : list R)
    (his_s : mat R) : res (npval (float R)) :=
  elementwise (fun dt d => std_val_float k dt (fst d) (snd d)) t0 s his_t his_s.

(** [gaussian_val] of [GaussianDiffusionKernel.nu], for one past event. *)
Definition gauss_val_float (k : GaussianDiffusionKernel.t) (dt dx dy : R)
  : float R :=
  let C := Finite (GaussianDiffusionKernel.C k) in
  let beta := Finite (GaussianDiffusionKernel.beta k) in
  let mu_x := Finite (GaussianDiffusionKernel.mu_x k) in
  let mu_y := Finite (GaussianDiffusionKernel.mu_y k) in
  let sigma_x := Finite (GaussianDiffusionKernel.sigma_x k) in
  let sigma_y := Finite (GaussianDiffusionKernel.sigma_y k) in
  let rho := Finite (GaussianDiffusionKernel.rho k) in
  let delta_t := Finite dt in
  let delta_x := Finite dx in
  let delta_y := Finite dy in
  fexp (- beta * delta_t)
  * (C / (Finite 2 * Finite PI * sigma_x * sigma_y * delta_t
          * fsqrt (Finite 1 - fsquare rho)))
  * fexp ((- Finite 1 / (Finite 2 * delta_t * (Finite 1 - fsquare rho)))
          * ((fsquare (delta_x - mu_x) / fsquare sigma_x)
             + (fsquare (delta_y - mu_y) / fsquare sigma_y)
             - (Finite 2 * rho * (delta_x - mu_x) * (delta_y - mu_y)
                / (sigma_x * sigma_y)))).

Definition gauss_nu_float (k : GaussianDiffusionKernel.t) (t0 : R)
    (s his_t : list R) (his_s : mat R) : res (npval (float R)) :=
  elementwise (fun dt d => gauss_val_float k dt (fst d) (snd d)) t0 s his_t
              his_s.

(** [gaussian_val] of [SpatialVariantGaussianDiffusionKernel.nu], for one
    past event located at [(hx, hy)]: the parameter functions are
    evaluated there. *)
Definition sv_val_float (k : SpatialVariantGaussianDiffusionKernel.t)
    (dt dx dy hx hy : R) : float R :=
  let C := Finite (SpatialVariantGaussianDiffusionKernel.C k) in
  let beta := Finite (SpatialVariantGaussianDiffusionKernel.beta k) in
  let mu_xs := Finite (SpatialVariantGaussianDiffusionKernel.mu_x k hx hy) in
  let mu_ys := Finite (SpatialVariantGaussianDiffusionKernel.mu_y k hx hy) in
  let sigma_xs :=
    Finite (SpatialVariantGaussianDiffusionKernel.sigma_x k hx hy) in
  let sigma_ys :=
    Finite (SpatialVariantGaussianDiffusionKernel.sigma_y k hx hy) in
  let rhos := Finite (SpatialVariantGaussianDiffusionKernel.rho k hx hy) in
  let delta_t := Finite dt in
  let delta_x := Finite dx in
  let delta_y := Finite dy in
  fexp (- beta * delta_t)
  * (C / (Finite 2 * Finite PI * sigma_xs * sigma_ys * delta_t
          * fsqrt (Finite 1 - fsquare rhos)))
  * fexp ((- Finite 1 / (Finite 2 * delta_t * (Finite 1 - fsquare rhos)))
          * ((fsquare (delta_x - mu_xs) / fsquare sigma_xs)
             + (fsquare (delta_y - mu_ys) / fsquare sigma_ys)
             - (Finite 2 * rhos * (delta_x - mu_xs) * (delta_y - mu_ys)
                / (sigma_xs * sigma_ys)))).

Definition sv_nu_float (k : SpatialVariantGaussianDiffusionKernel.t) (t0 : R)
    (s his_t : list R) (his_s : mat R) : res (npval (float R)) :=
  dxy <- spatial_deltas s his_s;;
  hx <- column 0 his_s;;
  hy <- column 1 his_s;;
  rmap NArray
    (bcast2 (fun dt d => sv_val_float k dt (fst (fst d)) (snd (fst d))
                                      (fst (snd d)) (snd (snd d)))
            (time_deltas t0 his_t) (zip dxy (zip hx hy))).

End Kernels.

(** ** Mixtures

    [nu = 0; for k in range(n_comp): nu += w[k] * gdks[k].nu(...)] on
    arrays of floats. *)

Section Mixtures.
Context {A : Type} `{Scalar A}.

(** [w * v] for a Python scalar [w]. *)
Definition np_scale_float (w : A) (v : npval (float A)) : npval (float A) :=
  match v with
  | NScalar a => NScalar (ftimes (Finite w) a)
  | NArray l => NArray (map (ftimes (Finite w)) l)
  end.

(** [u + v]. *)
Definition np_add_float (u v : npval (float A)) : res (npval (float A)) :=
  match u, v with
  | NScalar a, NScalar b => Ok (NScalar (fplus a b))
  | NScalar a, NArray l => Ok (NArray (map (fplus a) l))
  | NArray l, NScalar b => Ok (NArray (map (fun x => fplus x b) l))
  | NArray l, NArray k => rmap NArray (bcast2 fplus l k)
  end.

End Mixtures.

#[export] Instance std_float_kernel : FloatKernel StdDiffusionKernel.t :=
  {| nu_float := std_nu_float |}.

#[export] Instance gauss_float_kernel : FloatKernel GaussianDiffusionKernel.t :=
  {| nu_float := gauss_nu_float |}.

#[export] Instance sv_float_kernel
  : FloatKernel SpatialVariantGaussianDiffusionKernel.t :=
  {| nu_float := sv_nu_float |}.

Section MixtureNu.
Context {K : Type} `{!FloatKernel K}.

(** The loop body for the indices [ks] still to visit, from the running
    total [acc]. *)
Fixpoint mixture_loop_float (m : Mixture.t R K) (t0 : R) (s his_t : list R)
    (his_s : mat R) (ks : list nat) (acc : npval (float R))
  : res (npval (float R)) :=
  match ks with
  | [] => Ok acc
  | k :: ks' =>
      wk <- index (Mixture.w m) k;;
      g <- index (Mixture.gdks m) k;;
      v <- nu_float g t0 s his_t his_s;;
      acc' <- np_add_float acc (np_scale_float wk v);;
      mixture_loop_float m t0 s his_t his_s ks' acc'
  end.

Definition mixture_nu_float (m : Mixture.t R K) (t0 : R) (s his_t : list R)
    (his_s : mat R) : res (npval (float R)) :=
  mixture_loop_float m t0 s his_t his_s (seq 0 (Mixture.n_comp m))
                     (NScalar (Finite 0%R)).

End MixtureNu.

#[export] Instance mixture_float_kernel {K : Type} `{!FloatKernel K}
  : FloatKernel (Mixture.t R K) :=
  {| nu_float := mixture_nu_float |}.

(** The mixture over no component class, as in [Kernel]. *)
#[export] Instance no_float_kernel : FloatKernel Empty_set :=
  {| nu_float := fun (k : Empty_set) => match k with end |}.

(** ** The intensity *)

(** [np.sum(v)] for what a kernel returned. *)
Definition np_sum_float {A : Type} `{Scalar A} (v : npval (float A))
  : float A :=
  match v with
  | NScalar x => x
  | NArray l => fsum l
  end.

(** [HawkesLam.value(t, his_t, s, his_s)]. *)
Definition hawkes_value_float {K : Type} `{!FloatKernel K}
    (lam : HawkesLam.t R K) (t0 : R) (his_t s : list R) (his_s : mat R)
  : res (float R) :=
  if 0 <? length his_t then
    v <- nu_float (HawkesLam.kernel lam) t0 s his_t his_s;;
    Ok (fplus (Finite (HawkesLam.mu lam)) (np_sum_float v))
  else Ok (Finite (HawkesLam.mu lam)).

(** An intensity whose [value] has a reading on floats; the bound is the
    finite [upper_bound] of the intensity. *)
Class FloatIntensity (A L : Type) : Type := {
  value_float : L -> A -> list A -> list A -> mat A -> res (float A)
}.

#[export] Instance hawkes_float_intensity {K : Type} `{!FloatKernel K}
  : FloatIntensity R (HawkesLam.t R K) :=
  {| value_float := hawkes_value_float |}.

(** ** Thinning *)

Section Thinning.
Context {A : Type} `{Scalar A} {L : Type}.
Context `{!Intensity A L} `{!FloatIntensity A L}.

Local Open Scope rng_scope.

(** The loop body of [_inhomogeneous_poisson_thinning]: an intensity
    that is NaN fails both tests, so the proposal is dropped without a
    message; an intensity that is the positive infinity ends the loop. *)
Definition thin_step_float (lam : L) (verbose : bool) (homo_points : mat A)
    (i : nat) (retained_points : mat A) : M A (option (mat A)) :=
  p <- lift (index_row homo_points i);;
  t <- lift (index p 0);;
  let s := drop 1 p in
  his_t <- lift (column 0 retained_points);;
  let his_s := columns_from 1 retained_points in
  lam_value <- lift (value_float lam t his_t s his_s);;
  let lam_bar := upper_bound lam in
  D <- uniform s0 s1;;
  if fgt lam_value (Finite lam_bar) then mret None
  else
    retained' <- (if fge lam_value (Finite (smul D lam_bar))
                  then lift (rbind (row_mat homo_points i)
                                   (concatenate0 retained_points))
                  else mret retained_points);;
    _ <- lift (monitor verbose i (nrows homo_points));;
    mret (Some retained').

Fixpoint thin_loop_float (lam : L) (verbose : bool) (homo_points : mat A)
    (todo : list nat) (retained_points : mat A) : M A (option (mat A)) :=
  match todo with
  | [] => mret (Some retained_points)
  | i :: todo' =>
      r <- thin_step_float lam verbose homo_points i retained_points;;
      match r with
      | None => mret None
      | Some retained' =>
          thin_loop_float lam verbose homo_points todo' retained'
      end
  end.

Definition inhomogeneous_poisson_thinning_float (lam : L)
    (homo_points : mat A) (verbose : bool) : M A (option (mat A)) :=
  thin_loop_float lam verbose homo_points (seq 0 (nrows homo_points))
                  (empty_mat (ncols homo_points)).

End Thinning.

(** ** Batching

    [generate] with the thinning of the floats: the [while] loop, unrolled
    at most [fuel] times as in [Sampler], and the padding. *)

Section Batching.
Context {A : Type} `{ArgSort A} {L : Type}.
Context `{!Intensity A L} `{!FloatIntensity A L}.

Local Open Scope rng_scope.

Fixpoint generate_loop_float (fuel : nat) (lam : L) (T : interval A)
    (S : list (interval A)) (batch_size min_n_points : Z) (verbose : bool)
    (st : gen_state A) : M A (gen_state A) :=
  if (Z.of_nat (b st) <? batch_size)%Z then
    match fuel with
    | 0 => mraise OutOfFuel
    | Datatypes.S fuel' =>
        homo_points <- homogeneous_poisson_sampling lam T S;;
        points <- inhomogeneous_poisson_thinning_float lam homo_points
                    verbose;;
        if rejected min_n_points points
        then generate_loop_float fuel' lam T S batch_size min_n_points
                                 verbose st
        else match points with
             | Some pts =>
                 generate_loop_float fuel' lam T S batch_size min_n_points
                                     verbose (gen_record st pts)
             | None =>
                 generate_loop_float fuel' lam T S batch_size min_n_points
                                     verbose st
             end
    end
  else mret st.

Definition generate_float (fuel : nat) (lam : L) (T : interval A)
    (S : list (interval A)) (batch_size min_n_points : Z) (verbose : bool)
    : M A (list (mat A) * list nat) :=
  st <- generate_loop_float fuel lam T S batch_size min_n_points verbose
                            gen_init;;
  data <- lift (pack batch_size st);;
  mret (data, sizes st).

End Batching.
