(* ===== verification/IeeeLaws.v ===== *)
(** * IeeeLaws: where the floats agree with the numbers, and where not

    Theorems on the definitions of [Ieee].

    - The kernels: with spreads that are not zero (and a correlation
      strictly between [-1] and [1]) the float value for a delay that is
      not zero is the value of [Kernel] ([std_val_float_finite],
      [gauss_val_float_finite]); for the delay zero it is NaN
      ([std_val_float_tie], [gauss_val_float_tie]): the prefactor is a
      quotient by zero, the spatial factor the exponential of a negative
      infinity, and an infinity times zero is NaN.
    - [FloatSound] is what the intensity needs of a kernel: its float
      [nu] is the [nu] of the numbers on a history that does not contain
      the time of evaluation, and an array with a NaN on a history that
      contains it.  The standard, the Gaussian and the spatially variant
      kernel are instances, and so is a mixture of one component or more
      over any instance.
    - The intensity: [hawkes_float_agrees] and [hawkes_float_tie] lift the
      two cases to [hawkes_value_float].
    - One iteration: [thin_step_float_model] is the iteration as a
      function of the proposal row; it is the iteration of the numbers
      where the intensities agree ([float_step_finite]) and keeps the
      retained points on a NaN ([float_step_nan]).
    - The loop, for any intensity: [thin_loop_float_agrees] (the two
      loops are one under an invariant that makes the intensities
      agree), [thin_loop_float_inv] (an invariant principle) and
      [thinning_float_sublist].
    - The loop, for a Hawkes intensity over a [FloatSound] kernel and a
      pool of three columns: on pairwise distinct times thinning on
      floats is thinning on numbers ([thinning_float_agrees]), so every
      theorem of [Thinning] holds of it there; a proposal at the time of
      a retained event is dropped whatever its variate
      ([thin_step_float_tie]); hence the returned sequence is strictly
      ascending ([thinning_float_strict], [attempt_float_strict]), which
      the numbers alone do not give.
    - Concrete runs on the standard kernel with its default parameters:
      [pool_tie_run]. *)

From Stdlib Require Import Reals Lra.
From stdpp Require Import base tactics list sorting.
From S2P Require Import Prelude Scalar Float NdArray ArgSort Region Rng Kernel.
From S2P Require Import Intensity Sampler Thinning Proposal KernelLaws HawkesLaws Ieee.

Local Open Scope R_scope.

(** A product of factors that are not zero is not zero. *)
Ltac nonzero :=
  cbn;
  repeat match goal with
         | |- (_ * _)%R <> _ => apply Rmult_integral_contrapositive_currified
         end;
  first [assumption | apply PI_neq0 | lra].

(** Every operation of the expression has finite operands and no divisor
    is zero: the expression is finite. *)
Ltac finite_value :=
  cbv zeta; autorewrite with float_rw;
  repeat (match goal with
          | |- context [fover (Finite ?a) (Finite ?b)] =>
              rewrite (fover_finite a b) by nonzero
          end; autorewrite with float_rw).

(** The divisor of the exponent at delay zero is zero, and its numerator
    [-1] is negative. *)
Ltac tie_divisor := cbn; unfold slt; cbn; first [ring | lra].

(** ** The values of the kernels *)

Section StdFloat.
Import StdDiffusionKernel.
Implicit Types (k : StdDiffusionKernel.t) (dt dx dy : R).

Lemma std_val_float_finite k dt dx dy :
  dt <> 0 -> sigma_x k <> 0 -> sigma_y k <> 0 ->
  std_val_float k dt dx dy = Finite (val k dt dx dy).
Proof.
  intros Hdt Hx Hy. unfold std_val_float. finite_value.
  unfold val, Rsqr. cbn. rewrite !Rminus_0_l. by repeat f_equal.
Qed.

(** A past event at the very time of evaluation contributes NaN. *)
Lemma std_val_float_tie k dx dy :
  sigma_x k <> 0 -> sigma_y k <> 0 -> std_val_float k 0 dx dy = NaN.
Proof.
  intros Hx Hy. unfold std_val_float. cbv zeta. apply ftimes_vanishes.
  - autorewrite with float_rw. apply ftimes_infinite, fover_zero_infinite.
    cbn. ring.
  - finite_value. rewrite fover_zero, signed_neg by tie_divisor.
    apply fexp_vanishes. cbn.
    apply Rplus_le_le_0_compat; apply Rmult_le_pos;
      try apply Rle_0_sqr; left; apply Rinv_0_lt_compat, Rlt_0_sqr; done.
Qed.

End StdFloat.

Section GaussFloat.
Import GaussianDiffusionKernel.
Implicit Types (k : GaussianDiffusionKernel.t) (dt dx dy : R).

(** The spreads are not zero and the correlation is proper. *)
Definition gauss_regular k : Prop :=
  sigma_x k <> 0 /\ sigma_y k <> 0 /\ -1 < rho k < 1.

Lemma gauss_regular_root k :
  gauss_regular k ->
  0 < 1 - rho k * rho k /\ 0 < sqrt (1 - rho k * rho k).
Proof.
  intros (_ & _ & Hr).
  assert (Hq : 0 < 1 - rho k * rho k) by nra.
  split; [done | by apply sqrt_lt_R0].
Qed.

Lemma gauss_val_float_finite k dt dx dy :
  dt <> 0 -> gauss_regular k ->
  gauss_val_float k dt dx dy = Finite (val k dt dx dy).
Proof.
  intros Hdt Hk. destruct (gauss_regular_root k Hk) as [Hq Hs].
  destruct Hk as (Hx & Hy & Hr). unfold gauss_val_float. cbv zeta.
  autorewrite with float_rw. rewrite fsqrt_finite by (cbn; lra).
  finite_value. unfold val, Rsqr. cbn. rewrite !Rminus_0_l.
  by repeat f_equal.
Qed.

(** The quadratic form of the exponent is not negative. *)
Lemma gauss_form_nonneg (a b sx sy r : R) :
  sx <> 0 -> sy <> 0 -> -1 < r < 1 ->
  0 <= a * a / (sx * sx) + b * b / (sy * sy) - 2 * r * a * b / (sx * sy).
Proof.
  intros Hx Hy Hr.
  replace (a * a / (sx * sx) + b * b / (sy * sy) - 2 * r * a * b / (sx * sy))
    with ((a / sx - r * (b / sy)) ^ 2 + (1 - r * r) * (b / sy) ^ 2)
    by (field; done).
  apply Rplus_le_le_0_compat; [apply pow2_ge_0 |].
  apply Rmult_le_pos; [nra | apply pow2_ge_0].
Qed.

Lemma gauss_val_float_tie k dx dy :
  gauss_regular k -> gauss_val_float k 0 dx dy = NaN.
Proof.
  intros Hk. destruct (gauss_regular_root k Hk) as [Hq Hs].
  destruct Hk as (Hx & Hy & Hr).
  unfold gauss_val_float. cbv zeta. apply ftimes_vanishes.
  - autorewrite with float_rw. rewrite fsqrt_finite by (cbn; lra).
    autorewrite with float_rw. apply ftimes_infinite, fover_zero_infinite.
    cbn. ring.
  - finite_value. rewrite fover_zero, signed_neg by tie_divisor.
    apply fexp_vanishes. cbn. by apply gauss_form_nonneg.
Qed.

End GaussFloat.

(** ** The interface

    What the intensity needs of the float reading of a kernel, on a
    history in a plane: away from the times of the history it returns the
    values of the numbers; at the time of a past event it returns an
    array, one entry per event, with a NaN in it. *)

(** The result of the numbers, as floats. *)
Definition np_finite (v : npval R) : npval (float R) :=
  match v with
  | NScalar a => NScalar (Finite a)
  | NArray l => NArray (map Finite l)
  end.

(** An array of [n] floats with a NaN among them. *)
Definition nan_array (n : nat) (v : npval (float R)) : Prop :=
  exists l, v = NArray l /\ length l = n /\ NaN ∈ l.

Class FloatSound (K : Type) `{!Kernel R K} `{!FloatKernel K} : Type := {
  regular : K -> Prop;
  nu_float_agrees k t0 s his_t his_s :
    regular k -> plane_history his_t his_s -> length s = 2%nat ->
    Forall (fun h => h <> t0) his_t ->
    nu_float k t0 s his_t his_s = rmap np_finite (nu k t0 s his_t his_s);
  nu_float_tie k t0 s his_t his_s :
    regular k -> plane_history his_t his_s -> length s = 2%nat ->
    t0 ∈ his_t ->
    exists v, nu_float k t0 s his_t his_s = Ok v
              /\ nan_array (nrows his_s) v
}.

Lemma np_sum_finite v : np_sum_float (np_finite v) = Finite (np_sum v).
Proof. destruct v as [a|l]; [done | apply fsum_finite]. Qed.

Lemma np_sum_nan n v : nan_array n v -> np_sum_float v = NaN.
Proof. intros (l & -> & _ & Hin). by apply fsum_nan. Qed.

(** ** One value per past event *)

Section PerEvent.
Implicit Types (ff : R -> list R -> float R) (f : R -> list R -> R)
  (his_t : list R) (rows : list (list R)).

(** The contributions of a history that does not contain [t0]. *)
Lemma contributions_finite ff f t0 his_t rows :
  (forall dt r, dt <> 0 -> ff dt r = Finite (f dt r)) ->
  Forall (fun h => h <> t0) his_t ->
  zip_with (fun h r => ff (t0 - h) r) his_t rows
  = map Finite (zip_with (fun h r => f (t0 - h) r) his_t rows).
Proof.
  intros Hf Hpast. revert rows.
  induction Hpast as [|h his_t Hh _ IH]; intros [|r rows]; try done.
  cbn. by rewrite IH, Hf by lra.
Qed.

(** The contributions of a history that contains [t0]. *)
Lemma contributions_tie ff t0 his_t rows :
  (forall r, ff 0 r = NaN) -> length his_t = length rows -> t0 ∈ his_t ->
  nan_array (length rows)
            (NArray (zip_with (fun h r => ff (t0 - h) r) his_t rows)).
Proof.
  intros Hf Hlen Hin. eexists. split; [done |].
  split; [rewrite length_zip_with; lia |].
  apply list_elem_of_lookup in Hin as [i Hi].
  destruct (lookup_lt_is_Some_2 rows i) as [r Hr];
    [rewrite <- Hlen; by eapply lookup_lt_Some |].
  apply elem_of_lookup_zip_with. exists i, t0, r.
  replace (t0 - t0) with 0 by lra. by rewrite Hf.
Qed.

End PerEvent.

(** A kernel of the shape [elementwise]: sound when its expression is. *)
Section FromElementwise.
Context (ff : R -> R * R -> float R) (f : R -> R * R -> R).
Context (Hfinite : forall dt d, dt <> 0 -> ff dt d = Finite (f dt d)).
Context (Htie : forall d, ff 0 d = NaN).
Implicit Types (s his_t : list R) (his_s : mat R).

Lemma elementwise_agrees t0 s his_t his_s :
  plane_history his_t his_s -> length s = 2%nat ->
  Forall (fun h => h <> t0) his_t ->
  elementwise ff t0 s his_t his_s
  = rmap np_finite (elementwise f t0 s his_t his_s).
Proof.
  intros Hp Hs Hpast. rewrite !elementwise_plane by done.
  cbn [rmap rbind np_finite]. do 2 f_equal.
  apply (contributions_finite (fun dt r => ff dt (offset s r))
           (fun dt r => f dt (offset s r))); [|done].
  intros dt r Hdt. by apply Hfinite.
Qed.

Lemma elementwise_tie t0 s his_t his_s :
  plane_history his_t his_s -> length s = 2%nat -> t0 ∈ his_t ->
  exists v, elementwise ff t0 s his_t his_s = Ok v
            /\ nan_array (nrows his_s) v.
Proof.
  intros Hp Hs Hin. rewrite elementwise_plane by done. eexists. split; [done |].
  apply (contributions_tie (fun dt r => ff dt (offset s r)));
    [intros r; apply Htie | apply Hp | done].
Qed.

End FromElementwise.

Definition std_regular (k : StdDiffusionKernel.t) : Prop :=
  StdDiffusionKernel.sigma_x k <> 0 /\ StdDiffusionKernel.sigma_y k <> 0.

#[export] Instance std_float_sound : FloatSound StdDiffusionKernel.t := {|
  regular := std_regular;
  nu_float_agrees := fun k t0 s his_t his_s Hk =>
    elementwise_agrees _ (std_fn k)
      (fun dt d Ht => std_val_float_finite k dt _ _ Ht (proj1 Hk) (proj2 Hk))
      t0 s his_t his_s;
  nu_float_tie := fun k t0 s his_t his_s Hk =>
    elementwise_tie _
      (fun d => std_val_float_tie k _ _ (proj1 Hk) (proj2 Hk)) t0 s his_t his_s
|}.

#[export] Instance gauss_float_sound : FloatSound GaussianDiffusionKernel.t := {|
  regular := gauss_regular;
  nu_float_agrees := fun k t0 s his_t his_s Hk =>
    elementwise_agrees _ (gauss_fn k)
      (fun dt d Ht => gauss_val_float_finite k dt _ _ Ht Hk) t0 s his_t his_s;
  nu_float_tie := fun k t0 s his_t his_s Hk =>
    elementwise_tie _ (fun d => gauss_val_float_tie k _ _ Hk) t0 s his_t his_s
|}.

(** *** The spatially variant kernel *)

Section SpatialVariantFloat.
Implicit Types (k : SpatialVariantGaussianDiffusionKernel.t)
  (s his_t : list R) (his_s : mat R).

(** The parameter functions give regular parameters everywhere. *)
Definition sv_regular k : Prop := forall hx hy, gauss_regular (gauss_at k hx hy).

(** At one past event the expression is the Gaussian kernel's, with the
    parameters the functions take at the event. *)
Lemma sv_val_float_gauss k dt dx dy hx hy :
  sv_val_float k dt dx dy hx hy = gauss_val_float (gauss_at k hx hy) dt dx dy.
Proof. reflexivity. Qed.

Lemma sv_nu_float_plane k t0 s his_t his_s :
  plane_history his_t his_s -> length s = 2%nat ->
  sv_nu_float k t0 s his_t his_s
  = Ok (NArray (zip_with
                  (fun h r =>
                     gauss_val_float (gauss_at k (nth 0 r 0) (nth 1 r 0))
                       (t0 - h) (fst (offset s r)) (snd (offset s r)))
                  his_t (mrows his_s))).
Proof.
  intros (Hwf & Hc & Hn) Hs. unfold sv_nu_float.
  rewrite spatial_deltas_plane by done. cbn [rbind].
  rewrite !column_ok by (done || lia). cbn [rbind]. unfold time_deltas.
  rewrite bcast2_same
    by (rewrite !length_zip, !length_map; unfold nrows in Hn; lia).
  cbn [rmap rbind]. do 2 f_equal. apply zip_with_columns.
Qed.

Lemma sv_float_agrees k t0 s his_t his_s :
  sv_regular k -> plane_history his_t his_s -> length s = 2%nat ->
  Forall (fun h => h <> t0) his_t ->
  sv_nu_float k t0 s his_t his_s
  = rmap np_finite (SpatialVariantGaussianDiffusionKernel.nu k t0 s his_t his_s).
Proof.
  intros Hk Hp Hs Hpast. rewrite sv_nu_float_plane, sv_nu_plane by done.
  cbn [rmap rbind np_finite]. do 2 f_equal.
  apply (contributions_finite
           (fun dt r => gauss_val_float (gauss_at k (nth 0 r 0) (nth 1 r 0)) dt
                          (fst (offset s r)) (snd (offset s r)))
           (fun dt r => gauss_fn (gauss_at k (nth 0 r 0) (nth 1 r 0)) dt
                          (offset s r))); [|done].
  intros dt r Hdt. by apply gauss_val_float_finite.
Qed.

Lemma sv_float_tie k t0 s his_t his_s :
  sv_regular k -> plane_history his_t his_s -> length s = 2%nat ->
  t0 ∈ his_t ->
  exists v, sv_nu_float k t0 s his_t his_s = Ok v
            /\ nan_array (nrows his_s) v.
Proof.
  intros Hk Hp Hs Hin. rewrite sv_nu_float_plane by done.
  eexists. split; [done |].
  apply (contributions_tie
           (fun dt r => gauss_val_float (gauss_at k (nth 0 r 0) (nth 1 r 0)) dt
                          (fst (offset s r)) (snd (offset s r))));
    [intros r; by apply gauss_val_float_tie | apply Hp | done].
Qed.

End SpatialVariantFloat.

#[export] Instance sv_float_sound
  : FloatSound SpatialVariantGaussianDiffusionKernel.t := {|
  regular := sv_regular;
  nu_float_agrees := sv_float_agrees;
  nu_float_tie := sv_float_tie
|}.

(** *** Mixtures *)

Section ArraysFloat.
Implicit Types (u v : npval R) (x y : npval (float R)) (w : R) (n : nat).

Lemma zip_with_finite (l k : list R) :
  zip_with fplus (map Finite l) (map Finite k)
  = map Finite (zip_with Rplus l k).
Proof.
  revert k. induction l as [|a l IH]; intros [|b k]; cbn; [done.. |].
  by rewrite IH.
Qed.

Lemma bcast2_finite (l k : list R) :
  bcast2 fplus (map Finite l) (map Finite k)
  = rmap (map Finite) (bcast2 Rplus l k).
Proof.
  unfold bcast2. rewrite !length_map. destruct (_ =? _)%nat.
  - cbn. by rewrite zip_with_finite.
  - destruct l as [|a [|? ?]], k as [|b [|? ?]]; cbn; try done;
      by rewrite ?map_map.
Qed.

Lemma np_scale_finite w v :
  np_scale_float w (np_finite v) = np_finite (np_scale w v).
Proof. destruct v as [a|l]; cbn; [done | by rewrite !map_map]. Qed.

Lemma np_add_finite u v :
  np_add_float (np_finite u) (np_finite v) = rmap np_finite (np_add u v).
Proof.
  destruct u as [a|l], v as [b|k]; cbn; try done; try by rewrite !map_map.
  rewrite bcast2_finite. by destruct (bcast2 Rplus l k).
Qed.

Lemma np_scale_nan n w x : nan_array n x -> nan_array n (np_scale_float w x).
Proof.
  intros (l & -> & Hl & Hin). eexists. split; [done |].
  split; [by rewrite length_map |].
  apply list_elem_of_fmap. exists NaN. split; [done | done].
Qed.

(** Adding an array with a NaN to a scalar or to an array of its length
    gives an array with a NaN. *)
Lemma np_add_nan n x y :
  match x with NScalar _ => True | NArray l => length l = n end ->
  nan_array n y ->
  exists r, np_add_float x y = Ok r /\ nan_array n r.
Proof.
  intros Hx (k & -> & Hk & Hin). destruct x as [a|l]; cbn.
  - eexists. split; [done |]. eexists. split; [done |].
    split; [by rewrite length_map |].
    apply list_elem_of_fmap. exists NaN. split; [by destruct a | done].
  - rewrite bcast2_same by congruence. eexists. split; [done |].
    eexists. split; [done |]. split; [rewrite length_zip_with; lia |].
    apply list_elem_of_lookup in Hin as [i Hi].
    destruct (lookup_lt_is_Some_2 l i) as [a Ha];
      [rewrite Hx, <- Hk; by eapply lookup_lt_Some |].
    apply elem_of_lookup_zip_with. exists i, a, NaN. by destruct a.
Qed.

End ArraysFloat.

Section MixtureFloat.
Context {K : Type} `{!Kernel R K} `{!FloatKernel K} `{!FloatSound K}.
Implicit Types (m : Mixture.t R K) (ks : list nat) (s his_t : list R)
  (his_s : mat R).

(** Every component is regular, there is one at least, and every index
    below [n_comp] has a weight and a component. *)
Definition mixture_regular m : Prop :=
  Forall regular (Mixture.gdks m)
  /\ (0 < Mixture.n_comp m)%nat
  /\ (Mixture.n_comp m <= length (Mixture.w m))%nat
  /\ (Mixture.n_comp m <= length (Mixture.gdks m))%nat.

Lemma mixture_loop_agrees m t0 s his_t his_s ks : forall acc,
  Forall regular (Mixture.gdks m) -> plane_history his_t his_s ->
  length s = 2%nat -> Forall (fun h => h <> t0) his_t ->
  mixture_loop_float m t0 s his_t his_s ks (np_finite acc)
  = rmap np_finite (Mixture.loop m t0 s his_t his_s ks acc).
Proof.
  induction ks as [|k ks IH]; intros acc Hm Hp Hs Hpast; [done |].
  cbn [mixture_loop_float Mixture.loop].
  destruct (index (Mixture.w m) k) as [wk|]; [|done]. cbn [rbind].
  destruct (index (Mixture.gdks m) k) as [g|] eqn:Hg; [|done]. cbn [rbind].
  apply index_ok in Hg.
  rewrite nu_float_agrees
    by (done || by apply (proj1 (Forall_lookup _ _) Hm k g)).
  destruct (nu g t0 s his_t his_s) as [v|]; [|done]. cbn [rmap rbind].
  rewrite np_scale_finite, np_add_finite.
  destruct (np_add acc (np_scale wk v)) as [acc'|]; [|done]. by apply IH.
Qed.

Lemma mixture_float_agrees m t0 s his_t his_s :
  mixture_regular m -> plane_history his_t his_s -> length s = 2%nat ->
  Forall (fun h => h <> t0) his_t ->
  mixture_nu_float m t0 s his_t his_s
  = rmap np_finite (Mixture.nu m t0 s his_t his_s).
Proof. intros [Hm _]. by apply (mixture_loop_agrees _ _ _ _ _ _ (NScalar 0)). Qed.

(** At a tie every component adds an array with a NaN. *)
Lemma mixture_loop_tie m t0 s his_t his_s ks : forall acc,
  Forall regular (Mixture.gdks m) -> plane_history his_t his_s ->
  length s = 2%nat -> t0 ∈ his_t ->
  Forall (fun k => (k < length (Mixture.w m))%nat
                   /\ (k < length (Mixture.gdks m))%nat) ks ->
  match acc with
  | NScalar _ => ks <> []
  | NArray l => length l = nrows his_s /\ (ks = [] -> NaN ∈ l)
  end ->
  exists v, mixture_loop_float m t0 s his_t his_s ks acc = Ok v
            /\ nan_array (nrows his_s) v.
Proof.
  induction ks as [|k ks IH]; intros acc Hm Hp Hs Hin Hks Hacc.
  - destruct acc as [a|l]; [done |]. destruct Hacc as [Hl Hn].
    eexists. split; [done |]. exists l. auto.
  - apply Forall_cons in Hks as [[Hw Hg] Hks]. cbn [mixture_loop_float].
    destruct (lookup_lt_is_Some_2 _ _ Hw) as [wk Hwk].
    destruct (lookup_lt_is_Some_2 _ _ Hg) as [g Hgk].
    rewrite (proj2 (index_ok _ _ _) Hwk), (proj2 (index_ok _ _ _) Hgk).
    cbn [rbind].
    destruct (nu_float_tie g t0 s his_t his_s) as (v & -> & Hv);
      [by apply (proj1 (Forall_lookup _ _) Hm k g) | done.. |].
    cbn [rbind].
    destruct (np_add_nan (nrows his_s) acc (np_scale_float wk v))
      as (r & -> & Hr); [by destruct acc as [|l]; [|apply Hacc]
                        | by apply np_scale_nan |].
    cbn [rbind]. apply IH; try done.
    destruct Hr as (l & -> & Hl & Hnan). auto.
Qed.

Lemma mixture_float_tie m t0 s his_t his_s :
  mixture_regular m -> plane_history his_t his_s -> length s = 2%nat ->
  t0 ∈ his_t ->
  exists v, mixture_nu_float m t0 s his_t his_s = Ok v
            /\ nan_array (nrows his_s) v.
Proof.
  intros (Hm & Hn & Hw & Hg) Hp Hs Hin. apply mixture_loop_tie; try done.
  - apply Forall_forall. intros k Hk. apply elem_of_seq in Hk. lia.
  - destruct (Mixture.n_comp m); [lia | done].
Qed.

#[export] Instance mixture_float_sound : FloatSound (Mixture.t R K) := {|
  regular := mixture_regular;
  nu_float_agrees := mixture_float_agrees;
  nu_float_tie := mixture_float_tie
|}.

End MixtureFloat.

(** Admissible parameters are regular. *)
Lemma std_admissible_regular k : std_admissible k -> std_regular k.
Proof. intros (_ & _ & Hx & Hy). split; lra. Qed.

Lemma gauss_admissible_regular k : gauss_admissible k -> gauss_regular k.
Proof. intros (_ & _ & Hx & Hy & Hr). repeat split; lra. Qed.

(** ** The intensity *)

Section HawkesFloat.
Context {K : Type} `{!Kernel R K} `{!FloatKernel K} `{!FloatSound K}.
Implicit Types (lam : HawkesLam.t R K) (k : K) (s his_t : list R)
  (his_s : mat R).

(** On a history in a plane without the time of evaluation, the value on
    floats is the value on numbers. *)
Theorem hawkes_float_agrees lam t0 his_t s his_s :
  regular (HawkesLam.kernel lam) -> plane_history his_t his_s ->
  length s = 2%nat -> Forall (fun h => h <> t0) his_t ->
  hawkes_value_float lam t0 his_t s his_s
  = rmap Finite (HawkesLam.value lam t0 his_t s his_s).
Proof.
  intros Hk Hp Hs Hpast. unfold hawkes_value_float, HawkesLam.value.
  destruct (0 <? length his_t); [|done]. rewrite nu_float_agrees by done.
  destruct (nu _ t0 s his_t his_s) as [v|]; [|done]. cbn.
  by rewrite np_sum_finite.
Qed.

(** On a history in a plane with an event at the time of evaluation, the
    value is NaN. *)
Theorem hawkes_float_tie lam t0 his_t s his_s :
  regular (HawkesLam.kernel lam) -> plane_history his_t his_s ->
  length s = 2%nat -> t0 ∈ his_t ->
  hawkes_value_float lam t0 his_t s his_s = Ok NaN.
Proof.
  intros Hk Hp Hs Hin. unfold hawkes_value_float.
  destruct his_t as [|h his_t]; [by apply not_elem_of_nil in Hin |].
  cbn [length Nat.ltb Nat.leb].
  destruct (nu_float_tie _ t0 s (h :: his_t) his_s Hk Hp Hs Hin)
    as (v & -> & Hv).
  cbn [rbind]. by rewrite (np_sum_nan _ _ Hv).
Qed.

End HawkesFloat.

(** ** One iteration of the thinning loop on floats *)

Local Close Scope R_scope.

Section StepFloat.
Context {A : Type} `{Scalar A} {L : Type}.
Context `{!Intensity A L} `{!FloatIntensity A L}.
Implicit Types (lam : L) (p : list A) (R homo : mat A) (g : rng A)
  (verbose : bool) (i N : nat).

(** The float intensity at proposal [p] given the retained points [R]. *)
Definition eval_float lam R p : res (float A) :=
  value_float lam (nth 0 p s0) (times R) (drop 1 p) (columns_from 1 R).

(** What one iteration computes, as a function of the proposal row and of
    the tape. *)
Definition thin_step_float_model lam verbose N i R p g
  : res (option (mat A) * rng A) :=
  match eval_float lam R p with
  | Raise e => Raise e
  | Ok v =>
      match unifs g with
      | [] => Raise TapeEnd
      | u :: us =>
          let g' := Rng (counts g) us in
          if fgt v (Finite (upper_bound lam)) then Ok (None, g')
          else match monitor verbose i N with
               | Raise e => Raise e
               | Ok _ =>
                   Ok (Some (if fge v (Finite (smul (unit_draw u)
                                                    (upper_bound lam)))
                             then append_row R p else R), g')
               end
      end
  end.

Lemma thin_step_float_run lam verbose homo i R p g :
  mrows homo !! i = Some p -> 0 < length p ->
  mat_wf R -> 0 < ncols R -> ncols R = ncols homo ->
  thin_step_float lam verbose homo i R g
  = thin_step_float_model lam verbose (nrows homo) i R p g.
Proof.
  intros Hp Hlen Hwf Hw Hc.
  unfold thin_step_float, thin_step_float_model, eval_float, mbind, lift,
    index_row.
  rewrite Hp, (index_nth p 0 Hlen), (column_ok 0 R Hwf Hw). fold (times R).
  destruct (value_float lam _ _ _ _) as [v|e]; [|done].
  destruct g as [cs [|u us]]; [done |]. rewrite uniform_cons. fold (unit_draw u).
  cbn [unifs counts]. destruct (fgt v _); [done |].
  destruct (fge v _).
  - rewrite (concatenate0_row R homo i p Hc Hp).
    by destruct (monitor verbose i (nrows homo)).
  - unfold mret. by destruct (monitor verbose i (nrows homo)).
Qed.

(** Where the float intensity is the intensity of the numbers, the
    iteration is the iteration on numbers. *)
Lemma float_step_finite lam verbose N i R p g :
  eval_float lam R p = rmap Finite (eval_at lam R p) ->
  thin_step_float_model lam verbose N i R p g
  = thin_step_model lam verbose N i R p g.
Proof.
  intros Hv. unfold thin_step_float_model, thin_step_model. rewrite Hv.
  destruct (eval_at lam R p) as [v|e]; [|done]. cbn [rmap rbind].
  by destruct (unifs g).
Qed.

(** A NaN intensity fails both tests: the proposal is dropped, whatever
    the variate, and the loop goes on. *)
Lemma float_step_nan lam verbose N i R p u us cs :
  eval_float lam R p = Ok NaN ->
  thin_step_float_model lam verbose N i R p (Rng cs (u :: us))
  = rmap (fun _ => (Some R, Rng cs us)) (monitor verbose i N).
Proof.
  intros Hv. unfold thin_step_float_model. rewrite Hv. cbn.
  by destruct (monitor verbose i N).
Qed.

(** An iteration that goes on kept the retained points, or appended a
    proposal whose intensity passed a comparison. *)
Lemma float_step_some lam verbose N i R p g R' g' :
  thin_step_float_model lam verbose N i R p g = Ok (Some R', g') ->
  R' = R
  \/ R' = append_row R p
     /\ exists v b, eval_float lam R p = Ok v /\ fge v (Finite b) = true.
Proof.
  unfold thin_step_float_model. intros Hrun.
  destruct (eval_float lam R p) as [v|]; [|done].
  destruct (unifs g) as [|u us]; [done |].
  destruct (fgt v _); [done |]. destruct (monitor verbose i N); [|done].
  destruct (fge v _) eqn:Ege; inv Hrun; eauto 6.
Qed.

End StepFloat.

(** ** The loop on floats *)

Section LoopFloat.
Context {A : Type} `{Scalar A} {L : Type}.
Context `{!Intensity A L} `{!FloatIntensity A L}.
Context (lam : L) (verbose : bool) (homo : mat A).
Context (Hwf : mat_wf homo) (Hw : 0 < ncols homo).
Implicit Types (p : list A) (R : mat A) (g : rng A) (i k : nat).

Lemma thin_loop_float_step i todo R p g :
  mrows homo !! i = Some p -> fits homo R ->
  thin_loop_float lam verbose homo (i :: todo) R g
  = match thin_step_float_model lam verbose (nrows homo) i R p g with
    | Ok (Some R', g') => thin_loop_float lam verbose homo todo R' g'
    | Ok (None, g') => Ok (None, g')
    | Raise e => Raise e
    end.
Proof.
  intros Hp [HR Hc]. cbn [thin_loop_float]. unfold mbind.
  pose proof (proj1 (Forall_lookup _ _) Hwf i p Hp) as Hl. cbn in Hl.
  rewrite (thin_step_float_run lam verbose homo i R p) by (done || lia).
  by destruct (thin_step_float_model _ _ _ _ _ _ _) as [[[R'|] g']|e].
Qed.

(** An iteration on numbers that goes on kept the retained points or
    appended the proposal. *)
Lemma thin_step_model_some N i R p g R' g' :
  thin_step_model lam verbose N i R p g = Ok (Some R', g') ->
  R' = R \/ R' = append_row R p.
Proof.
  unfold thin_step_model. intros Hrun.
  destruct (eval_at lam R p) as [v|]; [|done].
  destruct (unifs g) as [|u us]; [done |].
  destruct (sltb _ v); [done |]. destruct (monitor verbose i N); [|done].
  destruct (sleb _ v); inv Hrun; auto.
Qed.

(** *** Agreement

    [Inv i R] holds of the retained points [R] the loop can hold before
    iteration [i].  If it makes the two intensities agree and survives an
    iteration, the two loops are one. *)

Section Agreement.
Context (Inv : nat -> mat A -> Prop).
Context (Inv_agrees : forall i R p,
  mrows homo !! i = Some p -> fits homo R -> Inv i R ->
  eval_float lam R p = rmap Finite (eval_at lam R p)).
Context (Inv_next : forall i R p,
  mrows homo !! i = Some p -> Inv i R ->
  Inv (S i) R /\ Inv (S i) (append_row R p)).

Lemma thin_loop_float_agrees k : forall i R g,
  i + k <= nrows homo -> fits homo R -> Inv i R ->
  thin_loop_float lam verbose homo (seq i k) R g
  = thin_loop lam verbose homo (seq i k) R g.
Proof.
  induction k as [|k IH]; intros i R g Hik HR HI; [done |]. cbn [seq].
  destruct (row_at homo Hwf i) as (p & Hp & Hl); [lia |].
  rewrite (thin_loop_float_step i _ R p g Hp HR),
    (thin_loop_step lam verbose homo Hwf Hw i _ R p g Hp HR).
  rewrite float_step_finite by eauto.
  destruct (thin_step_model _ _ _ _ _ _ _) as [[[R'|] g']|e] eqn:E; try done.
  destruct (Inv_next i R p Hp HI) as [Hk Ha].
  apply thin_step_model_some in E as [-> | ->]; apply IH;
    try done; try lia.
  by eapply fits_append.
Qed.

End Agreement.

(** *** Invariants

    A property of the retained points that an appended proposal keeps,
    provided its intensity passed a comparison, holds when the loop
    returns. *)

Section Invariant.
Context (Inv : nat -> mat A -> Prop).
Context (Inv_keep : forall i R, Inv i R -> Inv (S i) R).
Context (Inv_append : forall i R p v b,
  mrows homo !! i = Some p -> fits homo R -> Inv i R ->
  eval_float lam R p = Ok v -> fge v (Finite b) = true ->
  Inv (S i) (append_row R p)).

Lemma thin_loop_float_inv k : forall i R g R' g',
  i + k <= nrows homo -> fits homo R -> Inv i R ->
  thin_loop_float lam verbose homo (seq i k) R g = Ok (Some R', g') ->
  fits homo R' /\ Inv (i + k) R'.
Proof.
  induction k as [|k IH]; intros i R g R' g' Hik HR HI Hrun.
  - cbn in Hrun. inv Hrun. by rewrite Nat.add_0_r.
  - cbn [seq] in Hrun. destruct (row_at homo Hwf i) as (p & Hp & Hl); [lia |].
    rewrite (thin_loop_float_step i _ R p g Hp HR) in Hrun.
    destruct (thin_step_float_model _ _ _ _ _ _ _) as [[[R1|] g1]|e] eqn:E;
      try done.
    rewrite <- Nat.add_succ_comm.
    apply float_step_some in E as [-> | (-> & v & b & Ev & Hge)];
      (eapply IH; [lia | | | exact Hrun]); eauto using fits_append.
Qed.

End Invariant.

End LoopFloat.

(** The sequence the loop returns on floats is a sub-sequence of the
    pool, whatever the intensity. *)
Theorem thinning_float_sublist {A : Type} `{Scalar A} {L : Type}
    `{!Intensity A L} `{!FloatIntensity A L} (lam : L) (homo : mat A)
    (verbose : bool) (g : rng A) (kept : mat A) (g' : rng A) :
  mat_wf homo -> 0 < ncols homo ->
  inhomogeneous_poisson_thinning_float lam homo verbose g
  = Ok (Some kept, g') ->
  fits homo kept /\ sublist (mrows kept) (mrows homo).
Proof.
  intros Hwf Hw Hrun.
  apply (thin_loop_float_inv lam verbose homo Hwf Hw
           (fun i kept => sublist (mrows kept) (take i (mrows homo))))
    in Hrun as [Hfits Hsub]; try done;
    try (by apply fits_empty); try (by constructor).
  - split; [done |]. by rewrite take_ge in Hsub.
  - intros i kept0 Hs. etrans; [exact Hs |].
    replace i with (i `min` S i) at 1 by lia. rewrite <- take_take.
    apply sublist_take.
  - intros i kept0 p v b Hp _ Hs _ _. cbn.
    rewrite (take_S_r _ _ _ Hp). by apply sublist_app.
Qed.

(** ** Thinning a Hawkes process on floats *)

Section ThinningHawkes.
Context {K : Type} `{!Kernel R K} `{!FloatKernel K} `{!FloatSound K}.
Context (lam : HawkesLam.t R K) (verbose : bool) (homo : mat R).
Context (Hwf : mat_wf homo) (Hcols : ncols homo = 3).
Context (Hk : regular (HawkesLam.kernel lam)).
Implicit Types (p : list R) (kept : mat R) (g : rng R) (i k : nat) (h t : R).

Local Open Scope R_scope.

(** The time of proposal [i] heads the times from [i] on. *)
Lemma times_from i p :
  mrows homo !! i = Some p ->
  drop i (times homo) = nth 0 p 0 :: drop (S i) (times homo).
Proof.
  intros Hp. apply drop_S. unfold times. by rewrite list_lookup_fmap, Hp.
Qed.

Lemma times_append_row kept p :
  times (append_row kept p) = times kept ++ [nth 0 p 0].
Proof. unfold times, append_row. cbn. by rewrite map_app. Qed.

(** The intensity at a proposal whose time no retained point has. *)
Lemma eval_float_agrees i kept p :
  mrows homo !! i = Some p -> fits homo kept ->
  Forall (fun h => h <> nth 0 p 0) (times kept) ->
  eval_float lam kept p = rmap Finite (eval_at lam kept p).
Proof.
  intros Hp [Hkept Hc] Hpast.
  pose proof (proj1 (Forall_lookup _ _) Hwf i p Hp) as Hl. cbn in Hl.
  apply hawkes_float_agrees; try done.
  - apply retained_plane; congruence.
  - rewrite length_drop. lia.
Qed.

(** The intensity at a proposal that has the time of a retained point. *)
Lemma eval_float_tie i kept p :
  mrows homo !! i = Some p -> fits homo kept -> nth 0 p 0 ∈ times kept ->
  eval_float lam kept p = Ok NaN.
Proof.
  intros Hp [Hkept Hc] Hin.
  pose proof (proj1 (Forall_lookup _ _) Hwf i p Hp) as Hl. cbn in Hl.
  apply hawkes_float_tie; try done.
  - apply retained_plane; congruence.
  - rewrite length_drop. lia.
Qed.

(** Every retained time is related by [rel] to every time from [i] on. *)
Definition before (rel : R -> R -> Prop) i kept : Prop :=
  Forall (fun h => Forall (rel h) (drop i (times homo))) (times kept).

Lemma before_next rel i kept : before rel i kept -> before rel (S i) kept.
Proof.
  intros Hb. eapply Forall_impl; [exact Hb |]. intros h Hh. cbn in Hh.
  rewrite <- (take_drop 1 (drop i (times homo))), drop_drop in Hh.
  rewrite Nat.add_1_r in Hh. by apply Forall_app in Hh as [_ Hh].
Qed.

Lemma before_head rel i kept p :
  mrows homo !! i = Some p -> before rel i kept ->
  Forall (fun h => rel h (nth 0 p 0)) (times kept).
Proof.
  intros Hp Hb. eapply Forall_impl; [exact Hb |]. intros h Hh. cbn in Hh.
  rewrite (times_from i p Hp) in Hh. by inv Hh.
Qed.

Lemma before_append rel i kept p :
  mrows homo !! i = Some p -> StronglySorted rel (times homo) ->
  before rel i kept -> before rel (S i) (append_row kept p).
Proof.
  intros Hp Hs Hb. unfold before. rewrite times_append_row.
  apply Forall_app. split; [by apply before_next |].
  apply Forall_singleton.
  rewrite <- (take_drop i (times homo)), (times_from i p Hp) in Hs.
  apply StronglySorted_app_1_r in Hs. by inv Hs.
Qed.

Lemma pool_width : (0 < ncols homo)%nat.
Proof. rewrite Hcols. lia. Qed.

(** A retained time below or at the time of a proposal whose intensity
    passed a comparison is strictly below it: at the same time the
    intensity would be NaN. *)
Lemma passed_after i kept p v b :
  mrows homo !! i = Some p -> fits homo kept -> before Rle i kept ->
  eval_float lam kept p = Ok v -> fge v (Finite b) = true ->
  Forall (fun h => h < nth 0 p 0) (times kept).
Proof.
  intros Hp Hkept Hb Hv Hge. apply Forall_forall. intros h Hh.
  pose proof (proj1 (Forall_forall _ _) (before_head Rle i kept p Hp Hb) h Hh)
    as [Hlt | ->]; [done |].
  rewrite (eval_float_tie i kept p Hp Hkept Hh) in Hv. by inv Hv.
Qed.

(** C25. For a Hawkes intensity over a regular kernel of the interface
    and a well-formed pool of three columns (the hypotheses of the
    section): an iteration on a proposal that has the time of a retained
    event, and whose progress message does not raise ([monitor] returns:
    [verbose] is off, or the pool has ten proposals or more), keeps the
    retained points as they are, whatever the variate, and consumes that
    variate; the intensity is NaN and fails both tests. *)
Theorem thin_step_float_tie i kept p u us cs :
  mrows homo !! i = Some p -> fits homo kept -> nth 0 p 0 ∈ times kept ->
  monitor verbose i (nrows homo) = Ok tt ->
  thin_step_float lam verbose homo i kept (Rng cs (u :: us))
  = Ok (Some kept, Rng cs us).
Proof.
  intros Hp Hkept Hin Hm.
  pose proof (proj1 (Forall_lookup _ _) Hwf i p Hp) as Hl. cbn in Hl.
  destruct Hkept as [Hkwf Hkc].
  rewrite (thin_step_float_run lam verbose homo i kept p)
    by (done || lia).
  by rewrite float_step_nan, Hm by by apply (eval_float_tie i).
Qed.

(** From retained points that come strictly before the proposals still
    to visit, on a pool whose times are strictly ascending, the loop on
    floats is the loop on numbers. *)
Lemma float_loop_agrees k i kept g :
  StronglySorted Rlt (times homo) -> (i + k <= nrows homo)%nat ->
  fits homo kept -> before Rlt i kept ->
  thin_loop_float lam verbose homo (seq i k) kept g
  = thin_loop lam verbose homo (seq i k) kept g.
Proof.
  intros Hs Hik Hfit Hb0.
  apply (thin_loop_float_agrees lam verbose homo Hwf pool_width (before Rlt));
    try done.
  - intros j kept1 p Hp Hkept Hb. apply (eval_float_agrees j); try done.
    eapply Forall_impl; [exact (before_head Rlt j kept1 p Hp Hb) |].
    cbn. intros h Hh. lra.
  - intros j kept1 p Hp Hb. split; [by apply before_next |].
    by apply before_append.
Qed.

(** C15. Under the hypotheses of the section, on a pool whose times are
    strictly ascending, thinning on floats is thinning on numbers: same
    sequence or [None], same exceptions, same use of the tape. *)
Theorem thinning_float_agrees g :
  StronglySorted Rlt (times homo) ->
  inhomogeneous_poisson_thinning_float lam homo verbose g
  = inhomogeneous_poisson_thinning lam homo verbose g.
Proof.
  intros Hs. apply (float_loop_agrees (nrows homo) 0); try done;
    try (by apply fits_empty); by constructor.
Qed.

(** From strictly ascending retained points that come before the
    proposals still to visit, the loop returns strictly ascending
    points. *)
Lemma float_loop_strict k i kept0 g kept g' :
  Sorted Rle (times homo) -> (i + k <= nrows homo)%nat -> fits homo kept0 ->
  StronglySorted Rlt (times kept0) -> before Rle i kept0 ->
  thin_loop_float lam verbose homo (seq i k) kept0 g = Ok (Some kept, g') ->
  StronglySorted Rlt (times kept).
Proof.
  intros Hs Hik Hfit Hst0 Hb0 Hrun. apply (Sorted_StronglySorted _ _) in Hs.
  apply (thin_loop_float_inv lam verbose homo Hwf pool_width
           (fun i kept => StronglySorted Rlt (times kept) /\ before Rle i kept))
    in Hrun as [_ [Hstrict _]]; try done.
  - intros j kept1 [Hst Hb]. split; [done | by apply before_next].
  - intros j kept1 p v b Hp Hkept [Hst Hb] Hv Hge.
    split; [|by apply before_append]. rewrite times_append_row.
    apply StronglySorted_app_2; [|done | repeat constructor].
    intros h t Hh Ht. apply list_elem_of_singleton in Ht as ->.
    by apply (proj1 (Forall_forall _ _)
                (passed_after j kept1 p v b Hp Hkept Hb Hv Hge)).
Qed.

(** C14. Under the hypotheses of the section, on a pool that is ascending
    in time, with or without ties, the sequence thinning returns on
    floats is strictly ascending in time. *)
Theorem thinning_float_strict g kept g' :
  Sorted Rle (times homo) ->
  inhomogeneous_poisson_thinning_float lam homo verbose g
  = Ok (Some kept, g') ->
  StronglySorted Rlt (times kept).
Proof.
  intros Hs. apply (float_loop_strict (nrows homo) 0); try done;
    try (by apply fits_empty); by constructor.
Qed.

End ThinningHawkes.

(** One attempt of [generate], from the random generator to the sequence:
    the pool the proposal stage draws in two space dimensions is three
    columns wide and ascending, so what thinning keeps of it is strictly
    ascending. *)
Theorem attempt_float_strict {K : Type} `{!ArgSort R} `{!Kernel R K}
    `{!FloatKernel K} `{!FloatSound K} (lam : HawkesLam.t R K)
    (T : interval R) (S : list (interval R)) (verbose : bool)
    (g g1 g2 : rng R) (homo kept : mat R) :
  regular (HawkesLam.kernel lam) -> length S = 2%nat ->
  homogeneous_poisson_sampling lam T S g = Ok (homo, g1) ->
  inhomogeneous_poisson_thinning_float lam homo verbose g1
  = Ok (Some kept, g2) ->
  StronglySorted Rlt (times kept) /\ sublist (mrows kept) (mrows homo).
Proof.
  intros Hk HS Hs Hrun.
  destruct (sampling_shape _ _ _ _ _ _ Hs) as (Hc & Hwf & Hsorted & _).
  rewrite HS in Hc. split.
  - apply (float_loop_strict lam verbose homo Hwf Hc Hk (nrows homo) 0
             (empty_mat (ncols homo)) g1 kept g2 Hsorted);
      try done; try (by apply fits_empty); by constructor.
  - apply (thinning_float_sublist lam homo verbose g1 kept g2 Hwf); [lia |].
    exact Hrun.
Qed.

(** ** A mixture without component

    With [n_comp = 0] the loop of the mixture is not entered: [nu] is the
    integer zero on every history, no quotient is computed, and the
    floats are the numbers, ties or not. *)

Section NoComponent.
Context {K : Type} `{!Kernel R K} `{!FloatKernel K}.
Context (lam : HawkesLam.t R (Mixture.t R K)).
Context (Hnone : Mixture.n_comp (HawkesLam.kernel lam) = 0%nat).

Lemma hawkes_float_no_component t0 his_t s his_s :
  hawkes_value_float lam t0 his_t s his_s
  = rmap Finite (HawkesLam.value lam t0 his_t s his_s).
Proof.
  unfold hawkes_value_float, HawkesLam.value.
  destruct (0 <? length his_t); [|done].
  cbn [nu_float mixture_float_kernel nu mixture_kernel].
  unfold mixture_nu_float, Mixture.nu. by rewrite Hnone.
Qed.

Theorem thinning_float_no_component homo verbose g :
  mat_wf homo -> (0 < ncols homo)%nat ->
  inhomogeneous_poisson_thinning_float lam homo verbose g
  = inhomogeneous_poisson_thinning lam homo verbose g.
Proof.
  intros Hwf Hw.
  apply (thin_loop_float_agrees lam verbose homo Hwf Hw (fun _ _ => True));
    try done; try (by apply fits_empty).
  intros i kept p _ _ _. apply hawkes_float_no_component.
Qed.

End NoComponent.

(** ** Concrete runs

    The standard kernel with its default parameters under the default
    bound, and two pools of two proposals: one with distinct times, one
    whose proposals share their time. *)

Local Open Scope R_scope.

Definition lam_std : HawkesLam.t R StdDiffusionKernel.t :=
  HawkesLam.Build 1 StdDiffusionKernel.default 10000.

Definition pool_apart : mat R := Mat 3 [[1/4; 0; 0]; [1/2; 1; 1]].
Definition pool_tie : mat R := Mat 3 [[1/2; 0; 0]; [1/2; 1; 1]].
Definition kept_tie : mat R := Mat 3 [[1/2; 0; 0]].

Lemma lam_std_regular : regular (HawkesLam.kernel lam_std).
Proof. split; cbn; lra. Qed.

Lemma pool_apart_wf : mat_wf pool_apart.
Proof. by repeat constructor. Qed.

Lemma pool_tie_wf : mat_wf pool_tie.
Proof. by repeat constructor. Qed.

Lemma pool_apart_sorted : StronglySorted Rlt (times pool_apart).
Proof. cbn. repeat (constructor; try lra). Qed.

Lemma pool_tie_sorted : Sorted Rle (times pool_tie).
Proof. cbn. repeat (constructor; try lra). Qed.

(** The first proposal meets no history and is kept by the variate [0];
    the second has its time: it is dropped, although the variate [0]
    keeps every proposal whose intensity is a number. *)
Lemma pool_tie_run :
  inhomogeneous_poisson_thinning_float lam_std pool_tie false (Rng [] [0; 0])
  = Ok (Some kept_tie, Rng [] []).
Proof.
  assert (Hw : (0 < ncols pool_tie)%nat) by (cbn; lia).
  unfold inhomogeneous_poisson_thinning_float. cbn [nrows pool_tie mrows length seq ncols].
  rewrite (thin_loop_float_step lam_std false pool_tie pool_tie_wf Hw 0 _ _
             [1/2; 0; 0]) by (done || by apply fits_empty).
  unfold thin_step_float_model, eval_float.
  cbn [value_float hawkes_float_intensity hawkes_value_float times mrows
       empty_mat map length Nat.ltb Nat.leb unifs counts monitor andb].
  rewrite fgt_finite, fge_finite.
  rewrite (proj2 (sltb_false _ _)), (proj2 (sleb_true _ _))
    by (unfold sle, unit_draw; cbn; lra).
  rewrite (thin_loop_float_step lam_std false pool_tie pool_tie_wf Hw 1 _ _
             [1/2; 1; 1]) by (done || by split; [repeat constructor |]).
  rewrite float_step_nan; [done |].
  apply (eval_float_tie lam_std pool_tie pool_tie_wf eq_refl lam_std_regular 1);
    [done | by split; [repeat constructor |] | cbn; left].
Defined.

Lemma thin_step_float_tie_witness :
  thin_step_float lam_std false pool_tie 1 kept_tie (Rng [] [0])
  = Ok (Some kept_tie, Rng [] []).
Proof.
  apply (thin_step_float_tie lam_std false pool_tie pool_tie_wf eq_refl
           lam_std_regular 1 kept_tie [1/2; 1; 1] 0 [] []); try done.
  - split; [by repeat constructor | done].
  - cbn. left.
Defined.

Lemma thinning_float_agrees_witness :
  inhomogeneous_poisson_thinning_float lam_std pool_apart false (Rng [] [0; 0])
  = inhomogeneous_poisson_thinning lam_std pool_apart false (Rng [] [0; 0]).
Proof.
  exact (thinning_float_agrees lam_std false pool_apart pool_apart_wf eq_refl
           lam_std_regular (Rng [] [0; 0]) pool_apart_sorted).
Defined.

Lemma thinning_float_strict_witness : StronglySorted Rlt (times kept_tie).
Proof.
  exact (thinning_float_strict lam_std false pool_tie pool_tie_wf eq_refl
           lam_std_regular _ _ _ pool_tie_sorted pool_tie_run).
Defined.

(** The background rate alone, as a mixture without component: nothing
    divides by the delay, and both proposals of [pool_tie] are kept. *)
Definition lam_flat : HawkesLam.t R (Mixture.t R Empty_set) :=
  HawkesLam.Build 1 (Mixture.Build [] 0 []) 10000.

Example tie_kept_without_component :
  inhomogeneous_poisson_thinning_float lam_flat pool_tie false (Rng [] [0; 0])
  = Ok (Some pool_tie, Rng [] []).
Proof.
  rewrite (thinning_float_no_component lam_flat eq_refl)
    by (apply pool_tie_wf || (cbn; lia)).
  assert (Hw : (0 < ncols pool_tie)%nat) by (cbn; lia).
  unfold inhomogeneous_poisson_thinning.
  cbn [nrows pool_tie mrows length seq ncols].
  rewrite (thin_loop_step lam_flat false pool_tie pool_tie_wf Hw 0 _ _
             [1/2; 0; 0]) by (done || by apply fits_empty).
  unfold thin_step_model at 1, eval_at.
  cbn [value hawkes_intensity HawkesLam.value times mrows empty_mat map
       length Nat.ltb Nat.leb unifs counts monitor andb].
  rewrite (proj2 (sltb_false _ _)), (proj2 (sleb_true _ _))
    by (unfold sle, unit_draw; cbn; lra).
  rewrite (thin_loop_step lam_flat false pool_tie pool_tie_wf Hw 1 _ _
             [1/2; 1; 1]) by (done || by split; [repeat constructor |]).
  unfold thin_step_model, eval_at.
  cbn [value hawkes_intensity HawkesLam.value times mrows append_row
       empty_mat map app length Nat.ltb Nat.leb unifs counts monitor andb
       nu mixture_kernel Mixture.nu Mixture.loop Mixture.n_comp seq
       HawkesLam.kernel lam_flat rbind np_sum].
  by rewrite (proj2 (sltb_false _ _)), (proj2 (sleb_true _ _))
    by (unfold sle, unit_draw; cbn; lra).
Qed.
