(* ===== verification/IeeeBatch.v ===== *)
(** * IeeeBatch: [generate] on floats

    Theorems on [generate_float] of [Ieee], for a Hawkes intensity over a
    kernel of the interface [FloatSound] and two space dimensions.

    - Every sequence of a batch [generate_float] returns is strictly
      ascending in time, besides what [Generate] proves of a batch
      ([generate_float_strict]): the invariant [gen_inv] of the retry
      loop, strengthened by the strict order, holds of every state the
      loop on floats reaches ([generate_loop_float_inv]).
    - On a tape without repeated variate and a time interval that is not
      a point, the proposals of every pool have pairwise distinct times
      ([pool_strict]), so [generate_float] is [generate]: same batch,
      same sizes, same exception, same tape left
      ([generate_float_agrees]).  Every theorem of [Generate] on
      [generate] is then a theorem on the program with numpy's
      arithmetic.
    - [batch_one_run] is a run of [generate_float] over the reals: one
      pool of one proposal, kept by the variate [0]. *)

From Stdlib Require Import Reals Lra ZArith.
From stdpp Require Import base tactics list sorting.
From S2P Require Import Prelude Scalar Float NdArray ArgSort Region Rng Kernel.
From S2P Require Import Intensity Sampler Thinning Proposal Generate KernelLaws.
From S2P Require Import HawkesLaws Ieee IeeeLaws.

(** ** Strict order and distinct entries *)

Section Strict.
Local Open Scope R_scope.
Implicit Types (l : list R).

Lemma strict_sorted l : StronglySorted Rlt l -> Sorted Rle l.
Proof.
  intros Hl. apply StronglySorted_Sorted.
  induction Hl as [|x l _ IH Hx]; constructor; [done |].
  eapply Forall_impl; [exact Hx |]. cbn. intros y Hy. lra.
Qed.

(** An ascending list without repetition is strictly ascending. *)
Lemma sorted_nodup_strict l : Sorted Rle l -> NoDup l -> StronglySorted Rlt l.
Proof.
  intros Hs Hn. apply (Sorted_StronglySorted _ _) in Hs.
  induction Hs as [|x l _ IH Hx]; [constructor |].
  apply NoDup_cons in Hn as [Hx' Hn]. constructor; [by apply IH |].
  apply Forall_forall. intros y Hy.
  pose proof (proj1 (Forall_forall _ _) Hx y Hy) as [Hlt | ->]; [done |].
  by destruct Hx'.
Qed.

Lemma scale_inj (lo hi : R) :
  lo <> hi -> Inj (=) (=) (fun u => lo + (hi - lo) * u).
Proof. intros Hne x y Hxy. nra. Qed.

End Strict.

(** ** The pool of a tape without repetition *)

Section Pools.
Context {L : Type} `{!ArgSort R} `{!Intensity R L}.
Implicit Types (lam : L) (T : interval R) (S : list (interval R))
  (g : rng R) (homo : mat R).

Lemma pool_strict lam T S g homo g1 :
  lo T <> hi T -> NoDup (unifs g) ->
  homogeneous_poisson_sampling lam T S g = Ok (homo, g1) ->
  StronglySorted Rlt (times homo) /\ NoDup (unifs g1).
Proof.
  intros HT Hn Hs.
  pose proof (sampling_times _ _ _ _ _ _ Hs) as Hp.
  pose proof (sampling_inv _ _ _ _ _ _ Hs) as (N & _ & _ & _ & Hus & _).
  apply sampling_shape in Hs as (_ & _ & Hsorted & _). split.
  - apply sorted_nodup_strict; [exact Hsorted |].
    rewrite Hp. apply (NoDup_fmap_2 _ (Inj0 := scale_inj _ _ HT)).
    eapply sublist_NoDup; [exact Hn | apply sublist_take].
  - rewrite Hus. eapply sublist_NoDup; [exact Hn | apply sublist_drop].
Qed.

End Pools.

(** ** The retry loop on floats *)

Section BatchFloat.
Context {K : Type} `{!ArgSort R} `{!Kernel R K} `{!FloatKernel K}.
Context `{!FloatSound K}.
Context (lam : HawkesLam.t R K) (T : interval R) (S : list (interval R)).
Context (batch_size min_n_points : Z) (verbose : bool).
Context (Hk : regular (HawkesLam.kernel lam)) (HS : length S = 2).
Implicit Types (st : gen_state R) (g : rng R) (pts homo : mat R)
  (fuel : nat).

(** A sequence strictly ascending in time. *)
Definition strict pts : Prop := StronglySorted Rlt (times pts).

(** One unrolling of the loop. *)
Lemma generate_loop_float_eq fuel st g :
  generate_loop_float fuel lam T S batch_size min_n_points verbose st g
  = if (Z.of_nat (b st) <? batch_size)%Z then
      match fuel with
      | 0 => Raise OutOfFuel
      | Datatypes.S fuel' =>
          match homogeneous_poisson_sampling lam T S g with
          | Raise e => Raise e
          | Ok (homo, g1) =>
              match inhomogeneous_poisson_thinning_float lam homo verbose g1
              with
              | Raise e => Raise e
              | Ok (points, g2) =>
                  generate_loop_float fuel' lam T S batch_size min_n_points
                    verbose
                    (match points with
                     | Some pts => if rejected min_n_points points then st
                                   else gen_record st pts
                     | None => st
                     end) g2
              end
          end
      end
    else Ok (st, g).
Proof.
  destruct fuel as [|fuel]; cbn [generate_loop_float];
    destruct (Z.of_nat (b st) <? batch_size)%Z; try done.
  unfold mbind.
  destruct (homogeneous_poisson_sampling _ _ _ g) as [[homo g1]|]; [|done].
  destruct (inhomogeneous_poisson_thinning_float _ _ _ g1)
    as [[[pts|] g2]|]; try done.
  by destruct (rejected _ _).
Qed.

(** An attempt that passes the acceptance test yields a good sequence,
    strictly ascending. *)
Lemma attempt_float_good g homo g1 pts g2 :
  homogeneous_poisson_sampling lam T S g = Ok (homo, g1) ->
  inhomogeneous_poisson_thinning_float lam homo verbose g1
  = Ok (Some pts, g2) ->
  rejected min_n_points (Some pts) = false ->
  good_sequence S min_n_points pts /\ strict pts.
Proof.
  intros Hs Ht Hr.
  destruct (attempt_float_strict lam T S verbose g g1 g2 homo pts Hk HS Hs Ht)
    as [Hst _].
  apply sampling_shape in Hs as (Hc & Hwf & _).
  apply thinning_float_sublist in Ht as [[Hpw Hpc] _]; [|done | lia].
  split; [|done]. repeat split; [done | congruence | |].
  - cbn in Hr. by apply Z.ltb_ge in Hr.
  - exact (strict_sorted _ Hst).
Qed.

(** The loop on floats preserves the invariant of [Generate] and the
    strict order, and stops with the requested number of sequences. *)
Lemma generate_loop_float_inv fuel : forall st g st' g',
  gen_inv S min_n_points st -> Forall strict (points_list st) ->
  generate_loop_float fuel lam T S batch_size min_n_points verbose st g
  = Ok (st', g') ->
  gen_inv S min_n_points st' /\ Forall strict (points_list st')
  /\ b st' = Nat.max (b st) (Z.to_nat batch_size).
Proof.
  induction fuel as [|fuel IH]; intros st g st' g' Hinv Hst Hrun;
    rewrite generate_loop_float_eq in Hrun;
    destruct (Z.ltb_spec (Z.of_nat (b st)) batch_size) as [Hlt|Hge];
    try discriminate; try (inv Hrun; split; [done | split; [done | lia]]).
  destruct (homogeneous_poisson_sampling _ _ _ g) as [[homo g1]|] eqn:Es;
    [|done].
  destruct (inhomogeneous_poisson_thinning_float _ _ _ g1)
    as [[[pts|] g2]|] eqn:Et; [| |done].
  - destruct (rejected min_n_points (Some pts)) eqn:Er; [by eapply IH |].
    destruct (attempt_float_good g homo g1 pts g2 Es Et Er)
      as [Hgood Hstrict].
    apply IH in Hrun as (? & ? & Hb);
      [| by apply gen_inv_record
       | by apply Forall_app; split; [|constructor]].
    split; [done | split; [done |]]. cbn in Hb. lia.
  - by eapply IH.
Qed.

(** A returning run of [generate] on floats is a loop that ends in a
    state of the invariant with the sequences of the batch, all strictly
    ascending, and their padding. *)
Lemma generate_float_inv fuel g data szs g' :
  generate_float fuel lam T S batch_size min_n_points verbose g
  = Ok (data, szs, g') ->
  exists st,
    gen_inv S min_n_points st /\ Forall strict (points_list st)
    /\ length (points_list st) = Z.to_nat batch_size
    /\ szs = sizes st
    /\ data = map (pad (max_len st)) (points_list st).
Proof.
  unfold generate_float. intros Hrun. m_inv.
  match goal with
  | Hl : generate_loop_float _ _ _ _ _ _ _ _ _ = Ok (?st, _),
    Hp : pack _ ?st = Ok _ |- _ =>
      rename Hl into El; rename Hp into Ep; rename st into st'
  end.
  apply generate_loop_float_inv in El as (Hinv & Hst & Hb);
    [| apply gen_inv_init | constructor].
  cbn in Hb. assert (Hpos : (0 <= batch_size)%Z).
  { unfold pack in Ep. by destruct (Z.ltb_spec batch_size 0). }
  pose proof Hinv as (Hl & _).
  rewrite pack_rows, (pad_rows S min_n_points) in Ep by (done || lia).
  inv Ep. exists st'. split; [done | split; [done | split; [lia | done]]].
Qed.

(** C16. For a Hawkes intensity over a regular kernel of the interface and two
    space dimensions (the hypotheses of the section), what [generate]
    returns on floats is [batch_size] sequences, each strictly ascending
    in time, well formed, three columns wide and of [min_n_points] rows
    or more, padded with zero rows to the longest, with their sizes. *)
Theorem generate_float_strict fuel g data szs g' :
  generate_float fuel lam T S batch_size min_n_points verbose g
  = Ok (data, szs, g') ->
  exists seqs,
    Forall (fun pts => good_sequence S min_n_points pts /\ strict pts) seqs
    /\ length seqs = Z.to_nat batch_size
    /\ szs = map nrows seqs
    /\ data = map (pad (fold_left Nat.max szs 0)) seqs.
Proof.
  intros (st & Hinv & Hst & Hlen & -> & ->)%generate_float_inv.
  destruct Hinv as (_ & Hs & Hm & Hg).
  exists (points_list st). rewrite <- Hm.
  split; [|done]. apply Forall_forall. intros pts Hin.
  split; [exact (proj1 (Forall_forall _ _) Hg pts Hin) |].
  exact (proj1 (Forall_forall _ _) Hst pts Hin).
Qed.

(** *** On a tape without repetition *)

Context (HT : lo T <> hi T).

Lemma generate_loop_float_agrees fuel : forall st g,
  NoDup (unifs g) ->
  generate_loop_float fuel lam T S batch_size min_n_points verbose st g
  = generate_loop fuel lam T S batch_size min_n_points verbose st g.
Proof.
  induction fuel as [|fuel IH]; intros st g Hn;
    rewrite generate_loop_float_eq, generate_loop_eq;
    destruct (Z.of_nat (b st) <? batch_size)%Z; try done.
  destruct (homogeneous_poisson_sampling _ _ _ g) as [[homo g1]|] eqn:Es;
    [|done].
  destruct (pool_strict _ _ _ _ _ _ HT Hn Es) as [Hstrict Hn1].
  apply sampling_shape in Es as (Hc & Hwf & _). rewrite HS in Hc.
  unfold inhomogeneous_poisson_thinning_float, inhomogeneous_poisson_thinning.
  rewrite (float_loop_agrees lam verbose homo Hwf Hc Hk _ 0 _ g1 Hstrict)
    by (done || by apply fits_empty || by constructor).
  fold (inhomogeneous_poisson_thinning lam homo verbose).
  destruct (inhomogeneous_poisson_thinning _ _ _ g1) as [[points g2]|] eqn:Et;
    [|done].
  apply IH.
  apply thinning_sound in Et as (us & _ & Hus & _); [|done | lia].
  rewrite Hus in Hn1. by apply NoDup_app in Hn1 as (_ & _ & ?).
Qed.

(** C17. Under the hypotheses of the section and for a time interval that is
    not a point, on a tape without repeated variate [generate] on floats
    is [generate] on numbers: same batch and sizes, same exception, same
    tape left, for every fuel. *)
Theorem generate_float_agrees fuel g :
  NoDup (unifs g) ->
  generate_float fuel lam T S batch_size min_n_points verbose g
  = generate fuel lam T S batch_size min_n_points verbose g.
Proof.
  intros Hn. unfold generate_float, generate, mbind.
  by rewrite generate_loop_float_agrees.
Qed.

End BatchFloat.

(** ** Concrete instances

    A batch of one sequence on the unit cube, over the standard diffusion
    kernel: the first count on the tape is a pool of one proposal, at
    time [1/2] and place [(1/4, 3/4)]; the fourth variate, [0], keeps
    it. *)

Local Open Scope R_scope.

Definition tape_one : rng R := Rng [1%nat] [1/2; 1/4; 3/4; 0].
Definition kept_one : mat R := Mat 3 [[1/2; 1/4; 3/4]].

Lemma batch_one_run :
  generate_float 2 lam_std default_T default_S 1 1 false tape_one
  = Ok ([kept_one], [1%nat], Rng [] []).
Proof.
  unfold generate_float, mbind. rewrite generate_loop_float_eq.
  unfold homogeneous_poisson_sampling, mbind, poisson.
  rewrite (proj2 (sltb_false (A := R) _ _)) by (unfold sle; cbn; lra).
  run_reals. rewrite Rltb_above, Rleb_below by lra. run_reals.
  unfold kept_one. repeat f_equal; lra.
Defined.

Lemma generate_float_strict_witness :
  exists seqs,
    Forall (fun pts => good_sequence default_S 1 pts
                       /\ StronglySorted Rlt (times pts)) seqs
    /\ length seqs = Z.to_nat 1
    /\ [1%nat] = map nrows seqs
    /\ [kept_one] = map (pad (fold_left Nat.max [1%nat] 0%nat)) seqs.
Proof.
  exact (generate_float_strict lam_std default_T default_S 1 1 false
           lam_std_regular eq_refl 2 tape_one _ _ _ batch_one_run).
Defined.

Lemma generate_float_agrees_witness :
  generate_float 2 lam_std default_T default_S 1 1 false tape_one
  = generate 2 lam_std default_T default_S 1 1 false tape_one.
Proof.
  apply (generate_float_agrees lam_std default_T default_S 1 1 false
           lam_std_regular eq_refl); [cbn; lra |].
  cbn. repeat (apply NoDup_cons; split;
    [rewrite ?not_elem_of_cons; repeat split; (lra || apply not_elem_of_nil) |]).
  apply NoDup_nil_2.
Defined.
