(* ===== verification/IeeePlot.v ===== *)
(** * IeeePlot: the figure on floats

    [plot_3d_pointprocess_lam_f] of [src/stppg.py] read a second time, with
    the intensity of [Ieee]: the values [lam.value(...)] are floats, a
    NaN or an infinity among them is carried through [np.sum], the
    product with [unit_vol], [np.exp] and the product with [evals] by the
    operations of [Float].

    - [evaluate_float], [integral_float], [density_float] and
      [plot_3d_pointprocess_lam_f_float] are [evaluate], [integral],
      [density] and [plot_3d_pointprocess_lam_f] of [Plot], line by line;
      the grid, the history, [unit_vol], the reshaping and the tick
      labels are those of [Plot].
    - [agrees_apart] is what the figure needs of an intensity: its two
      readings agree on a history without the time of evaluation.  The
      Hawkes intensity over a regular kernel of [FloatSound] has it
      ([hawkes_agrees_apart]).
    - For such an intensity and a row of a batch (ascending events, then
      zero rows), the figure on floats is the figure on numbers, and the
      same exception when that raises ([plot_float_agrees]): the function
      evaluates the intensity at [plot_ts] and at the times of
      [linspace(last_t, plot_ts, ngrid)[1:]], all after the last event
      of the history ([times_apart]).
      So it is for the Hawkes intensity ([plot_hawkes_float_agrees]) and
      for every row of a batch that [generate_float] returns
      ([generate_float_figures]): what [PlotLaws] proves of the figure of
      a batch holds of the figure numpy computes.
    - The function does not ask for ascending events.  On events in
      another order [last_t] is the time of the last row, not the latest
      time, and a node of the time grid can be the time of an event
      ([descending_grid_meets_event]): the intensity is NaN there
      ([evaluate_float_tie]), and every pixel of the density the function
      returns is NaN ([plot_float_tie]).  Over a complete and regular
      kernel the function does return, whatever the order of the events
      ([plot_float_returns]); [descending_figure_nan] is such a figure. *)

From Stdlib Require Import Reals Lra ZArith Lia.
From stdpp Require Import base tactics list sorting.
From S2P Require Import Prelude Scalar Float NdArray ArgSort Grid Region Rng.
From S2P Require Import Kernel Intensity Sampler Plot Generate KernelLaws.
From S2P Require Import Excitation HawkesLaws PlotLaws Ieee IeeeLaws IeeeBatch.

Local Open Scope res_scope.

(** ** The function on floats *)

Section PlotFloat.
Context {L : Type} `{!Intensity R L} `{!FloatIntensity R L}.

(** [[lam.value(t, his_t, s, his_s) for s in ss]]. *)
Definition evaluate_float (lam : L) (t : R) (his_t : list R) (his_s : mat R)
    (ss : list (list R)) : res (list (float R)) :=
  rtraverse (fun s => value_float lam t his_t s his_s) ss.

(** [integral = np.sum(lamvals) * unit_vol]. *)
Definition integral_float (lamvals : list (list (float R)))
    (vol : float R) : float R :=
  ftimes (fsum (concat lamvals)) vol.

(** [fvals = evals * np.exp(-integral)]. *)
Definition density_float (evals : list (float R)) (integral : float R)
  : list (float R) :=
  map (fun e => ftimes e (fexp (fneg integral))) evals.

(** What is drawn, both images of floats. *)
Record figure_float : Type := FigureFloat {
  lam_image_float : mat (float R);
  f_image_float : mat (float R);
  xticks_float : interval R;
  yticks_float : interval R
}.

(** [plot_3d_pointprocess_lam_f(points, lam, plot_ts, T, S, ngrid)]. *)
Definition plot_3d_pointprocess_lam_f_float (points : mat R) (lam : L)
    (plot_ts : R) (T : interval R) (S : list (interval R)) (ngrid : Z)
  : res figure_float :=
  ss <- space_grid S ngrid;;
  h <- past points plot_ts;;
  let his_t := h.1 in
  let his_s := h.2 in
  evals <- evaluate_float lam plot_ts his_t his_s ss;;
  let last_t := last_time his_t in
  ts <- linspace last_t plot_ts ngrid;;
  let vol := unit_vol plot_ts last_t S ngrid in
  lamvals <- rtraverse (fun t => evaluate_float lam t his_t his_s ss)
               (drop 1 ts);;
  im1 <- image ngrid evals;;
  ticks <- tick_labels S;;
  im2 <- image ngrid (density_float evals (integral_float lamvals vol));;
  Ok (FigureFloat im1 im2 ticks.1 ticks.2).

(** The two readings of an intensity agree on a history in a plane without
    the time of evaluation. *)
Definition agrees_apart (lam : L) : Prop :=
  forall t his_t s his_s,
    plane_history his_t his_s -> length s = 2 ->
    Forall (fun h => h <> t) his_t ->
    value_float lam t his_t s his_s
    = rmap Finite (value lam t his_t s his_s).

End PlotFloat.

(** The entries of an array through a function, and the figure of numbers
    as a figure of floats. *)
Definition mat_map {X Y : Type} (f : X -> Y) (m : mat X) : mat Y :=
  Mat (ncols m) (map (map f) (mrows m)).

Definition finite_figure (fig : figure R) : figure_float :=
  FigureFloat (mat_map Finite (lam_image fig)) (f_image fig)
              (xticks fig) (yticks fig).

(** ** Reshaping commutes with a function on the entries *)

Section Naturality.
Context {X Y : Type} (f : X -> Y).

Lemma chunks_map n w (l : list X) :
  chunks n w (map f l) = map (map f) (chunks n w l).
Proof.
  revert l. induction n as [|n IH]; intros l; [done |]. cbn [chunks map].
  by rewrite <- fmap_take, <- fmap_drop, IH.
Qed.

Lemma column_map (rows : list (list X)) i :
  omap (fun r => r !! i) (map (map f) rows)
  = map f (omap (fun r => r !! i) rows).
Proof.
  induction rows as [|r rows IH]; [done |]. cbn [map omap list_omap].
  rewrite list_lookup_fmap. destruct (r !! i); cbn; by rewrite IH.
Qed.

Lemma transpose_map (m : mat X) :
  transpose (mat_map f m) = mat_map f (transpose m).
Proof.
  unfold transpose, mat_map, nrows. cbn [ncols mrows].
  rewrite length_map, map_map. f_equal. apply map_ext. intros i.
  apply column_map.
Qed.

Lemma image_map n (l : list X) :
  image n (map f l) = rmap (mat_map f) (image n l).
Proof.
  unfold image, reshape2. rewrite length_map.
  destruct (_ || _)%bool; [done |]. destruct (_ =? _); [|done].
  cbn [rbind rmap]. by rewrite <- transpose_map, chunks_map.
Qed.

End Naturality.

Lemma rtraverse_rmap {X Y Z : Type} (f : X -> res Z) (g : X -> res Y)
    (h : Y -> Z) (l : list X) :
  Forall (fun x => f x = rmap h (g x)) l ->
  rtraverse f l = rmap (map h) (rtraverse g l).
Proof.
  induction 1 as [|x l Hx _ IH]; [done |]. cbn [rtraverse]. rewrite Hx, IH.
  destruct (g x); [|done]. cbn. by destruct (rtraverse g l).
Qed.

(** ** The arithmetic of the density *)

Section Arithmetic.
Local Open Scope R_scope.

Lemma fexp_fneg (I : float R) : fexp (fneg I) = fexp_neg I.
Proof.
  destruct I as [v|[]|]; try done. cbn. do 2 f_equal. lra.
Qed.

Lemma integral_float_finite (lamvals : list (list R)) (vol : float R) :
  integral_float (map (map Finite) lamvals) vol = integral lamvals vol.
Proof.
  unfold integral_float, integral. by rewrite <- concat_map, fsum_finite.
Qed.

Lemma density_float_finite (evals : list R) (I : float R) :
  density_float (map Finite evals) I = density evals I.
Proof.
  unfold density_float, density. rewrite map_map, fexp_fneg.
  apply map_ext. intros e. by destruct (fexp_neg I).
Qed.

End Arithmetic.

(** ** The times of evaluation *)

Section Times.
Local Open Scope R_scope.
Implicit Types (his_t ts : list R) (plot_ts : R).

(** The times at which the function evaluates the intensity, [plot_ts]
    and the nodes after the first, are no time of an ascending history
    before [plot_ts]. *)
Lemma times_apart his_t plot_ts ngrid ts :
  Sorted Rle his_t -> Forall (fun h => h < plot_ts) his_t ->
  linspace (last_time his_t) plot_ts ngrid = Ok ts ->
  Forall (fun t => Forall (fun h => h <> t) his_t) (plot_ts :: drop 1 ts).
Proof.
  intros HS Hb Hts. constructor.
  { eapply Forall_impl; [exact Hb |]. cbn. intros h Hh. lra. }
  destruct (decide (his_t = [])) as [-> | Hne];
    [apply Forall_forall; intros t _; constructor |].
  destruct (Z_lt_le_dec ngrid 2) as [Hn | Hn].
  { apply linspace_length in Hts. rewrite drop_ge by lia. constructor. }
  assert (Hlast : slt (last_time his_t) plot_ts).
  { unfold last_time. destruct (last his_t) as [h|] eqn:E;
      [|by apply last_None in E].
    apply last_Some_elem_of in E. by apply (proj1 (Forall_forall _ _) Hb). }
  eapply Forall_impl; [exact (linspace_after_start _ _ _ _ Hn Hlast Hts) |].
  intros t Ht. eapply Forall_impl; [exact (last_time_max his_t HS) |].
  unfold slt, sle in *. cbn in *. intros h Hh. lra.
Qed.

End Times.

(** ** The figure of a row of a batch *)

Section Agreement.
Context {L : Type} `{!Intensity R L} `{!FloatIntensity R L}.
Context (lam : L) (Hlam : agrees_apart lam).
Implicit Types (pts his_s : mat R) (his_t : list R) (ss : list (list R)).

Lemma evaluate_float_agrees t his_t his_s ss :
  plane_history his_t his_s -> Forall (fun s => length s = 2) ss ->
  Forall (fun h => h <> t) his_t ->
  evaluate_float lam t his_t his_s ss
  = rmap (map Finite) (evaluate lam t his_t his_s ss).
Proof.
  intros Hp Hss Ht. apply rtraverse_rmap.
  eapply Forall_impl; [exact Hss |]. intros s Hs. by apply Hlam.
Qed.

(** For an intensity whose readings agree away from the events, the figure
    on floats of a row of a batch (ascending events of a time and two
    space coordinates, then any number of zero rows) is the figure on
    numbers, and the same exception when that raises. *)
Theorem plot_float_agrees pts n plot_ts T x y ngrid :
  mat_wf pts -> ncols pts = 3 -> Sorted Rle (times pts) ->
  plot_3d_pointprocess_lam_f_float (pad n pts) lam plot_ts T [x; y] ngrid
  = rmap finite_figure
      (plot_3d_pointprocess_lam_f (pad n pts) lam plot_ts T [x; y] ngrid).
Proof.
  intros Hwf Hc HS.
  unfold plot_3d_pointprocess_lam_f_float, plot_3d_pointprocess_lam_f.
  rewrite past_padded by done.
  destruct (space_grid [x; y] ngrid) as [ss|] eqn:Hss; [|done].
  apply space_grid_shape in Hss as [_ Hss].
  destruct (past_ascending pts plot_ts Hwf ltac:(lia) HS)
    as (his_p & -> & Hwf' & Hc' & HS' & Hb).
  assert (Hp : plane_history (times his_p) (columns_from 1 his_p))
    by (apply retained_plane; [done | congruence]).
  cbn [rbind rmap fst snd].
  destruct (linspace _ plot_ts ngrid) as [ts|] eqn:Hts.
  - pose proof (times_apart _ _ _ _ HS' Hb Hts) as [H0 Hts']%Forall_cons.
    rewrite evaluate_float_agrees by done.
    destruct (evaluate lam plot_ts _ _ ss) as [evals|]; [|done].
    cbn [rbind rmap].
    rewrite (rtraverse_rmap _ (fun t => evaluate lam t _ _ ss) (map Finite))
      by (eapply Forall_impl; [exact Hts' |]; intros t Ht;
          by apply evaluate_float_agrees).
    destruct (rtraverse _ (drop 1 ts)) as [lamvals|]; [|done].
    cbn [rbind rmap]. rewrite image_map.
    destruct (image ngrid evals) as [im1|]; [|done].
    cbn [rbind rmap tick_labels lookup list_lookup fst snd].
    rewrite integral_float_finite, density_float_finite.
    by destruct (image ngrid (density _ _)).
  - rewrite evaluate_float_agrees; try done.
    + by destruct (evaluate lam plot_ts _ _ ss).
    + eapply Forall_impl; [exact Hb |]. intros h Hh.
      unfold slt in Hh. cbn in Hh. lra.
Qed.

End Agreement.

(** ** The figure of a Hawkes intensity *)

Section PlotHawkesFloat.
Context {K : Type} `{!Kernel R K} `{!FloatKernel K} `{!FloatSound K}.
Implicit Types (lam : HawkesLam.t R K) (pts : mat R).

Lemma hawkes_agrees_apart lam :
  regular (HawkesLam.kernel lam) -> agrees_apart lam.
Proof. intros Hk t his_t s his_s Hp Hs Ht. by apply hawkes_float_agrees. Qed.

(** C30. For a Hawkes intensity over a regular kernel of the interface, the
    figure of a row of a batch (ascending events of a time and two space
    coordinates, then any number of zero rows) computed with the
    arithmetic of numpy is the figure computed on numbers: the same two
    images and tick labels, or the same exception. *)
Theorem plot_hawkes_float_agrees lam pts n plot_ts T x y ngrid :
  regular (HawkesLam.kernel lam) ->
  mat_wf pts -> ncols pts = 3 -> Sorted Rle (times pts) ->
  plot_3d_pointprocess_lam_f_float (pad n pts) lam plot_ts T [x; y] ngrid
  = rmap finite_figure
      (plot_3d_pointprocess_lam_f (pad n pts) lam plot_ts T [x; y] ngrid).
Proof.
  intros Hk. apply (plot_float_agrees lam (hawkes_agrees_apart lam Hk)).
Qed.

(** From the sampler to the figure, on floats: every row of a batch that
    [generate_float] returns in two space dimensions is drawn the same in
    both readings. *)
Theorem generate_float_figures `{!ArgSort R} lam fuel T x y batch_size
    min_n_points verbose g data szs g' plot_ts ngrid :
  regular (HawkesLam.kernel lam) ->
  generate_float fuel lam T [x; y] batch_size min_n_points verbose g
  = Ok (data, szs, g') ->
  Forall (fun points =>
            plot_3d_pointprocess_lam_f_float points lam plot_ts T [x; y] ngrid
            = rmap finite_figure
                (plot_3d_pointprocess_lam_f points lam plot_ts T [x; y] ngrid))
         data.
Proof.
  intros Hk (st & (_ & _ & _ & Hg) & _ & _ & _ & ->)%generate_float_inv;
    [|done..].
  apply Forall_fmap. eapply Forall_impl; [exact Hg |].
  intros pts (Hwf & Hc & _ & HS).
  by apply (plot_float_agrees lam (hawkes_agrees_apart lam Hk)).
Qed.

End PlotHawkesFloat.

(** ** A node of the time grid at the time of an event *)

Section Ties.
Context {K : Type} `{!Kernel R K} `{!FloatKernel K} `{!FloatSound K}.
Implicit Types (lam : HawkesLam.t R K) (points his_s : mat R)
  (his_t ts : list R) (ss : list (list R)).

Lemma plot_float_inv points lam plot_ts T S ngrid fig :
  plot_3d_pointprocess_lam_f_float points lam plot_ts T S ngrid = Ok fig ->
  exists ss his_t his_s evals ts lamvals,
    space_grid S ngrid = Ok ss
    /\ past points plot_ts = Ok (his_t, his_s)
    /\ linspace (last_time his_t) plot_ts ngrid = Ok ts
    /\ rtraverse (fun t => evaluate_float lam t his_t his_s ss) (drop 1 ts)
       = Ok lamvals
    /\ image ngrid
         (density_float evals
            (integral_float lamvals
               (unit_vol plot_ts (last_time his_t) S ngrid)))
       = Ok (f_image_float fig).
Proof.
  unfold plot_3d_pointprocess_lam_f_float. intros Hrun. res_inv.
  repeat match goal with x : (_ * _)%type |- _ => destruct x end.
  cbn in *. eauto 15.
Qed.

(** At the time of an event of the history the intensity is NaN at every
    place of the grid. *)
Lemma evaluate_float_tie lam t his_t his_s ss :
  regular (HawkesLam.kernel lam) -> plane_history his_t his_s ->
  Forall (fun s => length s = 2) ss -> t ∈ his_t ->
  evaluate_float lam t his_t his_s ss = Ok (map (fun _ => NaN) ss).
Proof.
  intros Hk Hp Hss Ht. apply rtraverse_map.
  eapply Forall_impl; [exact Hss |]. intros s Hs.
  by apply hawkes_float_tie.
Qed.

Lemma integral_float_nan (lamvals : list (list (float R))) vol :
  NaN ∈ concat lamvals -> integral_float lamvals vol = NaN.
Proof. intros Hin. unfold integral_float. by rewrite fsum_nan. Qed.

Lemma density_float_nan (evals : list (float R)) :
  density_float evals NaN = replicate (length evals) NaN.
Proof.
  unfold density_float. apply map_constant, Forall_forall. intros e _.
  apply ftimes_nan_r.
Qed.

(** The function does not ask for ascending events.  When a node of the
    time grid after the first is the time of an event of the history,
    which takes events in another order, every pixel of the density the
    function returns is NaN. *)
Theorem plot_float_tie lam points plot_ts T x y ngrid his_t his_s ts t fig :
  regular (HawkesLam.kernel lam) ->
  past points plot_ts = Ok (his_t, his_s) -> plane_history his_t his_s ->
  linspace (last_time his_t) plot_ts ngrid = Ok ts ->
  t ∈ drop 1 ts -> t ∈ his_t ->
  plot_3d_pointprocess_lam_f_float points lam plot_ts T [x; y] ngrid = Ok fig ->
  f_image_float fig = flat (Z.to_nat ngrid) NaN.
Proof.
  intros Hk Hpast Hp Hts Ht Hin
    (ss & his_t' & his_s' & evals & ts' & lamvals
     & Hss & Hpast' & Hts' & Hlv & Hf)%plot_float_inv.
  rewrite Hpast in Hpast'. injection Hpast' as <- <-.
  rewrite Hts in Hts'. injection Hts' as <-.
  pose proof (linspace_length _ _ _ _ Hts) as Hlen.
  destruct (space_grid_shape _ _ _ Hss) as [Hn Hw].
  apply rtraverse_ok_Forall2 in Hlv.
  apply list_elem_of_lookup in Ht as [i Hi].
  destruct (Forall2_lookup_l _ _ _ _ _ Hlv Hi) as (row & Hrow & Hev).
  rewrite (evaluate_float_tie lam t his_t his_s ss) in Hev by done.
  inv Hev. rewrite integral_float_nan, density_float_nan in Hf.
  - pose proof (image_inv _ _ _ Hf) as (Hpos & Hsz & _).
    rewrite length_replicate in Hsz. rewrite Hsz, image_flat in Hf by done.
    by inv Hf.
  - apply list_elem_of_In, in_concat. eexists. split;
      [apply list_elem_of_In; by eapply list_elem_of_lookup_2 |].
    destruct ss as [|s ss]; [|by left]. cbn in Hn.
    destruct ts as [|? [|? ?]]; cbn in *; try done. lia.
Qed.

(** *** The function returns in both cases *)

Context `{!Excitation K}.

Lemma tie_or_apart (t : R) his_t : t ∈ his_t \/ Forall (fun h => h <> t) his_t.
Proof.
  induction his_t as [|h his_t [IH | IH]]; [by right | left; by right |].
  destruct (Req_dec_T h t) as [-> | Hne]; [left; by left | right].
  by constructor.
Qed.

Lemma hawkes_value_returns lam t his_t s his_s :
  complete (HawkesLam.kernel lam) -> plane_history his_t his_s ->
  length s = 2 -> is_ok (value lam t his_t s his_s) = true.
Proof.
  intros Hc Hp Hs. cbn [value hawkes_intensity]. unfold HawkesLam.value.
  destruct (0 <? length his_t)%nat; [|done].
  by destruct (nu_returns (HawkesLam.kernel lam) t s his_t his_s Hc Hp Hs)
    as (v & -> & _).
Qed.

Lemma evaluate_float_returns lam t his_t his_s ss :
  complete (HawkesLam.kernel lam) -> regular (HawkesLam.kernel lam) ->
  plane_history his_t his_s -> Forall (fun s => length s = 2) ss ->
  exists evals,
    evaluate_float lam t his_t his_s ss = Ok evals
    /\ length evals = length ss.
Proof.
  intros Hc Hk Hp Hss. destruct (tie_or_apart t his_t) as [Hin | Hout].
  - rewrite evaluate_float_tie by done. eexists. split; [done |].
    by rewrite length_map.
  - rewrite (evaluate_float_agrees lam (hawkes_agrees_apart lam Hk)) by done.
    destruct (rtraverse_total (fun s => value lam t his_t s his_s) ss)
      as [evals Hev].
    { eapply Forall_impl; [exact Hss |]. intros s Hs.
      by apply hawkes_value_returns. }
    unfold evaluate. rewrite Hev. eexists. split; [done |].
    rewrite length_map. by apply rtraverse_ok_length in Hev.
Qed.

(** Over a complete and regular kernel the function returns on floats for
    every array of events of a time and two space coordinates, ascending
    or not. *)
Theorem plot_float_returns lam points plot_ts T x y ngrid :
  complete (HawkesLam.kernel lam) -> regular (HawkesLam.kernel lam) ->
  mat_wf points -> ncols points = 3 -> (0 <= ngrid)%Z ->
  exists fig,
    plot_3d_pointprocess_lam_f_float points lam plot_ts T [x; y] ngrid
    = Ok fig.
Proof.
  intros Hc Hk Hwf Hw Hn. unfold plot_3d_pointprocess_lam_f_float.
  cbv zeta.
  destruct (space_grid_total [x; y] ngrid Hn) as [ss Hss]. rewrite Hss.
  destruct (space_grid_shape _ _ _ Hss) as [Hlen Hss2]. cbn in Hlen, Hss2.
  rewrite past_ok by (done || lia). cbn [rbind fst snd].
  set (his_p := Mat _ _).
  assert (Hp : plane_history (times his_p) (columns_from 1 his_p))
    by (apply retained_plane; [by apply filter_wf | done]).
  fold (times his_p).
  destruct (evaluate_float_returns lam plot_ts _ _ ss Hc Hk Hp Hss2)
    as (evals & -> & Hev).
  destruct (linspace_total (last_time (times his_p)) plot_ts ngrid Hn)
    as [ts ->].
  cbn [rbind].
  destruct (rtraverse_total
              (fun t => evaluate_float lam t (times his_p)
                          (columns_from 1 his_p) ss) (drop 1 ts))
    as [lamvals ->].
  { apply Forall_forall. intros t _.
    by destruct (evaluate_float_returns lam t _ _ ss Hc Hk Hp Hss2)
      as (l & -> & _). }
  assert (Hsz : length evals = Z.to_nat ngrid * Z.to_nat ngrid)
    by (rewrite Hev, Hlen; lia).
  destruct (image_ok ngrid evals Hn Hsz) as [im1 ->].
  cbn [rbind tick_labels lookup list_lookup fst snd].
  destruct (image_ok ngrid
              (density_float evals
                 (integral_float lamvals
                    (unit_vol plot_ts (last_time (times his_p)) [x; y] ngrid)))
              Hn) as [im2 ->]; [by unfold density_float; rewrite length_map |].
  cbn. eauto.
Qed.

End Ties.

(** ** Concrete instances *)

Local Open Scope R_scope.

Lemma plot_hawkes_float_agrees_witness :
  plot_3d_pointprocess_lam_f_float (pad 1 pool_apart) lam_std 1 default_T
    [(0, 1); (0, 1)] 3
  = rmap finite_figure
      (plot_3d_pointprocess_lam_f (pad 1 pool_apart) lam_std 1 default_T
         [(0, 1); (0, 1)] 3).
Proof.
  apply (plot_hawkes_float_agrees lam_std pool_apart 1 1 default_T (0, 1)
           (0, 1) 3 lam_std_regular pool_apart_wf eq_refl).
  cbn. repeat (constructor; try lra).
Defined.

(** Two events in descending order, drawn at [plot_ts = 3/4] with three
    samples per side: [last_t] is the time [1/4] of the last row, and the
    middle node of the time grid is the time [1/2] of the first event. *)
Definition events_descending : mat R := Mat 3 [[1/2; 0; 0]; [1/4; 1; 1]].

Example descending_grid_meets_event :
  exists his_s ts,
    past events_descending (3/4) = Ok ([1/2; 1/4], his_s)
    /\ plane_history [1/2; 1/4] his_s
    /\ linspace (last_time [1/2; 1/4]) (3/4) 3 = Ok ts
    /\ 1/2 ∈ drop 1 ts.
Proof.
  exists (Mat 2 [[0; 0]; [1; 1]]). eexists. split; [|split; [|split]].
  - unfold past, history, events_descending. run_reals.
    by rewrite !Rltb_below by lra.
  - split; [by repeat constructor | done].
  - run_reals. reflexivity.
  - apply elem_of_cons. left. lra.
Qed.

(** The figure of these events over the standard diffusion kernel: the
    function returns, and its density is NaN at every pixel. *)
Example descending_figure_nan :
  exists fig,
    plot_3d_pointprocess_lam_f_float events_descending lam_std (3/4)
      default_T [(0, 1); (0, 1)] 3 = Ok fig
    /\ f_image_float fig = flat 3 NaN.
Proof.
  destruct (plot_float_returns lam_std events_descending (3/4) default_T
              (0, 1) (0, 1) 3) as [fig Hfig];
    [exact I | exact lam_std_regular | by repeat constructor | done | lia |].
  destruct descending_grid_meets_event as (his_s & ts & Hpast & Hp & Hts & Hin).
  exists fig. split; [done |].
  apply (plot_float_tie lam_std events_descending (3/4) default_T (0, 1)
           (0, 1) 3 _ his_s ts (1/2) fig lam_std_regular Hpast Hp Hts Hin);
    [by left | done].
Qed.
